(** * Audio-generation pipeline of librairian-web: a shallow embedding

    The development follows the TypeScript sources

      - server/audio-generation/config.ts            (voices, personalities)
      - server/audio-generation/text-generator.ts    (generateText and its callers)
      - server/audio-generation/text-to-speech.ts    (synthesizeSpeech, synthesizeDialogueTurn,
                                                      estimateAudioDuration)
      - server/audio-generation/investigative-report.ts
      - server/audio-generation/podcast.ts
      - client/app/api/generate/investigative-report/route.ts
      - client/app/api/generate/media/route.ts

    Pure functions are Rocq functions.  Code that touches the file system, the
    environment, the two HTTP APIs, ffmpeg or Math.random runs in a small
    state-and-exception monad over an explicit [World].

    Conventions.
      - A JavaScript string is a [string] whose characters are code units
        below 256 (Latin-1); [Sha256.utf8] encodes them as Node does before
        hashing.
      - Durations are integers ([Z]); the requested target length is a
        rational ([Q]) that stands for the double nearest to it, and the
        products [target * 0.75] and [target * 0.8] are rounded as the
        multiplication of doubles rounds them ([Double]).  The quotient
        [words / 2.5] is taken exactly: rounding it does not change its
        ceiling.
      - The keep-alive timer of the report route fires while the run waits
        for one of the calls recorded in the trace; the world says how often
        for each call ([keepAlive]), and the pings enter the queue when the
        route next looks at the stream ([ReportRoute.deliverPings]). *)

From Stdlib Require Import ZArith QArith Qround String Ascii List Lia Bool.
From stdpp Require Import base gmap strings list.

Set Warnings "-abstract-large-number,-clear-no-such-hyp".

Open Scope Z_scope.

(* ===================================================================== *)
(** ** JavaScript string operations used by the sources                  *)
(* ===================================================================== *)

Module JsString.

(** Characters matched by the regular expression class [\s] (code units
    below 256): TAB, LF, VT, FF, CR, SPACE and NBSP. *)
Definition isSpace (c : ascii) : bool :=
  let n := nat_of_ascii c in
  ((n =? 9) || (n =? 10) || (n =? 11) || (n =? 12) || (n =? 13)
   || (n =? 32) || (n =? 160))%nat.

(** [s.split(/\s+/)]: the pieces between maximal runs of white space.  A
    run at either end of the string leaves an empty piece there, and the
    empty string splits into one empty piece. *)
Fixpoint split_ws_from (cur : string) (inRun : bool) (s : string) : list string :=
  match s with
  | EmptyString => [cur]
  | String c rest =>
      if isSpace c then
        if inRun then split_ws_from cur true rest
        else cur :: split_ws_from EmptyString true rest
      else split_ws_from (cur +:+ String c EmptyString) false rest
  end.

Definition split_ws (s : string) : list string := split_ws_from EmptyString false s.

(** [s.split(sep)] for a one-character separator. *)
Fixpoint split_on_from (sep : ascii) (cur : string) (s : string) : list string :=
  match s with
  | EmptyString => [cur]
  | String c rest =>
      if Ascii.eqb c sep then cur :: split_on_from sep EmptyString rest
      else split_on_from sep (cur +:+ String c EmptyString) rest
  end.

Definition split_on (sep : ascii) (s : string) : list string :=
  split_on_from sep EmptyString s.

(** [parts.join(sep)]. *)
Fixpoint join (sep : string) (parts : list string) : string :=
  match parts with
  | [] => EmptyString
  | [p] => p
  | p :: rest => p +:+ sep +:+ join sep rest
  end.

(** [s.substring(0, n)]. *)
Fixpoint take (n : nat) (s : string) : string :=
  match n, s with
  | O, _ => EmptyString
  | S _, EmptyString => EmptyString
  | S k, String c rest => String c (take k rest)
  end.

(** [s.startsWith(p)]. *)
Fixpoint startsWith (s p : string) : bool :=
  match p, s with
  | EmptyString, _ => true
  | String _ _, EmptyString => false
  | String a p', String b s' => Ascii.eqb a b && startsWith s' p'
  end.

Fixpoint trimStart (s : string) : string :=
  match s with
  | EmptyString => EmptyString
  | String c rest => if isSpace c then trimStart rest else s
  end.

(** Drops trailing white space: a character is kept when it is not white
    space or when something is kept after it. *)
Fixpoint trimEnd (s : string) : string :=
  match s with
  | EmptyString => EmptyString
  | String c rest =>
      match trimEnd rest with
      | EmptyString => if isSpace c then EmptyString else String c EmptyString
      | kept => String c kept
      end
  end.

(** [s.trim()]. *)
Definition trim (s : string) : string := trimEnd (trimStart s).

(** [s.replace(/O[^C]+C/g, '')] for an opening character [o] and a closing
    character [c]: every left-most occurrence of [o], one or more characters
    other than [c], then [c], is removed.  [pending] holds, reversed, the
    characters read since a candidate opening character ([None] outside a
    candidate). *)
Fixpoint stripDelimited_from (o c : ascii) (pending : option (list ascii))
    (s : string) : string :=
  match s with
  | EmptyString =>
      match pending with
      | None => EmptyString
      | Some inner => String o (string_of_list_ascii (rev inner))
      end
  | String x rest =>
      match pending with
      | None =>
          if Ascii.eqb x o then stripDelimited_from o c (Some []) rest
          else String x (stripDelimited_from o c None rest)
      | Some inner =>
          if Ascii.eqb x c then
            match inner with
            | [] =>
                (* no character between: no match at the candidate *)
                if Ascii.eqb x o then String o (stripDelimited_from o c (Some []) rest)
                else String o (String x (stripDelimited_from o c None rest))
            | _ :: _ => stripDelimited_from o c None rest
            end
          else stripDelimited_from o c (Some (x :: inner)) rest
      end
  end.

Definition stripDelimited (o c : ascii) (s : string) : string :=
  stripDelimited_from o c None s.

(** Removes every double quote (code 34) and apostrophe (code 39): the
    replace call of generateTitle. *)
Fixpoint stripQuotes (s : string) : string :=
  match s with
  | EmptyString => EmptyString
  | String x rest =>
      if (nat_of_ascii x =? 34)%nat || (nat_of_ascii x =? 39)%nat
      then stripQuotes rest else String x (stripQuotes rest)
  end.

(** [n.toString().padStart(3, '0')] for a non-negative integer. *)
Definition digit (n : nat) : ascii := ascii_of_nat (48 + n mod 10).

Fixpoint decimal_from (fuel n : nat) (acc : string) : string :=
  match fuel with
  | O => acc
  | S f =>
      let acc' := String (digit n) acc in
      if (n <? 10)%nat then acc' else decimal_from f (n / 10) acc'
  end.

Definition decimal (n : nat) : string := decimal_from (S n) n EmptyString.

Definition padStart3 (s : string) : string :=
  match String.length s with
  | O => "000" | 1%nat => "00" +:+ s | 2%nat => "0" +:+ s | _ => s
  end.

(** Truthiness of a string: the empty string is falsy. *)
Definition truthy (s : string) : bool := negb (String.eqb s EmptyString).

(** [a || b] on optional strings ([None] is [undefined]). *)
Definition orElse (a : option string) (b : option string) : option string :=
  match a with
  | Some s => if truthy s then a else b
  | None => b
  end.

End JsString.

(* ===================================================================== *)
(** ** SHA-256 (FIPS 180-4), as [crypto.createHash('sha256')] computes it *)
(* ===================================================================== *)

Module Sha256.

Definition mask32 : Z := 0xffffffff.
Definition add32 (a b : Z) : Z := Z.land (a + b) mask32.
Definition rotr (n x : Z) : Z :=
  Z.lor (Z.shiftr x n) (Z.land (Z.shiftl x (32 - n)) mask32).
Definition not32 (x : Z) : Z := Z.lxor x mask32.

Definition Ch (x y z : Z) : Z := Z.lxor (Z.land x y) (Z.land (not32 x) z).
Definition Maj (x y z : Z) : Z :=
  Z.lxor (Z.lxor (Z.land x y) (Z.land x z)) (Z.land y z).
Definition bigSigma0 (x : Z) : Z := Z.lxor (Z.lxor (rotr 2 x) (rotr 13 x)) (rotr 22 x).
Definition bigSigma1 (x : Z) : Z := Z.lxor (Z.lxor (rotr 6 x) (rotr 11 x)) (rotr 25 x).
Definition smallSigma0 (x : Z) : Z := Z.lxor (Z.lxor (rotr 7 x) (rotr 18 x)) (Z.shiftr x 3).
Definition smallSigma1 (x : Z) : Z := Z.lxor (Z.lxor (rotr 17 x) (rotr 19 x)) (Z.shiftr x 10).

(** The round constants: the first 32 bits of the fractional part of the cube
    root of each of the first 64 primes (the table that Node's crypto module
    carries), computed here from that description. *)
Definition isPrime (n : Z) : bool :=
  (1 <? n) && forallb (fun d => negb (n mod d =? 0) || (n <=? d))
                      (map Z.of_nat (seq 2 16)).

Definition primes : list Z :=
  filter isPrime (map Z.of_nat (seq 2 310)).

Fixpoint cubeRootBits (bits : nat) (n r : Z) : Z :=
  match bits with
  | O => r
  | S b =>
      let c := r + Z.shiftl 1 (Z.of_nat b) in
      cubeRootBits b n (if c * c * c <=? n then c else r)
  end.

Definition cubeRootFraction (p : Z) : Z :=
  Z.land (cubeRootBits 36 (Z.shiftl p 96) 0) mask32.

Definition K : list Z := Eval vm_compute in map cubeRootFraction primes.

Record Regs := mkRegs { ra : Z; rb : Z; rc : Z; rd : Z; re : Z; rf : Z; rg : Z; rh : Z }.

Definition H0 : Regs :=
  mkRegs 0x6a09e667 0xbb67ae85 0x3c6ef372 0xa54ff53a
         0x510e527f 0x9b05688c 0x1f83d9ab 0x5be0cd19.

(** UTF-8 encoding of code units below 256. *)
Definition utf8_char (c : ascii) : list Z :=
  let n := Z.of_nat (nat_of_ascii c) in
  if n <? 128 then [n]
  else [Z.lor 0xc0 (Z.shiftr n 6); Z.lor 0x80 (Z.land n 0x3f)].

Fixpoint utf8 (s : string) : list Z :=
  match s with
  | EmptyString => []
  | String c rest => utf8_char c ++ utf8 rest
  end.

Definition be64 (n : Z) : list Z :=
  map (fun i => Z.land (Z.shiftr n (8 * i)) 0xff) [7; 6; 5; 4; 3; 2; 1; 0].

Definition pad (msg : list Z) : list Z :=
  let len := length msg in
  msg ++ [0x80] ++ repeat 0 ((119 - len mod 64) mod 64)%nat
      ++ be64 (8 * Z.of_nat len).

Fixpoint toWords (bs : list Z) : list Z :=
  match bs with
  | b0 :: b1 :: b2 :: b3 :: rest =>
      (Z.shiftl b0 24 + Z.shiftl b1 16 + Z.shiftl b2 8 + b3) :: toWords rest
  | _ => []
  end.

(** Message schedule: [w] holds W[0..t-1]; [n] more words are appended. *)
Fixpoint schedule (n : nat) (w : list Z) : list Z :=
  match n with
  | O => w
  | S k =>
      let t := length w in
      let at_ (i : nat) := nth (t - i) w 0 in
      schedule k (w ++ [add32 (add32 (smallSigma1 (at_ 2%nat)) (at_ 7%nat))
                              (add32 (smallSigma0 (at_ 15%nat)) (at_ 16%nat))])
  end.

Definition round (s : Regs) (kw : Z * Z) : Regs :=
  let t1 := add32 (add32 (add32 (rh s) (bigSigma1 (re s)))
                         (add32 (Ch (re s) (rf s) (rg s)) (fst kw))) (snd kw) in
  let t2 := add32 (bigSigma0 (ra s)) (Maj (ra s) (rb s) (rc s)) in
  mkRegs (add32 t1 t2) (ra s) (rb s) (rc s) (add32 (rd s) t1) (re s) (rf s) (rg s).

Definition compress (h : Regs) (block : list Z) : Regs :=
  let s := fold_left round (combine K (schedule 48 block)) h in
  mkRegs (add32 (ra h) (ra s)) (add32 (rb h) (rb s)) (add32 (rc h) (rc s))
         (add32 (rd h) (rd s)) (add32 (re h) (re s)) (add32 (rf h) (rf s))
         (add32 (rg h) (rg s)) (add32 (rh h) (rh s)).

Fixpoint blocks (n : nat) (ws : list Z) (h : Regs) : Regs :=
  match n with
  | O => h
  | S k => blocks k (skipn 16 ws) (compress h (firstn 16 ws))
  end.

Definition digest (msg : list Z) : Regs :=
  let ws := toWords (pad msg) in
  blocks (length ws / 16) ws H0.

Definition hexDigit (n : Z) : ascii :=
  ascii_of_nat (Z.to_nat (if n <? 10 then 48 + n else 87 + n)).

Definition hexWord (w : Z) : string :=
  string_of_list_ascii
    (map (fun i => hexDigit (Z.land (Z.shiftr w (4 * i)) 0xf)) [7; 6; 5; 4; 3; 2; 1; 0]).

(** [crypto.createHash('sha256').update(s).digest('hex')]. *)
Definition hex (s : string) : string :=
  let r := digest (utf8 s) in
  hexWord (ra r) +:+ hexWord (rb r) +:+ hexWord (rc r) +:+ hexWord (rd r)
  +:+ hexWord (re r) +:+ hexWord (rf r) +:+ hexWord (rg r) +:+ hexWord (rh r).

End Sha256.

(* ===================================================================== *)
(** ** Node's [path] module (POSIX flavour)                              *)
(* ===================================================================== *)

Module Path.

Definition slash : ascii := "/"%char.

Definition isDot (s : string) : bool := String.eqb s ".".
Definition isDotDot (s : string) : bool := String.eqb s "..".

(** A segment that normalisation leaves in place. *)
Definition plain (s : string) : bool :=
  negb (String.eqb s EmptyString) && negb (isDot s) && negb (isDotDot s).

(** [normalizeString]: walks the segments with a stack ([acc], reversed).
    [allowAbove] tells whether a leading [..] is kept (relative paths). *)
Fixpoint normalizeSegments (allowAbove : bool) (acc : list string)
    (segs : list string) : list string :=
  match segs with
  | [] => rev acc
  | s :: rest =>
      if String.eqb s EmptyString || isDot s then normalizeSegments allowAbove acc rest
      else if isDotDot s then
        match acc with
        | top :: acc' =>
            if isDotDot top then normalizeSegments allowAbove (s :: acc) rest
            else normalizeSegments allowAbove acc' rest
        | [] =>
            if allowAbove then normalizeSegments allowAbove [s] rest
            else normalizeSegments allowAbove [] rest
        end
      else normalizeSegments allowAbove (s :: acc) rest
  end.

Definition isAbsolute (p : string) : bool :=
  match p with
  | String c _ => Ascii.eqb c slash
  | EmptyString => false
  end.

Fixpoint endsWithSlash (p : string) : bool :=
  match p with
  | EmptyString => false
  | String c EmptyString => Ascii.eqb c slash
  | String _ rest => endsWithSlash rest
  end.

(** A string without slash: one path segment. *)
Fixpoint slashFree (s : string) : bool :=
  match s with
  | EmptyString => true
  | String c rest => negb (Ascii.eqb c slash) && slashFree rest
  end.

(** A segment that normalisation keeps and that holds no slash. *)
Definition segment (s : string) : Prop :=
  slashFree s = true /\ plain s = true.

(** [path.normalize(p)]. *)
Definition normalize (p : string) : string :=
  match p with
  | EmptyString => "."
  | _ =>
      let abs := isAbsolute p in
      let body := JsString.join "/" (normalizeSegments (negb abs) []
                                       (JsString.split_on slash p)) in
      match body with
      | EmptyString =>
          if abs then "/" else if endsWithSlash p then "./" else "."
      | _ =>
          let body' := if endsWithSlash p then body +:+ "/" else body in
          if abs then "/" +:+ body' else body'
      end
  end.

(** [path.join(a, b)]: empty arguments are skipped. *)
Definition join (a b : string) : string :=
  match a, b with
  | EmptyString, EmptyString => "."
  | EmptyString, _ => normalize b
  | _, EmptyString => normalize a
  | _, _ => normalize (a +:+ "/" +:+ b)
  end.

(** [path.resolve(p)] with the working directory [cwd] (an absolute path). *)
Definition resolve (cwd p : string) : string :=
  let full := if isAbsolute p then p else cwd +:+ "/" +:+ p in
  "/" +:+ JsString.join "/" (normalizeSegments false [] (JsString.split_on slash full)).

(** [path.basename(p)]: trailing slashes are ignored, then the part after
    the last slash is taken.  [cur] is the segment being read and [last]
    the last non-empty segment completed so far. *)
Fixpoint basename_from (last cur : string) (p : string) : string :=
  match p with
  | EmptyString => match cur with EmptyString => last | _ => cur end
  | String c rest =>
      if Ascii.eqb c slash then
        basename_from (match cur with EmptyString => last | _ => cur end)
                      EmptyString rest
      else basename_from last (cur +:+ String c EmptyString) rest
  end.

Definition basename (p : string) : string := basename_from EmptyString EmptyString p.

(** [path.dirname(p)] for a path without trailing slash: everything before
    the last slash (["/"] for a child of the root, ["."] without slash). *)
Fixpoint dirname_from (seen : string) (best : option string) (p : string) : option string :=
  match p with
  | EmptyString => best
  | String c rest =>
      if Ascii.eqb c slash
      then dirname_from (seen +:+ "/") (Some seen) rest
      else dirname_from (seen +:+ String c EmptyString) best rest
  end.

Definition dirname (p : string) : string :=
  match dirname_from EmptyString None p with
  | None => "."
  | Some EmptyString => "/"
  | Some d => d
  end.

(** Index-free reading of [path.extname] on a slash-free name: the suffix
    from the last dot, unless there is no dot, the only dot leads the
    name, or the name is [..]. *)
Fixpoint lastDotSuffix (s : string) : option string :=
  match s with
  | EmptyString => None
  | String c rest =>
      match lastDotSuffix rest with
      | Some e => Some e
      | None => if Ascii.eqb c "."%char then Some s else None
      end
  end.

Definition extname (p : string) : string :=
  let b := basename p in
  match b with
  | EmptyString => EmptyString
  | String _ rest =>
      if isDotDot b then EmptyString
      else match lastDotSuffix rest with
           | Some e => e
           | None => EmptyString
           end
  end.

End Path.

(* ===================================================================== *)
(** ** types.ts                                                          *)
(* ===================================================================== *)

Record Voice := mkVoice {
  voice_id : string;
  voice_name : string;
  voiceId : string;
  stability : option Q;
  similarityBoost : option Q
}.

Record Personality := mkPersonality {
  name : string;
  alias : string;
  tone : string;
  humorStyle : string;
  interests : list string;
  voice : Voice;
  openingLines : list string;
  closingLines : list string
}.

Record DialogueTurn := mkTurn {
  speaker : string;
  text : string
}.

Record FalseRedactions := mkFalseRedactions {
  found : option bool;
  totalHiddenWords : option nat;
  hiddenWords : option (list string);
  hiddenPhrases : option (list string)
}.

(** The fields of [DocumentInput] that the generator reads. *)
Record DocumentInput := mkDocument {
  documentId : string;
  url : option string;
  summary : option string;
  names : option (list string);
  dates : option (list string);
  places : option (list string);
  falseRedactions : option FalseRedactions
}.

(** An element of [PodcastRequest['articles']]. *)
Record Article := mkArticle {
  article_id : string;
  article_title : option string;
  article_url : option string;
  article_content : string;
  article_summary : option string
}.

Record PodcastRequest := mkPodcastRequest {
  articles : list Article;
  selectedHosts : option (list string);
  podcast_targetLengthSeconds : option Q
}.

Record GenerationProgress := mkProgress {
  status : string;
  message : string;
  currentStep : option nat;
  totalSteps : option nat
}.

Record GenerationResult := mkResult {
  success : bool;
  audioFile : option string;
  audioUrl : option string;
  title : option string;
  tags : option (list string);
  error : option string
}.

(* ===================================================================== *)
(** ** config.ts                                                         *)
(* ===================================================================== *)

Module Config.

Definition john : Voice :=
  mkVoice "john" "John" "n1PvBOwxb8X6m7tahp2h" (Some 0.5%Q) (Some 0.75%Q).
Definition sadie : Voice :=
  mkVoice "sadie" "Sadie" "56bWURjYFHyYyVf490Dp" (Some 0.6%Q) (Some 0.75%Q).

Definition reporter : Personality :=
  mkPersonality "Sadie Woodward" "The Story Hunter" "incisive and compelling"
    "sharp observations with subtle irony"
    ["investigative journalism"; "public accountability"; "historical context";
     "power structures"]
    sadie
    ["This story goes deeper than most realize.";
     "The public deserves to know what we've uncovered.";
     "Behind the official narrative lies a web of connections.";
     "When you follow the evidence trail...";
     "Today we're diving into documents that tell a remarkable story."]
    ["The public deserves transparency, and we'll keep digging until we find it.";
     "As we continue to investigate, remember that history is written by those who control the narrative.";
     "The story doesn't end here - we're just beginning to connect the dots.";
     "Stay vigilant, stay informed, and question everything.";
     "This investigation continues, and so does our commitment to the truth."].

Definition privateEye : Personality :=
  mkPersonality "John Marlowe" "The Truth Seeker" "hardboiled and analytical"
    "dry wit with cynical undertones"
    ["crime solving"; "investigation techniques"; "pattern recognition"; "hidden motives"]
    john
    ["Listen up, because this is important.";
     "The facts don't lie, but people do.";
     "What we have here is more than a coincidence.";
     "I've seen a lot in my time, but this case...";
     "Let me lay out what we know so far."]
    ["The truth is out there, but you've got to want to see it.";
     "That's how the pieces fit together. At least, the ones we can see.";
     "Sometimes the answers create more questions.";
     "Remember, in this business, coincidences are rarely that.";
     "The case isn't closed, but we're closer to the truth."].

Definition host1 : Personality :=
  mkPersonality "John" "The Analyst" "thoughtful and engaging" "dry wit with warmth"
    ["current events"; "analysis"; "storytelling"]
    john
    ["Welcome back, everyone."; "Let's dive into today's topic.";
     "There's a lot to unpack here."]
    ["Thanks for listening."; "Until next time, stay curious.";
     "That's all for today's episode."].

Definition host2 : Personality :=
  mkPersonality "Sadie" "The Commentator" "engaging and informative" "witty observations"
    ["deep dives"; "research"; "discussion"]
    sadie
    ["Great to be here."; "This is fascinating material.";
     "I've been looking forward to discussing this."]
    ["What a discussion!"; "Can't wait for the next one.";
     "Thanks everyone for tuning in."].

(** The own properties of the [personalities] object. *)
Definition personalities : gmap string Personality :=
  <["reporter" := reporter]> (<["privateEye" := privateEye]>
  (<["host1" := host1]> (<["host2" := host2]> ∅))).

(** The members every object inherits from [Object.prototype]: for such a
    key [personalities[key]] is truthy although it is no [Personality]. *)
Definition objectPrototypeKeys : list string :=
  ["constructor"; "__defineGetter__"; "__defineSetter__"; "hasOwnProperty";
   "__lookupGetter__"; "__lookupSetter__"; "isPrototypeOf"; "propertyIsEnumerable";
   "toString"; "valueOf"; "__proto__"; "toLocaleString"].

(** What [personalities[key] || fallback] evaluates to. *)
Inductive Speaker :=
| Own (p : Personality)
| Inherited (key : string).

Definition lookupOr (key : string) (fallback : Personality) : Speaker :=
  match personalities !! key with
  | Some p => Own p
  | None =>
      if existsb (String.eqb key) objectPrototypeKeys then Inherited key
      else Own fallback
  end.

(** [speaker.name]: the [name] of an inherited function is its own name
    ([Object] for [constructor]); [Object.prototype] itself has none. *)
Definition speakerName (s : Speaker) : string :=
  match s with
  | Own p => name p
  | Inherited key =>
      if String.eqb key "constructor" then "Object"
      else if String.eqb key "__proto__" then "undefined"
      else key
  end.

(** A string field of the speaker as a template literal renders it. *)
Definition speakerField (f : Personality -> string) (s : Speaker) : string :=
  match s with
  | Own p => f p
  | Inherited _ => "undefined"
  end.

(** [speaker.openingLines] / [speaker.closingLines]: [None] is [undefined]. *)
Definition speakerLines (f : Personality -> list string) (s : Speaker)
    : option (list string) :=
  match s with
  | Own p => Some (f p)
  | Inherited _ => None
  end.

Definition grok_name : string := "grok-4-1-fast-reasoning".
Definition grok_apiUrl : string := "https://api.x.ai/v1/chat/completions".
Definition grok_maxTokens : nat := 4096.
Definition grok_temperature : Q := 0.7.

Definition elevenLabs_apiUrl : string := "https://api.elevenlabs.io/v1".
Definition elevenLabs_modelId : string := "eleven_turbo_v2".
Definition elevenLabs_outputFormat : string := "mp3_44100_128".

End Config.

(* ===================================================================== *)
(** ** Parsed JSON values and the property accesses made on them         *)
(* ===================================================================== *)

Module Js.

#[local] Set Warnings "-register-all".

Inductive Json :=
| JNull
| JBool (b : bool)
| JNum (q : Q)
| JStr (s : string)
| JArr (items : list Json)
| JObj (fields : list (string * Json)).

(** A JavaScript value read off parsed JSON: [None] is [undefined]. *)
Definition Value := option Json.

(** [JSON.parse] keeps the last of several equal keys. *)
Fixpoint field (fields : list (string * Json)) (k : string) : Value :=
  match fields with
  | [] => None
  | (k', v) :: rest =>
      match field rest k with
      | Some later => Some later
      | None => if String.eqb k k' then Some v else None
      end
  end.

(** [v?.k] for a key that no array, string, number or boolean has. *)
Definition optProp (v : Value) (k : string) : Value :=
  match v with
  | Some (JObj fields) => field fields k
  | _ => None
  end.

(** [v?.[0]]. *)
Definition optFirst (v : Value) : Value :=
  match v with
  | Some (JArr (x :: _)) => Some x
  | Some (JObj fields) => field fields "0"
  | Some (JStr (String c _)) => Some (JStr (String c EmptyString))
  | _ => None
  end.

Definition truthy (v : Value) : bool :=
  match v with
  | None | Some JNull => false
  | Some (JBool b) => b
  | Some (JNum q) => negb (Qeq_bool q 0)
  | Some (JStr s) => JsString.truthy s
  | Some (JArr _) | Some (JObj _) => true
  end.

End Js.

(* ===================================================================== *)
(** ** The world the pipeline runs in                                    *)
(* ===================================================================== *)

Inductive FsNode :=
| FsFile (content : list Byte.byte)
| FsDir.

(** What [fetch] does: it rejects (no HTTP response at all) or resolves. *)
Inductive Fetched (R : Type) :=
| Rejected (reason : string)
| Resolved (r : R).
Arguments Rejected {R} reason.
Arguments Resolved {R} r.

Record ChatMessage := mkMessage { role : string; content : string }.

(** The body of the POST request to the chat-completion endpoint. *)
Record ChatRequest := mkChatRequest {
  chat_url : string;
  chat_authorization : string;
  chat_model : string;
  chat_messages : list ChatMessage;
  chat_temperature : Q;
  chat_max_tokens : nat
}.

(** The response: [chat_json] is what [response.json()] yields ([None]
    when the body is not JSON), [chat_body] what [response.text()] yields. *)
Record ChatResponse := mkChatResponse {
  chat_status : nat;
  chat_body : string;
  chat_json : option Js.Json
}.

Record TtsRequest := mkTtsRequest {
  tts_url : string;
  tts_key : string;
  tts_text : string;
  tts_model_id : string;
  tts_stability : Q;
  tts_similarity_boost : Q;
  tts_output_format : string
}.

Record TtsResponse := mkTtsResponse {
  tts_status : nat;
  tts_body : string;
  tts_audio : list Byte.byte
}.

(** Running [ffmpeg -f concat]: the text on stderr when the exit status is
    not zero, and what the run has written to the output path, if it has
    written there at all.  A run that fails may have written already. *)
Record FfmpegRun := mkFfmpegRun {
  ffmpeg_failure : option string;
  ffmpeg_output : option (list Byte.byte)
}.

Inductive Event :=
| ChatCall (req : ChatRequest)
| TtsCall (req : TtsRequest) (outputPath : string)
| FfmpegCall (inputs : list string) (outputPath : string).

Record SseEvent := mkSse { sse_event : string; sse_data : list (string * Js.Value) }.

Record World := mkWorld {
  cwd : string;
  env : gmap string string;
  fs : gmap string FsNode;
  chatApi : nat -> ChatRequest -> Fetched ChatResponse;
  ttsApi : nat -> TtsRequest -> Fetched TtsResponse;
  ffmpegInstalled : bool;
  ffmpeg : list (option (list Byte.byte)) -> FfmpegRun;
  random : nat -> nat;
  randomCalls : nat;
  trace : list Event;
  sseQueue : list SseEvent;
  sseClosed : bool;
  keepAlive : nat -> nat;
  keepAliveFrom : option nat
}.

(** The output paths of the speech requests made so far, oldest first. *)
Definition ttsPaths (w : World) : list string :=
  omap (fun e => match e with TtsCall _ p => Some p | _ => None end) (trace w).

Definition isChatCall (e : Event) : bool :=
  match e with ChatCall _ => true | _ => false end.
Definition isTtsCall (e : Event) : bool :=
  match e with TtsCall _ _ => true | _ => false end.

(** The requests made to the two HTTP APIs so far. *)
Definition chatCalls (w : World) : list Event := List.filter isChatCall (trace w).
Definition ttsCalls (w : World) : list Event := List.filter isTtsCall (trace w).
Definition networkCalls (w : World) : list Event :=
  List.filter (fun e => isChatCall e || isTtsCall e) (trace w).

Definition with_fs (w : World) (f : gmap string FsNode) : World :=
  mkWorld (cwd w) (env w) f (chatApi w) (ttsApi w) (ffmpegInstalled w) (ffmpeg w)
          (random w) (randomCalls w) (trace w) (sseQueue w) (sseClosed w)
          (keepAlive w) (keepAliveFrom w).
Definition with_trace (w : World) (t : list Event) : World :=
  mkWorld (cwd w) (env w) (fs w) (chatApi w) (ttsApi w) (ffmpegInstalled w) (ffmpeg w)
          (random w) (randomCalls w) t (sseQueue w) (sseClosed w)
          (keepAlive w) (keepAliveFrom w).
Definition with_randomCalls (w : World) (n : nat) : World :=
  mkWorld (cwd w) (env w) (fs w) (chatApi w) (ttsApi w) (ffmpegInstalled w) (ffmpeg w)
          (random w) n (trace w) (sseQueue w) (sseClosed w)
          (keepAlive w) (keepAliveFrom w).
Definition with_sse (w : World) (q : list SseEvent) (closed : bool) : World :=
  mkWorld (cwd w) (env w) (fs w) (chatApi w) (ttsApi w) (ffmpegInstalled w) (ffmpeg w)
          (random w) (randomCalls w) (trace w) q closed
          (keepAlive w) (keepAliveFrom w).
Definition with_keepAliveFrom (w : World) (from : option nat) : World :=
  mkWorld (cwd w) (env w) (fs w) (chatApi w) (ttsApi w) (ffmpegInstalled w) (ffmpeg w)
          (random w) (randomCalls w) (trace w) (sseQueue w) (sseClosed w)
          (keepAlive w) from.

(* ===================================================================== *)
(** ** A state-and-exception monad                                       *)
(* ===================================================================== *)

(** How a computation ends: it returns, or it throws an [Error] (kept by
    its message). *)
Inductive Outcome (A : Type) :=
| Returned (a : A)
| Thrown (msg : string).
Arguments Returned {A} a.
Arguments Thrown {A} msg.

Definition M (A : Type) := World -> Outcome A * World.

Definition ret {A} (a : A) : M A := fun w => (Returned a, w).
Definition throw {A} (msg : string) : M A := fun w => (Thrown msg, w).

Definition bind {A B} (m : M A) (k : A -> M B) : M B := fun w =>
  match m w with
  | (Returned a, w') => k a w'
  | (Thrown msg, w') => (Thrown msg, w')
  end.

Notation "x <- m ;; k" := (bind m (fun x => k))
  (at level 100, m at next level, right associativity).
Notation "m ;;; k" := (bind m (fun _ => k))
  (at level 100, right associativity).

Definition get : M World := fun w => (Returned w, w).
Definition modify (f : World -> World) : M unit := fun w => (Returned tt, f w).

(** [try { m } catch (error) { handler(error.message) }]. *)
Definition tryCatch {A} (m : M A) (handler : string -> M A) : M A := fun w =>
  match m w with
  | (Thrown msg, w') => handler msg w'
  | r => r
  end.

(** [try { m } finally { fin }]: [fin] runs however [m] ends, and an
    exception of [fin] replaces the outcome of [m]. *)
Definition tryFinally {A} (m : M A) (fin : M unit) : M A := fun w =>
  match m w with
  | (r, w') =>
      match fin w' with
      | (Returned _, w'') => (r, w'')
      | (Thrown msg, w'') => (Thrown msg, w'')
      end
  end.

(** [cb?.(x)] for an optional callback. *)
Definition callOpt {A} (cb : option (A -> M unit)) (x : A) : M unit :=
  match cb with
  | Some f => f x
  | None => ret tt
  end.

Definition log (e : Event) : M unit := modify (fun w => with_trace w (trace w ++ [e])).

(** [process.env.KEY]. *)
Definition getenv (key : string) : M (option string) :=
  w <- get ;; ret (env w !! key).

(** [Math.floor(Math.random() * n)]: an index below [n] (0 when [n] is 0),
    taken from the world's random source. *)
Definition randomIndex (n : nat) : M nat :=
  w <- get ;;
  modify (fun w => with_randomCalls w (S (randomCalls w))) ;;;
  ret (match n with O => O | _ => (random w (randomCalls w) mod n)%nat end).

(* ===================================================================== *)
(** ** Node's [fs] calls on the world's file system                      *)
(* ===================================================================== *)

Module Fs.

Definition existsSync (p : string) : M bool :=
  w <- get ;; ret (match fs w !! p with Some _ => true | None => false end).

(** The proper ancestors of an absolute path below the root, outermost
    first: ["/a"; "/a/b"] for ["/a/b/c"]. *)
Fixpoint ancestors_from (seen : string) (p : string) : list string :=
  match p with
  | EmptyString => []
  | String c rest =>
      if Ascii.eqb c Path.slash then
        match seen with
        | EmptyString => ancestors_from "/" rest
        | _ => seen :: ancestors_from (seen +:+ "/") rest
        end
      else ancestors_from (seen +:+ String c EmptyString) rest
  end.

Definition ancestors (p : string) : list string := ancestors_from EmptyString p.

Definition isFile (f : gmap string FsNode) (p : string) : bool :=
  match f !! p with Some (FsFile _) => true | _ => false end.

(** [fs.mkdirSync(p, { recursive: true })]: creates [p] and its missing
    ancestors; fails when one of them is a file. *)
Definition mkdirSync (p : string) : M unit :=
  w <- get ;;
  let dirs := ancestors p ++ [p] in
  if existsb (isFile (fs w)) dirs
  then throw ("EEXIST: file already exists, mkdir '" +:+ p +:+ "'")
  else modify (fun w => with_fs w (fold_left (fun f d => <[d := FsDir]> f) dirs (fs w))).

(** [fs.writeFileSync(p, data)]. *)
Definition writeFileSync (p : string) (data : list Byte.byte) : M unit :=
  w <- get ;;
  match fs w !! p with
  | Some FsDir => throw ("EISDIR: illegal operation on a directory, open '" +:+ p +:+ "'")
  | _ =>
      match fs w !! Path.dirname p with
      | Some FsDir => modify (fun w => with_fs w (<[p := FsFile data]> (fs w)))
      | _ => throw ("ENOENT: no such file or directory, open '" +:+ p +:+ "'")
      end
  end.

(** [fs.readFileSync(p)]. *)
Definition readFileSync (p : string) : M (list Byte.byte) :=
  w <- get ;;
  match fs w !! p with
  | Some (FsFile data) => ret data
  | Some FsDir => throw "EISDIR: illegal operation on a directory, read"
  | None => throw ("ENOENT: no such file or directory, open '" +:+ p +:+ "'")
  end.

(** [fs.statSync(p).size] (the size reported for a directory is not used
    by the callers). *)
Definition statSync_size (p : string) : M nat :=
  w <- get ;;
  match fs w !! p with
  | Some (FsFile data) => ret (length data)
  | Some FsDir => ret 4096%nat
  | None => throw ("ENOENT: no such file or directory, stat '" +:+ p +:+ "'")
  end.

Definition under (dir p : string) : bool :=
  String.eqb p dir || JsString.startsWith p (dir +:+ "/").

(** [fs.rmSync(p, { recursive: true })]. *)
Definition rmSync (p : string) : M unit :=
  w <- get ;;
  match fs w !! p with
  | None => throw ("ENOENT: no such file or directory, rm '" +:+ p +:+ "'")
  | Some _ =>
      modify (fun w => with_fs w (filter (fun kv => under p (fst kv) = false) (fs w)))
  end.

(** [fs.unlinkSync(p)]. *)
Definition unlinkSync (p : string) : M unit :=
  w <- get ;;
  match fs w !! p with
  | Some (FsFile _) => modify (fun w => with_fs w (delete p (fs w)))
  | Some FsDir => throw ("EISDIR: illegal operation on a directory, unlink '" +:+ p +:+ "'")
  | None => throw ("ENOENT: no such file or directory, unlink '" +:+ p +:+ "'")
  end.

End Fs.

(* ===================================================================== *)
(** ** text-generator.ts                                                 *)
(* ===================================================================== *)

Definition nl : string := String (ascii_of_nat 10) EmptyString.
Definition dq : string := String (ascii_of_nat 34) EmptyString.

Record GenerateTextOptions := mkOptions {
  systemPrompt : option string;
  temperature : option Q;
  maxTokens : option nat
}.

(** [response.ok]: a status from 200 to 299. *)
Definition http_ok (status : nat) : bool := ((200 <=? status) && (status <? 300))%nat.

(** [await fetch(models.grok.apiUrl, ...)]: the request is recorded and the
    world's chat endpoint answers it. *)
Definition fetchChat (req : ChatRequest) : M ChatResponse :=
  w <- get ;;
  log (ChatCall req) ;;;
  match chatApi w (length (chatCalls w)) req with
  | Rejected reason => throw reason
  | Resolved r => ret r
  end.

(** [data.choices?.[0]?.message?.content]. *)
Definition choiceContent (data : Js.Json) : Js.Value :=
  Js.optProp (Js.optProp (Js.optFirst (Js.optProp (Some data) "choices")) "message") "content".

(** The end of [generateText]: the check of the parsed body and the
    [return].  Reading [choices] off [null] throws a [TypeError]. *)
Definition readContent (data : Js.Json) : M Js.Json :=
  match data with
  | Js.JNull => throw "Cannot read properties of null (reading 'choices')"
  | _ =>
      match choiceContent data with
      | Some v => if Js.truthy (Some v) then ret v
                  else throw "Invalid response from Grok API"
      | None => throw "Invalid response from Grok API"
      end
  end.

(** The request [generateText] sends with the credential [key]. *)
Definition chatRequest (key userPrompt : string) (options : GenerateTextOptions)
    : ChatRequest :=
  let messages :=
    match JsString.orElse (systemPrompt options) None with
    | Some sp => [mkMessage "system" sp]
    | None => []
    end ++ [mkMessage "user" userPrompt] in
  mkChatRequest Config.grok_apiUrl ("Bearer " +:+ key) Config.grok_name messages
    (default Config.grok_temperature (temperature options))
    (default Config.grok_maxTokens (maxTokens options)).

(** Generate text using the Grok API.  The result is whatever truthy value
    the response holds at [choices[0].message.content]. *)
Definition generateText (userPrompt : string) (options : GenerateTextOptions) : M Js.Json :=
  apiKey <- getenv "XAI_API_KEY" ;;
  match JsString.orElse apiKey None with
  | None => throw "XAI_API_KEY is not configured"
  | Some key =>
      response <- fetchChat (chatRequest key userPrompt options) ;;
      if negb (http_ok (chat_status response)) then
        throw ("Grok API error: " +:+ JsString.decimal (chat_status response)
               +:+ " - " +:+ chat_body response)
      else
        match chat_json response with
        | None => throw "Unexpected token in JSON"
        | Some data => readContent data
        end
  end.

(** Why a call of [generateText] raises, if it does: read off the world
    the call starts in. *)
Inductive TextFailure :=
| MissingCredential
| FetchRejected
| ErrorStatus
| BodyNotJson
| MissingContent.

Definition textFailure (userPrompt : string) (options : GenerateTextOptions)
    (w : World) : option TextFailure :=
  match JsString.orElse (env w !! "XAI_API_KEY") None with
  | None => Some MissingCredential
  | Some key =>
      match chatApi w (length (chatCalls w)) (chatRequest key userPrompt options) with
      | Rejected _ => Some FetchRejected
      | Resolved response =>
          if negb (http_ok (chat_status response)) then Some ErrorStatus
          else match chat_json response with
               | None => Some BodyNotJson
               | Some data =>
                   if Js.truthy (choiceContent data) then None else Some MissingContent
               end
      end
  end.

(** A method call [response.replace(...)] or [response.split(...)] on the
    value [generateText] returned: only a string has the method. *)
Definition asString (method : string) (v : Js.Json) : M string :=
  match v with
  | Js.JStr s => ret s
  | _ => throw ("response." +:+ method +:+ " is not a function")
  end.

Definition renderTurn (d : DialogueTurn) : string := speaker d +:+ ": " +:+ text d.

Definition dialogueContextOf (dialogue : list DialogueTurn) : string :=
  match dialogue with
  | [] => EmptyString
  | _ => "Previous dialogue:" +:+ nl +:+ JsString.join (nl +:+ nl) (map renderTurn dialogue)
  end.

Record InvestigatorCommentParams := mkInvestigatorParams {
  ic_speakerName : string;
  ic_speakerAlias : string;
  ic_speakerTone : string;
  ic_speakerHumorStyle : string;
  ic_documentContent : string;
  ic_previousComment : option string;
  ic_dialogue : list DialogueTurn;
  ic_investigation : string;
  ic_isIntro : bool;
  ic_isOutro : bool;
  ic_openingLine : option string;
  ic_closingLine : option string
}.

Definition investigatorSystemPrompt (p : InvestigatorCommentParams) : string :=
  "You are " +:+ ic_speakerName p +:+ ", also known as " +:+ dq +:+ ic_speakerAlias p +:+ dq
  +:+ ". You are an investigator analyzing documents for " +:+ dq +:+ ic_investigation p
  +:+ dq +:+ "." +:+ nl +:+ nl
  +:+ "Your tone is " +:+ ic_speakerTone p +:+ " and your humor style is "
  +:+ ic_speakerHumorStyle p +:+ "." +:+ nl +:+ nl
  +:+ "Guidelines:" +:+ nl
  +:+ "- Be concise and impactful" +:+ nl
  +:+ "- Never include stage directions or audio cues like [laughs] or [pauses]" +:+ nl
  +:+ "- Reference specific details from the documents (names, dates, places, events)" +:+ nl
  +:+ "- Do NOT mention document IDs or filenames - they are just alphanumeric codes (like "
  +:+ dq +:+ "EFTA01249790" +:+ dq +:+ ") that sound awkward when spoken" +:+ nl
  +:+ "- Build on the conversation naturally" +:+ nl
  +:+ "- Keep responses to 2-4 sentences unless introducing complex information" +:+ nl +:+ nl
  +:+ "Handling " +:+ dq +:+ "False Redactions" +:+ dq +:+ " / Hidden Text:" +:+ nl
  +:+ "Documents may include data about " +:+ dq +:+ "falseRedactions" +:+ dq +:+ " with "
  +:+ dq +:+ "hiddenWords" +:+ dq +:+ " and " +:+ dq +:+ "hiddenPhrases" +:+ dq
  +:+ " - text that was hidden behind black redaction boxes but recovered by the analyzer." +:+ nl
  +:+ "- IMPORTANT: If these words/phrases are garbled, nonsensical, or not clearly readable (e.g., random characters, partial words, OCR artifacts), they are likely MISTAKES by the analyzer, NOT actual redacted text. IGNORE them completely." +:+ nl
  +:+ "- However, if you see CLEAR names, dates, locations, or coherent phrases in the hidden text, these MAY be genuinely significant - text that was intentionally redacted from the document. You can mention these as potentially interesting findings worth noting." +:+ nl
  +:+ "- Use your judgment: only highlight hidden text that appears meaningful and could be relevant to the investigation."
  +:+ match ic_isIntro p, JsString.orElse (ic_openingLine p) None with
      | true, Some line =>
          nl +:+ nl +:+ "Start your response with a variation of: " +:+ dq +:+ line +:+ dq
      | _, _ => EmptyString
      end
  +:+ match ic_isOutro p, JsString.orElse (ic_closingLine p) None with
      | true, Some line =>
          nl +:+ nl +:+ "End your response with a variation of: " +:+ dq +:+ line +:+ dq
      | _, _ => EmptyString
      end.

Definition investigatorUserPrompt (p : InvestigatorCommentParams) : string :=
  let ctx := dialogueContextOf (ic_dialogue p) in
  if ic_isIntro p then
    "You're opening the investigation. Here's an overview of the documents:" +:+ nl +:+ nl
    +:+ ic_documentContent p +:+ nl +:+ nl +:+ ctx +:+ nl +:+ nl
    +:+ "Provide an engaging introduction that sets the stage for the investigation."
  else if ic_isOutro p then
    "The investigation is wrapping up. Here's what we've covered:" +:+ nl +:+ nl
    +:+ ic_documentContent p +:+ nl +:+ nl +:+ ctx +:+ nl +:+ nl
    +:+ "Provide a compelling conclusion that summarizes key findings and leaves the audience wanting more."
  else
    match JsString.orElse (ic_previousComment p) None with
    | Some prev =>
        "Respond to your colleague's observation:" +:+ nl +:+ nl +:+ dq +:+ prev +:+ dq
        +:+ nl +:+ nl +:+ "Relevant document content:" +:+ nl +:+ ic_documentContent p
        +:+ nl +:+ nl +:+ ctx +:+ nl +:+ nl
        +:+ "Provide your analysis or follow-up observation."
    | None =>
        "Analyze this document content:" +:+ nl +:+ nl +:+ ic_documentContent p
        +:+ nl +:+ nl +:+ ctx +:+ nl +:+ nl +:+ "Provide your observations and analysis."
    end.

(** Generate dialogue comment for investigative report. *)
Definition generateInvestigatorComment (p : InvestigatorCommentParams) : M string :=
  response <- generateText (investigatorUserPrompt p)
                (mkOptions (Some (investigatorSystemPrompt p)) (Some 0.8%Q) (Some 500%nat)) ;;
  s <- asString "replace" response ;;
  ret (JsString.trim
         (JsString.stripDelimited "("%char ")"%char
            (JsString.stripDelimited "["%char "]"%char
               (JsString.stripDelimited "*"%char "*"%char s)))).

Record HostCommentParams := mkHostParams {
  hc_speakerName : string;
  hc_speakerAlias : string;
  hc_speakerTone : string;
  hc_speakerHumorStyle : string;
  hc_articleContent : string;
  hc_previousComment : option string;
  hc_dialogue : list DialogueTurn;
  hc_isIntro : bool;
  hc_isOutro : bool;
  hc_openingLine : option string;
  hc_closingLine : option string
}.

Definition hostSystemPrompt (p : HostCommentParams) : string :=
  "You are " +:+ hc_speakerName p +:+ ", also known as " +:+ dq +:+ hc_speakerAlias p +:+ dq
  +:+ ". You are a podcast host discussing interesting content." +:+ nl +:+ nl
  +:+ "Your tone is " +:+ hc_speakerTone p +:+ " and your humor style is "
  +:+ hc_speakerHumorStyle p +:+ "." +:+ nl +:+ nl
  +:+ "Guidelines:" +:+ nl
  +:+ "- Be engaging and conversational" +:+ nl
  +:+ "- Never include stage directions or audio cues" +:+ nl
  +:+ "- Reference specific details from the content" +:+ nl
  +:+ "- Keep responses natural and flowing" +:+ nl
  +:+ "- Aim for 2-4 sentences per turn"
  +:+ match hc_isIntro p, JsString.orElse (hc_openingLine p) None with
      | true, Some line => nl +:+ nl +:+ "Start with a variation of: " +:+ dq +:+ line +:+ dq
      | _, _ => EmptyString
      end
  +:+ match hc_isOutro p, JsString.orElse (hc_closingLine p) None with
      | true, Some line => nl +:+ nl +:+ "End with a variation of: " +:+ dq +:+ line +:+ dq
      | _, _ => EmptyString
      end.

Definition hostUserPrompt (p : HostCommentParams) : string :=
  let ctx := dialogueContextOf (hc_dialogue p) in
  if hc_isIntro p then
    "Open the podcast episode. Here's what we're discussing:" +:+ nl +:+ nl
    +:+ hc_articleContent p +:+ nl +:+ nl +:+ "Provide an engaging introduction."
  else if hc_isOutro p then
    "Wrap up the episode:" +:+ nl +:+ nl +:+ ctx +:+ nl +:+ nl
    +:+ "Provide a memorable conclusion."
  else
    match JsString.orElse (hc_previousComment p) None with
    | Some prev =>
        "Respond to: " +:+ dq +:+ prev +:+ dq +:+ nl +:+ nl +:+ "Content: "
        +:+ hc_articleContent p +:+ nl +:+ nl +:+ ctx
    | None =>
        "Discuss this content:" +:+ nl +:+ nl +:+ hc_articleContent p +:+ nl +:+ nl +:+ ctx
    end.

(** Generate podcast host comment. *)
Definition generateHostComment (p : HostCommentParams) : M string :=
  response <- generateText (hostUserPrompt p)
                (mkOptions (Some (hostSystemPrompt p)) (Some 0.8%Q) (Some 400%nat)) ;;
  s <- asString "replace" response ;;
  ret (JsString.trim
         (JsString.stripDelimited "["%char "]"%char
            (JsString.stripDelimited "*"%char "*"%char s))).

(** Generate a title for the content. *)
Definition generateTitle (dialogue : list DialogueTurn) (hostNames : list string) : M string :=
  let dialogueText := JsString.join nl (map renderTurn dialogue) in
  let system :=
    "You are creating a title for an audio episode. The hosts are "
    +:+ JsString.join " and " hostNames +:+ "." +:+ nl
    +:+ "Create a catchy, concise title that captures the essence of the discussion. Keep it under 10 words."
    +:+ nl +:+ "Return ONLY the title, nothing else." in
  response <- generateText
                ("Create a title for this discussion:" +:+ nl +:+ nl
                 +:+ JsString.take 2000 dialogueText)
                (mkOptions (Some system) (Some 0.9%Q) (Some 50%nat)) ;;
  s <- asString "replace" response ;;
  ret (JsString.trim (JsString.stripQuotes s)).

(** Generate tags for the content. *)
Definition generateTags (dialogue : list DialogueTurn) : M (list string) :=
  let dialogueText := JsString.join nl (map renderTurn dialogue) in
  let system :=
    "Generate 5-8 relevant tags for this audio content." +:+ nl
    +:+ "Return ONLY a comma-separated list of tags, nothing else." in
  response <- generateText
                ("Generate tags for:" +:+ nl +:+ nl +:+ JsString.take 2000 dialogueText)
                (mkOptions (Some system) (Some 0.7%Q) (Some 100%nat)) ;;
  s <- asString "split" response ;;
  ret (List.filter JsString.truthy (map JsString.trim (JsString.split_on ","%char s))).

(* ===================================================================== *)
(** ** text-to-speech.ts                                                 *)
(* ===================================================================== *)

Definition fetchTts (req : TtsRequest) (outputPath : string) : M TtsResponse :=
  w <- get ;;
  log (TtsCall req outputPath) ;;;
  match ttsApi w (length (ttsCalls w)) req with
  | Rejected reason => throw reason
  | Resolved r => ret r
  end.

(** The request [synthesizeSpeech] sends with the credential [key]. *)
Definition ttsRequest (key text : string) (voice : Voice) : TtsRequest :=
  mkTtsRequest (Config.elevenLabs_apiUrl +:+ "/text-to-speech/" +:+ voiceId voice)
    key text Config.elevenLabs_modelId
    (default 0.5%Q (stability voice)) (default 0.75%Q (similarityBoost voice))
    Config.elevenLabs_outputFormat.

(** The [try] block of [synthesizeSpeech]; its [catch] clause logs and
    rethrows, so it is the identity here. *)
Definition fetchAndSave (req : TtsRequest) (outputPath : string) : M string :=
  response <- fetchTts req outputPath ;;
  if negb (http_ok (tts_status response)) then
    throw ("ElevenLabs API error: " +:+ JsString.decimal (tts_status response)
           +:+ " - " +:+ tts_body response)
  else
    match tts_audio response with
    | [] => throw "ElevenLabs returned empty audio buffer"
    | audio => Fs.writeFileSync outputPath audio ;;; ret outputPath
    end.

(** Synthesize speech using the ElevenLabs API. *)
Definition synthesizeSpeech (text : string) (voice : Voice) (outputPath : string) : M string :=
  apiKey <- getenv "ELEVENLABS_API_KEY" ;;
  match JsString.orElse apiKey None with
  | None => throw "ELEVENLABS_API_KEY is not configured"
  | Some key =>
      let outputDir := Path.dirname outputPath in
      present <- Fs.existsSync outputDir ;;
      (if present then ret tt else Fs.mkdirSync outputDir) ;;;
      fetchAndSave (ttsRequest key text voice) outputPath
  end.

Definition maxChunkLength : nat := 5000.

(** Synthesize dialogue turn and save to file. *)
Definition synthesizeDialogueTurn (text : string) (speakerId : string)
    (outputDir : string) (turnIndex : nat) : M string :=
  let voice :=
    if String.eqb speakerId "john" || String.eqb speakerId "privateEye"
       || String.eqb speakerId "host1"
    then Config.john else Config.sadie in
  let outputFileName :=
    "turn-" +:+ JsString.padStart3 (JsString.decimal turnIndex) +:+ "-" +:+ speakerId
    +:+ ".mp3" in
  let outputPath := Path.join outputDir outputFileName in
  if (String.length text <=? maxChunkLength)%nat then
    synthesizeSpeech text voice outputPath
  else
    let truncatedText := JsString.take maxChunkLength text in
    synthesizeSpeech truncatedText voice outputPath.

(** Get available voices: [Object.values(voices)]. *)
Definition getAvailableVoices : list Voice := [Config.john; Config.sadie].

(** The number of pieces of [text.split(/\s+/)]. *)
Definition wordCount (text : string) : nat := length (JsString.split_ws text).

(** Estimate audio duration from text: [Math.ceil(words / 2.5)]. *)
Definition estimateAudioDuration (text : string) : Z :=
  let words := inject_Z (Z.of_nat (wordCount text)) in
  let wordsPerSecond := 2.5%Q in
  Qceiling (words / wordsPerSecond).

(* ===================================================================== *)
(** ** Shared pieces of investigative-report.ts and podcast.ts           *)
(* ===================================================================== *)

(** [AUDIO_DIR = path.join(process.cwd(), 'generated-audio')]. *)
Definition AUDIO_DIR (w : World) : string := Path.join (cwd w) "generated-audio".

(** What both generator modules do when they are loaded: ensure that the
    audio directory exists. *)
Definition ensureAudioDirectory : M unit :=
  w <- get ;;
  present <- Fs.existsSync (AUDIO_DIR w) ;;
  if present then ret tt else Fs.mkdirSync (AUDIO_DIR w).

(** The local variables the turn loops update. *)
Record LoopState := mkLoop {
  dialogue : list DialogueTurn;
  audioFiles : list string;
  currentDuration : Z;
  turnIndex : nat;
  currentSpeakerIndex : nat
}.

(** The arithmetic of [Number]: IEEE 754 binary64, round to nearest, ties
    to even.  A finite double is kept as the rational it denotes. *)
Module Double.

Inductive Number :=
| Finite (q : Q)
| Infinity (negative : bool)
| NaN.

(** [q / 2^e]. *)
Definition shift (q : Q) (e : Z) : Q :=
  if 0 <=? e then q / inject_Z (2 ^ e) else q * inject_Z (2 ^ (- e)).

Definition abs (q : Q) : Q := if Qle_bool 0 q then q else - q.

(** [floor (log2 |q|)], for [q] other than 0. *)
Definition exponent (q : Q) : Z :=
  let k := Z.log2 (Z.abs (Qnum q)) - Z.log2 (Zpos (Qden q)) in
  if Qle_bool 1 (shift (abs q) k) then k else k - 1.

(** The integer nearest to [q]; of two nearest ones, the even one. *)
Definition nearestEven (q : Q) : Z :=
  let f := Qfloor q in
  match Qcompare (q - inject_Z f) (1 # 2) with
  | Lt => f
  | Gt => f + 1
  | Eq => if Z.even f then f else f + 1
  end.

(** Rounding to 53 significant bits, with the exponent bounded below (the
    subnormal numbers) and not yet bounded above. *)
Definition nearestDouble (q : Q) : Q :=
  if Qeq_bool q 0 then 0
  else
    let e := Z.max (exponent q - 52) (-1074) in
    shift (inject_Z (nearestEven (shift q e))) (- e).

(** [Number.MAX_VALUE]. *)
Definition maxValue : Q := inject_Z (2 ^ 1024 - 2 ^ 971).

(** The double that a real number is rounded to: what a literal, or a
    number in a JSON text, denotes. *)
Definition ofQ (q : Q) : Number :=
  let r := nearestDouble q in
  if Qle_bool (abs r) maxValue then Finite r else Infinity (negb (Qle_bool 0 r)).

Definition isNegative (q : Q) : bool := negb (Qle_bool 0 q).

(** [a * b]. *)
Definition mul (a b : Number) : Number :=
  match a, b with
  | NaN, _ | _, NaN => NaN
  | Finite x, Finite y => ofQ (x * y)
  | Finite x, Infinity s | Infinity s, Finite x =>
      if Qeq_bool x 0 then NaN else Infinity (xorb s (isNegative x))
  | Infinity s, Infinity t => Infinity (xorb s t)
  end.

(** [a < b]. *)
Definition lt (a b : Number) : bool :=
  match a, b with
  | NaN, _ | _, NaN => false
  | Finite x, Finite y => negb (Qle_bool y x)
  | Finite _, Infinity s => negb s
  | Infinity s, Finite _ => s
  | Infinity s, Infinity t => s && negb t
  end.

End Double.

(** [currentDuration < targetLengthSeconds * fraction], on doubles:
    [fraction] is the literal 0.8 or 0.75, and the product is rounded.
    ([currentDuration] is a sum of results of [Math.ceil], an integer.) *)
Definition below (duration : Z) (targetLengthSeconds fraction : Q) : bool :=
  Double.lt (Double.ofQ (inject_Z duration))
            (Double.mul (Double.ofQ targetLengthSeconds) (Double.ofQ fraction)).

(** [lines[Math.floor(Math.random() * lines.length)]]: [Math.random] is
    called before [lines.length] is read, which throws when [lines] is
    [undefined]. *)
Definition pickLine (lines : option (list string)) : M (option string) :=
  match lines with
  | Some l => i <- randomIndex (length l) ;; ret (nth_error l i)
  | None =>
      randomIndex 0 ;;;
      throw "Cannot read properties of undefined (reading 'length')"
  end.

(** [speakers[currentSpeakerIndex % 2]]. *)
Definition speakerAt {A} (speakers : A * A) (i : nat) : A :=
  if Nat.even i then fst speakers else snd speakers.

(** [s.replace(/'/g, "'\\''")]. *)
Fixpoint shellQuote (s : string) : string :=
  match s with
  | EmptyString => EmptyString
  | String c rest =>
      if Ascii.eqb c "'"%char then "'\''" +:+ shellQuote rest
      else String c (shellQuote rest)
  end.

(** The concat-demuxer list written for ffmpeg. *)
Definition listContent (inputFiles : list string) : string :=
  JsString.join nl (map (fun f => "file '" +:+ shellQuote f +:+ "'") inputFiles).

(** [inputFiles.filter(file => fs.existsSync(file))]. *)
Definition existingFilesOf (w : World) (inputFiles : list string) : list string :=
  List.filter (fun file => match fs w !! file with Some _ => true | None => false end)
         inputFiles.

(** [await execAsync('ffmpeg -version')] succeeded. *)
Definition checkFfmpegAvailable : M bool := w <- get ;; ret (ffmpegInstalled w).

(** What ffmpeg finds at a listed path: the bytes of a file, or nothing
    that it can read. *)
Definition fileContent (w : World) (file : string) : option (list Byte.byte) :=
  match fs w !! file with
  | Some (FsFile data) => Some data
  | _ => None
  end.

(** [await execAsync(`ffmpeg -y -f concat -safe 0 -i list -c copy out`)]:
    ffmpeg is given the listed files, writes what it writes to the output
    path, and the promise rejects when it exits with a non-zero status. *)
Definition execFfmpegConcat (inputFiles : list string) (outputPath : string) : M unit :=
  w <- get ;;
  log (FfmpegCall inputFiles outputPath) ;;;
  let run := ffmpeg w (map (fileContent w) inputFiles) in
  match ffmpeg_output run with
  | Some out => modify (fun w => with_fs w (<[outputPath := FsFile out]> (fs w)))
  | None => ret tt
  end ;;;
  match ffmpeg_failure run with
  | Some stderr => throw ("Command failed: ffmpeg " +:+ stderr)
  | None => ret tt
  end.

(** The [finally] block of both [concatenateWithFfmpeg]. *)
Definition removeListFile (listPath : string) : M unit :=
  present <- Fs.existsSync listPath ;;
  if present then Fs.unlinkSync listPath else ret tt.

(** The cleanup of the [catch] clause of both generators. *)
Definition cleanupOnError (outputDir : string) : M unit :=
  tryCatch (present <- Fs.existsSync outputDir ;;
            if present then Fs.rmSync outputDir else ret tt)
           (fun _ => ret tt).

Definition cachedResult (id : string) : GenerationResult :=
  mkResult true (Some (id +:+ ".mp3")) (Some ("/api/generate/media?id=" +:+ id +:+ ".mp3"))
           None None None.

Definition completeResult (id : string) (t : string) (tg : list string) : GenerationResult :=
  mkResult true (Some (id +:+ ".mp3")) (Some ("/api/generate/media?id=" +:+ id +:+ ".mp3"))
           (Some t) (Some tg) None.

Definition failedResult (msg : string) : GenerationResult :=
  mkResult false None None None None (Some msg).

(* ===================================================================== *)
(** ** investigative-report.ts                                           *)
(* ===================================================================== *)

Module Report.

(** Generate a unique report ID based on content. *)
Definition reportKey (documents : list DocumentInput) (investigation : string) : string :=
  JsString.join ","
    (map (fun d => default "doc"
                     (JsString.orElse (Some (documentId d)) (JsString.orElse (url d) None)))
         documents)
  +:+ investigation.

Definition generateReportId (documents : list DocumentInput) (investigation : string) : string :=
  JsString.take 16 (Sha256.hex (reportKey documents investigation)).

(** [a?.includes(x)]. *)
Definition includes (a : option (list string)) (x : string) : bool :=
  match a with
  | Some l => existsb (String.eqb x) l
  | None => false
  end.

(** [a?.some(x => b?.includes(x))]. *)
Definition someIncluded (a b : option (list string)) : bool :=
  match a with
  | Some l => existsb (includes b) l
  | None => false
  end.

Definition hasOverlap (doc otherDoc : DocumentInput) : bool :=
  someIncluded (names doc) (names otherDoc)
  || someIncluded (places doc) (places otherDoc)
  || someIncluded (dates doc) (dates otherDoc).

(** The [uniqueDocs] map, as its values in insertion order: the first
    document of each truthy documentId. *)
Definition addUnique (acc : list DocumentInput) (doc : DocumentInput) : list DocumentInput :=
  if JsString.truthy (documentId doc)
     && negb (existsb (fun d => String.eqb (documentId d) (documentId doc)) acc)
  then acc ++ [doc] else acc.

Definition uniqueDocuments (documents : list DocumentInput) : list DocumentInput :=
  fold_left addUnique documents [].

(** One pass of the inner loop over [otherDoc]. *)
Definition innerStep (doc : DocumentInput) (st : list DocumentInput * gset string)
    (otherDoc : DocumentInput) : list DocumentInput * gset string :=
  if bool_decide (documentId otherDoc ∈ st.2) then st
  else if hasOverlap doc otherDoc
       then (st.1 ++ [otherDoc], {[documentId otherDoc]} ∪ st.2)
       else st.

(** One pass of the outer loop over [doc]. *)
Definition outerStep (docArray : list DocumentInput)
    (st : list (list DocumentInput) * gset string) (doc : DocumentInput)
    : list (list DocumentInput) * gset string :=
  if bool_decide (documentId doc ∈ st.2) then st
  else
    let r := fold_left (innerStep doc) docArray ([doc], {[documentId doc]} ∪ st.2) in
    if (1 <? length r.1)%nat then (st.1 ++ [r.1], r.2) else (st.1, r.2).

Record Grouping := mkGrouping {
  relatedGroups : list (list DocumentInput);
  unrelated : list DocumentInput
}.

(** Group related documents by overlapping entities. *)
Definition groupRelatedDocuments (documents : list DocumentInput) : Grouping :=
  let docArray := uniqueDocuments documents in
  let r := fold_left (outerStep docArray) docArray ([], ∅) in
  mkGrouping r.1 (List.filter (fun d => negb (bool_decide (documentId d ∈ r.2))) docArray).

(** [[...new Set(ids)]]. *)
Definition dedupe (ids : list string) : list string :=
  fold_left (fun acc x => if existsb (String.eqb x) acc then acc else acc ++ [x]) ids [].

Definition listLine (label : string) (l : option (list string)) : string :=
  match l with
  | Some ((_ :: _) as items) => label +:+ JsString.join ", " items +:+ nl
  | _ => EmptyString
  end.

Definition falseRedactionsSummary (fr : option FalseRedactions) : string :=
  match fr with
  | Some r =>
      match found r with
      | Some true =>
          nl +:+ "False Redactions (Hidden Text Found):" +:+ nl
          +:+ match totalHiddenWords r with
              | Some ((S _) as n) =>
                  "Total hidden words recovered: " +:+ JsString.decimal n +:+ nl
              | _ => EmptyString
              end
          +:+ listLine "Hidden words: " (hiddenWords r)
          +:+ listLine "Hidden phrases: " (hiddenPhrases r)
      | _ => EmptyString
      end
  | None => EmptyString
  end.

Definition documentSummary (docId : string) (doc : DocumentInput) : string :=
  "Document: " +:+ docId +:+ nl
  +:+ match JsString.orElse (summary doc) None with
      | Some s => "Summary: " +:+ s +:+ nl
      | None => EmptyString
      end
  +:+ listLine "People: " (names doc)
  +:+ listLine "Places: " (places doc)
  +:+ listLine "Dates: " (dates doc)
  +:+ falseRedactionsSummary (falseRedactions doc).

(** Create document summary for dialogue. *)
Definition createDocumentSummary (documents : list DocumentInput) : string :=
  let uniqueIds := dedupe (map documentId documents) in
  JsString.join (nl +:+ "---" +:+ nl)
    (omap (fun docId =>
             match List.find (fun d => String.eqb (documentId d) docId) documents with
             | Some doc => Some (documentSummary docId doc)
             | None => None
             end) uniqueIds).

(** Concatenate using ffmpeg for proper duration metadata. *)
Definition concatenateWithFfmpeg (inputFiles : list string) (outputPath : string) : M unit :=
  let listPath := outputPath +:+ ".txt" in
  Fs.writeFileSync listPath (list_byte_of_string (listContent inputFiles)) ;;;
  tryFinally
    (execFfmpegConcat inputFiles outputPath ;;;
     present <- Fs.existsSync outputPath ;;
     if present then (Fs.statSync_size outputPath ;;; ret tt)
     else throw "ffmpeg did not create output file")
    (removeListFile listPath).

(** Simple buffer concatenation fallback. *)
Fixpoint readAll (files : list string) : M (list (list Byte.byte)) :=
  match files with
  | [] => ret []
  | f :: rest => b <- Fs.readFileSync f ;; bs <- readAll rest ;; ret (b :: bs)
  end.

Definition concatenateSimple (inputFiles : list string) (outputPath : string) : M unit :=
  buffers <- readAll inputFiles ;;
  Fs.writeFileSync outputPath (concat buffers).

(** Concatenate multiple audio files into one using ffmpeg. *)
Definition concatenateAudioFiles (inputFiles : list string) (outputPath : string) : M unit :=
  w <- get ;;
  let existingFiles := existingFilesOf w inputFiles in
  match existingFiles with
  | [] => throw "No audio files to concatenate"
  | _ =>
      ffmpegAvailable <- checkFfmpegAvailable ;;
      if ffmpegAvailable then concatenateWithFfmpeg existingFiles outputPath
      else concatenateSimple existingFiles outputPath
  end.

Section Run.

Variable investigation : string.
Variable targetLengthSeconds : Q.
Variable onProgress : option (GenerationProgress -> M unit).
Variable outputDir : string.
Variable speakers : (string * Config.Speaker) * (string * Config.Speaker).

Definition commentParams (who : Config.Speaker) (documentContent : string)
    (previousComment : option string) (dialogueSoFar : list DialogueTurn)
    (isIntro isOutro : bool) (openingLine closingLine : option string)
    : InvestigatorCommentParams :=
  mkInvestigatorParams (Config.speakerName who) (Config.speakerField alias who)
    (Config.speakerField tone who) (Config.speakerField humorStyle who)
    documentContent previousComment dialogueSoFar investigation
    isIntro isOutro openingLine closingLine.

(** The body of the inner [for] loop: one content turn. *)
Definition contentTurn (groupSummary : string) (st : LoopState) : M LoopState :=
  let who := speakerAt speakers (currentSpeakerIndex st) in
  let previousTurn := last (dialogue st) in
  comment <- generateInvestigatorComment
               (commentParams who.2 groupSummary (text <$> previousTurn) (dialogue st)
                  false false None None) ;;
  let dialogue' := dialogue st ++ [mkTurn who.1 comment] in
  audio <- synthesizeDialogueTurn comment who.1 outputDir (turnIndex st) ;;
  ret (mkLoop dialogue' (audioFiles st ++ [audio])
              (currentDuration st + estimateAudioDuration comment)
              (S (turnIndex st)) (S (currentSpeakerIndex st))).

(** [for (let j = 0; j < 2 && currentDuration < targetLengthSeconds * 0.8; j++)],
    with [remaining = 2 - j]. *)
Fixpoint groupTurns (remaining : nat) (groupSummary : string) (st : LoopState)
    : M LoopState :=
  match remaining with
  | O => ret st
  | S k =>
      if below (currentDuration st) targetLengthSeconds 0.8
      then st' <- contentTurn groupSummary st ;; groupTurns k groupSummary st'
      else ret st
  end.

(** [for (let i = 0; i < relatedGroups.length && currentDuration <
    targetLengthSeconds * 0.8; i++)], with [groups] the groups from index
    [i] on and [total = relatedGroups.length]. *)
Fixpoint groupLoop (i total : nat) (groups : list (list DocumentInput)) (st : LoopState)
    : M LoopState :=
  match groups with
  | [] => ret st
  | group :: rest =>
      if below (currentDuration st) targetLengthSeconds 0.8 then
        let groupSummary := createDocumentSummary group in
        callOpt onProgress
          (mkProgress "analyzing"
             ("Analyzing document group " +:+ JsString.decimal (i + 1) +:+ " of "
              +:+ JsString.decimal total)
             (Some (turnIndex st)) None) ;;;
        st' <- groupTurns 2 groupSummary st ;;
        groupLoop (S i) total rest st'
      else ret st
  end.

End Run.

(** The [try] block of [generateInvestigativeReport]. *)
Definition generate (documents : list DocumentInput) (investigation : string)
    (selectedInvestigators : list string) (targetLengthSeconds : Q)
    (onProgress : option (GenerationProgress -> M unit))
    (reportId outputDir finalOutputPath : string) : M GenerationResult :=
  let investigator1Key := nth 0 selectedInvestigators "undefined" in
  let investigator2Key := nth 1 selectedInvestigators "undefined" in
  let speaker1 := Config.lookupOr investigator1Key Config.reporter in
  let speaker2 := Config.lookupOr investigator2Key Config.privateEye in
  let params := commentParams investigation in
  callOpt onProgress
    (mkProgress "preparing"
       (Config.speakerName speaker1 +:+ " and " +:+ Config.speakerName speaker2
        +:+ " are beginning the investigation") None None) ;;;
  let documentOverview := createDocumentSummary documents in
  let grouping := groupRelatedDocuments documents in
  (* Step 1: opening *)
  callOpt onProgress
    (mkProgress "generating" (Config.speakerName speaker1 +:+ " is setting the stage")
       (Some 1%nat) None) ;;;
  openingLine <- pickLine (Config.speakerLines openingLines speaker1) ;;
  openingComment <- generateInvestigatorComment
                      (params speaker1 documentOverview None [] true false openingLine None) ;;
  let dialogue1 := [mkTurn investigator1Key openingComment] in
  openingAudio <- synthesizeDialogueTurn openingComment investigator1Key outputDir 0 ;;
  let duration1 := 0 + estimateAudioDuration openingComment in
  (* Step 2: initial response *)
  callOpt onProgress
    (mkProgress "generating" (Config.speakerName speaker2 +:+ " is analyzing the evidence")
       (Some 2%nat) None) ;;;
  initialResponse <- generateInvestigatorComment
                       (params speaker2 documentOverview (Some openingComment) dialogue1
                          false false None None) ;;
  let dialogue2 := dialogue1 ++ [mkTurn investigator2Key initialResponse] in
  responseAudio <- synthesizeDialogueTurn initialResponse investigator2Key outputDir 1 ;;
  let duration2 := duration1 + estimateAudioDuration initialResponse in
  (* Step 3: document groups *)
  let speakers := ((investigator1Key, speaker1), (investigator2Key, speaker2)) in
  st <- groupLoop investigation targetLengthSeconds onProgress outputDir speakers
          0 (length (relatedGroups grouping)) (relatedGroups grouping)
          (mkLoop dialogue2 [openingAudio; responseAudio] duration2 2 0) ;;
  (* Step 4: closing *)
  callOpt onProgress
    (mkProgress "concluding"
       (Config.speakerName speaker1 +:+ " is wrapping up the investigation") None None) ;;;
  closingLine <- pickLine (Config.speakerLines closingLines speaker1) ;;
  closingComment <- generateInvestigatorComment
                      (params speaker1 documentOverview (text <$> last (dialogue st))
                         (dialogue st) false true None closingLine) ;;
  let dialogue3 := dialogue st ++ [mkTurn investigator1Key closingComment] in
  closingAudio <- synthesizeDialogueTurn closingComment investigator1Key outputDir
                    (turnIndex st) ;;
  (* Step 5: concatenate *)
  callOpt onProgress (mkProgress "finalizing" "Combining audio segments" None None) ;;;
  concatenateAudioFiles (audioFiles st ++ [closingAudio]) finalOutputPath ;;;
  t <- generateTitle dialogue3 [Config.speakerName speaker1; Config.speakerName speaker2] ;;
  tg <- generateTags dialogue3 ;;
  tryCatch (Fs.rmSync outputDir) (fun _ => ret tt) ;;;
  callOpt onProgress (mkProgress "complete" "Investigation complete" None None) ;;;
  ret (completeResult reportId t tg).

(** Generate investigative report from documents. *)
Definition generateInvestigativeReport (documents : list DocumentInput)
    (investigation : option string) (selectedInvestigators : option (list string))
    (targetLengthSeconds : option Q)
    (onProgress : option (GenerationProgress -> M unit)) : M GenerationResult :=
  let investigation := default "Document Investigation" investigation in
  let selectedInvestigators := default ["reporter"; "privateEye"] selectedInvestigators in
  let targetLengthSeconds := default 300%Q targetLengthSeconds in
  w <- get ;;
  let reportId := generateReportId documents investigation in
  let outputDir := Path.join (AUDIO_DIR w) reportId in
  let finalOutputPath := Path.join (AUDIO_DIR w) (reportId +:+ ".mp3") in
  cached <- Fs.existsSync finalOutputPath ;;
  if cached then ret (cachedResult reportId)
  else
    present <- Fs.existsSync outputDir ;;
    (if present then ret tt else Fs.mkdirSync outputDir) ;;;
    tryCatch
      (generate documents investigation selectedInvestigators targetLengthSeconds
         onProgress reportId outputDir finalOutputPath)
      (fun msg => cleanupOnError outputDir ;;; ret (failedResult msg)).

(** Check if a report exists. *)
Definition reportExists (reportId : string) : M bool :=
  w <- get ;;
  let filePath := Path.join (AUDIO_DIR w) (reportId +:+ ".mp3") in
  Fs.existsSync filePath.

(** Get report file path ([None] is [null]). *)
Definition getReportPath (reportId : string) : M (option string) :=
  w <- get ;;
  let filePath := Path.join (AUDIO_DIR w) reportId in
  present <- Fs.existsSync filePath ;;
  if present then ret (Some filePath) else ret None.

(** Get audio directory path. *)
Definition getAudioDirectory : M string := w <- get ;; ret (AUDIO_DIR w).

End Report.

(* ===================================================================== *)
(** ** podcast.ts                                                        *)
(* ===================================================================== *)

Module Podcast.

(** Generate a unique podcast ID based on content. *)
Definition podcastKey (arts : list Article) (hosts : list string) : string :=
  JsString.join ","
    (map (fun a => default (article_id a)
                     (JsString.orElse (article_url a)
                        (JsString.orElse (article_title a) None))) arts)
  +:+ JsString.join "," hosts.

Definition generatePodcastId (arts : list Article) (hosts : list string) : string :=
  JsString.take 16 (Sha256.hex (podcastKey arts hosts)).

Definition articleSummary (a : Article) : string :=
  match JsString.orElse (article_title a) None with
  | Some t => "Title: " +:+ t +:+ nl
  | None => EmptyString
  end
  +:+ match JsString.orElse (article_summary a) None with
      | Some s => "Summary: " +:+ s +:+ nl
      | None => EmptyString
      end
  +:+ (if JsString.truthy (article_content a) then
         let maxLength := 1500%nat in
         let c := if (maxLength <? String.length (article_content a))%nat
                  then JsString.take maxLength (article_content a) +:+ "..."
                  else article_content a in
         "Content: " +:+ c +:+ nl
       else EmptyString).

(** Create content summary for dialogue. *)
Definition createContentSummary (arts : list Article) : string :=
  JsString.join (nl +:+ "---" +:+ nl) (map articleSummary arts).

Definition concatenateWithFfmpeg (inputFiles : list string) (outputPath : string) : M unit :=
  let listPath := outputPath +:+ ".txt" in
  Fs.writeFileSync listPath (list_byte_of_string (listContent inputFiles)) ;;;
  tryFinally (execFfmpegConcat inputFiles outputPath) (removeListFile listPath).

(** Concatenate multiple audio files into one using ffmpeg. *)
Definition concatenateAudioFiles (inputFiles : list string) (outputPath : string) : M unit :=
  w <- get ;;
  let existingFiles := existingFilesOf w inputFiles in
  match existingFiles with
  | [] => throw "No audio files to concatenate"
  | _ =>
      ffmpegAvailable <- checkFfmpegAvailable ;;
      if ffmpegAvailable then concatenateWithFfmpeg existingFiles outputPath
      else
        buffers <- Report.readAll existingFiles ;;
        Fs.writeFileSync outputPath (concat buffers)
  end.

Section Run.

Variable arts : list Article.
Variable targetLengthSeconds : Q.
Variable onProgress : option (GenerationProgress -> M unit).
Variable outputDir : string.
Variable speakers : (string * Config.Speaker) * (string * Config.Speaker).

Definition commentParams (who : Config.Speaker) (articleContent : string)
    (previousComment : option string) (dialogueSoFar : list DialogueTurn)
    (isIntro isOutro : bool) (openingLine closingLine : option string)
    : HostCommentParams :=
  mkHostParams (Config.speakerName who) (Config.speakerField alias who)
    (Config.speakerField tone who) (Config.speakerField humorStyle who)
    articleContent previousComment dialogueSoFar isIntro isOutro openingLine closingLine.

(** The body of the [while] loop up to the increments. *)
Definition contentTurn (st : LoopState) : M LoopState :=
  let who := speakerAt speakers (currentSpeakerIndex st) in
  let previousTurn := last (dialogue st) in
  callOpt onProgress
    (mkProgress "generating" (Config.speakerName who.2 +:+ " is speaking...")
       (Some (turnIndex st)) None) ;;;
  articleIndex <- randomIndex (length arts) ;;
  match nth_error arts articleIndex with
  | None => throw "Cannot read properties of undefined (reading 'title')"
  | Some article =>
      let focusedContent := createContentSummary [article] in
      comment <- generateHostComment
                   (commentParams who.2 focusedContent (text <$> previousTurn)
                      (dialogue st) false false None None) ;;
      let dialogue' := dialogue st ++ [mkTurn who.1 comment] in
      audio <- synthesizeDialogueTurn comment who.1 outputDir (turnIndex st) ;;
      ret (mkLoop dialogue' (audioFiles st ++ [audio])
                  (currentDuration st + estimateAudioDuration comment)
                  (S (turnIndex st)) (S (currentSpeakerIndex st)))
  end.

(** [while (currentDuration < targetLengthSeconds * 0.75) { ...;
    if (turnIndex > 20) break; }].  Each evaluation of the loop condition
    uses one unit of [fuel]; the result is [None] when the loop is cut off
    for lack of fuel, [Some] of the variables at the exit otherwise. *)
Fixpoint contentLoop (fuel : nat) (st : LoopState) : M (option LoopState) :=
  match fuel with
  | O => ret None
  | S f =>
      if below (currentDuration st) targetLengthSeconds 0.75 then
        st' <- contentTurn st ;;
        if (20 <? turnIndex st')%nat then ret (Some st') else contentLoop f st'
      else ret (Some st)
  end.

End Run.

(** What follows the [while] loop in the [try] block. *)
Definition finish (onProgress : option (GenerationProgress -> M unit))
    (host1Key : string) (speaker1 speaker2 : Config.Speaker) (contentOverview : string)
    (podcastId outputDir finalOutputPath : string) (st : LoopState) : M GenerationResult :=
  (* Step 4: closing *)
  callOpt onProgress
    (mkProgress "concluding" (Config.speakerName speaker1 +:+ " is wrapping up") None None) ;;;
  closingLine <- pickLine (Config.speakerLines closingLines speaker1) ;;
  closingComment <- generateHostComment
                      (commentParams speaker1 contentOverview (text <$> last (dialogue st))
                         (dialogue st) false true None closingLine) ;;
  let dialogue3 := dialogue st ++ [mkTurn host1Key closingComment] in
  closingAudio <- synthesizeDialogueTurn closingComment host1Key outputDir (turnIndex st) ;;
  (* Step 5: concatenate *)
  callOpt onProgress (mkProgress "finalizing" "Combining audio segments" None None) ;;;
  concatenateAudioFiles (audioFiles st ++ [closingAudio]) finalOutputPath ;;;
  t <- generateTitle dialogue3 [Config.speakerName speaker1; Config.speakerName speaker2] ;;
  tg <- generateTags dialogue3 ;;
  tryCatch (Fs.rmSync outputDir) (fun _ => ret tt) ;;;
  callOpt onProgress (mkProgress "complete" "Podcast complete" None None) ;;;
  ret (completeResult podcastId t tg).

(** The [try] block of [generatePodcast]; [None] when the loop ran out of
    fuel. *)
Definition generate (fuel : nat) (arts : list Article) (selectedHosts : list string)
    (targetLengthSeconds : Q) (onProgress : option (GenerationProgress -> M unit))
    (podcastId outputDir finalOutputPath : string) : M (option GenerationResult) :=
  let host1Key := nth 0 selectedHosts "undefined" in
  let host2Key := nth 1 selectedHosts "undefined" in
  let speaker1 := Config.lookupOr host1Key Config.host1 in
  let speaker2 := Config.lookupOr host2Key Config.host2 in
  callOpt onProgress
    (mkProgress "preparing"
       (Config.speakerName speaker1 +:+ " and " +:+ Config.speakerName speaker2
        +:+ " are preparing the podcast") None None) ;;;
  let contentOverview := createContentSummary arts in
  (* Step 1: opening *)
  callOpt onProgress
    (mkProgress "generating" (Config.speakerName speaker1 +:+ " is opening the show")
       (Some 1%nat) None) ;;;
  openingLine <- pickLine (Config.speakerLines openingLines speaker1) ;;
  openingComment <- generateHostComment
                      (commentParams speaker1 contentOverview None [] true false
                         openingLine None) ;;
  let dialogue1 := [mkTurn host1Key openingComment] in
  openingAudio <- synthesizeDialogueTurn openingComment host1Key outputDir 0 ;;
  let duration1 := 0 + estimateAudioDuration openingComment in
  (* Step 2: initial response *)
  callOpt onProgress
    (mkProgress "generating" (Config.speakerName speaker2 +:+ " is joining the conversation")
       (Some 2%nat) None) ;;;
  initialResponse <- generateHostComment
                       (commentParams speaker2 contentOverview (Some openingComment)
                          dialogue1 false false None None) ;;
  let dialogue2 := dialogue1 ++ [mkTurn host2Key initialResponse] in
  responseAudio <- synthesizeDialogueTurn initialResponse host2Key outputDir 1 ;;
  let duration2 := duration1 + estimateAudioDuration initialResponse in
  (* Step 3: continue the conversation *)
  let speakers := ((host1Key, speaker1), (host2Key, speaker2)) in
  exit <- contentLoop arts targetLengthSeconds onProgress outputDir speakers fuel
            (mkLoop dialogue2 [openingAudio; responseAudio] duration2 2 0) ;;
  match exit with
  | None => ret None
  | Some st =>
      r <- finish onProgress host1Key speaker1 speaker2 contentOverview
             podcastId outputDir finalOutputPath st ;;
      ret (Some r)
  end.

(** Generate podcast from articles.  [fuel] bounds the evaluations of the
    condition of the [while] loop; the result is [None] when it does not
    suffice. *)
Definition generatePodcast (fuel : nat) (request : PodcastRequest)
    (onProgress : option (GenerationProgress -> M unit)) : M (option GenerationResult) :=
  let arts := articles request in
  let hosts := default ["host1"; "host2"] (selectedHosts request) in
  let targetLengthSeconds := default 300%Q (podcast_targetLengthSeconds request) in
  w <- get ;;
  let podcastId := generatePodcastId arts hosts in
  let outputDir := Path.join (AUDIO_DIR w) podcastId in
  let finalOutputPath := Path.join (AUDIO_DIR w) (podcastId +:+ ".mp3") in
  cached <- Fs.existsSync finalOutputPath ;;
  if cached then ret (Some (cachedResult podcastId))
  else
    present <- Fs.existsSync outputDir ;;
    (if present then ret tt else Fs.mkdirSync outputDir) ;;;
    tryCatch
      (generate fuel arts hosts targetLengthSeconds onProgress
         podcastId outputDir finalOutputPath)
      (fun msg => cleanupOnError outputDir ;;; ret (Some (failedResult msg))).

(** Check if a podcast exists. *)
Definition podcastExists (podcastId : string) : M bool :=
  w <- get ;;
  let filePath := Path.join (AUDIO_DIR w) (podcastId +:+ ".mp3") in
  Fs.existsSync filePath.

(** Get podcast file path ([None] is [null]). *)
Definition getPodcastPath (podcastId : string) : M (option string) :=
  w <- get ;;
  let filePath := Path.join (AUDIO_DIR w) podcastId in
  present <- Fs.existsSync filePath ;;
  if present then ret (Some filePath) else ret None.

End Podcast.

(* ===================================================================== *)
(** ** app/api/generate/investigative-report/route.ts                    *)
(* ===================================================================== *)

Module ReportRoute.

(** The [documents] field of the parsed request body. *)
Inductive DocumentsField :=
| DocsUndefined
| DocsNotArray (v : Js.Json)
| DocsArray (docs : list DocumentInput).

(** The parsed body.  A body that is a number, a string, a boolean or an
    array destructures like an object without any of the fields. *)
Record BodyFields := mkBody {
  body_documents : DocumentsField;
  body_investigation : option string;
  body_selectedInvestigators : option (list string);
  body_targetLengthSeconds : option Q
}.

Inductive RequestBody :=
| BodyNotJson
| BodyNull
| BodyValue (b : BodyFields).

Definition closedMessage : string := "Invalid state: Controller is already closed".

(** The event of the keep-alive timer:
    [sendEvent('ping', { message: 'Connection alive' })]. *)
Definition pingEvent : SseEvent :=
  mkSse "ping" [("message", Some (Js.JStr "Connection alive"))].

(** How often the timer has fired during the waits that the queue does not
    yet account for: the calls of the trace from index [keepAliveFrom] on. *)
Definition firings (w : World) : nat :=
  match keepAliveFrom w with
  | Some from => list_sum (map (keepAlive w) (seq from (length (trace w) - from)))
  | None => 0%nat
  end.

(** The pings of these firings enter the queue (the timer is cleared
    before the stream is closed; on a closed stream its callback would throw
    and enqueue nothing). *)
Definition deliverPings (w : World) : World :=
  match keepAliveFrom w with
  | None => w
  | Some _ =>
      with_keepAliveFrom
        (if sseClosed w then w
         else with_sse w (sseQueue w ++ repeat pingEvent (firings w)) false)
        (Some (length (trace w)))
  end.

(** [setInterval(..., 15000)], when the body has been read: the firings so
    far are in the queue. *)
Definition startKeepAlive : M unit :=
  modify (fun w => with_keepAliveFrom w (Some (length (trace w)))).

(** [clearInterval(keepAliveInterval)]. *)
Definition clearInterval : M unit :=
  modify (fun w => with_keepAliveFrom (deliverPings w) None).

(** [controller.enqueue(encoder.encode(message))]; [data] lists the fields
    that [JSON.stringify] keeps (those that are not [undefined]). *)
Definition sendEvent (event : string) (data : list (string * Js.Value)) : M unit :=
  modify deliverPings ;;;
  w <- get ;;
  if sseClosed w then throw closedMessage
  else modify (fun w =>
         with_sse w (sseQueue w ++
                       [mkSse event (List.filter (fun kv => match kv.2 with
                                                       | Some _ => true
                                                       | None => false
                                                       end) data)])
                  false).

(** [controller.close()]: a second call throws. *)
Definition controllerClose : M unit :=
  w <- get ;;
  if sseClosed w then throw closedMessage
  else modify (fun w => with_sse w (sseQueue w) true).

Definition jstr (s : string) : Js.Value := Some (Js.JStr s).
Definition jnum (n : option nat) : Js.Value :=
  (fun k => Js.JNum (inject_Z (Z.of_nat k))) <$> n.

Definition progressEvent (progress : GenerationProgress) : M unit :=
  sendEvent "investigationUpdate"
    [("status", jstr (status progress)); ("message", jstr (message progress));
     ("currentStep", jnum (currentStep progress));
     ("totalSteps", jnum (totalSteps progress))].

(** [!documents || !Array.isArray(documents) || documents.length === 0]. *)
Definition documentsInvalid (d : DocumentsField) : bool :=
  match d with
  | DocsUndefined | DocsNotArray _ | DocsArray [] => true
  | DocsArray (_ :: _) => false
  end.

(** The [try] block of [start]. *)
Definition handle (body : RequestBody) : M unit :=
  match body with
  | BodyNotJson => throw "Unexpected token in JSON"
  | BodyNull => throw "Cannot destructure property 'documents' of 'body' as it is null."
  | BodyValue b =>
      match body_documents b with
      | DocsArray (d :: ds) =>
          sendEvent "generatingReport"
            [("message", jstr "Starting investigative report generation")] ;;;
          result <- Report.generateInvestigativeReport (d :: ds)
                      (Some (default "Document Investigation" (body_investigation b)))
                      (Some (default ["reporter"; "privateEye"] (body_selectedInvestigators b)))
                      (Some (default 300%Q (body_targetLengthSeconds b)))
                      (Some progressEvent) ;;
          if success result then
            sendEvent "reportComplete"
              [("message", jstr "Investigative report generation complete!");
               ("reportFile", Js.JStr <$> audioFile result);
               ("audioUrl", Js.JStr <$> audioUrl result);
               ("title", Js.JStr <$> title result);
               ("tags", (fun l => Js.JArr (map Js.JStr l)) <$> tags result)]
          else
            sendEvent "error"
              [("message", jstr (default "Failed to generate report"
                                   (JsString.orElse (error result) None)))]
      | _ =>
          sendEvent "error" [("message", jstr "Documents are required")] ;;;
          clearInterval ;;;
          controllerClose
      end
  end.

(** The [start] callback of the response stream, from the point where the
    body has been read: the keep-alive timer is running, then [try],
    [catch] and [finally].  An exception of [start] is its outcome. *)
Definition POST (body : RequestBody) : M unit :=
  startKeepAlive ;;;
  tryFinally
    (tryCatch (handle body) (fun msg => sendEvent "error" [("message", jstr msg)]))
    (clearInterval ;;; controllerClose).

(** How the stream ends for the reader of the response. *)
Inductive StreamEnd :=
| StillOpen
| EndOfStream
| StreamError (reason : string).

(** What the reader of the response gets, when it had taken [taken] chunks
    by the time [start] settled.  A [start] that returns leaves the queue to
    be read to its end.  A [start] that throws makes the platform error the
    stream, which drops the chunks that are still queued; only a stream that
    is closed already (close was called and the reader had taken every
    chunk) stays as it is. *)
Definition received (taken : nat) (r : Outcome unit * World)
    : list SseEvent * StreamEnd :=
  match r.1 with
  | Returned _ => (sseQueue r.2, if sseClosed r.2 then EndOfStream else StillOpen)
  | Thrown reason =>
      if sseClosed r.2 && (length (sseQueue r.2) <=? taken)%nat
      then (sseQueue r.2, EndOfStream)
      else (firstn taken (sseQueue r.2), StreamError reason)
  end.

End ReportRoute.

(* ===================================================================== *)
(** ** app/api/generate/media/route.ts                                   *)
(* ===================================================================== *)

Module MediaRoute.

Inductive Response :=
| JsonError (status : nat) (error : string)
| Audio (contentType : string) (contentLength : nat) (body : list Byte.byte).

Definition lowerChar (c : ascii) : ascii :=
  let n := nat_of_ascii c in
  if ((65 <=? n) && (n <=? 90)
      || (192 <=? n) && (n <=? 222) && negb (n =? 215))%nat
  then ascii_of_nat (n + 32) else c.

Fixpoint toLowerCase (s : string) : string :=
  match s with
  | EmptyString => EmptyString
  | String c rest => String (lowerChar c) (toLowerCase rest)
  end.

(** [contentTypes[ext] || 'application/octet-stream']. *)
Definition contentTypeOf (ext : string) : string :=
  if String.eqb ext ".mp3" then "audio/mpeg"
  else if String.eqb ext ".wav" then "audio/wav"
  else if String.eqb ext ".ogg" then "audio/ogg"
  else if String.eqb ext ".flac" then "audio/flac"
  else "application/octet-stream".

(** [GET]: [id] is [searchParams.get('id')] ([None] for [null]). *)
Definition GET (id : option string) : M Response :=
  match JsString.orElse id None with
  | None => ret (JsonError 400 "Missing id parameter")
  | Some id =>
      let sanitizedId := Path.basename id in
      w <- get ;;
      let audioDir := AUDIO_DIR w in
      let filePath := Path.join audioDir sanitizedId in
      present <- Fs.existsSync filePath ;;
      if negb present then ret (JsonError 404 "File not found")
      else
        let resolvedPath := Path.resolve (cwd w) filePath in
        let resolvedAudioDir := Path.resolve (cwd w) audioDir in
        if negb (JsString.startsWith resolvedPath resolvedAudioDir)
        then ret (JsonError 403 "Invalid path")
        else
          size <- Fs.statSync_size filePath ;;
          fileBuffer <- Fs.readFileSync filePath ;;
          let ext := toLowerCase (Path.extname sanitizedId) in
          ret (Audio (contentTypeOf ext) size fileBuffer)
  end.

End MediaRoute.

(* ===================================================================== *)
(** ** Sample inputs and worlds                                          *)
(* ===================================================================== *)

Module Samples.

(** A well-formed chat-completion body with the given assistant text. *)
Definition completion (s : string) : Js.Json :=
  Js.JObj [("choices",
            Js.JArr [Js.JObj [("message", Js.JObj [("content", Js.JStr s)])]])].

(** An ffmpeg that joins its inputs, and fails when one of them cannot be
    read. *)
Definition joinInputs (inputs : list (option (list Byte.byte))) : FfmpegRun :=
  match mapM id inputs with
  | Some contents => mkFfmpegRun None (Some (concat contents))
  | None => mkFfmpegRun (Some "No such file or directory") None
  end.

(** A host with both credentials, an empty audio directory under [/app],
    no ffmpeg, a chat endpoint that always answers [reply] and a speech
    endpoint that always answers one byte of audio. *)
Definition worldReplying (reply : string) : World :=
  mkWorld "/app"
    (<["XAI_API_KEY" := "xai-key"]> (<["ELEVENLABS_API_KEY" := "el-key"]> ∅))
    (<["/app" := FsDir]> (<["/app/generated-audio" := FsDir]> ∅))
    (fun _ _ => Resolved (mkChatResponse 200 EmptyString (Some (completion reply))))
    (fun _ _ => Resolved (mkTtsResponse 200 EmptyString [Byte.x01]))
    false joinInputs
    (fun n => n) 0 [] [] false (fun _ => 0%nat) None.

Definition world : World := worldReplying "Noted.".

(** The same host without network: every fetch is rejected. *)
Definition offlineWorld : World :=
  mkWorld (cwd world) (env world) (fs world)
    (fun _ _ => Rejected "fetch failed") (fun _ _ => Rejected "fetch failed")
    false (ffmpeg world) (random world) 0 [] [] false (fun _ => 0%nat) None.

Definition document (id : string) (people : list string) : DocumentInput :=
  mkDocument id None None (Some people) None None None.

Definition twoDocuments : list DocumentInput :=
  [document "doc-1" ["Oswald"]; document "doc-2" ["Oswald"]].

Definition article : Article :=
  mkArticle "a1" (Some "Release notes") None "The archive released new files." None.

Definition podcastRequest : PodcastRequest :=
  mkPodcastRequest [article] None (Some 60%Q).

(** [world] after an earlier run left its two finished files. *)
Definition reportFile : string :=
  Path.join (AUDIO_DIR world)
    (Report.generateReportId twoDocuments "Document Investigation" +:+ ".mp3").
Definition podcastFile : string :=
  Path.join (AUDIO_DIR world)
    (Podcast.generatePodcastId [article] ["host1"; "host2"] +:+ ".mp3").

Definition cachedWorld : World :=
  with_fs world (<[reportFile := FsFile [Byte.x01]]>
                   (<[podcastFile := FsFile [Byte.x02]]> (fs world))).

(** Eleven pairs of documents; the two documents of pair [k] share a name
    that no other document has. *)
Definition pairOfDocuments (k : nat) : list DocumentInput :=
  let person := "person-" +:+ JsString.decimal k in
  [document ("doc-" +:+ JsString.decimal k +:+ "a") [person];
   document ("doc-" +:+ JsString.decimal k +:+ "b") [person]].

Definition elevenPairs : list DocumentInput :=
  flat_map pairOfDocuments (seq 1 11).

Fixpoint repeatString (n : nat) (s : string) : string :=
  match n with
  | O => EmptyString
  | S k => s +:+ repeatString k s
  end.

(** A turn of 6000 characters. *)
Definition longText : string := repeatString 1000 "words ".

(** Two turn files of which only the first exists. *)
Definition worldWithOneTurn : World :=
  with_fs world (<["/app/generated-audio/run/turn-000-host1.mp3" := FsFile [Byte.x0a; Byte.x0b]]>
                   (<["/app/generated-audio/run" := FsDir]> (fs world))).

(** The same with ffmpeg installed, as a program that joins its inputs. *)
Definition withFfmpeg (w : World) : World :=
  mkWorld (cwd w) (env w) (fs w) (chatApi w) (ttsApi w) true (ffmpeg w)
          (random w) (randomCalls w) (trace w) (sseQueue w) (sseClosed w)
          (keepAlive w) (keepAliveFrom w).

(** ffmpeg installed, and exiting with status 1 whatever it is given,
    after it has written the bytes of the inputs it could read. *)
Definition withFailingFfmpeg (w : World) : World :=
  mkWorld (cwd w) (env w) (fs w) (chatApi w) (ttsApi w) true
          (fun inputs =>
             mkFfmpegRun (Some "Invalid data found when processing input")
                         (Some (concat (omap id inputs))))
          (random w) (randomCalls w) (trace w) (sseQueue w) (sseClosed w)
          (keepAlive w) (keepAliveFrom w).

(** The timer fires once while the run waits for its third call. *)
Definition withSlowThirdCall (w : World) : World :=
  mkWorld (cwd w) (env w) (fs w) (chatApi w) (ttsApi w) (ffmpegInstalled w) (ffmpeg w)
          (random w) (randomCalls w) (trace w) (sseQueue w) (sseClosed w)
          (fun n => if (n =? 2)%nat then 1%nat else 0%nat) (keepAliveFrom w).

Definition turnFiles : list string :=
  ["/app/generated-audio/run/turn-000-host1.mp3";
   "/app/generated-audio/run/turn-001-host2.mp3"].

(** A file named [passwd] inside the audio directory. *)
Definition worldWithPasswd : World :=
  with_fs world (<["/app/generated-audio/passwd" := FsFile [Byte.x2a]]> (fs world)).

End Samples.

(* ===================================================================== *)
(** ** Loop invariants of [groupRelatedDocuments]                        *)
(* ===================================================================== *)

(** What the inner loop keeps true of [(group, used)], where [U] is the
    set of used ids before the loop's document was taken. *)
Definition innerInv (U : gset string) (st : list DocumentInput * gset string) : Prop :=
  U ⊆ st.2 /\ NoDup (map documentId st.1) /\ st.1 <> []
  /\ forall x, x ∈ map documentId st.1 -> x ∈ st.2 /\ x ∉ U.

(** What the outer loop keeps true of [(relatedGroups, used)]; [pool] is a
    list that holds every document the loops can pick. *)
Definition outerInv (pool : list DocumentInput)
    (st : list (list DocumentInput) * gset string) : Prop :=
  NoDup (map documentId (concat st.1))
  /\ (forall x, x ∈ map documentId (concat st.1) -> x ∈ st.2)
  /\ Forall (fun group => (2 <= length group)%nat) st.1
  /\ forall d, d ∈ concat st.1 -> d ∈ pool.

(* ===================================================================== *)
(** ** Notions used to state further properties                          *)
(* ===================================================================== *)

(** White space at the start or at the end of a string. *)
Definition startsWithSpace (s : string) : bool :=
  match s with
  | String c _ => JsString.isSpace c
  | EmptyString => false
  end.

Fixpoint endsWithSpace (s : string) : bool :=
  match s with
  | EmptyString => false
  | String c EmptyString => JsString.isSpace c
  | String _ rest => endsWithSpace rest
  end.

(** The character [c] occurs in [s]. *)
Fixpoint occurs (c : ascii) (s : string) : bool :=
  match s with
  | EmptyString => false
  | String x rest => Ascii.eqb x c || occurs c rest
  end.

(** A string of decimal digits and the number it denotes. *)
Definition isDigit (c : ascii) : bool :=
  ((48 <=? nat_of_ascii c) && (nat_of_ascii c <=? 57))%nat.

Fixpoint allDigits (s : string) : bool :=
  match s with
  | EmptyString => true
  | String c rest => isDigit c && allDigits rest
  end.

Fixpoint digitsValue_from (acc : nat) (s : string) : nat :=
  match s with
  | EmptyString => acc
  | String c rest => digitsValue_from (10 * acc + (nat_of_ascii c - 48)) rest
  end.

Definition digitsValue (s : string) : nat := digitsValue_from 0 s.

(** A string of lower-case hexadecimal digits. *)
Definition isHexDigit (c : ascii) : bool :=
  let n := nat_of_ascii c in
  ((48 <=? n) && (n <=? 57) || (97 <=? n) && (n <=? 102))%nat.

Fixpoint allHex (s : string) : bool :=
  match s with
  | EmptyString => true
  | String c rest => isHexDigit c && allHex rest
  end.

(** A computation keeps the relation [R] when [R] holds between the world
    it starts in and the world it ends in, however it ends. *)
Definition keeps {A} (R : World -> World -> Prop) (m : M A) : Prop :=
  forall w, R w (m w).2.

(** The files are the same. *)
Definition sameFiles (w w' : World) : Prop := fs w' = fs w.

(** The process is the same: working directory and environment. *)
Definition sameProcess (w w' : World) : Prop := cwd w' = cwd w /\ env w' = env w.

(** A group as the loops of [groupRelatedDocuments] build it: a first
    document, then documents that each share a name, a place or a date
    with the first one. *)
Definition groupedAround (group : list DocumentInput) : Prop :=
  match group with
  | [] => False
  | first :: others =>
      Forall (fun other => Report.hasOverlap first other = true) others
  end.

(** A progress callback that leaves the files and the process alone. *)
Definition quiet (onProgress : option (GenerationProgress -> M unit)) : Prop :=
  forall cb p, onProgress = Some cb ->
    keeps sameFiles (cb p) /\ keeps sameProcess (cb p).

(** The requests made to the two HTTP APIs are the same, one by one. *)
Definition sameCalls (w w' : World) : Prop :=
  chatCalls w' = chatCalls w /\ ttsCalls w' = ttsCalls w.

(** A computation makes at most [c] chat requests and at most [t] speech
    requests, however it ends. *)
Definition costs {A} (c t : nat) (m : M A) : Prop :=
  forall w, (length (chatCalls (m w).2) <= length (chatCalls w) + c)%nat
            /\ (length (ttsCalls (m w).2) <= length (ttsCalls w) + t)%nat.

(** A progress callback that makes no request. *)
Definition silent (onProgress : option (GenerationProgress -> M unit)) : Prop :=
  forall cb p, onProgress = Some cb -> costs 0 0 (cb p).

(** The trace only grows: what was recorded stays recorded. *)
Definition traceGrows (w w' : World) : Prop := exists more, trace w' = trace w ++ more.

(** The texts sent to the speech API so far. *)
Definition spokenTexts (w : World) : list string :=
  flat_map (fun e => match e with TtsCall req _ => [tts_text req] | _ => [] end) (trace w).

(** The events of the report route: those that report progress, those
    that end a request, and the pings of the keep-alive timer. *)
Definition isProgressEvent (e : SseEvent) : Prop :=
  sse_event e = "generatingReport" \/ sse_event e = "investigationUpdate".

Definition isFinalEvent (e : SseEvent) : Prop :=
  sse_event e = "reportComplete" \/ sse_event e = "error".

Definition isPing (e : SseEvent) : bool := String.eqb (sse_event e) "ping".

(** The queue accounts for every firing of the keep-alive timer so far: the
    timer is not set, or no call was waited for since the queue was last
    brought up to date. *)
Definition upToDate (w : World) : Prop :=
  match keepAliveFrom w with
  | Some from => from = length (trace w)
  | None => True
  end.

(** The event stream stays open, and what is added are progress events
    and pings. *)
Definition streamGrows (w w' : World) : Prop :=
  sseClosed w = false ->
  sseClosed w' = false
  /\ exists events,
       sseQueue w' = sseQueue w ++ events
       /\ Forall (fun e => isProgressEvent e \/ isPing e = true) events.

(** The trace only grows; and along a stretch without any call, an open
    stream that is up to date stays so and receives progress events only. *)
Definition streamGrowsQuietly (w w' : World) : Prop :=
  traceGrows w w'
  /\ (sseClosed w = false -> upToDate w -> trace w' = trace w ->
      sseClosed w' = false /\ upToDate w'
      /\ exists events, sseQueue w' = sseQueue w ++ events /\ Forall isProgressEvent events).

(** A body with which the handler of the report route stops at the
    validation of [documents]. *)
Definition stopsAtValidation (body : ReportRoute.RequestBody) : bool :=
  match body with
  | ReportRoute.BodyValue b => ReportRoute.documentsInvalid (ReportRoute.body_documents b)
  | _ => false
  end.

(** The run of ffmpeg that [concatenateWithFfmpeg] starts on [files]:
    ffmpeg finds the world in which the list file has been written. *)
Definition ffmpegRunOn (w : World) (files : list string) (outputPath : string) : FfmpegRun :=
  let listed :=
    with_fs w (<[outputPath +:+ ".txt" := FsFile (list_byte_of_string (listContent files))]>
                 (fs w)) in
  ffmpeg w (map (fileContent listed) files).

(** [writeFileSync] can write to [p]: no directory is in its way, and the
    directory of [p] exists. *)
Definition writable (w : World) (p : string) : Prop :=
  fs w !! p <> Some FsDir /\ fs w !! Path.dirname p = Some FsDir.

(** Modelled from the spec: the identifier is a hash of the identifiers of
    the inputs plus a second part (the participant keys); here in the words
    of the amended claim C2.  Of each input the first candidate that is a
    non-empty string is taken; the parts are separated by commas; the hash
    is shortened to its first 16 hexadecimal digits. *)
Module Described.

Fixpoint firstNonEmpty (candidates : list (option string)) (otherwise : string) : string :=
  match candidates with
  | [] => otherwise
  | Some (String c rest) :: _ => String c rest
  | _ :: others => firstNonEmpty others otherwise
  end.

Definition commaSeparated (parts : list string) : string :=
  match parts with
  | [] => EmptyString
  | first :: others => fold_left (fun sofar part => sofar +:+ "," +:+ part) others first
  end.

Definition identifier (inputIds : list string) (secondPart : string) : string :=
  string_of_list_ascii
    (firstn 16 (list_ascii_of_string (Sha256.hex (commaSeparated inputIds +:+ secondPart)))).

Definition reportIdentifier (documents : list DocumentInput) (investigation : string)
    : string :=
  identifier (map (fun d => firstNonEmpty [Some (documentId d); url d] "doc") documents)
             investigation.

Definition podcastIdentifier (arts : list Article) (hosts : list string) : string :=
  identifier (map (fun a => firstNonEmpty [article_url a; article_title a] (article_id a))
                  arts)
             (commaSeparated hosts).

End Described.

(* ===================================================================== *)
(** * Properties                                                         *)
(* ===================================================================== *)

Ltac Zify.zify_post_hook ::= Z.to_euclidean_division_equations.

(** ** estimateAudioDuration *)

Lemma split_ws_from_length (s cur : string) (inRun : bool) :
  (1 <= length (JsString.split_ws_from cur inRun s))%nat.
Proof.
  revert cur inRun.
  induction s as [|c rest IH]; intros cur inRun; simpl.
  - lia.
  - destruct (JsString.isSpace c); [destruct inRun|]; simpl; auto with arith.
Qed.

Lemma wordCount_pos (text : string) : (1 <= wordCount text)%nat.
Proof. apply split_ws_from_length. Qed.

Lemma ceiling_of_words (n : Z) :
  Qceiling (inject_Z n / 2.5) = (2 * n + 4) / 5.
Proof.
  unfold Qceiling, Qfloor, Qdiv, Qmult, Qinv, Qopp, inject_Z. simpl.
  lia.
Qed.

(** C4 (as amended): the estimate is the ceiling of the number of pieces of
    [text.split(/\s+/)] divided by 2.5.  It is an integer, at least 1, the
    least one that is not below the quotient, and a function of the number
    of pieces alone. *)
Theorem estimateAudioDuration_ceiling (t : string) :
  let words := Z.of_nat (wordCount t) in
  let d := estimateAudioDuration t in
  1 <= words /\ d = (2 * words + 4) / 5 /\ 1 <= d
  /\ (inject_Z words / 2.5 <= inject_Z d)%Q
  /\ (inject_Z d < inject_Z words / 2.5 + 1)%Q.
Proof.
  intros words d.
  assert (Hw : 1 <= words) by (pose proof (wordCount_pos t); lia).
  assert (Hd : d = (2 * words + 4) / 5) by apply ceiling_of_words.
  repeat split; try assumption.
  - lia.
  - apply Qle_ceiling.
  - pose proof (Qceiling_lt (inject_Z words / 2.5)) as H.
    fold words in H. change (Qceiling (inject_Z words / 2.5)) with d in H.
    unfold Z.sub in H. rewrite inject_Z_plus in H.
    apply Qplus_lt_l with (z := (- (1))%Q).
    ring_simplify. ring_simplify in H. exact H.
Qed.

(** C4 (as stated) fails: a one-word text is estimated at 1 second, while
    its word count divided by 2.5 is 2/5. *)
Lemma estimateAudioDuration_not_quotient :
  ~ (inject_Z (estimateAudioDuration "hello")
     == inject_Z (Z.of_nat (wordCount "hello")) / 2.5)%Q.
Proof. vm_compute. discriminate. Qed.

(** ** The monad *)

Lemma bind_Returned_inv {A B} (m : M A) (k : A -> M B) (w w' : World) (b : B) :
  bind m k w = (Returned b, w') ->
  exists a w1, m w = (Returned a, w1) /\ k a w1 = (Returned b, w').
Proof.
  unfold bind. destruct (m w) as [[a|msg] w1]; intros H.
  - exists a, w1. split; [reflexivity | exact H].
  - discriminate H.
Qed.

Lemma bind_Returned {A B} (m : M A) (k : A -> M B) (w w1 : World) (a : A) :
  m w = (Returned a, w1) -> bind m k w = k a w1.
Proof. intros H. unfold bind. rewrite H. reflexivity. Qed.

Lemma bind_Thrown {A B} (m : M A) (k : A -> M B) (w w1 : World) (msg : string) :
  m w = (Thrown msg, w1) -> bind m k w = (Thrown msg, w1).
Proof. intros H. unfold bind. rewrite H. reflexivity. Qed.

(** ** generateText *)

Lemma truthy_Some_inv (v : Js.Value) : Js.truthy v = true -> exists j, v = Some j.
Proof. destruct v as [j|]; [eauto | discriminate]. Qed.

Lemma readContent_truthy (data : Js.Json) (w : World) :
  Js.truthy (choiceContent data) = true ->
  exists v, choiceContent data = Some v /\ readContent data w = (Returned v, w).
Proof.
  intros Ht. destruct (truthy_Some_inv _ Ht) as [v Hv]. exists v. split; [exact Hv|].
  unfold readContent. destruct data; try discriminate Hv;
    rewrite Hv; rewrite Hv in Ht; rewrite Ht; reflexivity.
Qed.

Lemma readContent_falsy (data : Js.Json) (w : World) :
  Js.truthy (choiceContent data) = false ->
  exists msg, readContent data w = (Thrown msg, w).
Proof.
  intros Ht. unfold readContent.
  destruct data; try (eexists; reflexivity);
    destruct (choiceContent _) as [v|] eqn:Hc; try (eexists; reflexivity);
    rewrite Ht; eexists; reflexivity.
Qed.

(** C7 (as amended): [generateText] raises exactly when the credential is
    missing or empty, the fetch itself is rejected, the status is not a
    success, the body is not JSON, or [choices[0].message.content] is
    missing or falsy.  Otherwise it returns that content.  It sends one
    request when the credential is there and none otherwise: no retry. *)
Theorem generateText_raises_iff (userPrompt : string) (options : GenerateTextOptions)
    (w : World) :
  let r := generateText userPrompt options w in
  ((exists msg, r.1 = Thrown msg) <-> is_Some (textFailure userPrompt options w))
  /\ (forall v, r.1 = Returned v <->
        textFailure userPrompt options w = None
        /\ exists key response data,
             JsString.orElse (env w !! "XAI_API_KEY") None = Some key
             /\ chatApi w (length (chatCalls w)) (chatRequest key userPrompt options)
                = Resolved response
             /\ chat_json response = Some data /\ choiceContent data = Some v)
  /\ match JsString.orElse (env w !! "XAI_API_KEY") None with
     | None => r.2 = w
     | Some key =>
         r.2 = with_trace w (trace w ++ [ChatCall (chatRequest key userPrompt options)])
     end.
Proof.
  unfold generateText, textFailure, getenv, fetchChat, log, modify, get, ret, throw, bind.
  cbn [fst snd].
  destruct (JsString.orElse (env w !! "XAI_API_KEY") None) as [key|] eqn:Hkey; cbn.
  2:{ split; [|split]; [split; eauto| |reflexivity].
      intros v. split; [discriminate | intros [H _]; discriminate H]. }
  set (req := chatRequest key userPrompt options).
  destruct (chatApi w (length (chatCalls w)) req) as [reason|response] eqn:Hfetch; cbn.
  { split; [|split]; [split; eauto| |reflexivity].
    intros v. split; [discriminate | intros [H _]; discriminate H]. }
  destruct (http_ok (chat_status response)) eqn:Hok; cbn.
  2:{ split; [|split]; [split; eauto| |reflexivity].
      intros v. split; [discriminate | intros [H _]; discriminate H]. }
  destruct (chat_json response) as [data|] eqn:Hjson; cbn.
  2:{ split; [|split]; [split; eauto| |reflexivity].
      intros v. split; [discriminate | intros [H _]; discriminate H]. }
  set (w1 := with_trace w (trace w ++ [ChatCall req])).
  destruct (Js.truthy (choiceContent data)) eqn:Htruthy.
  - destruct (readContent_truthy data w1 Htruthy) as (j & Hj & ->).
    cbn. split; [|split]; [| |reflexivity].
    + split; [intros [msg H]; discriminate H | intros [x Hx]; discriminate Hx].
    + intros v. split.
      * intros H. injection H as <-. split; [reflexivity|].
        exists key, response, data. auto.
      * intros [_ (key' & response' & data' & Hk & Hf & Hd & Hc)].
        injection Hk as <-. fold req in Hf. rewrite Hfetch in Hf. injection Hf as <-.
        rewrite Hjson in Hd. injection Hd as <-. rewrite Hj in Hc. injection Hc as <-.
        reflexivity.
  - destruct (readContent_falsy data w1 Htruthy) as (msg & ->).
    cbn. split; [|split]; [| |reflexivity].
    + split; eauto.
    + intros v. split; [discriminate | intros [H _]; discriminate H].
Qed.

(** C7 (as stated) fails: with the credential configured and no HTTP
    response at all (the fetch is rejected), [generateText] raises. *)
Lemma generateText_raises_when_fetch_rejected :
  let w := Samples.offlineWorld in
  (exists msg, (generateText "hello" (mkOptions None None None) w).1 = Thrown msg)
  /\ env w !! "XAI_API_KEY" = Some "xai-key"
  /\ (forall n req response, chatApi w n req <> Resolved response).
Proof.
  cbv zeta. split; [|split].
  - exists "fetch failed". vm_compute. reflexivity.
  - vm_compute. reflexivity.
  - intros n req response. discriminate.
Qed.

(** ** synthesizeDialogueTurn *)

Lemma take_length (n : nat) (s : string) :
  String.length (JsString.take n s) = Nat.min n (String.length s).
Proof.
  revert s. induction n as [|k IH]; intros [|c rest]; simpl; auto.
Qed.

Lemma take_prefix (n : nat) (s : string) :
  exists rest, s = JsString.take n s +:+ rest.
Proof.
  revert s. induction n as [|k IH]; intros s.
  - exists s. destruct s; reflexivity.
  - destruct s as [|c rest].
    + exists EmptyString. reflexivity.
    + destruct (IH rest) as [r Hr]. exists r.
      change (String c rest = String c (JsString.take k rest +:+ r)).
      f_equal. exact Hr.
Qed.

Lemma take_all (n : nat) (s : string) :
  (String.length s <= n)%nat -> JsString.take n s = s.
Proof.
  revert s. induction n as [|k IH]; intros [|c rest]; simpl; intros H; try reflexivity.
  - lia.
  - f_equal. apply IH. lia.
Qed.

Lemma existsSync_run (p : string) (w : World) :
  Fs.existsSync p w = (Returned (match fs w !! p with Some _ => true | None => false end), w).
Proof. reflexivity. Qed.

Lemma mkdirSync_trace (p : string) (w : World) :
  trace (Fs.mkdirSync p w).2 = trace w.
Proof.
  unfold Fs.mkdirSync, bind, get, throw, modify.
  destruct (existsb _ _); reflexivity.
Qed.

Lemma writeFileSync_trace (p : string) (data : list Byte.byte) (w : World) :
  trace (Fs.writeFileSync p data w).2 = trace w.
Proof.
  unfold Fs.writeFileSync, bind, get, throw, modify. cbn.
  destruct (fs w !! p) as [[|]|]; try reflexivity;
    destruct (fs w !! Path.dirname p) as [[|]|]; reflexivity.
Qed.

Lemma fetchAndSave_trace (req : TtsRequest) (p : string) (w : World) :
  let r := fetchAndSave req p w in
  trace r.2 = trace w ++ [TtsCall req p]
  /\ (r.1 = Returned p \/ exists msg, r.1 = Thrown msg).
Proof.
  unfold fetchAndSave, fetchTts, log, modify, get, ret, throw, bind. cbn [fst snd].
  destruct (ttsApi w (length (ttsCalls w)) req) as [reason|response]; cbn [fst snd].
  { split; [reflexivity | right; eexists; reflexivity]. }
  destruct (http_ok (tts_status response)); cbn [fst snd negb].
  2:{ split; [reflexivity | right; eexists; reflexivity]. }
  destruct (tts_audio response) as [|b audio]; cbn [fst snd].
  { split; [reflexivity | right; eexists; reflexivity]. }
  set (w1 := with_trace w (trace w ++ [TtsCall req p])).
  pose proof (writeFileSync_trace p (b :: audio) w1) as Ht.
  destruct (Fs.writeFileSync p (b :: audio) w1) as [[[]|msg] w2]; cbn in *.
  - split; [exact Ht | left; reflexivity].
  - split; [exact Ht | right; eexists; reflexivity].
Qed.

(** What a call of [synthesizeSpeech] adds to the trace: nothing when it
    raises before the fetch, one request with the given text otherwise. *)
Lemma synthesizeSpeech_trace (t : string) (v : Voice) (p : string) (w : World) :
  let r := synthesizeSpeech t v p w in
  (trace r.2 = trace w /\ exists msg, r.1 = Thrown msg)
  \/ (exists req, trace r.2 = trace w ++ [TtsCall req p] /\ tts_text req = t
                  /\ (r.1 = Returned p \/ exists msg, r.1 = Thrown msg)).
Proof.
  unfold synthesizeSpeech, getenv, Fs.existsSync, get, ret, throw, bind. cbn [fst snd].
  destruct (JsString.orElse (env w !! "ELEVENLABS_API_KEY") None) as [key|].
  2:{ left. split; [reflexivity | eexists; reflexivity]. }
  set (req := ttsRequest key t v).
  destruct (fs w !! Path.dirname p) as [node|]; cbn [fst snd].
  - right. exists req.
    destruct (fetchAndSave_trace req p w) as [Ht Ho]. cbn in Ht, Ho.
    split; [exact Ht | split; [reflexivity | exact Ho]].
  - pose proof (mkdirSync_trace (Path.dirname p) w) as Hmk.
    destruct (Fs.mkdirSync (Path.dirname p) w) as [[[]|msg] w1]; cbn in Hmk |- *.
    + right. exists req.
      destruct (fetchAndSave_trace req p w1) as [Ht Ho]. cbn in Ht, Ho.
      rewrite Hmk in Ht. split; [exact Ht | split; [reflexivity | exact Ho]].
    + left. split; [exact Hmk | eexists; reflexivity].
Qed.

(** C9: a turn longer than 5000 characters is cut to its first 5000
    characters before synthesis, a shorter one is passed on whole.  Every
    request the call makes carries that text, and a call that returns has
    made exactly one request. *)
Theorem synthesizeDialogueTurn_truncates (t speakerId outputDir : string)
    (turn : nat) (w : World) :
  let r := synthesizeDialogueTurn t speakerId outputDir turn w in
  let sent := if (String.length t <=? 5000)%nat then t else JsString.take 5000 t in
  ((trace r.2 = trace w /\ exists msg, r.1 = Thrown msg)
   \/ exists req path, trace r.2 = trace w ++ [TtsCall req path] /\ tts_text req = sent)
  /\ (forall path, r.1 = Returned path ->
        exists req, trace r.2 = trace w ++ [TtsCall req path] /\ tts_text req = sent)
  /\ ((String.length t <= 5000)%nat -> sent = t)
  /\ ((5000 < String.length t)%nat ->
        String.length sent = 5000%nat /\ exists rest, t = sent +:+ rest).
Proof.
  intros r sent.
  assert (Hr : exists v p, r = synthesizeSpeech sent v p w).
  { subst r sent. unfold synthesizeDialogueTurn, maxChunkLength.
    destruct (String.length t <=? 5000)%nat; eauto. }
  destruct Hr as (v & p & Hr).
  pose proof (synthesizeSpeech_trace sent v p w) as Htr. cbv zeta in Htr. rewrite <- Hr in Htr.
  split; [|split; [|split]].
  - destruct Htr as [Hl | (req & Ht & Htext & _)]; [left; exact Hl|].
    right. exists req, p. auto.
  - intros path Hret.
    destruct Htr as [[_ [msg Hm]] | (req & Ht & Htext & Ho)].
    + rewrite Hret in Hm. discriminate Hm.
    + destruct Ho as [Ho | [msg Hm]].
      * rewrite Hret in Ho. injection Ho as ->. exists req. auto.
      * rewrite Hret in Hm. discriminate Hm.
  - intros Hle. subst sent. apply Nat.leb_le in Hle. rewrite Hle. reflexivity.
  - intros Hlt. subst sent.
    assert (Hb : (String.length t <=? 5000)%nat = false) by (apply Nat.leb_gt; exact Hlt).
    rewrite Hb. split.
    + rewrite take_length. lia.
    + apply take_prefix.
Qed.

(** A turn of 6000 characters in the sample world: the synthesis succeeds
    and its one request carries the first 5000 characters. *)
Lemma synthesizeDialogueTurn_truncates_witness :
  exists req path,
    trace (synthesizeDialogueTurn Samples.longText "host1" "/app/generated-audio/run" 2
             Samples.world).2 = [TtsCall req path]
    /\ String.length (tts_text req) = 5000%nat
    /\ String.length Samples.longText = 6000%nat.
Proof.
  destruct (synthesizeDialogueTurn_truncates Samples.longText "host1"
              "/app/generated-audio/run" 2 Samples.world) as (_ & Hret & _ & Hlong).
  destruct (Hret "/app/generated-audio/run/turn-002-host1.mp3") as (req & Ht & Htext).
  { vm_compute. reflexivity. }
  exists req, "/app/generated-audio/run/turn-002-host1.mp3".
  split; [exact Ht|]. split; [|vm_compute; reflexivity].
  rewrite Htext. apply Hlong. vm_compute. lia.
Defined.

(** ** The cache check of the two generators *)

(** C1: when the finished file [<id>.mp3] of the run's identifier exists in
    the audio directory, both generators return at once with that file and
    its URL, and leave the world as it was: no request to either API (the
    trace is unchanged) and no directory created (the file system is
    unchanged). *)
Theorem cached_output_returned_immediately (w : World)
    (documents : list DocumentInput) (investigation : option string)
    (selectedInvestigators : option (list string)) (target : option Q)
    (onProgress : option (GenerationProgress -> M unit))
    (fuel : nat) (request : PodcastRequest) :
  let reportId :=
    Report.generateReportId documents (default "Document Investigation" investigation) in
  let podcastId :=
    Podcast.generatePodcastId (articles request)
      (default ["host1"; "host2"] (selectedHosts request)) in
  (is_Some (fs w !! Path.join (AUDIO_DIR w) (reportId +:+ ".mp3")) ->
   Report.generateInvestigativeReport documents investigation selectedInvestigators
     target onProgress w
   = (Returned (mkResult true (Some (reportId +:+ ".mp3"))
                  (Some ("/api/generate/media?id=" +:+ reportId +:+ ".mp3"))
                  None None None), w))
  /\ (is_Some (fs w !! Path.join (AUDIO_DIR w) (podcastId +:+ ".mp3")) ->
      Podcast.generatePodcast fuel request onProgress w
      = (Returned (Some (mkResult true (Some (podcastId +:+ ".mp3"))
                           (Some ("/api/generate/media?id=" +:+ podcastId +:+ ".mp3"))
                           None None None)), w)).
Proof.
  intros reportId podcastId. split; intros [node Hnode].
  - unfold Report.generateInvestigativeReport, Fs.existsSync, get, ret, bind.
    cbn [fst snd]. fold reportId. rewrite Hnode. reflexivity.
  - unfold Podcast.generatePodcast, Fs.existsSync, get, ret, bind.
    cbn [fst snd]. fold podcastId. rewrite Hnode. reflexivity.
Qed.

(** A second run in the world an earlier run left: both finished files are
    found and returned, and nothing else happens. *)
Lemma cached_output_witness :
  Report.generateInvestigativeReport Samples.twoDocuments None None None None
    Samples.cachedWorld
  = (Returned (cachedResult "f8ec3809663b680c"), Samples.cachedWorld)
  /\ Podcast.generatePodcast 0 Samples.podcastRequest None Samples.cachedWorld
     = (Returned (Some (cachedResult "0733be09cf6c6213")), Samples.cachedWorld).
Proof.
  destruct (cached_output_returned_immediately Samples.cachedWorld Samples.twoDocuments
              None None None None 0 Samples.podcastRequest) as [Hreport Hpodcast].
  split.
  - apply Hreport. vm_compute. eauto.
  - apply Hpodcast. vm_compute. eauto.
Defined.

(** A complete run followed by a second run for the same input: the second
    returns the file the first produced and makes no request. *)
Lemma second_run_returns_first_output :
  let first := Report.generateInvestigativeReport Samples.twoDocuments None None
                 (Some 10%Q) None Samples.world in
  let second := Report.generateInvestigativeReport Samples.twoDocuments None None
                  (Some 10%Q) None first.2 in
  (exists result, first.1 = Returned result
                  /\ audioFile result = Some "f8ec3809663b680c.mp3")
  /\ second.1 = Returned (cachedResult "f8ec3809663b680c")
  /\ trace second.2 = trace first.2.
Proof.
  cbv zeta. split; [|split].
  - eexists. split; [vm_compute; reflexivity | reflexivity].
  - vm_compute. reflexivity.
  - vm_compute. reflexivity.
Qed.
(** ** The validation of the investigative-report route *)

(** An open stream that is up to date has nothing to receive from the
    timer. *)
Lemma firings_upToDate (w : World) : upToDate w -> ReportRoute.firings w = 0%nat.
Proof.
  unfold upToDate, ReportRoute.firings. destruct (keepAliveFrom w) as [from|]; [|reflexivity].
  intros ->. rewrite Nat.sub_diag. reflexivity.
Qed.

Lemma deliverPings_upToDate (w : World) :
  sseClosed w = false -> upToDate w -> ReportRoute.deliverPings w = w.
Proof.
  intros Hopen Hup. unfold ReportRoute.deliverPings.
  rewrite (firings_upToDate w Hup). unfold upToDate in Hup.
  destruct w as [c e f ca ta fi ff r rc t q cl ka from]. cbn in *.
  destruct from as [from|]; [|reflexivity]. subst. cbn. rewrite app_nil_r. reflexivity.
Qed.

(** What [deliverPings] changes: the queue, by pings, and the index from
    which the timer's firings are still to be delivered. *)
Lemma deliverPings_spec (w : World) :
  let w' := ReportRoute.deliverPings w in
  upToDate w' /\ sseClosed w' = sseClosed w /\ trace w' = trace w /\ fs w' = fs w
  /\ env w' = env w /\ cwd w' = cwd w /\ keepAlive w' = keepAlive w
  /\ (is_Some (keepAliveFrom w) <-> is_Some (keepAliveFrom w'))
  /\ exists pings, sseQueue w' = sseQueue w ++ pings /\ Forall (fun e => isPing e = true) pings.
Proof.
  cbv zeta. unfold ReportRoute.deliverPings, upToDate.
  destruct (keepAliveFrom w) as [from|] eqn:E.
  - destruct (sseClosed w) eqn:Hc; cbn; rewrite ?Hc; split_and!; auto.
    + split; eauto.
    + exists []. rewrite app_nil_r. split; [reflexivity | constructor].
    + split; eauto.
    + eexists. split; [reflexivity|].
      induction (ReportRoute.firings w) as [|n IH]; cbn; constructor; auto.
  - rewrite E. split_and!; auto.
    exists []. rewrite app_nil_r. split; [reflexivity | constructor].
Qed.

(** [sendEvent] on an open stream: the pending pings, then the event. *)
Lemma sendEvent_open (event : string) (data : list (string * Js.Value)) (w : World) :
  sseClosed w = false ->
  exists e w',
    sse_event e = event
    /\ sse_data e = List.filter (fun kv => match kv.2 with Some _ => true | None => false end)
                      data
    /\ ReportRoute.sendEvent event data w = (Returned tt, w')
    /\ w' = with_sse (ReportRoute.deliverPings w)
              (sseQueue (ReportRoute.deliverPings w) ++ [e]) false.
Proof.
  intros Hopen. unfold ReportRoute.sendEvent, bind, get, throw, modify. cbn [fst snd].
  destruct (deliverPings_spec w) as (_ & Hc & _). cbv zeta in Hc.
  rewrite Hc, Hopen.
  exists (mkSse event (List.filter (fun kv => match kv.2 with
                                             | Some _ => true
                                             | None => false
                                             end) data)).
  eexists. split_and!; reflexivity.
Qed.

(** On a stream that is up to date, [sendEvent] adds its event alone. *)
Lemma sendEvent_upToDate (event : string) (data : list (string * Js.Value)) (w : World) :
  sseClosed w = false -> upToDate w ->
  ReportRoute.sendEvent event data w
  = (Returned tt,
     with_sse w (sseQueue w ++
                   [mkSse event (List.filter (fun kv => match kv.2 with
                                                   | Some _ => true
                                                   | None => false
                                                   end) data)]) false).
Proof.
  intros Hopen Hup. unfold ReportRoute.sendEvent, bind, get, throw, modify. cbn [fst snd].
  rewrite (deliverPings_upToDate w Hopen Hup), Hopen. reflexivity.
Qed.

Lemma firstn_within {A} (n : nat) (l more : list A) :
  (n <= length l)%nat -> firstn n (l ++ more) = firstn n l.
Proof.
  intros H. rewrite firstn_app. replace (n - length l)%nat with 0%nat by lia.
  cbn. apply app_nil_r.
Qed.




(** With valid documents the same handler does reach the two APIs: the
    validation is what keeps the calls from happening. *)
Lemma valid_documents_reach_the_apis :
  let r := ReportRoute.POST
             (ReportRoute.BodyValue
                (ReportRoute.mkBody (ReportRoute.DocsArray Samples.twoDocuments)
                   None None (Some 10%Q))) Samples.world in
  length (chatCalls r.2) = 7%nat /\ length (ttsCalls r.2) = 5%nat
  /\ sseClosed r.2 = true.
Proof. vm_compute. repeat split. Qed.

(** ** concatenateAudioFiles *)

Lemma existingFilesOf_idempotent (w : World) (l : list string) :
  existingFilesOf w (existingFilesOf w l) = existingFilesOf w l.
Proof.
  unfold existingFilesOf. induction l as [|f rest IH]; simpl; [reflexivity|].
  destruct (fs w !! f) eqn:Hf; simpl; rewrite ?Hf, IH; reflexivity.
Qed.

Lemma string_length_append (a b : string) :
  String.length (a +:+ b) = (String.length a + String.length b)%nat.
Proof. induction a as [|c a IH]; simpl; [reflexivity | rewrite IH; reflexivity]. Qed.

Lemma append_txt_neq (p : string) : p +:+ ".txt" <> p.
Proof.
  intros H. apply (f_equal String.length) in H.
  rewrite string_length_append in H. simpl in H. lia.
Qed.

Lemma writeFileSync_cases (p : string) (data : list Byte.byte) (w : World) :
  (exists msg, Fs.writeFileSync p data w = (Thrown msg, w))
  \/ Fs.writeFileSync p data w = (Returned tt, with_fs w (<[p := FsFile data]> (fs w))).
Proof.
  unfold Fs.writeFileSync, bind, get, throw, modify. cbn [fst snd].
  destruct (fs w !! p) as [[old|]|];
    try (left; eexists; reflexivity);
    destruct (fs w !! Path.dirname p) as [[d|]|];
    first [right; reflexivity | left; eexists; reflexivity].
Qed.

(** Running ffmpeg: the call is recorded, what ffmpeg wrote is at the
    output path, and the promise rejects on a non-zero exit. *)
Lemma execFfmpegConcat_run (inputs : list string) (out : string) (w : World) :
  let run := ffmpeg w (map (fileContent w) inputs) in
  let w1 := with_trace w (trace w ++ [FfmpegCall inputs out]) in
  execFfmpegConcat inputs out w
  = (match ffmpeg_failure run with
     | Some stderr => Thrown ("Command failed: ffmpeg " +:+ stderr)
     | None => Returned tt
     end,
     match ffmpeg_output run with
     | Some data => with_fs w1 (<[out := FsFile data]> (fs w))
     | None => w1
     end).
Proof.
  cbv zeta. unfold execFfmpegConcat, log, modify, get, bind, ret, throw. cbn [fst snd].
  destruct (ffmpeg_output _), (ffmpeg_failure _); reflexivity.
Qed.

(** The [finally] block on a world that holds the list file. *)
Lemma removeListFile_removes (listPath : string) (data : list Byte.byte) (w : World) :
  fs w !! listPath = Some (FsFile data) ->
  removeListFile listPath w = (Returned tt, with_fs w (delete listPath (fs w))).
Proof.
  intros H.
  unfold removeListFile, Fs.existsSync, Fs.unlinkSync, bind, get, ret, throw, modify.
  cbn [fst snd]. rewrite H. cbn [fst snd]. rewrite H. reflexivity.
Qed.

Lemma writeFileSync_writable (p : string) (data : list Byte.byte) (w : World) :
  writable w p ->
  Fs.writeFileSync p data w = (Returned tt, with_fs w (<[p := FsFile data]> (fs w))).
Proof.
  intros [Hnodir Hparent].
  unfold Fs.writeFileSync, bind, get, throw, modify. cbn [fst snd]. rewrite Hparent.
  destruct (fs w !! p) as [[old|]|]; try reflexivity. contradiction.
Qed.

(** Both copies of [concatenateWithFfmpeg], once the list file is written:
    the outcome is that of ffmpeg (the report's copy also wants the output
    path to exist), the list file is gone, the output path holds what
    ffmpeg wrote, or else what it held before, and no other path has
    changed. *)
Lemma concatenateWithFfmpeg_run (files : list string) (out : string) (w : World) :
  Fs.writeFileSync (out +:+ ".txt") (list_byte_of_string (listContent files)) w
  = (Returned tt,
     with_fs w (<[out +:+ ".txt" := FsFile (list_byte_of_string (listContent files))]>
                  (fs w))) ->
  let run := ffmpegRunOn w files out in
  let report := Report.concatenateWithFfmpeg files out w in
  let podcast := Podcast.concatenateWithFfmpeg files out w in
  let left := match ffmpeg_output run with
              | Some data => Some (FsFile data)
              | None => fs w !! out
              end in
  podcast.1 = match ffmpeg_failure run with
              | Some stderr => Thrown ("Command failed: ffmpeg " +:+ stderr)
              | None => Returned tt
              end
  /\ report.1 = match ffmpeg_failure run, left with
                | Some stderr, _ => Thrown ("Command failed: ffmpeg " +:+ stderr)
                | None, Some _ => Returned tt
                | None, None => Thrown "ffmpeg did not create output file"
                end
  /\ report.2 = podcast.2
  /\ fs report.2 !! out = left
  /\ fs report.2 !! (out +:+ ".txt") = None
  /\ (forall p, p <> out -> p <> out +:+ ".txt" -> fs report.2 !! p = fs w !! p)
  /\ cwd report.2 = cwd w
  /\ trace report.2 = trace w ++ [FfmpegCall files out].
Proof.
  intros Hw. cbv zeta.
  assert (Hne : out +:+ ".txt" <> out) by apply append_txt_neq.
  unfold Report.concatenateWithFfmpeg, Podcast.concatenateWithFfmpeg, ffmpegRunOn.
  rewrite !(bind_Returned _ _ _ _ _ Hw).
  set (w1 := with_fs w _).
  pose proof (execFfmpegConcat_run files out w1) as Hexec. cbv zeta in Hexec.
  change (ffmpeg w1) with (ffmpeg w) in Hexec.
  set (run := ffmpeg w (map (fileContent w1) files)) in *.
  set (w2 := match ffmpeg_output run with
             | Some data => _
             | None => _
             end) in Hexec.
  set (left := match ffmpeg_output run with
               | Some data => Some (FsFile data)
               | None => fs w !! out
               end).
  assert (Hout2 : fs w2 !! out = left).
  { subst w2 left. destruct (ffmpeg_output run) as [data|]; cbn.
    - apply lookup_insert_eq.
    - apply lookup_insert_ne. exact Hne. }
  assert (Hlist2 : fs w2 !! (out +:+ ".txt")
                   = Some (FsFile (list_byte_of_string (listContent files)))).
  { subst w2. destruct (ffmpeg_output run) as [data|]; cbn.
    - rewrite lookup_insert_ne by congruence. apply lookup_insert_eq.
    - apply lookup_insert_eq. }
  assert (Hother2 : forall p, p <> out -> p <> out +:+ ".txt" -> fs w2 !! p = fs w !! p).
  { intros p Hp1 Hp2. subst w2. destruct (ffmpeg_output run) as [data|]; cbn;
      rewrite ?lookup_insert_ne by congruence; reflexivity. }
  assert (Hrest2 : cwd w2 = cwd w /\ trace w2 = trace w ++ [FfmpegCall files out]).
  { subst w2. destruct (ffmpeg_output run) as [data|]; split; reflexivity. }
  assert (Hfinally : removeListFile (out +:+ ".txt") w2
                     = (Returned tt, with_fs w2 (delete (out +:+ ".txt") (fs w2))))
    by (eapply removeListFile_removes; exact Hlist2).
  assert (Hbody : (execFfmpegConcat files out ;;;
                   present <- Fs.existsSync out ;;
                   if present then (Fs.statSync_size out ;;; ret tt)
                   else throw "ffmpeg did not create output file") w1
                  = (match ffmpeg_failure run, left with
                     | Some stderr, _ => Thrown ("Command failed: ffmpeg " +:+ stderr)
                     | None, Some _ => Returned tt
                     | None, None => Thrown "ffmpeg did not create output file"
                     end, w2)).
  { destruct (ffmpeg_failure run) as [stderr|].
    - rewrite (bind_Thrown _ _ _ _ _ Hexec). reflexivity.
    - rewrite (bind_Returned _ _ _ _ _ Hexec).
      unfold Fs.existsSync, Fs.statSync_size, bind, get, ret, throw. cbn [fst snd].
      rewrite Hout2. destruct left as [[d|]|]; cbn [fst snd]; rewrite ?Hout2; reflexivity. }
  unfold tryFinally. rewrite Hbody, Hexec, Hfinally. cbn [fst snd fs with_fs cwd trace].
  rewrite !lookup_delete_ne by exact Hne. rewrite !lookup_delete_eq, Hout2.
  destruct Hrest2 as [Hcwd Htrace].
  split_and!; try reflexivity; auto.
  intros p Hp1 Hp2. rewrite lookup_delete_ne by congruence. auto.
Qed.

Lemma readAll_files (files : list string) (buffers : list (list Byte.byte)) (w : World) :
  Forall2 (fun file buffer => fs w !! file = Some (FsFile buffer)) files buffers ->
  Report.readAll files w = (Returned buffers, w).
Proof.
  induction 1 as [|f b fs' bs Hf _ IH]; [reflexivity|].
  cbn [Report.readAll].
  unfold bind at 1. unfold Fs.readFileSync at 1. unfold bind at 1, get at 1, ret at 1.
  cbn [fst snd]. rewrite Hf. unfold bind at 1. rewrite IH. reflexivity.
Qed.

(** The two copies of [concatenateAudioFiles], by cases. *)
Lemma concatenateAudioFiles_run (inputFiles : list string) (out : string) (w : World) :
  Report.concatenateAudioFiles inputFiles out w
  = match existingFilesOf w inputFiles with
    | [] => (Thrown "No audio files to concatenate", w)
    | f :: rest =>
        if ffmpegInstalled w then Report.concatenateWithFfmpeg (f :: rest) out w
        else Report.concatenateSimple (f :: rest) out w
    end
  /\ Podcast.concatenateAudioFiles inputFiles out w
     = match existingFilesOf w inputFiles with
       | [] => (Thrown "No audio files to concatenate", w)
       | f :: rest =>
           if ffmpegInstalled w then Podcast.concatenateWithFfmpeg (f :: rest) out w
           else Report.concatenateSimple (f :: rest) out w
       end.
Proof.
  split.
  - unfold Report.concatenateAudioFiles, checkFfmpegAvailable.
    unfold bind at 1, get at 1. cbn [fst snd].
    destruct (existingFilesOf w inputFiles); [reflexivity|].
    unfold bind at 1. unfold bind at 1. unfold get at 1, ret at 1. cbn [fst snd].
    destruct (ffmpegInstalled w); reflexivity.
  - unfold Podcast.concatenateAudioFiles, checkFfmpegAvailable.
    unfold bind at 1, get at 1. cbn [fst snd].
    destruct (existingFilesOf w inputFiles); [reflexivity|].
    unfold bind at 1. unfold bind at 1. unfold get at 1, ret at 1. cbn [fst snd].
    destruct (ffmpegInstalled w); reflexivity.
Qed.

(** C5 (as amended): listed files that do not exist are dropped, and the
    merge is made from the files that do.  The step raises when no listed
    file exists.  Without ffmpeg it writes the bytes of the existing files,
    in their order, to the output path.  With ffmpeg it returns when ffmpeg
    has exited with status 0 and left an output file, and it raises when
    ffmpeg exits with another status; what ffmpeg had written to the
    output path by then stays there. *)
Theorem concatenation_uses_existing_files (inputFiles : list string)
    (outputPath : string) (w : World) :
  let existing := existingFilesOf w inputFiles in
  let run := ffmpegRunOn w existing outputPath in
  let report := Report.concatenateAudioFiles inputFiles outputPath w in
  let podcast := Podcast.concatenateAudioFiles inputFiles outputPath w in
  report = Report.concatenateAudioFiles existing outputPath w
  /\ podcast = Podcast.concatenateAudioFiles existing outputPath w
  /\ (existing = [] ->
      report = (Thrown "No audio files to concatenate", w)
      /\ podcast = (Thrown "No audio files to concatenate", w))
  /\ (existing <> [] -> ffmpegInstalled w = false -> writable w outputPath ->
      forall buffers,
        Forall2 (fun file buffer => fs w !! file = Some (FsFile buffer)) existing buffers ->
        report = (Returned tt, with_fs w (<[outputPath := FsFile (concat buffers)]> (fs w)))
        /\ podcast = report)
  /\ (existing <> [] -> ffmpegInstalled w = true -> writable w (outputPath +:+ ".txt") ->
      (forall data, ffmpeg_failure run = None -> ffmpeg_output run = Some data ->
         report.1 = Returned tt /\ podcast.1 = Returned tt
         /\ fs report.2 !! outputPath = Some (FsFile data)
         /\ fs podcast.2 !! outputPath = Some (FsFile data))
      /\ (forall stderr, ffmpeg_failure run = Some stderr ->
            report.1 = Thrown ("Command failed: ffmpeg " +:+ stderr)
            /\ podcast.1 = Thrown ("Command failed: ffmpeg " +:+ stderr)
            /\ fs report.2 !! outputPath
               = match ffmpeg_output run with
                 | Some data => Some (FsFile data)
                 | None => fs w !! outputPath
                 end
            /\ fs podcast.2 !! outputPath = fs report.2 !! outputPath)).
Proof.
  intros existing run report podcast.
  assert (Hself : existingFilesOf w existing = existing)
    by apply existingFilesOf_idempotent.
  destruct (concatenateAudioFiles_run inputFiles outputPath w) as [Hr Hp].
  destruct (concatenateAudioFiles_run existing outputPath w) as [Hr' Hp'].
  rewrite Hself in Hr', Hp'. fold existing in Hr, Hp.
  subst report podcast. rewrite Hr, Hp, Hr', Hp'. clear Hr Hp Hr' Hp'.
  split; [reflexivity|]. split; [reflexivity|]. split; [|split].
  - intros ->. split; reflexivity.
  - intros Hne Hff Hw buffers Hfiles.
    destruct existing as [|f rest] eqn:He; [contradiction|]. rewrite Hff.
    pose proof (readAll_files _ _ w Hfiles) as Hread.
    unfold Report.concatenateSimple. rewrite !(bind_Returned _ _ _ _ _ Hread).
    rewrite (writeFileSync_writable _ _ w Hw). split; reflexivity.
  - intros Hne Hff Hw.
    destruct existing as [|f rest] eqn:He; [contradiction|]. rewrite Hff.
    destruct (concatenateWithFfmpeg_run (f :: rest) outputPath w
                (writeFileSync_writable _ _ w Hw))
      as (Hp1 & Hr1 & Hsame & Hout & _).
    cbv zeta in Hp1, Hr1, Hsame, Hout. fold run in Hp1, Hr1, Hout.
    rewrite <- Hsame. split.
    + intros data Hok Hdata. rewrite Hok, Hdata in *. auto.
    + intros stderr Hfail. rewrite Hfail in *. auto.
Qed.

(** The theorem at two turn files of which the second is missing, with an
    ffmpeg that fails after it has written: the step raises, and what
    ffmpeg wrote is left at the output path. *)
Lemma concatenation_uses_existing_files_witness :
  let w := Samples.withFailingFfmpeg Samples.worldWithOneTurn in
  let r := Report.concatenateAudioFiles Samples.turnFiles "/app/generated-audio/out.mp3" w in
  existingFilesOf w Samples.turnFiles = ["/app/generated-audio/run/turn-000-host1.mp3"]
  /\ r.1 = Thrown "Command failed: ffmpeg Invalid data found when processing input"
  /\ fs r.2 !! "/app/generated-audio/out.mp3" = Some (FsFile [Byte.x0a; Byte.x0b]).
Proof.
  cbv zeta.
  destruct (concatenation_uses_existing_files Samples.turnFiles
              "/app/generated-audio/out.mp3"
              (Samples.withFailingFfmpeg Samples.worldWithOneTurn))
    as (_ & _ & _ & _ & Hffmpeg).
  destruct Hffmpeg as [_ Hfail].
  - vm_compute. discriminate.
  - reflexivity.
  - split; [vm_compute; discriminate | vm_compute; reflexivity].
  - destruct (Hfail "Invalid data found when processing input" eq_refl)
      as (Hthrown & _ & Hout & _).
    split; [vm_compute; reflexivity|]. split; [exact Hthrown|].
    rewrite Hout. vm_compute. reflexivity.
Defined.

(** C5 (as stated) fails: of two listed turn files the second does not
    exist, and the step returns normally with a merged file made from the
    first alone, without ffmpeg (report) and with it (podcast). *)
Lemma concatenation_succeeds_with_missing_file :
  let out := "/app/generated-audio/out.mp3" in
  let w := Samples.worldWithOneTurn in
  fs w !! "/app/generated-audio/run/turn-001-host2.mp3" = None
  /\ (Report.concatenateAudioFiles Samples.turnFiles out w).1 = Returned tt
  /\ fs (Report.concatenateAudioFiles Samples.turnFiles out w).2 !! out
     = Some (FsFile [Byte.x0a; Byte.x0b])
  /\ (Podcast.concatenateAudioFiles Samples.turnFiles out (Samples.withFfmpeg w)).1
     = Returned tt
  /\ fs (Podcast.concatenateAudioFiles Samples.turnFiles out (Samples.withFfmpeg w)).2 !! out
     = Some (FsFile [Byte.x0a; Byte.x0b]).
Proof. cbv zeta. repeat split; vm_compute; reflexivity. Qed.

(** ** The content-derived identifiers *)

Lemma hexWord_length (x : Z) : String.length (Sha256.hexWord x) = 8%nat.
Proof. reflexivity. Qed.

Lemma hex_length (s : string) : String.length (Sha256.hex s) = 64%nat.
Proof.
  unfold Sha256.hex. rewrite !string_length_append, !hexWord_length. reflexivity.
Qed.

(** The part of a document, and of an article, that enters the key. *)
Lemma reportKey_fields (docs1 docs2 : list DocumentInput) (inv : string) :
  map documentId docs1 = map documentId docs2 ->
  map url docs1 = map url docs2 ->
  Report.reportKey docs1 inv = Report.reportKey docs2 inv.
Proof.
  intros Hid Hurl. unfold Report.reportKey. f_equal. f_equal.
  revert docs2 Hid Hurl.
  induction docs1 as [|d1 rest1 IH]; intros [|d2 rest2] Hid Hurl;
    try discriminate Hid; [reflexivity|].
  simpl in *. injection Hid as Hd Hrest. injection Hurl as Hu Hrestu.
  rewrite Hd, Hu. f_equal. apply IH; assumption.
Qed.

Lemma podcastKey_fields (arts1 arts2 : list Article) (hosts : list string) :
  map article_id arts1 = map article_id arts2 ->
  map article_url arts1 = map article_url arts2 ->
  map article_title arts1 = map article_title arts2 ->
  Podcast.podcastKey arts1 hosts = Podcast.podcastKey arts2 hosts.
Proof.
  intros Hid Hurl Htitle. unfold Podcast.podcastKey. f_equal. f_equal.
  revert arts2 Hid Hurl Htitle.
  induction arts1 as [|a1 rest1 IH]; intros [|a2 rest2] Hid Hurl Htitle;
    try discriminate Hid; [reflexivity|].
  simpl in *. injection Hid as Hd Hrest. injection Hurl as Hu Hrestu.
  injection Htitle as Ht Hrestt.
  rewrite Hd, Hu, Ht. f_equal. apply IH; assumption.
Qed.

(** With the sample article, swapping the two host keys does change the
    podcast identifier. *)
Lemma podcast_identifier_changes_with_hosts :
  Podcast.generatePodcastId [Samples.article] ["host1"; "host2"] = "0733be09cf6c6213"
  /\ Podcast.generatePodcastId [Samples.article] ["host2"; "host1"] = "13a728092e9f1076".
Proof. split; vm_compute; reflexivity. Qed.

(** ** groupRelatedDocuments *)

Section Grouping.

Implicit Types (doc other : DocumentInput) (used U : gset string).

Lemma innerStep_inv doc U st other :
  innerInv U st -> innerInv U (Report.innerStep doc st other).
Proof.
  intros (Hsub & Hnd & Hne & Hin). unfold Report.innerStep.
  case_bool_decide as Hused; [unfold innerInv; split_and!; assumption|].
  destruct (Report.hasOverlap doc other); [|unfold innerInv; split_and!; assumption].
  unfold innerInv. cbn [fst snd]. split_and!.
  - set_solver.
  - rewrite map_app. apply NoDup_app. split; [exact Hnd|]. split.
    + intros x Hx Hx'. apply Hin in Hx as [Hx _]. cbn in Hx'.
      apply list_elem_of_singleton in Hx'. subst x. contradiction.
    + cbn. apply NoDup_singleton.
  - destruct (st.1); discriminate.
  - intros x Hx. rewrite map_app in Hx. apply elem_of_app in Hx as [Hx|Hx].
    + apply Hin in Hx as [Hx1 Hx2]. split; [set_solver | exact Hx2].
    + cbn in Hx. apply list_elem_of_singleton in Hx. subst x.
      split; [set_solver | set_solver].
Qed.

Lemma inner_fold_inv doc U others st :
  innerInv U st -> innerInv U (fold_left (Report.innerStep doc) others st).
Proof.
  revert st. induction others as [|other rest IH]; intros st H; cbn; [exact H|].
  apply IH, innerStep_inv, H.
Qed.

Lemma innerStep_members doc (pool : list DocumentInput) st other :
  other ∈ pool -> (forall d, d ∈ st.1 -> d ∈ pool) ->
  forall d, d ∈ (Report.innerStep doc st other).1 -> d ∈ pool.
Proof.
  intros Ho Hst d. unfold Report.innerStep.
  case_bool_decide; [apply Hst|].
  destruct (Report.hasOverlap doc other); [|apply Hst].
  cbn. intros Hd. apply elem_of_app in Hd as [Hd|Hd]; [apply Hst, Hd|].
  apply list_elem_of_singleton in Hd. subst d. exact Ho.
Qed.

Lemma inner_fold_members doc (pool others : list DocumentInput) st :
  (forall d, d ∈ others -> d ∈ pool) -> (forall d, d ∈ st.1 -> d ∈ pool) ->
  forall d, d ∈ (fold_left (Report.innerStep doc) others st).1 -> d ∈ pool.
Proof.
  revert st. induction others as [|other rest IH]; intros st Ho Hst; cbn; [exact Hst|].
  apply IH.
  - intros d Hd. apply Ho. right. exact Hd.
  - apply innerStep_members; [apply Ho; left | exact Hst].
Qed.

Lemma outerStep_inv (docArray pool : list DocumentInput) st doc :
  (forall d, d ∈ docArray -> d ∈ pool) -> doc ∈ pool ->
  outerInv pool st -> outerInv pool (Report.outerStep docArray st doc).
Proof.
  intros Hpool Hdoc (Hnd & Hused & Hlen & Hmem). unfold Report.outerStep.
  case_bool_decide as Hin; [unfold outerInv; split_and!; assumption|].
  set (start := ([doc], {[documentId doc]} ∪ st.2)).
  assert (Hstart : innerInv st.2 start).
  { subst start. split; [cbn; set_solver|]. split; [cbn; apply NoDup_singleton|].
    split; [discriminate|]. intros x Hx. cbn in Hx.
    apply list_elem_of_singleton in Hx. subst x. cbn. split; [set_solver | exact Hin]. }
  pose proof (inner_fold_inv doc st.2 docArray start Hstart) as (Hsub & Hnd' & Hne & Hin').
  assert (Hmem' : forall d, d ∈ (fold_left (Report.innerStep doc) docArray start).1 -> d ∈ pool).
  { apply inner_fold_members; [exact Hpool|]. subst start. cbn. intros d Hd.
    apply list_elem_of_singleton in Hd. subst d. exact Hdoc. }
  set (r := fold_left (Report.innerStep doc) docArray start) in *.
  destruct (1 <? length r.1)%nat eqn:Hlong; unfold outerInv; cbn [fst snd].
  - split; [|split; [|split]].
    + rewrite concat_app, map_app. cbn. rewrite app_nil_r.
      apply NoDup_app. split; [exact Hnd|]. split; [|exact Hnd'].
      intros x Hx Hx'. apply Hin' in Hx' as [_ Hx']. apply Hx', Hused, Hx.
    + intros x Hx. rewrite concat_app, map_app in Hx. cbn in Hx. rewrite app_nil_r in Hx.
      apply elem_of_app in Hx as [Hx|Hx]; [apply Hsub, Hused, Hx | apply Hin', Hx].
    + apply Forall_app. split; [exact Hlen|]. apply Forall_singleton.
      apply Nat.ltb_lt in Hlong. lia.
    + intros d Hd. rewrite concat_app in Hd. cbn in Hd. rewrite app_nil_r in Hd.
      apply elem_of_app in Hd as [Hd|Hd]; [apply Hmem, Hd | apply Hmem', Hd].
  - split; [exact Hnd|]. split; [|split; [exact Hlen | exact Hmem]].
    intros x Hx. apply Hsub, Hused, Hx.
Qed.

Lemma outer_fold_inv (docArray pool l : list DocumentInput) st :
  (forall d, d ∈ docArray -> d ∈ pool) -> (forall d, d ∈ l -> d ∈ pool) ->
  outerInv pool st -> outerInv pool (fold_left (Report.outerStep docArray) l st).
Proof.
  intros Hpool. revert st. induction l as [|doc rest IH]; intros st Hl H; cbn; [exact H|].
  apply IH; [intros d Hd; apply Hl; right; exact Hd|].
  apply outerStep_inv; [exact Hpool | apply Hl; left | exact H].
Qed.

(** The set of used ids only grows, and every document the outer loop
    has visited is in it. *)
Lemma inner_fold_used doc others st :
  st.2 ⊆ (fold_left (Report.innerStep doc) others st).2.
Proof.
  revert st. induction others as [|other rest IH]; intros st; cbn; [set_solver|].
  etransitivity; [|apply IH]. unfold Report.innerStep.
  case_bool_decide; [set_solver|].
  destruct (Report.hasOverlap doc other); cbn; set_solver.
Qed.

Lemma outerStep_used docArray st doc :
  st.2 ⊆ (Report.outerStep docArray st doc).2
  /\ documentId doc ∈ (Report.outerStep docArray st doc).2.
Proof.
  unfold Report.outerStep. case_bool_decide as Hin; [split; [set_solver | exact Hin]|].
  pose proof (inner_fold_used doc docArray ([doc], {[documentId doc]} ∪ st.2)) as Hsub.
  cbn [snd] in Hsub.
  destruct (1 <? _)%nat; cbn [snd]; split; set_solver.
Qed.

Lemma outer_fold_used docArray l st :
  st.2 ⊆ (fold_left (Report.outerStep docArray) l st).2
  /\ forall d, d ∈ l -> documentId d ∈ (fold_left (Report.outerStep docArray) l st).2.
Proof.
  revert st. induction l as [|doc rest IH]; intros st; cbn.
  - split; [set_solver|]. intros d Hd. inversion Hd.
  - destruct (IH (Report.outerStep docArray st doc)) as [Hsub Hall].
    destruct (outerStep_used docArray st doc) as [Hsub' Hdoc].
    split; [set_solver|]. intros d Hd.
    apply elem_of_cons in Hd as [->|Hd]; [set_solver | apply Hall, Hd].
Qed.

Lemma uniqueDocuments_members (documents acc : list DocumentInput) :
  forall d, d ∈ fold_left Report.addUnique documents acc -> d ∈ acc \/ d ∈ documents.
Proof.
  revert acc. induction documents as [|doc rest IH]; intros acc d Hd; cbn in Hd.
  - left. exact Hd.
  - apply IH in Hd as [Hd|Hd]; [|right; right; exact Hd].
    unfold Report.addUnique in Hd.
    destruct (_ && _); [|left; exact Hd].
    apply elem_of_app in Hd as [Hd|Hd]; [left; exact Hd|].
    apply list_elem_of_singleton in Hd. subst d. right. left.
Qed.

Lemma filter_unused_nil used (l : list DocumentInput) :
  (forall d, d ∈ l -> documentId d ∈ used) ->
  List.filter (fun d => negb (bool_decide (documentId d ∈ used))) l = [].
Proof.
  induction l as [|d rest IH]; intros Hall; cbn; [reflexivity|].
  rewrite bool_decide_eq_true_2 by (apply Hall; left). cbn.
  apply IH. intros d' Hd'. apply Hall. right. exact Hd'.
Qed.

End Grouping.

(** C10: every unique document ends up marked as used, so the [unrelated]
    list is empty for every input; each related group has at least two
    documents; no documentId occurs twice in the groups taken together,
    so the groups are pairwise disjoint and the documents of a group have
    distinct ids; and the grouped documents are input documents. *)
Theorem groupRelatedDocuments_groups (documents : list DocumentInput) :
  let g := Report.groupRelatedDocuments documents in
  Report.unrelated g = []
  /\ Forall (fun group => (2 <= length group)%nat) (Report.relatedGroups g)
  /\ NoDup (map documentId (concat (Report.relatedGroups g)))
  /\ (forall d, d ∈ concat (Report.relatedGroups g) -> d ∈ documents).
Proof.
  unfold Report.groupRelatedDocuments. cbn [Report.unrelated Report.relatedGroups].
  set (docArray := Report.uniqueDocuments documents).
  assert (Hpool : forall d, d ∈ docArray -> d ∈ documents).
  { intros d Hd. apply uniqueDocuments_members in Hd as [Hd|Hd]; [inversion Hd | exact Hd]. }
  assert (Hinv : outerInv documents (fold_left (Report.outerStep docArray) docArray ([], ∅))).
  { apply outer_fold_inv; [exact Hpool | exact Hpool|].
    repeat split; cbn; try constructor. intros x Hx. inversion Hx. intros d Hd. inversion Hd. }
  destruct (outer_fold_used docArray docArray ([], ∅)) as [_ Hused].
  destruct Hinv as (Hnd & _ & Hlen & Hmem).
  split; [|split; [exact Hlen | split; [exact Hnd | exact Hmem]]].
  apply filter_unused_nil, Hused.
Qed.

(** ** The content loops *)

Lemma estimateAudioDuration_pos (t : string) : 1 <= estimateAudioDuration t.
Proof.
  unfold estimateAudioDuration. rewrite ceiling_of_words.
  pose proof (wordCount_pos t). lia.
Qed.

Section PodcastLoop.

Variable arts : list Article.
Variable target : Q.
Variable onProgress : option (GenerationProgress -> M unit).
Variable outputDir : string.
Variable speakers : (string * Config.Speaker) * (string * Config.Speaker).

Let turn := Podcast.contentTurn arts onProgress outputDir speakers.
Let loop := Podcast.contentLoop arts target onProgress outputDir speakers.

(** A content turn that returns has advanced the turn index by one and the
    accumulated duration by at least one second. *)
Lemma podcast_contentTurn_Returned (st st' : LoopState) (w w' : World) :
  turn st w = (Returned st', w') ->
  turnIndex st' = S (turnIndex st)
  /\ currentDuration st + 1 <= currentDuration st'
  /\ length (dialogue st') = S (length (dialogue st)).
Proof.
  unfold turn, Podcast.contentTurn. intros H.
  apply bind_Returned_inv in H as (u & w1 & _ & H).
  apply bind_Returned_inv in H as (articleIndex & w2 & _ & H).
  destruct (nth_error arts articleIndex) as [article|]; [|discriminate H].
  apply bind_Returned_inv in H as (comment & w3 & _ & H).
  apply bind_Returned_inv in H as (audio & w4 & _ & H).
  injection H as <- <-. cbn.
  pose proof (estimateAudioDuration_pos comment).
  rewrite length_app. cbn. split; [reflexivity|]. split; lia.
Qed.

(** With [21 - turnIndex] units of fuel (and at least one) the loop is
    never cut off; at its exit the turn index is at most 21, and either
    the duration has reached the threshold or the safety limit was hit. *)
Lemma podcast_loop_terminates (fuel : nat) (st : LoopState) (w : World) :
  (1 <= fuel)%nat -> (21 - turnIndex st <= fuel)%nat ->
  (loop fuel st w).1 <> Returned None
  /\ forall st', (loop fuel st w).1 = Returned (Some st') ->
       (turnIndex st <= turnIndex st')%nat
       /\ (turnIndex st' <= Nat.max (S (turnIndex st)) 21)%nat
       /\ (below (currentDuration st') target 0.75 = false
           \/ (20 < turnIndex st')%nat).
Proof.
  revert st w. induction fuel as [|f IH]; intros st w Hpos Hfuel; [lia|].
  unfold loop. cbn [Podcast.contentLoop]. fold loop.
  destruct (below (currentDuration st) target 0.75) eqn:Hbelow.
  2:{ cbn. split; [discriminate|]. intros st' H. injection H as <-.
      split; [lia|]. split; [lia|]. left. exact Hbelow. }
  unfold bind. fold turn.
  destruct (turn st w) as [[st1|msg] w1] eqn:Hturn.
  2:{ cbn. split; [discriminate|]. intros st' H. discriminate H. }
  apply podcast_contentTurn_Returned in Hturn as (Hidx & _ & _).
  destruct (20 <? turnIndex st1)%nat eqn:Hlimit.
  - cbn. split; [discriminate|]. intros st' H. injection H as <-.
    apply Nat.ltb_lt in Hlimit. split; [lia|]. split; [lia|]. right. exact Hlimit.
  - apply Nat.ltb_ge in Hlimit.
    destruct (IH st1 w1) as [Hsome Hexit]; [lia | lia|].
    split; [exact Hsome|]. intros st' H. destruct (Hexit st' H) as (H1 & H2 & H3).
    split; [lia|]. split; [lia | exact H3].
Qed.

(** More fuel does not change a result that was not cut off. *)
Lemma podcast_loop_fuel_irrelevant (fuel extra : nat) (st : LoopState) (w : World) :
  (loop fuel st w).1 <> Returned None -> loop (fuel + extra) st w = loop fuel st w.
Proof.
  revert st w. induction fuel as [|f IH]; intros st w Hsome.
  - exfalso. apply Hsome. reflexivity.
  - revert Hsome. unfold loop. cbn [Podcast.contentLoop Nat.add]. fold loop.
    destruct (below (currentDuration st) target 0.75); [|reflexivity].
    unfold bind. fold turn.
    destruct (turn st w) as [[st1|msg] w1]; [|reflexivity].
    destruct (20 <? turnIndex st1)%nat; [reflexivity|]. apply IH.
Qed.

(** No turn is generated once the duration has reached 75% of the target. *)
Lemma podcast_loop_stops_at_threshold (fuel : nat) (st : LoopState) (w : World) :
  below (currentDuration st) target 0.75 = false ->
  loop (S fuel) st w = (Returned (Some st), w).
Proof. intros H. unfold loop. cbn [Podcast.contentLoop]. rewrite H. reflexivity. Qed.

End PodcastLoop.

Section ReportLoop.

Variable investigation : string.
Variable target : Q.
Variable onProgress : option (GenerationProgress -> M unit).
Variable outputDir : string.
Variable speakers : (string * Config.Speaker) * (string * Config.Speaker).

Let turn := Report.contentTurn investigation outputDir speakers.
Let turns := Report.groupTurns investigation target outputDir speakers.
Let loop := Report.groupLoop investigation target onProgress outputDir speakers.

Lemma report_contentTurn_Returned (summary : string) (st st' : LoopState) (w w' : World) :
  turn summary st w = (Returned st', w') ->
  turnIndex st' = S (turnIndex st)
  /\ currentDuration st + 1 <= currentDuration st'.
Proof.
  unfold turn, Report.contentTurn. intros H.
  apply bind_Returned_inv in H as (comment & w3 & _ & H).
  apply bind_Returned_inv in H as (audio & w4 & _ & H).
  injection H as <- <-. cbn.
  pose proof (estimateAudioDuration_pos comment). split; [reflexivity | lia].
Qed.

Lemma report_groupTurns_bound (remaining : nat) (summary : string)
    (st st' : LoopState) (w w' : World) :
  turns remaining summary st w = (Returned st', w') ->
  (turnIndex st <= turnIndex st' <= turnIndex st + remaining)%nat.
Proof.
  revert st w. induction remaining as [|k IH]; intros st w H.
  - injection H as <- <-. lia.
  - unfold turns in H. cbn [Report.groupTurns] in H. fold turns in H.
    destruct (below (currentDuration st) target 0.8).
    2:{ injection H as <- <-. lia. }
    apply bind_Returned_inv in H as (st1 & w1 & Hturn & H).
    apply report_contentTurn_Returned in Hturn as [Hidx _].
    apply IH in H. lia.
Qed.

(** The report's loop makes at most two content turns per related group. *)
Lemma report_groupLoop_bound (groups : list (list DocumentInput)) (i total : nat)
    (st st' : LoopState) (w w' : World) :
  loop i total groups st w = (Returned st', w') ->
  (turnIndex st <= turnIndex st' <= turnIndex st + 2 * length groups)%nat.
Proof.
  revert i st w. induction groups as [|group rest IH]; intros i st w H.
  - injection H as <- <-. cbn. lia.
  - unfold loop in H. cbn [Report.groupLoop] in H. fold loop in H.
    destruct (below (currentDuration st) target 0.8).
    2:{ injection H as <- <-. lia. }
    apply bind_Returned_inv in H as (u & w1 & _ & H).
    apply bind_Returned_inv in H as (st1 & w2 & Hturns & H).
    apply report_groupTurns_bound in Hturns. apply IH in H. cbn [length]. lia.
Qed.

Lemma report_groupLoop_stops_at_threshold (groups : list (list DocumentInput))
    (i total : nat) (st : LoopState) (w : World) :
  below (currentDuration st) target 0.8 = false ->
  loop i total groups st w = (Returned st, w).
Proof.
  intros H. unfold loop. destruct groups as [|group rest]; [reflexivity|].
  cbn [Report.groupLoop]. rewrite H. reflexivity.
Qed.

(** The inner loop of the report tests the threshold before every turn. *)
Lemma report_groupTurns_stops_at_threshold (remaining : nat) (summary : string)
    (st : LoopState) (w : World) :
  below (currentDuration st) target 0.8 = false ->
  turns remaining summary st w = (Returned st, w).
Proof.
  intros H. unfold turns. destruct remaining as [|k]; [reflexivity|].
  cbn [Report.groupTurns]. rewrite H. reflexivity.
Qed.

End ReportLoop.

(** The threshold tests on inputs where the rounded product of doubles
    and the exact product differ: 2.666666666666667 * 0.75 is 2, and
    93.33333333333334 * 0.75 is 70. *)
Lemma below_rounds_as_doubles :
  below 2 (3002399751580331 # 1125899906842624) 0.75 = false
  /\ below 70 (3283874728290987 # 35184372088832) 0.75 = false
  /\ below 47 60 0.8 = true /\ below 48 60 0.8 = false
  /\ Double.mul (Double.ofQ 0.1) (Double.ofQ 3)
     = Double.Finite (5404319552844596 # 18014398509481984).
Proof. repeat split; vm_compute; reflexivity. Qed.

Lemma bind_congr {A B} (m : M A) (k1 k2 : A -> M B) (w : World) :
  (forall a w1, k1 a w1 = k2 a w1) -> bind m k1 w = bind m k2 w.
Proof. intros H. unfold bind. destruct (m w) as [[a|msg] w1]; [apply H | reflexivity]. Qed.

Lemma bind_not_cut_off {A B} (m : M A) (k : A -> M (option B)) (w : World) :
  (forall a w1, (k a w1).1 <> Returned None) -> (bind m k w).1 <> Returned None.
Proof.
  intros H. unfold bind. destruct (m w) as [[a|msg] w1]; [apply H | discriminate].
Qed.

Lemma tryCatch_not_cut_off {B} (m : M (option B)) (h : string -> M (option B)) (w : World) :
  (m w).1 <> Returned None -> (forall msg w1, (h msg w1).1 <> Returned None) ->
  (tryCatch m h w).1 <> Returned None.
Proof.
  intros Hm Hh. unfold tryCatch. destruct (m w) as [[a|msg] w1]; [exact Hm | apply Hh].
Qed.

Lemma tryCatch_congr {A} (m1 m2 : M A) (h : string -> M A) (w : World) :
  m1 w = m2 w -> tryCatch m1 h w = tryCatch m2 h w.
Proof. intros H. unfold tryCatch. rewrite H. reflexivity. Qed.

(** The [try] block of [generatePodcast] with 19 units of fuel or more is
    never cut off, and more fuel than 19 changes nothing. *)
Lemma podcast_generate_fuel (extra : nat) (arts : list Article) (hosts : list string)
    (target : Q) (onProgress : option (GenerationProgress -> M unit))
    (podcastId outputDir finalOutputPath : string) (w : World) :
  (Podcast.generate 19 arts hosts target onProgress podcastId outputDir finalOutputPath w).1
  <> Returned None
  /\ Podcast.generate (19 + extra) arts hosts target onProgress podcastId outputDir
       finalOutputPath w
     = Podcast.generate 19 arts hosts target onProgress podcastId outputDir
         finalOutputPath w.
Proof.
  unfold Podcast.generate. cbv zeta. split.
  - do 8 (apply bind_not_cut_off; intros ? ?).
    unfold bind at 1.
    match goal with |- context [Podcast.contentLoop ?a ?t ?p ?o ?s 19 ?st ?w] =>
      pose proof (podcast_loop_terminates a t p o s 19 st w) as Hloop end.
    destruct Hloop as [Hsome _]; [lia | cbn; lia|].
    match goal with |- context [Podcast.contentLoop ?a ?t ?p ?o ?s 19 ?st ?w] =>
      destruct (Podcast.contentLoop a t p o s 19 st w) as [[[st'|]|msg] w'] end.
    + apply bind_not_cut_off. intros ? ?. discriminate.
    + exfalso. apply Hsome. reflexivity.
    + discriminate.
  - do 8 (apply bind_congr; intros ? ?).
    unfold bind at 1 3.
    match goal with |- context [Podcast.contentLoop ?a ?t ?p ?o ?s 19 ?st ?w] =>
      pose proof (podcast_loop_terminates a t p o s 19 st w) as Hloop end.
    destruct Hloop as [Hsome _]; [lia | cbn; lia|].
    rewrite (podcast_loop_fuel_irrelevant _ _ _ _ _ 19 extra _ _ Hsome).
    reflexivity.
Qed.




(** ** Strings and paths *)

Lemma append_cons (c : ascii) (x r : string) : String c x +:+ r = String c (x +:+ r).
Proof. reflexivity. Qed.

Lemma append_nil_l (r : string) : EmptyString +:+ r = r.
Proof. reflexivity. Qed.

Lemma append_nil_r (s : string) : s +:+ EmptyString = s.
Proof. induction s as [|c s IH]; [reflexivity | rewrite append_cons, IH; reflexivity]. Qed.

Lemma append_assoc (a b c : string) : (a +:+ b) +:+ c = a +:+ (b +:+ c).
Proof.
  induction a as [|x a IH]; [reflexivity | rewrite !append_cons, IH; reflexivity].
Qed.

Lemma startsWith_append (a b : string) : JsString.startsWith (a +:+ b) a = true.
Proof.
  induction a as [|c a IH]; [destruct b; reflexivity|].
  rewrite append_cons. cbn. rewrite Ascii.eqb_refl. exact IH.
Qed.

Lemma startsWith_length (s p : string) :
  JsString.startsWith s p = true -> (String.length p <= String.length s)%nat.
Proof.
  revert s. induction p as [|c p IH]; intros [|d s] H; cbn in *; try lia; try discriminate.
  apply andb_true_iff in H as [_ H]. apply IH in H. lia.
Qed.

Section SplitOn.

Variable sep : ascii.

Lemma split_on_from_app (cur a b : string) :
  JsString.split_on_from sep cur (a +:+ String sep b)
  = JsString.split_on_from sep cur a ++ JsString.split_on sep b.
Proof.
  revert cur. induction a as [|c a IH]; intros cur.
  - rewrite append_nil_l. cbn. rewrite Ascii.eqb_refl. reflexivity.
  - rewrite append_cons. cbn. destruct (Ascii.eqb c sep).
    + rewrite IH. reflexivity.
    + apply IH.
Qed.

Lemma split_on_app (a b : string) :
  JsString.split_on sep (a +:+ String sep b)
  = JsString.split_on sep a ++ JsString.split_on sep b.
Proof. apply split_on_from_app. Qed.

End SplitOn.

Lemma slashFree_app (a b : string) :
  Path.slashFree (a +:+ b) = Path.slashFree a && Path.slashFree b.
Proof.
  induction a as [|c a IH]; [reflexivity|].
  rewrite append_cons. cbn. rewrite IH. apply andb_assoc.
Qed.

Lemma split_on_from_slashFree (cur s : string) :
  Path.slashFree s = true ->
  JsString.split_on_from Path.slash cur s = [cur +:+ s].
Proof.
  revert cur. induction s as [|c s IH]; intros cur H.
  - rewrite append_nil_r. reflexivity.
  - cbn in H. apply andb_true_iff in H as [Hc Hs]. cbn.
    apply negb_true_iff in Hc. rewrite Hc. rewrite (IH _ Hs).
    rewrite append_assoc. reflexivity.
Qed.

Lemma split_on_slashFree (s : string) :
  Path.slashFree s = true -> JsString.split_on Path.slash s = [s].
Proof. apply split_on_from_slashFree. Qed.

Lemma split_on_from_segments (cur s : string) :
  Path.slashFree cur = true ->
  Forall (fun x => Path.slashFree x = true) (JsString.split_on_from Path.slash cur s).
Proof.
  revert cur. induction s as [|c s IH]; intros cur H; cbn.
  - constructor; [exact H | constructor].
  - destruct (Ascii.eqb c Path.slash) eqn:Hc.
    + constructor; [exact H | apply IH; reflexivity].
    + apply IH. rewrite slashFree_app, H. cbn. rewrite Hc. reflexivity.
Qed.

Lemma basename_from_slashFree (last cur p : string) :
  Path.slashFree last = true -> Path.slashFree cur = true ->
  Path.slashFree (Path.basename_from last cur p) = true.
Proof.
  revert last cur. induction p as [|c p IH]; intros last cur Hl Hc; cbn.
  - destruct cur; assumption.
  - destruct (Ascii.eqb c Path.slash) eqn:Heq.
    + apply IH; [destruct cur; assumption | reflexivity].
    + apply IH; [exact Hl|]. rewrite slashFree_app, Hc. cbn. rewrite Heq. reflexivity.
Qed.

Lemma basename_slashFree (p : string) : Path.slashFree (Path.basename p) = true.
Proof. apply basename_from_slashFree; reflexivity. Qed.

Lemma join_snoc (sep : string) (xs : list string) (y : string) :
  JsString.join sep (xs ++ [y])
  = match xs with
    | [] => y
    | _ => JsString.join sep xs +:+ sep +:+ y
    end.
Proof.
  induction xs as [|x xs IH]; [reflexivity|].
  destruct xs as [|x' xs]; [reflexivity|].
  change (JsString.join sep ((x :: x' :: xs) ++ [y]))
    with (x +:+ sep +:+ JsString.join sep ((x' :: xs) ++ [y])).
  rewrite IH.
  change (JsString.join sep (x :: x' :: xs))
    with (x +:+ sep +:+ JsString.join sep (x' :: xs)).
  rewrite !append_assoc. reflexivity.
Qed.

(** Splitting an absolute path made of segments gives the segments back. *)
Lemma split_on_join (xs : list string) :
  xs <> [] -> Forall Path.segment xs ->
  JsString.split_on Path.slash (JsString.join "/" xs) = xs.
Proof.
  induction xs as [|x xs IH]; intros Hne Hall; [contradiction|].
  inversion Hall as [|? ? [Hx _] Hrest]; subst.
  destruct xs as [|x' xs]; [apply split_on_slashFree, Hx|].
  change (JsString.join "/" (x :: x' :: xs))
    with (x +:+ String Path.slash (JsString.join "/" (x' :: xs))).
  rewrite split_on_app, (split_on_slashFree x Hx), IH; [reflexivity | discriminate | exact Hrest].
Qed.

Lemma split_on_absolute (xs : list string) :
  xs <> [] -> Forall Path.segment xs ->
  JsString.split_on Path.slash ("/" +:+ JsString.join "/" xs) = EmptyString :: xs.
Proof.
  intros Hne Hall.
  change ("/" +:+ JsString.join "/" xs)
    with (EmptyString +:+ String Path.slash (JsString.join "/" xs)).
  rewrite split_on_app, split_on_join by assumption. reflexivity.
Qed.

Lemma normalizeSegments_plain (b : bool) (acc xs : list string) :
  Forall Path.segment xs -> Path.normalizeSegments b acc xs = rev acc ++ xs.
Proof.
  revert acc. induction xs as [|x xs IH]; intros acc Hall; cbn.
  - rewrite app_nil_r. reflexivity.
  - inversion Hall as [|? ? [_ Hx] Hrest]; subst.
    unfold Path.plain in Hx. apply andb_true_iff in Hx as [Hx Hdd].
    apply andb_true_iff in Hx as [He Hd].
    apply negb_true_iff in He, Hd, Hdd. rewrite He, Hd, Hdd. cbn.
    rewrite (IH _ Hrest). cbn. rewrite <- app_assoc. reflexivity.
Qed.

Lemma normalizeSegments_app (b : bool) (acc xs ys : list string) :
  Path.normalizeSegments b acc (xs ++ ys)
  = Path.normalizeSegments b (rev (Path.normalizeSegments b acc xs)) ys.
Proof.
  revert acc. induction xs as [|x xs IH]; intros acc; cbn.
  - rewrite rev_involutive. reflexivity.
  - destruct (String.eqb x EmptyString || Path.isDot x); [apply IH|].
    destruct (Path.isDotDot x); [|apply IH].
    destruct acc as [|top acc]; [destruct b; apply IH|].
    destruct (Path.isDotDot top); apply IH.
Qed.

(** In absolute mode, normalising segments without slash leaves segments. *)
Lemma normalizeSegments_segments (acc xs : list string) :
  Forall Path.segment acc -> Forall (fun x => Path.slashFree x = true) xs ->
  Forall Path.segment (Path.normalizeSegments false acc xs).
Proof.
  revert acc. induction xs as [|x xs IH]; intros acc Hacc Hxs; cbn.
  - apply Forall_rev. exact Hacc.
  - inversion Hxs as [|? ? Hx Hrest]; subst.
    destruct (String.eqb x EmptyString || Path.isDot x) eqn:H1; [apply IH; assumption|].
    destruct (Path.isDotDot x) eqn:H2.
    + destruct acc as [|top acc]; [apply IH; assumption|].
      inversion Hacc as [|? ? [_ Htop] Hacc']; subst.
      assert (Hnd : Path.isDotDot top = false).
      { unfold Path.plain in Htop. apply andb_true_iff in Htop as [_ Htop].
        apply negb_true_iff in Htop. exact Htop. }
      rewrite Hnd. apply IH; assumption.
    + apply IH; [|exact Hrest]. constructor; [|exact Hacc].
      split; [exact Hx|]. unfold Path.plain.
      apply orb_false_iff in H1 as [He Hd]. rewrite He, Hd, H2. reflexivity.
Qed.

Lemma endsWithSlash_app (a b : string) :
  b <> EmptyString -> Path.endsWithSlash (a +:+ b) = Path.endsWithSlash b.
Proof.
  intros Hb. induction a as [|c a IH]; [reflexivity|].
  rewrite append_cons. cbn. rewrite IH.
  destruct (a +:+ b) eqn:Hab; [|reflexivity].
  destruct a; [rewrite append_nil_l in Hab; contradiction | discriminate Hab].
Qed.

Lemma endsWithSlash_slashFree (s : string) :
  Path.slashFree s = true -> Path.endsWithSlash s = false.
Proof.
  induction s as [|c s IH]; intros H; [reflexivity|].
  cbn in H. apply andb_true_iff in H as [Hc Hs]. apply negb_true_iff in Hc.
  cbn. destruct s; [exact Hc | apply IH, Hs].
Qed.

Lemma segment_nonempty (s : string) : Path.segment s -> s <> EmptyString.
Proof. intros [_ H] ->. discriminate H. Qed.

(** A path ["/" + segments.join("/")] whose last segment is [l]. *)
Lemma absolute_snoc (xs : list string) (l : string) :
  exists pre, "/" +:+ JsString.join "/" (xs ++ [l]) = pre +:+ l.
Proof.
  rewrite join_snoc. destruct xs as [|x xs].
  - exists "/". reflexivity.
  - exists ("/" +:+ JsString.join "/" (x :: xs) +:+ "/").
    rewrite !append_assoc. reflexivity.
Qed.

Lemma absolute_shape (xs : list string) (l : string) :
  Path.segment l ->
  exists rest, "/" +:+ JsString.join "/" (xs ++ [l]) = String Path.slash rest
               /\ JsString.join "/" (xs ++ [l]) = rest /\ rest <> EmptyString
               /\ Path.endsWithSlash (String Path.slash rest) = false.
Proof.
  intros Hl. exists (JsString.join "/" (xs ++ [l])).
  split; [reflexivity|]. split; [reflexivity|].
  pose proof (segment_nonempty l Hl) as Hne. split.
  - rewrite join_snoc. destruct xs as [|x xs]; [exact Hne|].
    intros H. apply (f_equal String.length) in H.
    rewrite !string_length_append in H. cbn in H.
    destruct l; [contradiction | cbn in H; lia].
  - destruct (absolute_snoc xs l) as [pre Hpre].
    change (String Path.slash (JsString.join "/" (xs ++ [l])))
      with ("/" +:+ JsString.join "/" (xs ++ [l])).
    rewrite Hpre, endsWithSlash_app by exact Hne.
    apply endsWithSlash_slashFree, Hl.
Qed.

(** [path.normalize] on an absolute path that does not end in a slash and
    whose segments normalise to a non-empty list. *)
Lemma normalize_absolute (p : string) (c : ascii) (body : string) :
  Path.isAbsolute p = true -> Path.endsWithSlash p = false ->
  JsString.join "/" (Path.normalizeSegments false [] (JsString.split_on Path.slash p))
  = String c body ->
  Path.normalize p = "/" +:+ String c body.
Proof.
  intros Habs Hend Hbody. unfold Path.normalize.
  destruct p as [|x p]; [discriminate Habs|].
  rewrite Habs, Hend. cbn [negb]. rewrite Hbody. reflexivity.
Qed.

Lemma normalize_absolute_root (p : string) :
  Path.isAbsolute p = true ->
  JsString.join "/" (Path.normalizeSegments false [] (JsString.split_on Path.slash p))
  = EmptyString ->
  Path.normalize p = "/".
Proof.
  intros Habs Hbody. unfold Path.normalize.
  destruct p as [|x p]; [discriminate Habs|].
  rewrite Habs. cbn [negb]. rewrite Hbody. reflexivity.
Qed.

Lemma nonempty_string (s : string) : s <> EmptyString -> exists c r, s = String c r.
Proof. destruct s as [|c r]; [contradiction | eauto]. Qed.

Section UnderDirectory.

Variables (xs : list string) (l : string).
Hypothesis Hxs : Forall Path.segment xs.
Hypothesis Hl : Path.segment l.

Let dir := "/" +:+ JsString.join "/" (xs ++ [l]).

Lemma dir_segments : Forall Path.segment (xs ++ [l]).
Proof. apply Forall_app. split; [exact Hxs | constructor; [exact Hl | constructor]]. Qed.

Lemma split_on_dir : JsString.split_on Path.slash dir = EmptyString :: xs ++ [l].
Proof.
  apply split_on_absolute; [destruct xs; discriminate | apply dir_segments].
Qed.

Lemma dir_absolute : Path.isAbsolute dir = true.
Proof. reflexivity. Qed.

(** The directory is its own normal form. *)
Lemma normalize_dir : Path.normalize dir = dir.
Proof.
  destruct (absolute_shape xs l Hl) as (rest & Hshape & Hjoin & Hne & Hend).
  destruct (nonempty_string rest Hne) as (c & r & Hrest).
  fold dir in Hshape. rewrite Hshape.
  rewrite (normalize_absolute (String Path.slash rest) c r); [rewrite Hrest; reflexivity | reflexivity | exact Hend |].
  rewrite <- Hshape, split_on_dir. cbn [Path.normalizeSegments String.eqb orb Path.isDot].
  rewrite normalizeSegments_plain by apply dir_segments. cbn [rev app].
  rewrite Hjoin. exact Hrest.
Qed.

(** The segments [path.join(dir, name)] is normalised from. *)
Lemma split_on_child (name : string) :
  Path.slashFree name = true ->
  Path.normalizeSegments false [] (JsString.split_on Path.slash (dir +:+ "/" +:+ name))
  = Path.normalizeSegments false (l :: rev xs) [name].
Proof.
  intros Hname.
  change (dir +:+ "/" +:+ name) with (dir +:+ String Path.slash name).
  rewrite split_on_app, split_on_dir, (split_on_slashFree name Hname).
  cbn [app Path.normalizeSegments String.eqb orb Path.isDot].
  rewrite normalizeSegments_app.
  rewrite (normalizeSegments_plain false [] (xs ++ [l])) by apply dir_segments.
  cbn [rev app]. rewrite rev_app_distr. reflexivity.
Qed.

Lemma child_shape (name : string) :
  name <> EmptyString -> Path.slashFree name = true ->
  Path.isAbsolute (dir +:+ "/" +:+ name) = true
  /\ Path.endsWithSlash (dir +:+ "/" +:+ name) = false.
Proof.
  intros Hne Hname. split; [reflexivity|].
  rewrite <- append_assoc, endsWithSlash_app by exact Hne.
  apply endsWithSlash_slashFree, Hname.
Qed.

Lemma child_as_segments (name : string) :
  dir +:+ "/" +:+ name = "/" +:+ JsString.join "/" ((xs ++ [l]) ++ [name]).
Proof.
  clear Hxs Hl.
  rewrite (join_snoc "/" (xs ++ [l]) name).
  destruct (xs ++ [l]) eqn:Hx; [destruct xs; discriminate Hx|].
  unfold dir. rewrite !append_assoc. reflexivity.
Qed.

(** [path.join(dir, name)] for a plain name: the child of that name. *)
Lemma join_child (name : string) :
  Path.segment name -> Path.join dir name = dir +:+ "/" +:+ name.
Proof.
  intros [Hname Hplain].
  pose proof (segment_nonempty name (conj Hname Hplain)) as Hne.
  destruct (nonempty_string name Hne) as (c & r & Hn).
  destruct (child_shape name Hne Hname) as [Habs Hend].
  assert (Hjoin : Path.join dir name = Path.normalize (dir +:+ "/" +:+ name)).
  { unfold Path.join. rewrite Hn. reflexivity. }
  rewrite Hjoin.
  assert (Hsegs : Path.normalizeSegments false []
                    (JsString.split_on Path.slash (dir +:+ "/" +:+ name))
                  = (xs ++ [l]) ++ [name]).
  { rewrite (split_on_child name Hname).
    rewrite (normalizeSegments_plain false (l :: rev xs) [name]).
    - cbn [rev]. rewrite rev_involutive. reflexivity.
    - constructor; [split; assumption | constructor]. }
  destruct (absolute_shape (xs ++ [l]) name (conj Hname Hplain))
    as (rest & Hshape & Hj & Hrne & _).
  destruct (nonempty_string rest Hrne) as (c' & r' & Hrest).
  rewrite (normalize_absolute _ c' r' Habs Hend).
  - rewrite <- Hrest, <- Hj. rewrite join_snoc.
    destruct (xs ++ [l]) eqn:Hx; [destruct xs; discriminate Hx|].
    unfold dir. rewrite !append_assoc. reflexivity.
  - rewrite Hsegs, Hj. exact Hrest.
Qed.

(** [path.join(dir, "")] and [path.join(dir, ".")]: the directory itself. *)
Lemma join_self (name : string) :
  name = EmptyString \/ name = "." -> Path.join dir name = dir.
Proof.
  intros [-> | ->].
  - assert (H : Path.join dir EmptyString = Path.normalize dir).
    { unfold Path.join. destruct (absolute_shape xs l Hl) as (rest & Hshape & _).
      fold dir in Hshape. rewrite Hshape. reflexivity. }
    rewrite H. apply normalize_dir.
  - assert (H : Path.join dir "." = Path.normalize (dir +:+ "/" +:+ ".")).
    { unfold Path.join. destruct (absolute_shape xs l Hl) as (rest & Hshape & _).
      fold dir in Hshape. rewrite Hshape. reflexivity. }
    rewrite H.
    destruct (child_shape "." ltac:(discriminate) eq_refl) as [Habs Hend].
    destruct (absolute_shape xs l Hl) as (rest & Hshape & Hj & Hrne & _).
    destruct (nonempty_string rest Hrne) as (c' & r' & Hrest).
    rewrite (normalize_absolute _ c' r' Habs Hend).
    + unfold dir. rewrite Hj, Hrest. reflexivity.
    + rewrite (split_on_child "." eq_refl). cbn. rewrite rev_involutive.
      rewrite Hj. exact Hrest.
Qed.

(** [path.join(dir, "..")]: the parent directory. *)
Lemma join_parent : Path.join dir ".." = "/" +:+ JsString.join "/" xs.
Proof.
  assert (H : Path.join dir ".." = Path.normalize (dir +:+ "/" +:+ "..")).
  { unfold Path.join. destruct (absolute_shape xs l Hl) as (rest & Hshape & _).
    fold dir in Hshape. rewrite Hshape. reflexivity. }
  rewrite H.
  destruct (child_shape ".." ltac:(discriminate) eq_refl) as [Habs Hend].
  assert (Hsegs : Path.normalizeSegments false []
                    (JsString.split_on Path.slash (dir +:+ "/" +:+ ".."))
                  = xs).
  { rewrite (split_on_child ".." eq_refl). cbn.
    destruct Hl as [_ Hplain]. unfold Path.plain in Hplain.
    apply andb_true_iff in Hplain as [_ Hdd]. apply negb_true_iff in Hdd.
    rewrite Hdd. apply rev_involutive. }
  destruct (JsString.join "/" xs) as [|c r] eqn:Hbody.
  - apply normalize_absolute_root; [exact Habs|]. rewrite Hsegs. exact Hbody.
  - apply normalize_absolute; [exact Habs | exact Hend|]. rewrite Hsegs. exact Hbody.
Qed.

(** The parent is strictly shorter than the directory. *)
Lemma parent_shorter :
  (String.length ("/" +:+ JsString.join "/" xs) < String.length dir)%nat.
Proof.
  unfold dir. rewrite join_snoc.
  pose proof (segment_nonempty l Hl) as Hne.
  destruct xs as [|x xs'].
  - rewrite !string_length_append. destruct l; [contradiction | cbn; lia].
  - remember (JsString.join "/" (x :: xs')) as j.
    rewrite !string_length_append. change (String.length "/") with 1%nat. lia.
Qed.

End UnderDirectory.

(** [path.resolve] leaves a normalised absolute path as it is. *)
Lemma resolve_normal (cwd : string) (xs : list string) :
  Forall Path.segment xs ->
  Path.resolve cwd ("/" +:+ JsString.join "/" xs) = "/" +:+ JsString.join "/" xs.
Proof.
  intros Hxs. unfold Path.resolve.
  change (Path.isAbsolute ("/" +:+ JsString.join "/" xs)) with true. cbn [negb].
  destruct xs as [|x rest]; [reflexivity|].
  rewrite split_on_absolute by (try discriminate; exact Hxs).
  change (Path.normalizeSegments false [] (EmptyString :: x :: rest))
    with (Path.normalizeSegments false [] (x :: rest)).
  rewrite normalizeSegments_plain by exact Hxs. reflexivity.
Qed.

(** The audio directory is [/<segments>/generated-audio]. *)
Lemma audio_dir_shape (w : World) :
  Path.isAbsolute (cwd w) = true ->
  exists xs, Forall Path.segment xs
             /\ AUDIO_DIR w = "/" +:+ JsString.join "/" (xs ++ ["generated-audio"]).
Proof.
  intros Habs. unfold AUDIO_DIR.
  set (xs := Path.normalizeSegments false [] (JsString.split_on Path.slash (cwd w))).
  assert (Hxs : Forall Path.segment xs).
  { apply normalizeSegments_segments; [constructor|].
    apply split_on_from_segments. reflexivity. }
  exists xs. split; [exact Hxs|].
  assert (Hjoin : Path.join (cwd w) "generated-audio"
                  = Path.normalize (cwd w +:+ "/" +:+ "generated-audio")).
  { unfold Path.join. destruct (cwd w); [discriminate Habs | reflexivity]. }
  rewrite Hjoin.
  assert (Hg : Path.segment "generated-audio") by (split; reflexivity).
  destruct (absolute_shape xs "generated-audio" Hg) as (rest & Hshape & Hj & Hrne & _).
  destruct (nonempty_string rest Hrne) as (c & r & Hrest).
  rewrite (normalize_absolute _ c r).
  - rewrite <- Hrest, Hj. reflexivity.
  - destruct (cwd w); [discriminate Habs | exact Habs].
  - rewrite <- append_assoc, endsWithSlash_app by discriminate. reflexivity.
  - change (cwd w +:+ "/" +:+ "generated-audio")
      with (cwd w +:+ String Path.slash "generated-audio").
    rewrite split_on_app, normalizeSegments_app. fold xs.
    rewrite (split_on_slashFree "generated-audio" eq_refl).
    rewrite normalizeSegments_plain by (constructor; [exact Hg | constructor]).
    rewrite rev_involutive, Hj. exact Hrest.
Qed.

(** ** The media route *)

(** [GET] unfolded: one lookup decides between 404, 403, the file and the
    exception of reading a directory; the world is not changed. *)
Lemma media_GET_run (i : string) (w : World) :
  JsString.truthy i = true ->
  let name := Path.basename i in
  let filePath := Path.join (AUDIO_DIR w) name in
  MediaRoute.GET (Some i) w
  = match fs w !! filePath with
    | None => (Returned (MediaRoute.JsonError 404 "File not found"), w)
    | Some node =>
        if JsString.startsWith (Path.resolve (cwd w) filePath)
             (Path.resolve (cwd w) (AUDIO_DIR w))
        then match node with
             | FsFile body =>
                 (Returned (MediaRoute.Audio
                              (MediaRoute.contentTypeOf
                                 (MediaRoute.toLowerCase (Path.extname name)))
                              (length body) body), w)
             | FsDir => (Thrown "EISDIR: illegal operation on a directory, read", w)
             end
        else (Returned (MediaRoute.JsonError 403 "Invalid path"), w)
    end.
Proof.
  intros Hi name filePath. unfold MediaRoute.GET, JsString.orElse. rewrite Hi.
  fold name. unfold Fs.existsSync, bind, get, ret. cbn [fst snd]. fold filePath.
  destruct (fs w !! filePath) as [node|] eqn:Hnode; cbn [negb]; [|reflexivity].
  destruct (JsString.startsWith _ _); cbn [negb]; [|reflexivity].
  unfold Fs.statSync_size, Fs.readFileSync, bind, get, ret, throw. cbn [fst snd].
  destruct node; repeat (rewrite Hnode; cbn [fst snd]); reflexivity.
Qed.

Lemma media_GET_world (i : string) (w : World) :
  JsString.truthy i = true -> (MediaRoute.GET (Some i) w).2 = w.
Proof.
  intros Hi. rewrite (media_GET_run i w Hi). cbv zeta.
  destruct (fs w !! Path.join (AUDIO_DIR w) (Path.basename i)) as [[body|]|];
    try destruct (JsString.startsWith _ _); reflexivity.
Qed.

(** What [GET] answers, by the basename of the id: for a plain name the
    entry of that name in the audio directory decides; for the names
    [.] and [..] and the empty name no file is served. *)
Lemma media_GET_cases (i : string) (w : World) :
  Path.isAbsolute (cwd w) = true ->
  fs w !! AUDIO_DIR w = Some FsDir ->
  JsString.truthy i = true ->
  let name := Path.basename i in
  let r := MediaRoute.GET (Some i) w in
  r.2 = w
  /\ if Path.plain name then
       match fs w !! (AUDIO_DIR w +:+ "/" +:+ name) with
       | None => r.1 = Returned (MediaRoute.JsonError 404 "File not found")
       | Some (FsFile body) =>
           r.1 = Returned (MediaRoute.Audio
                             (MediaRoute.contentTypeOf
                                (MediaRoute.toLowerCase (Path.extname name)))
                             (length body) body)
       | Some FsDir => exists msg, r.1 = Thrown msg
       end
     else (exists msg, r.1 = Thrown msg)
          \/ r.1 = Returned (MediaRoute.JsonError 404 "File not found")
          \/ r.1 = Returned (MediaRoute.JsonError 403 "Invalid path").
Proof.
  intros Habs Hdir Hi name r. subst r.
  split; [apply media_GET_world, Hi|].
  rewrite (media_GET_run i w Hi). cbv zeta. fold name.
  destruct (audio_dir_shape w Habs) as (xs & Hxs & Hshape).
  assert (Hg : Path.segment "generated-audio") by (split; reflexivity).
  assert (Hname : Path.slashFree name = true) by apply basename_slashFree.
  assert (Hresolve : Path.resolve (cwd w) (AUDIO_DIR w) = AUDIO_DIR w).
  { rewrite Hshape. apply resolve_normal, Forall_app.
    split; [exact Hxs | constructor; [exact Hg | constructor]]. }
  rewrite Hresolve.
  destruct (Path.plain name) eqn:Hplain.
  - assert (Hjoin : Path.join (AUDIO_DIR w) name = AUDIO_DIR w +:+ "/" +:+ name).
    { rewrite Hshape. apply join_child; [exact Hxs | exact Hg | split; assumption]. }
    rewrite Hjoin.
    assert (Hres : Path.resolve (cwd w) (AUDIO_DIR w +:+ "/" +:+ name)
                   = AUDIO_DIR w +:+ "/" +:+ name).
    { rewrite Hshape, (child_as_segments xs "generated-audio" name).
      apply resolve_normal.
      apply Forall_app; split;
        [apply Forall_app; split; [exact Hxs | constructor; [exact Hg | constructor]]
        | constructor; [split; assumption | constructor]]. }
    rewrite Hres, startsWith_append.
    destruct (fs w !! (AUDIO_DIR w +:+ "/" +:+ name)) as [[body|]|]; cbn;
      try reflexivity. eexists; reflexivity.
  - assert (Hcases : name = EmptyString \/ name = "." \/ name = "..").
    { unfold Path.plain in Hplain.
      destruct (String.eqb name EmptyString) eqn:He;
        [left; apply String.eqb_eq, He|].
      unfold Path.isDot in Hplain. destruct (String.eqb name ".") eqn:Hd;
        [right; left; apply String.eqb_eq, Hd|].
      unfold Path.isDotDot in Hplain. destruct (String.eqb name "..") eqn:Hdd;
        [right; right; apply String.eqb_eq, Hdd | discriminate Hplain]. }
    destruct Hcases as [Hn | [Hn | Hn]].
    + assert (Hjoin : Path.join (AUDIO_DIR w) name = AUDIO_DIR w).
      { rewrite Hshape. apply join_self; auto. }
      rewrite Hjoin, Hdir, Hresolve.
      replace (JsString.startsWith (AUDIO_DIR w) (AUDIO_DIR w)) with true.
      * left. eexists; reflexivity.
      * symmetry. rewrite <- (append_nil_r (AUDIO_DIR w)) at 1. apply startsWith_append.
    + assert (Hjoin : Path.join (AUDIO_DIR w) name = AUDIO_DIR w).
      { rewrite Hshape. apply join_self; auto. }
      rewrite Hjoin, Hdir, Hresolve.
      replace (JsString.startsWith (AUDIO_DIR w) (AUDIO_DIR w)) with true.
      * left. eexists; reflexivity.
      * symmetry. rewrite <- (append_nil_r (AUDIO_DIR w)) at 1. apply startsWith_append.
    + rewrite Hn.
      assert (Hjoin : Path.join (AUDIO_DIR w) ".." = "/" +:+ JsString.join "/" xs).
      { rewrite Hshape. apply join_parent; assumption. }
      rewrite Hjoin, (resolve_normal _ xs Hxs).
      destruct (fs w !! ("/" +:+ JsString.join "/" xs)) as [node|]; [|right; left; reflexivity].
      destruct (JsString.startsWith ("/" +:+ JsString.join "/" xs) (AUDIO_DIR w)) eqn:Hsw;
        [|right; right; reflexivity].
      exfalso. apply startsWith_length in Hsw. rewrite Hshape in Hsw.
      pose proof (parent_shorter xs "generated-audio" Hxs Hg). lia.
Qed.

(** C6 (as amended): the endpoint leaves the world unchanged, and a file it
    serves is the entry named by the basename of the id, a single plain
    segment, directly inside the audio directory; nothing outside is ever
    served.  The id [../../etc/passwd] is answered from the entry [passwd]
    of the audio directory: 404 when there is none, the file when it is a
    file. *)
Theorem media_GET_serves_only_audio_directory (id : option string) (w : World) :
  Path.isAbsolute (cwd w) = true ->
  fs w !! AUDIO_DIR w = Some FsDir ->
  let r := MediaRoute.GET id w in
  r.2 = w
  /\ (forall contentType len body,
        r.1 = Returned (MediaRoute.Audio contentType len body) ->
        exists i, id = Some i
                  /\ Path.segment (Path.basename i)
                  /\ fs w !! (AUDIO_DIR w +:+ "/" +:+ Path.basename i) = Some (FsFile body)
                  /\ len = length body)
  /\ (id = Some "../../etc/passwd" ->
      match fs w !! (AUDIO_DIR w +:+ "/passwd") with
      | None => r.1 = Returned (MediaRoute.JsonError 404 "File not found")
      | Some (FsFile body) =>
          r.1 = Returned (MediaRoute.Audio "application/octet-stream" (length body) body)
      | Some FsDir => exists msg, r.1 = Thrown msg
      end).
Proof.
  intros Habs Hdir r. subst r.
  destruct id as [i|].
  2:{ cbn. split; [reflexivity|]. split; [|discriminate]. intros ? ? ? H. discriminate H. }
  destruct (JsString.truthy i) eqn:Hi.
  2:{ unfold MediaRoute.GET, JsString.orElse. rewrite Hi. cbn.
      split; [reflexivity|]. split.
      - intros ? ? ? H. discriminate H.
      - intros H. injection H as ->. discriminate Hi. }
  pose proof (media_GET_cases i w Habs Hdir Hi) as [Hw Hcases]. cbv zeta in Hcases.
  split; [exact Hw|]. split.
  - intros contentType len body Hr. exists i. split; [reflexivity|].
    destruct (Path.plain (Path.basename i)) eqn:Hplain.
    + destruct (fs w !! (AUDIO_DIR w +:+ "/" +:+ Path.basename i)) as [[b|]|].
      * rewrite Hr in Hcases. injection Hcases as -> -> ->.
        split; [split; [apply basename_slashFree | exact Hplain]|]. split; reflexivity.
      * destruct Hcases as [msg Hm]. rewrite Hr in Hm. discriminate Hm.
      * rewrite Hr in Hcases. discriminate Hcases.
    + destruct Hcases as [[msg Hm] | [Hm | Hm]]; rewrite Hr in Hm; discriminate Hm.
  - intros H. injection H as ->. exact Hcases.
Qed.

(** The endpoint in the sample world, where the audio directory has no
    entry [passwd], and in the world where it has one. *)
Lemma media_GET_serves_only_audio_directory_witness :
  (MediaRoute.GET (Some "../../etc/passwd") Samples.world).1
  = Returned (MediaRoute.JsonError 404 "File not found")
  /\ (MediaRoute.GET (Some "../../etc/passwd") Samples.worldWithPasswd).1
     = Returned (MediaRoute.Audio "application/octet-stream" 1 [Byte.x2a]).
Proof.
  split.
  - destruct (media_GET_serves_only_audio_directory (Some "../../etc/passwd")
                Samples.world eq_refl eq_refl) as (_ & _ & H).
    exact (H eq_refl).
  - destruct (media_GET_serves_only_audio_directory (Some "../../etc/passwd")
                Samples.worldWithPasswd eq_refl eq_refl) as (_ & _ & H).
    exact (H eq_refl).
Defined.

(** C6 (as stated) fails in its example: when the audio directory holds a
    file named [passwd], the id [../../etc/passwd] is answered with that
    file (status 200), neither 403 nor 404.  The file is inside the audio
    directory. *)
Lemma media_GET_traversal_id_gets_200 :
  let r := MediaRoute.GET (Some "../../etc/passwd") Samples.worldWithPasswd in
  fs Samples.worldWithPasswd !! "/app/generated-audio/passwd" = Some (FsFile [Byte.x2a])
  /\ r.1 = Returned (MediaRoute.Audio "application/octet-stream" 1 [Byte.x2a])
  /\ forall status msg, r.1 <> Returned (MediaRoute.JsonError status msg).
Proof.
  cbv zeta.
  assert (H : (MediaRoute.GET (Some "../../etc/passwd") Samples.worldWithPasswd).1
              = Returned (MediaRoute.Audio "application/octet-stream" 1 [Byte.x2a])).
  { vm_compute. reflexivity. }
  split; [vm_compute; reflexivity|]. split; [exact H|].
  intros status msg. rewrite H. discriminate.
Qed.

(* ===================================================================== *)
(** * Further properties                                                 *)
(* ===================================================================== *)

(** ** Relations that the pipeline keeps *)

Lemma keeps_ret {A} (R : World -> World -> Prop) (a : A) :
  (forall w, R w w) -> keeps R (ret a).
Proof. intros Hrefl w. apply Hrefl. Qed.

Lemma keeps_throw {A} (R : World -> World -> Prop) (msg : string) :
  (forall w, R w w) -> keeps R (@throw A msg).
Proof. intros Hrefl w. apply Hrefl. Qed.

Lemma keeps_get (R : World -> World -> Prop) :
  (forall w, R w w) -> keeps R get.
Proof. intros Hrefl w. apply Hrefl. Qed.

Lemma keeps_modify (R : World -> World -> Prop) (f : World -> World) :
  (forall w, R w (f w)) -> keeps R (modify f).
Proof. intros H w. apply H. Qed.

Lemma keeps_bind {A B} (R : World -> World -> Prop) (m : M A) (k : A -> M B) :
  (forall w1 w2 w3, R w1 w2 -> R w2 w3 -> R w1 w3) ->
  keeps R m -> (forall a, keeps R (k a)) -> keeps R (bind m k).
Proof.
  intros Htrans Hm Hk w. unfold bind. specialize (Hm w).
  destruct (m w) as [[a|msg] w1]; cbn in *.
  - eapply Htrans; [exact Hm | apply Hk].
  - exact Hm.
Qed.

Lemma keeps_tryCatch {A} (R : World -> World -> Prop) (m : M A) (h : string -> M A) :
  (forall w1 w2 w3, R w1 w2 -> R w2 w3 -> R w1 w3) ->
  keeps R m -> (forall msg, keeps R (h msg)) -> keeps R (tryCatch m h).
Proof.
  intros Htrans Hm Hh w. unfold tryCatch. specialize (Hm w).
  destruct (m w) as [[a|msg] w1]; cbn in *.
  - exact Hm.
  - eapply Htrans; [exact Hm | apply Hh].
Qed.

Lemma keeps_tryFinally {A} (R : World -> World -> Prop) (m : M A) (fin : M unit) :
  (forall w1 w2 w3, R w1 w2 -> R w2 w3 -> R w1 w3) ->
  keeps R m -> keeps R fin -> keeps R (tryFinally m fin).
Proof.
  intros Htrans Hm Hf w. unfold tryFinally. specialize (Hm w).
  destruct (m w) as [r w1]. specialize (Hf w1).
  destruct (fin w1) as [[u|msg] w2]; cbn in *; eapply Htrans; eassumption.
Qed.

(** One step of a proof that a computation keeps a relation: the rules of
    the monad, a case analysis on what the code branches on, and the facts
    of the hint database [frame]. *)
Create HintDb frame.

Ltac frame_step :=
  match goal with
  | |- keeps _ (bind _ _) => apply keeps_bind; [solve [eauto with frame] | | intros ?]
  | |- keeps _ (ret _) => apply keeps_ret; solve [eauto with frame]
  | |- keeps _ (throw _) => apply keeps_throw; solve [eauto with frame]
  | |- keeps _ get => apply keeps_get; solve [eauto with frame]
  | |- keeps _ (modify _) => apply keeps_modify; intros ?; solve [eauto with frame]
  | |- keeps _ (tryCatch _ _) =>
      apply keeps_tryCatch; [solve [eauto with frame] | | intros ?]
  | |- keeps _ (tryFinally _ _) =>
      apply keeps_tryFinally; [solve [eauto with frame] | | ]
  | |- keeps _ (match ?x with _ => _ end) => destruct x
  | |- keeps _ _ => solve [eauto with frame]
  end.

Ltac frame := cbv zeta; repeat (frame_step; cbv zeta).

Section Frame.

Context {R : World -> World -> Prop}.
Hypothesis R_refl : forall w, R w w.
Hypothesis R_trans : forall w1 w2 w3, R w1 w2 -> R w2 w3 -> R w1 w3.
Hypothesis R_fs : forall w f, R w (with_fs w f).
Hypothesis R_chat : forall w req, R w (with_trace w (trace w ++ [ChatCall req])).
Hypothesis R_tts : forall w req p, R w (with_trace w (trace w ++ [TtsCall req p])).
Hypothesis R_ffmpeg :
  forall w inputs out, R w (with_trace w (trace w ++ [FfmpegCall inputs out])).
Hypothesis R_random : forall w n, R w (with_randomCalls w n).

#[local] Hint Resolve R_refl R_trans R_fs R_chat R_tts R_ffmpeg R_random : frame.

Lemma keeps_log_chat (req : ChatRequest) : keeps R (log (ChatCall req)).
Proof. unfold log. frame. Qed.

Lemma keeps_log_tts (req : TtsRequest) (p : string) : keeps R (log (TtsCall req p)).
Proof. unfold log. frame. Qed.

Lemma keeps_log_ffmpeg (inputs : list string) (out : string) :
  keeps R (log (FfmpegCall inputs out)).
Proof. unfold log. frame. Qed.

Lemma keeps_getenv (key : string) : keeps R (getenv key).
Proof. unfold getenv. frame. Qed.

Lemma keeps_randomIndex (n : nat) : keeps R (randomIndex n).
Proof. unfold randomIndex. frame. Qed.

Lemma keeps_existsSync (p : string) : keeps R (Fs.existsSync p).
Proof. unfold Fs.existsSync. frame. Qed.

Lemma keeps_mkdirSync (p : string) : keeps R (Fs.mkdirSync p).
Proof. unfold Fs.mkdirSync. frame. Qed.

Lemma keeps_writeFileSync (p : string) (data : list Byte.byte) :
  keeps R (Fs.writeFileSync p data).
Proof. unfold Fs.writeFileSync. frame. Qed.

Lemma keeps_readFileSync (p : string) : keeps R (Fs.readFileSync p).
Proof. unfold Fs.readFileSync. frame. Qed.

Lemma keeps_statSync_size (p : string) : keeps R (Fs.statSync_size p).
Proof. unfold Fs.statSync_size. frame. Qed.

Lemma keeps_rmSync (p : string) : keeps R (Fs.rmSync p).
Proof. unfold Fs.rmSync. frame. Qed.

Lemma keeps_unlinkSync (p : string) : keeps R (Fs.unlinkSync p).
Proof. unfold Fs.unlinkSync. frame. Qed.

#[local] Hint Resolve keeps_log_chat keeps_log_tts keeps_log_ffmpeg keeps_getenv keeps_randomIndex keeps_existsSync
  keeps_mkdirSync keeps_writeFileSync keeps_readFileSync keeps_statSync_size
  keeps_rmSync keeps_unlinkSync : frame.

(** *** text-generator.ts *)

Lemma keeps_fetchChat (req : ChatRequest) : keeps R (fetchChat req).
Proof. unfold fetchChat. frame. Qed.

Lemma keeps_readContent (data : Js.Json) : keeps R (readContent data).
Proof. unfold readContent. frame. Qed.

#[local] Hint Resolve keeps_fetchChat keeps_readContent : frame.

Lemma keeps_generateText (userPrompt : string) (options : GenerateTextOptions) :
  keeps R (generateText userPrompt options).
Proof. unfold generateText. frame. Qed.

Lemma keeps_asString (method : string) (v : Js.Json) : keeps R (asString method v).
Proof. unfold asString. frame. Qed.

#[local] Hint Resolve keeps_generateText keeps_asString : frame.

Lemma keeps_generateInvestigatorComment (p : InvestigatorCommentParams) :
  keeps R (generateInvestigatorComment p).
Proof. unfold generateInvestigatorComment. frame. Qed.

Lemma keeps_generateHostComment (p : HostCommentParams) :
  keeps R (generateHostComment p).
Proof. unfold generateHostComment. frame. Qed.

Lemma keeps_generateTitle (dialogue : list DialogueTurn) (hostNames : list string) :
  keeps R (generateTitle dialogue hostNames).
Proof. unfold generateTitle. frame. Qed.

Lemma keeps_generateTags (dialogue : list DialogueTurn) :
  keeps R (generateTags dialogue).
Proof. unfold generateTags. frame. Qed.

#[local] Hint Resolve keeps_generateInvestigatorComment keeps_generateHostComment
  keeps_generateTitle keeps_generateTags : frame.

(** *** text-to-speech.ts *)

Lemma keeps_fetchTts (req : TtsRequest) (p : string) : keeps R (fetchTts req p).
Proof. unfold fetchTts. frame. Qed.

#[local] Hint Resolve keeps_fetchTts : frame.

Lemma keeps_fetchAndSave (req : TtsRequest) (p : string) : keeps R (fetchAndSave req p).
Proof. unfold fetchAndSave. frame. Qed.

#[local] Hint Resolve keeps_fetchAndSave : frame.

Lemma keeps_synthesizeSpeech (t : string) (v : Voice) (p : string) :
  keeps R (synthesizeSpeech t v p).
Proof. unfold synthesizeSpeech. frame. Qed.

#[local] Hint Resolve keeps_synthesizeSpeech : frame.

Lemma keeps_synthesizeDialogueTurn (t speakerId outputDir : string) (turn : nat) :
  keeps R (synthesizeDialogueTurn t speakerId outputDir turn).
Proof. unfold synthesizeDialogueTurn. frame. Qed.

#[local] Hint Resolve keeps_synthesizeDialogueTurn : frame.

(** *** The pieces shared by the two generators *)

Lemma keeps_pickLine (lines : option (list string)) : keeps R (pickLine lines).
Proof. unfold pickLine. frame. Qed.

Lemma keeps_checkFfmpegAvailable : keeps R checkFfmpegAvailable.
Proof. unfold checkFfmpegAvailable. frame. Qed.

Lemma keeps_execFfmpegConcat (inputs : list string) (out : string) :
  keeps R (execFfmpegConcat inputs out).
Proof. unfold execFfmpegConcat. frame. Qed.

Lemma keeps_removeListFile (p : string) : keeps R (removeListFile p).
Proof. unfold removeListFile. frame. Qed.

Lemma keeps_cleanupOnError (p : string) : keeps R (cleanupOnError p).
Proof. unfold cleanupOnError. frame. Qed.

Lemma keeps_ensureAudioDirectory : keeps R ensureAudioDirectory.
Proof. unfold ensureAudioDirectory. frame. Qed.

#[local] Hint Resolve keeps_pickLine keeps_checkFfmpegAvailable keeps_execFfmpegConcat
  keeps_removeListFile keeps_cleanupOnError : frame.

Lemma keeps_readAll (files : list string) : keeps R (Report.readAll files).
Proof.
  induction files as [|f rest IH]; cbn [Report.readAll]; frame.
Qed.

#[local] Hint Resolve keeps_readAll : frame.

Lemma keeps_report_concatenateWithFfmpeg (inputs : list string) (out : string) :
  keeps R (Report.concatenateWithFfmpeg inputs out).
Proof. unfold Report.concatenateWithFfmpeg. frame. Qed.

Lemma keeps_concatenateSimple (inputs : list string) (out : string) :
  keeps R (Report.concatenateSimple inputs out).
Proof. unfold Report.concatenateSimple. frame. Qed.

Lemma keeps_podcast_concatenateWithFfmpeg (inputs : list string) (out : string) :
  keeps R (Podcast.concatenateWithFfmpeg inputs out).
Proof. unfold Podcast.concatenateWithFfmpeg. frame. Qed.

#[local] Hint Resolve keeps_report_concatenateWithFfmpeg keeps_concatenateSimple
  keeps_podcast_concatenateWithFfmpeg : frame.

Lemma keeps_report_concatenateAudioFiles (inputs : list string) (out : string) :
  keeps R (Report.concatenateAudioFiles inputs out).
Proof. unfold Report.concatenateAudioFiles. frame. Qed.

Lemma keeps_podcast_concatenateAudioFiles (inputs : list string) (out : string) :
  keeps R (Podcast.concatenateAudioFiles inputs out).
Proof. unfold Podcast.concatenateAudioFiles. frame. Qed.

#[local] Hint Resolve keeps_report_concatenateAudioFiles
  keeps_podcast_concatenateAudioFiles : frame.

(** *** The generators, for a progress callback that keeps the relation *)

Variable onProgress : option (GenerationProgress -> M unit).
Hypothesis R_callback : forall cb p, onProgress = Some cb -> keeps R (cb p).

Lemma keeps_callOpt (p : GenerationProgress) : keeps R (callOpt onProgress p).
Proof.
  unfold callOpt. destruct onProgress as [cb|] eqn:E.
  - apply (R_callback cb p). reflexivity.
  - apply keeps_ret, R_refl.
Qed.

#[local] Hint Resolve keeps_callOpt : frame.

Lemma keeps_report_contentTurn investigation outputDir speakers summary st :
  keeps R (Report.contentTurn investigation outputDir speakers summary st).
Proof. unfold Report.contentTurn. frame. Qed.

#[local] Hint Resolve keeps_report_contentTurn : frame.

Lemma keeps_groupTurns investigation target outputDir speakers remaining summary st :
  keeps R (Report.groupTurns investigation target outputDir speakers remaining summary st).
Proof.
  revert st. induction remaining as [|k IH]; intros st; cbn [Report.groupTurns]; frame.
Qed.

#[local] Hint Resolve keeps_groupTurns : frame.

Lemma keeps_groupLoop investigation target outputDir speakers i total groups st :
  keeps R (Report.groupLoop investigation target onProgress outputDir speakers
             i total groups st).
Proof.
  revert i st. induction groups as [|g rest IH]; intros i st; cbn [Report.groupLoop]; frame.
Qed.

#[local] Hint Resolve keeps_groupLoop : frame.

Lemma keeps_report_generate documents investigation selected target
    reportId outputDir finalOutputPath :
  keeps R (Report.generate documents investigation selected target onProgress
             reportId outputDir finalOutputPath).
Proof.
  unfold Report.generate. frame.
Qed.

#[local] Hint Resolve keeps_report_generate : frame.

Lemma keeps_generateInvestigativeReport documents investigation selected target :
  keeps R (Report.generateInvestigativeReport documents investigation selected target
             onProgress).
Proof.
  unfold Report.generateInvestigativeReport. frame.
Qed.

Lemma keeps_podcast_contentTurn arts outputDir speakers st :
  keeps R (Podcast.contentTurn arts onProgress outputDir speakers st).
Proof.
  unfold Podcast.contentTurn. frame.
Qed.

#[local] Hint Resolve keeps_podcast_contentTurn : frame.

Lemma keeps_contentLoop arts target outputDir speakers fuel st :
  keeps R (Podcast.contentLoop arts target onProgress outputDir speakers fuel st).
Proof.
  revert st. induction fuel as [|f IH]; intros st; cbn [Podcast.contentLoop]; frame.
Qed.

#[local] Hint Resolve keeps_contentLoop : frame.

Lemma keeps_podcast_finish host1Key speaker1 speaker2 overview podcastId outputDir
    finalOutputPath st :
  keeps R (Podcast.finish onProgress host1Key speaker1 speaker2 overview podcastId
             outputDir finalOutputPath st).
Proof.
  unfold Podcast.finish. frame.
Qed.

#[local] Hint Resolve keeps_podcast_finish : frame.

Lemma keeps_podcast_generate fuel arts hosts target podcastId outputDir finalOutputPath :
  keeps R (Podcast.generate fuel arts hosts target onProgress podcastId outputDir
             finalOutputPath).
Proof.
  unfold Podcast.generate. frame.
Qed.

#[local] Hint Resolve keeps_podcast_generate : frame.

Lemma keeps_generatePodcast fuel request :
  keeps R (Podcast.generatePodcast fuel request onProgress).
Proof.
  unfold Podcast.generatePodcast. frame.
Qed.

End Frame.

(** ** What the text generators return *)

Lemma trimStart_no_space (s : string) : startsWithSpace (JsString.trimStart s) = false.
Proof.
  induction s as [|c rest IH]; cbn; [reflexivity|].
  destruct (JsString.isSpace c) eqn:E; [exact IH | cbn; exact E].
Qed.

Lemma trimEnd_no_space (s : string) : endsWithSpace (JsString.trimEnd s) = false.
Proof.
  induction s as [|c rest IH]; cbn; [reflexivity|].
  destruct (JsString.trimEnd rest) as [|d kept] eqn:E.
  - destruct (JsString.isSpace c) eqn:Hc; cbn; [reflexivity | exact Hc].
  - cbn in *. exact IH.
Qed.

Lemma trimEnd_keeps_start (s : string) :
  startsWithSpace s = false -> startsWithSpace (JsString.trimEnd s) = false.
Proof.
  destruct s as [|c rest]; cbn; [reflexivity|]. intros Hc.
  destruct (JsString.trimEnd rest); [rewrite Hc|]; cbn; auto.
Qed.

Lemma trim_no_space (s : string) :
  startsWithSpace (JsString.trim s) = false /\ endsWithSpace (JsString.trim s) = false.
Proof.
  unfold JsString.trim. split.
  - apply trimEnd_keeps_start, trimStart_no_space.
  - apply trimEnd_no_space.
Qed.

Lemma occurs_trimStart (c : ascii) (s : string) :
  occurs c s = false -> occurs c (JsString.trimStart s) = false.
Proof.
  induction s as [|x rest IH]; cbn; [reflexivity|]. intros H.
  apply orb_false_iff in H as [Hx Hr].
  destruct (JsString.isSpace x); [auto | cbn; rewrite Hx, Hr; reflexivity].
Qed.

Lemma occurs_trimEnd (c : ascii) (s : string) :
  occurs c s = false -> occurs c (JsString.trimEnd s) = false.
Proof.
  induction s as [|x rest IH]; cbn; [reflexivity|]. intros H.
  apply orb_false_iff in H as [Hx Hr]. specialize (IH Hr).
  destruct (JsString.trimEnd rest) as [|d kept].
  - destruct (JsString.isSpace x); cbn; [reflexivity | rewrite Hx; reflexivity].
  - cbn in *. rewrite Hx. exact IH.
Qed.

Lemma occurs_trim (c : ascii) (s : string) :
  occurs c s = false -> occurs c (JsString.trim s) = false.
Proof. intros H. apply occurs_trimEnd, occurs_trimStart, H. Qed.

Lemma occurs_append (c : ascii) (a b : string) :
  occurs c (a +:+ b) = occurs c a || occurs c b.
Proof.
  induction a as [|x rest IH]; [reflexivity|].
  change (String x rest +:+ b) with (String x (rest +:+ b)). cbn.
  rewrite IH, orb_assoc. reflexivity.
Qed.

Lemma stripQuotes_no_quote (s : string) :
  occurs (ascii_of_nat 34) (JsString.stripQuotes s) = false
  /\ occurs (ascii_of_nat 39) (JsString.stripQuotes s) = false.
Proof.
  induction s as [|x rest [IH1 IH2]]; cbn [JsString.stripQuotes]; [split; reflexivity|].
  destruct ((nat_of_ascii x =? 34)%nat || (nat_of_ascii x =? 39)%nat) eqn:E; [auto|].
  apply orb_false_iff in E as [E1 E2].
  apply Nat.eqb_neq in E1, E2.
  cbn [occurs]. rewrite IH1, IH2, !orb_false_r. split.
  - apply Ascii.eqb_neq. intros ->. apply E1. reflexivity.
  - apply Ascii.eqb_neq. intros ->. apply E2. reflexivity.
Qed.

Lemma split_on_from_no_separator (sep : ascii) (cur s : string) :
  occurs sep cur = false ->
  Forall (fun piece => occurs sep piece = false) (JsString.split_on_from sep cur s).
Proof.
  revert cur. induction s as [|c rest IH]; intros cur Hcur; cbn [JsString.split_on_from].
  - constructor; [exact Hcur | constructor].
  - destruct (Ascii.eqb c sep) eqn:E.
    + constructor; [exact Hcur | apply IH; reflexivity].
    + apply IH. rewrite occurs_append, Hcur. cbn. rewrite E. reflexivity.
Qed.

(** [generateText] step by step. *)
Lemma generateText_run (userPrompt : string) (options : GenerateTextOptions) (w : World) :
  generateText userPrompt options w
  = match JsString.orElse (env w !! "XAI_API_KEY") None with
    | None => (Thrown "XAI_API_KEY is not configured", w)
    | Some key =>
        let req := chatRequest key userPrompt options in
        let w1 := with_trace w (trace w ++ [ChatCall req]) in
        match chatApi w (length (chatCalls w)) req with
        | Rejected reason => (Thrown reason, w1)
        | Resolved response =>
            if negb (http_ok (chat_status response)) then
              (Thrown ("Grok API error: " +:+ JsString.decimal (chat_status response)
                       +:+ " - " +:+ chat_body response), w1)
            else match chat_json response with
                 | None => (Thrown "Unexpected token in JSON", w1)
                 | Some data => readContent data w1
                 end
        end
    end.
Proof.
  unfold generateText, getenv, fetchChat, log, modify, get, ret, throw, bind.
  cbn [fst snd].
  destruct (JsString.orElse (env w !! "XAI_API_KEY") None) as [key|]; [|reflexivity].
  cbv zeta.
  destruct (chatApi w (length (chatCalls w)) (chatRequest key userPrompt options))
    as [reason|response]; [reflexivity|].
  destruct (negb (http_ok (chat_status response))); [reflexivity|].
  destruct (chat_json response); reflexivity.
Qed.

Lemma readContent_world (data : Js.Json) (w : World) : (readContent data w).2 = w.
Proof.
  unfold readContent. destruct data; try reflexivity;
    destruct (choiceContent _) as [v|]; try reflexivity;
    destruct (Js.truthy _); reflexivity.
Qed.

(** When [generateText] returns, one request was made, with the given
    prompt and options and the configured credential. *)
Lemma generateText_Returned (userPrompt : string) (options : GenerateTextOptions)
    (w w' : World) (v : Js.Json) :
  generateText userPrompt options w = (Returned v, w') ->
  exists key, env w !! "XAI_API_KEY" = Some key /\ key <> EmptyString
              /\ w' = with_trace w (trace w ++ [ChatCall (chatRequest key userPrompt options)]).
Proof.
  rewrite generateText_run.
  destruct (env w !! "XAI_API_KEY") as [key|] eqn:Hkey; cbn [JsString.orElse];
    [|discriminate].
  destruct (JsString.truthy key) eqn:Ht; [|discriminate]. cbv zeta.
  intros H. exists key. split; [reflexivity|]. split.
  - intros ->. discriminate Ht.
  - destruct (chatApi _ _ _) as [reason|response]; [discriminate|].
    destruct (negb _); [discriminate|].
    destruct (chat_json response) as [data|]; [|discriminate].
    pose proof (readContent_world data
                  (with_trace w (trace w ++ [ChatCall (chatRequest key userPrompt options)])))
      as Hw.
    rewrite H in Hw. cbn in Hw. exact Hw.
Qed.

Lemma asString_Returned (method : string) (v : Js.Json) (w w' : World) (s : string) :
  asString method v w = (Returned s, w') -> v = Js.JStr s /\ w' = w.
Proof. destruct v; cbn; intros H; try discriminate H. injection H as -> ->. auto. Qed.

Lemma outcome_eq {A} (r : Outcome A * World) (a : A) :
  r.1 = Returned a -> r = (Returned a, r.2).
Proof. destruct r as [o w]. cbn. intros ->. reflexivity. Qed.

Lemma chatCalls_after_call (w : World) (req : ChatRequest) :
  length (chatCalls (with_trace w (trace w ++ [ChatCall req]))) = S (length (chatCalls w)).
Proof. unfold chatCalls. cbn. rewrite List.filter_app, length_app. cbn. lia. Qed.

(** X1.  A title that [generateTitle] returns holds no quotation mark
    and no apostrophe and has no white space at either end; it took one
    chat request and left the files alone. *)
Theorem generateTitle_clean (dialogue : list DialogueTurn) (hostNames : list string)
    (w : World) (t : string) :
  let r := generateTitle dialogue hostNames w in
  r.1 = Returned t ->
  occurs (ascii_of_nat 34) t = false /\ occurs (ascii_of_nat 39) t = false
  /\ startsWithSpace t = false /\ endsWithSpace t = false
  /\ length (chatCalls r.2) = S (length (chatCalls w)) /\ fs r.2 = fs w.
Proof.
  intros r H. apply outcome_eq in H. subst r. revert H. generalize ((generateTitle dialogue hostNames w).2).
  intros w' H. unfold generateTitle in H. cbv zeta in H.
  apply bind_Returned_inv in H as (v & w1 & Hgen & H).
  apply bind_Returned_inv in H as (s & w2 & Hstr & H).
  injection H as <- <-.
  apply asString_Returned in Hstr as [-> ->].
  apply generateText_Returned in Hgen as (key & _ & _ & ->).
  destruct (stripQuotes_no_quote s) as [H1 H2].
  destruct (trim_no_space (JsString.stripQuotes s)) as [H3 H4].
  split_and!; auto using occurs_trim, chatCalls_after_call.
Qed.

Lemma generateTitle_clean_witness :
  let r := generateTitle [mkTurn "reporter" "Noted."] ["Sadie Woodward"; "John Marlowe"]
             (Samples.worldReplying "  'The Hidden Files'  ") in
  r.1 = Returned "The Hidden Files"
  /\ occurs (ascii_of_nat 39) "The Hidden Files" = false
  /\ length (chatCalls r.2) = 1%nat.
Proof.
  cbv zeta.
  assert (H : (generateTitle [mkTurn "reporter" "Noted."] ["Sadie Woodward"; "John Marlowe"]
                 (Samples.worldReplying "  'The Hidden Files'  ")).1
              = Returned "The Hidden Files") by (vm_compute; reflexivity).
  pose proof (generateTitle_clean _ _ _ _ H) as (_ & H2 & _ & _ & H5 & _).
  split; [exact H|]. split; [exact H2 | exact H5].
Defined.

(** X2.  Every tag that [generateTags] returns is non-empty, holds no
    comma and has no white space at either end; the tags took one chat
    request and left the files alone. *)
Theorem generateTags_clean (dialogue : list DialogueTurn) (w : World) (tags : list string) :
  let r := generateTags dialogue w in
  r.1 = Returned tags ->
  Forall (fun tag => tag <> EmptyString /\ occurs ","%char tag = false
                     /\ startsWithSpace tag = false /\ endsWithSpace tag = false) tags
  /\ length (chatCalls r.2) = S (length (chatCalls w)) /\ fs r.2 = fs w.
Proof.
  intros r H. apply outcome_eq in H. subst r. revert H.
  generalize ((generateTags dialogue w).2).
  intros w' H. unfold generateTags in H. cbv zeta in H.
  apply bind_Returned_inv in H as (v & w1 & Hgen & H).
  apply bind_Returned_inv in H as (s & w2 & Hstr & H).
  injection H as <- <-.
  apply asString_Returned in Hstr as [-> ->].
  apply generateText_Returned in Hgen as (key & _ & _ & ->).
  split_and!; [|apply chatCalls_after_call|reflexivity].
  pose proof (split_on_from_no_separator ","%char EmptyString s eq_refl) as Hs.
  fold (JsString.split_on ","%char s) in Hs.
  induction Hs as [|piece rest Hp _ IH]; cbn; [constructor|].
  destruct (JsString.truthy (JsString.trim piece)) eqn:Ht; [|exact IH].
  constructor; [|exact IH].
  destruct (trim_no_space piece) as [H3 H4].
  split; [|auto using occurs_trim].
  intros Hempty. rewrite Hempty in Ht. discriminate Ht.
Qed.

Lemma generateTags_clean_witness :
  let r := generateTags [mkTurn "reporter" "Noted."]
             (Samples.worldReplying " archives, cold war ,, dallas ") in
  r.1 = Returned ["archives"; "cold war"; "dallas"]
  /\ Forall (fun tag => tag <> EmptyString /\ occurs ","%char tag = false
                        /\ startsWithSpace tag = false /\ endsWithSpace tag = false)
       ["archives"; "cold war"; "dallas"].
Proof.
  cbv zeta.
  assert (H : (generateTags [mkTurn "reporter" "Noted."]
                 (Samples.worldReplying " archives, cold war ,, dallas ")).1
              = Returned ["archives"; "cold war"; "dallas"]) by (vm_compute; reflexivity).
  split; [exact H|]. exact (proj1 (generateTags_clean _ _ _ H)).
Defined.

(** X3.  A comment that [generateInvestigatorComment] or
    [generateHostComment] returns has no white space at either end, and it
    took exactly one chat request: the persona prompt as system message,
    then the user prompt, sampled at temperature 0.8 with at most 500
    (investigator) or 400 (host) tokens instead of the configured defaults
    0.7 and 4096. *)
Theorem comment_request (ip : InvestigatorCommentParams) (hp : HostCommentParams)
    (w : World) :
  (forall c w', generateInvestigatorComment ip w = (Returned c, w') ->
     startsWithSpace c = false /\ endsWithSpace c = false
     /\ exists key, env w !! "XAI_API_KEY" = Some key /\ key <> EmptyString
          /\ w' = with_trace w (trace w ++
                    [ChatCall (mkChatRequest Config.grok_apiUrl ("Bearer " +:+ key)
                                 Config.grok_name
                                 [mkMessage "system" (investigatorSystemPrompt ip);
                                  mkMessage "user" (investigatorUserPrompt ip)]
                                 0.8%Q 500)]))
  /\ (forall c w', generateHostComment hp w = (Returned c, w') ->
        startsWithSpace c = false /\ endsWithSpace c = false
        /\ exists key, env w !! "XAI_API_KEY" = Some key /\ key <> EmptyString
             /\ w' = with_trace w (trace w ++
                       [ChatCall (mkChatRequest Config.grok_apiUrl ("Bearer " +:+ key)
                                    Config.grok_name
                                    [mkMessage "system" (hostSystemPrompt hp);
                                     mkMessage "user" (hostUserPrompt hp)]
                                    0.8%Q 400)])).
Proof.
  split; intros c w' H.
  - unfold generateInvestigatorComment in H.
    apply bind_Returned_inv in H as (v & w1 & Hgen & H).
    apply bind_Returned_inv in H as (s & w2 & Hstr & H).
    injection H as <- <-.
    apply asString_Returned in Hstr as [-> ->].
    apply generateText_Returned in Hgen as (key & Hk & Hne & ->).
    destruct (trim_no_space
                (JsString.stripDelimited "("%char ")"%char
                   (JsString.stripDelimited "["%char "]"%char
                      (JsString.stripDelimited "*"%char "*"%char s)))) as [H1 H2].
    split_and!; [exact H1 | exact H2 |]. exists key. split_and!; auto.
  - unfold generateHostComment in H.
    apply bind_Returned_inv in H as (v & w1 & Hgen & H).
    apply bind_Returned_inv in H as (s & w2 & Hstr & H).
    injection H as <- <-.
    apply asString_Returned in Hstr as [-> ->].
    apply generateText_Returned in Hgen as (key & Hk & Hne & ->).
    destruct (trim_no_space
                (JsString.stripDelimited "["%char "]"%char
                   (JsString.stripDelimited "*"%char "*"%char s))) as [H1 H2].
    split_and!; [exact H1 | exact H2 |]. exists key. split_and!; auto.
Qed.

(** ** The turn files of a run *)

Lemma append_inv_head (a b c : string) : a +:+ b = a +:+ c -> b = c.
Proof.
  induction a as [|x rest IH]; [exact id|].
  change (String x (rest +:+ b) = String x (rest +:+ c) -> b = c).
  intros H. injection H as H. exact (IH H).
Qed.

Lemma append_inv_tail (a b c : string) : a +:+ c = b +:+ c -> a = b.
Proof.
  revert b. induction a as [|x rest IH]; intros [|y rest'] H.
  - reflexivity.
  - exfalso. apply (f_equal String.length) in H.
    rewrite append_nil_l, string_length_append in H. cbn in H. lia.
  - exfalso. apply (f_equal String.length) in H.
    rewrite append_nil_l, string_length_append in H. cbn in H. lia.
  - rewrite !append_cons in H. injection H as -> H. f_equal. exact (IH _ H).
Qed.

Lemma digitsValue_from_app (acc : nat) (a b : string) :
  digitsValue_from acc (a +:+ b) = digitsValue_from (digitsValue_from acc a) b.
Proof.
  revert acc. induction a as [|x rest IH]; intros acc; [reflexivity|].
  rewrite append_cons. cbn. apply IH.
Qed.

Lemma allDigits_app (a b : string) : allDigits (a +:+ b) = allDigits a && allDigits b.
Proof.
  induction a as [|x rest IH]; [reflexivity|].
  rewrite append_cons. cbn. rewrite IH, andb_assoc. reflexivity.
Qed.

Lemma digit_spec (n : nat) :
  isDigit (JsString.digit n) = true
  /\ (nat_of_ascii (JsString.digit n) - 48 = n mod 10)%nat.
Proof.
  unfold isDigit, JsString.digit.
  pose proof (Nat.mod_upper_bound n 10 ltac:(lia)) as Hlt.
  rewrite nat_ascii_embedding by lia. split; [|lia].
  apply andb_true_iff. split; apply Nat.leb_le; lia.
Qed.

(** [n.toString()] is a non-empty string of digits that denotes [n]. *)
Lemma decimal_from_spec (fuel n : nat) (acc : string) :
  (n < fuel)%nat ->
  exists d, JsString.decimal_from fuel n acc = d +:+ acc
            /\ allDigits d = true /\ d <> EmptyString /\ digitsValue d = n.
Proof.
  revert n acc. induction fuel as [|f IH]; intros n acc Hlt; [lia|].
  cbn [JsString.decimal_from]. destruct (digit_spec n) as [Hd Hv].
  destruct (n <? 10)%nat eqn:E.
  - apply Nat.ltb_lt in E. exists (String (JsString.digit n) EmptyString).
    split_and!; [reflexivity | cbn; rewrite Hd; reflexivity | discriminate |].
    unfold digitsValue. cbn [digitsValue_from]. rewrite Hv, Nat.mod_small by lia. lia.
  - apply Nat.ltb_ge in E.
    assert (Hq : (n / 10 < f)%nat).
    { pose proof (Nat.div_lt n 10 ltac:(lia) ltac:(lia)). lia. }
    destruct (IH (n / 10)%nat (String (JsString.digit n) acc) Hq)
      as (d & Heq & Hall & Hne & Hval).
    exists (d +:+ String (JsString.digit n) EmptyString).
    split_and!.
    + rewrite Heq, append_assoc. reflexivity.
    + rewrite allDigits_app, Hall. cbn. rewrite Hd. reflexivity.
    + destruct d; [contradiction | discriminate].
    + unfold digitsValue in *. rewrite digitsValue_from_app, Hval. cbn [digitsValue_from].
      rewrite Hv. pose proof (Nat.div_mod_eq n 10). lia.
Qed.

Lemma decimal_spec (n : nat) :
  allDigits (JsString.decimal n) = true /\ JsString.decimal n <> EmptyString
  /\ digitsValue (JsString.decimal n) = n.
Proof.
  destruct (decimal_from_spec (S n) n EmptyString ltac:(lia)) as (d & Heq & H).
  unfold JsString.decimal. rewrite Heq, append_nil_r. exact H.
Qed.

Lemma padStart3_spec (s : string) :
  allDigits s = true -> s <> EmptyString ->
  allDigits (JsString.padStart3 s) = true
  /\ digitsValue (JsString.padStart3 s) = digitsValue s.
Proof.
  intros Hall Hne. unfold JsString.padStart3.
  destruct s as [|a [|b [|c rest]]]; [contradiction| | |]; cbn [String.length];
    split; try exact Hall; try reflexivity.
Qed.

(** The three-digit form of a turn index determines the index. *)
Lemma padded_index_inj (i j : nat) :
  JsString.padStart3 (JsString.decimal i) = JsString.padStart3 (JsString.decimal j) ->
  i = j.
Proof.
  intros H. destruct (decimal_spec i) as (Hi1 & Hi2 & Hi3).
  destruct (decimal_spec j) as (Hj1 & Hj2 & Hj3).
  destruct (padStart3_spec _ Hi1 Hi2) as [_ Hpi].
  destruct (padStart3_spec _ Hj1 Hj2) as [_ Hpj].
  rewrite <- Hi3, <- Hj3, <- Hpi, <- Hpj, H. reflexivity.
Qed.

Lemma digits_then_dash_inj (d1 d2 r1 r2 : string) :
  allDigits d1 = true -> allDigits d2 = true ->
  d1 +:+ String "-"%char r1 = d2 +:+ String "-"%char r2 -> d1 = d2 /\ r1 = r2.
Proof.
  revert d2. induction d1 as [|x rest IH]; intros [|y rest'] H1 H2 H.
  - injection H as ->. auto.
  - rewrite append_nil_l, append_cons in H. injection H as <- _. discriminate H2.
  - rewrite append_nil_l, append_cons in H. injection H as -> _. discriminate H1.
  - rewrite !append_cons in H. injection H as -> H.
    cbn in H1, H2. apply andb_true_iff in H1 as [_ H1]. apply andb_true_iff in H2 as [_ H2].
    destruct (IH _ H1 H2 H) as [-> ->]. auto.
Qed.

(** The file name [synthesizeDialogueTurn] builds. *)
Lemma turn_name_inj (i j : nat) (s1 s2 : string) :
  "turn-" +:+ JsString.padStart3 (JsString.decimal i) +:+ "-" +:+ s1 +:+ ".mp3"
  = "turn-" +:+ JsString.padStart3 (JsString.decimal j) +:+ "-" +:+ s2 +:+ ".mp3" ->
  i = j /\ s1 = s2.
Proof.
  intros H. apply append_inv_head in H.
  destruct (decimal_spec i) as (Hi1 & Hi2 & _). destruct (decimal_spec j) as (Hj1 & Hj2 & _).
  destruct (padStart3_spec _ Hi1 Hi2) as [Hpi _].
  destruct (padStart3_spec _ Hj1 Hj2) as [Hpj _].
  change ("-" +:+ s1 +:+ ".mp3") with (String "-"%char (s1 +:+ ".mp3")) in H.
  change ("-" +:+ s2 +:+ ".mp3") with (String "-"%char (s2 +:+ ".mp3")) in H.
  destruct (digits_then_dash_inj _ _ _ _ Hpi Hpj H) as [Hp Hs].
  split; [exact (padded_index_inj _ _ Hp) | exact (append_inv_tail _ _ _ Hs)].
Qed.

Lemma turn_name_segment (i : nat) (s : string) :
  Path.slashFree s = true ->
  Path.segment ("turn-" +:+ JsString.padStart3 (JsString.decimal i) +:+ "-" +:+ s +:+ ".mp3").
Proof.
  intros Hs. split; [|reflexivity].
  assert (Hd : forall d, allDigits d = true -> Path.slashFree d = true).
  { induction d as [|c rest IH]; cbn; [reflexivity|]. intros H.
    apply andb_true_iff in H as [Hc Hr]. rewrite (IH Hr), andb_true_r.
    apply negb_true_iff, Ascii.eqb_neq. intros ->. discriminate Hc. }
  destruct (decimal_spec i) as (Hi1 & Hi2 & _).
  destruct (padStart3_spec _ Hi1 Hi2) as [Hpi _].
  rewrite !slashFree_app, (Hd _ Hpi), Hs. reflexivity.
Qed.

(** The directory of a run, [path.join(AUDIO_DIR, id)]. *)
Lemma run_directory_shape (w : World) (id : string) :
  Path.isAbsolute (cwd w) = true -> Path.segment id ->
  exists ys, Forall Path.segment ys
             /\ Path.join (AUDIO_DIR w) id = "/" +:+ JsString.join "/" (ys ++ [id])
             /\ Path.join (AUDIO_DIR w) id = AUDIO_DIR w +:+ "/" +:+ id.
Proof.
  intros Habs Hid. destruct (audio_dir_shape w Habs) as (xs & Hxs & Hshape).
  assert (Hg : Path.segment "generated-audio") by (split; reflexivity).
  exists (xs ++ ["generated-audio"]). split_and!.
  - apply Forall_app. split; [exact Hxs | constructor; [exact Hg | constructor]].
  - rewrite Hshape, (join_child xs "generated-audio" Hxs Hg id Hid).
    apply child_as_segments.
  - rewrite Hshape. apply (join_child xs "generated-audio" Hxs Hg id Hid).
Qed.

Lemma synthesizeSpeech_Returned (t : string) (v : Voice) (p path : string) (w : World) :
  (synthesizeSpeech t v p w).1 = Returned path -> path = p.
Proof.
  intros H. destruct (synthesizeSpeech_trace t v p w) as [[_ [msg Hm]]|(req & _ & _ & Hr)].
  - rewrite Hm in H. discriminate H.
  - destruct Hr as [Hr|[msg Hm]]; rewrite ?Hr, ?Hm in H; [|discriminate H].
    injection H as <-. reflexivity.
Qed.

Lemma synthesizeDialogueTurn_Returned (t speakerId outputDir path : string) (turn : nat)
    (w : World) :
  (synthesizeDialogueTurn t speakerId outputDir turn w).1 = Returned path ->
  path = Path.join outputDir
           ("turn-" +:+ JsString.padStart3 (JsString.decimal turn) +:+ "-" +:+ speakerId
            +:+ ".mp3").
Proof.
  unfold synthesizeDialogueTurn. cbv zeta.
  destruct (String.length t <=? maxChunkLength)%nat; apply synthesizeSpeech_Returned.
Qed.

(** X4.  In a run directory [AUDIO_DIR/id], the audio of a turn
    whose speaker key holds no slash is saved directly in that directory,
    as turn-NNN-key.mp3, with the turn index written with at least three
    digits. *)
Theorem turn_file_in_run_directory (w : World) (id text speakerId path : string)
    (turn : nat) :
  Path.isAbsolute (cwd w) = true -> Path.segment id -> Path.slashFree speakerId = true ->
  (synthesizeDialogueTurn text speakerId (Path.join (AUDIO_DIR w) id) turn w).1
  = Returned path ->
  path = AUDIO_DIR w +:+ "/" +:+ id +:+ "/"
         +:+ ("turn-" +:+ JsString.padStart3 (JsString.decimal turn) +:+ "-" +:+ speakerId
              +:+ ".mp3")
  /\ (3 <= String.length (JsString.padStart3 (JsString.decimal turn)))%nat
  /\ digitsValue (JsString.padStart3 (JsString.decimal turn)) = turn.
Proof.
  intros Habs Hid Hs H. apply synthesizeDialogueTurn_Returned in H.
  destruct (run_directory_shape w id Habs Hid) as (ys & Hys & Hshape & Hdir).
  split_and!.
  - rewrite H, Hshape, (join_child ys id Hys Hid _ (turn_name_segment turn speakerId Hs)).
    rewrite <- Hshape, Hdir, !append_assoc. reflexivity.
  - destruct (decimal_spec turn) as (_ & Hne & _). unfold JsString.padStart3.
    destruct (JsString.decimal turn) as [|a [|b [|c rest]]]; [contradiction| | |];
      cbn [String.length]; rewrite ?string_length_append; cbn [String.length]; lia.
  - destruct (decimal_spec turn) as (H1 & H2 & H3).
    destruct (padStart3_spec _ H1 H2) as [_ Hp]. rewrite Hp. exact H3.
Qed.

Lemma turn_file_in_run_directory_witness :
  (synthesizeDialogueTurn "Noted." "reporter" (Path.join (AUDIO_DIR Samples.world) "run")
     7 Samples.world).1
  = Returned "/app/generated-audio/run/turn-007-reporter.mp3".
Proof.
  assert (H : (synthesizeDialogueTurn "Noted." "reporter"
                 (Path.join (AUDIO_DIR Samples.world) "run") 7 Samples.world).1
              = Returned "/app/generated-audio/run/turn-007-reporter.mp3")
    by (vm_compute; reflexivity).
  pose proof (turn_file_in_run_directory Samples.world "run" "Noted." "reporter" _ 7
                eq_refl (conj eq_refl eq_refl) eq_refl H) as [Hpath _].
  rewrite H. f_equal.
Defined.

(** X5.  Two turns of a run whose speaker keys hold no slash are saved in
    the same file only if they have the same turn index and the same
    speaker key: among such turns, none overwrites the audio of another
    one.  (A key with slashes can name the file of another turn.) *)
Theorem turn_files_distinct (w1 w2 : World) (id text1 text2 speaker1 speaker2 path : string)
    (turn1 turn2 : nat) :
  Path.isAbsolute (cwd w1) = true -> cwd w2 = cwd w1 -> Path.segment id ->
  Path.slashFree speaker1 = true -> Path.slashFree speaker2 = true ->
  (synthesizeDialogueTurn text1 speaker1 (Path.join (AUDIO_DIR w1) id) turn1 w1).1
  = Returned path ->
  (synthesizeDialogueTurn text2 speaker2 (Path.join (AUDIO_DIR w2) id) turn2 w2).1
  = Returned path ->
  turn1 = turn2 /\ speaker1 = speaker2.
Proof.
  intros Habs Hcwd Hid Hs1 Hs2 H1 H2.
  assert (Hdir : AUDIO_DIR w2 = AUDIO_DIR w1) by (unfold AUDIO_DIR; rewrite Hcwd; reflexivity).
  rewrite Hdir in H2.
  apply synthesizeDialogueTurn_Returned in H1, H2.
  destruct (run_directory_shape w1 id Habs Hid) as (ys & Hys & Hshape & _).
  rewrite Hshape in H1, H2.
  rewrite (join_child ys id Hys Hid _ (turn_name_segment turn1 speaker1 Hs1)) in H1.
  rewrite (join_child ys id Hys Hid _ (turn_name_segment turn2 speaker2 Hs2)) in H2.
  rewrite H1 in H2. apply append_inv_head in H2.
  change ("/" +:+ ?x) with (String "/"%char x) in H2.
  apply turn_name_inj. apply (append_inv_head "/"). exact H2.
Qed.

Lemma turn_files_distinct_witness :
  let first := synthesizeDialogueTurn "Noted." "reporter"
                 (Path.join (AUDIO_DIR Samples.world) "run") 3 Samples.world in
  first.1 = Returned "/app/generated-audio/run/turn-003-reporter.mp3"
  /\ (synthesizeDialogueTurn "Again." "reporter"
        (Path.join (AUDIO_DIR first.2) "run") 3 first.2).1 = first.1.
Proof.
  cbv zeta.
  set (first := synthesizeDialogueTurn "Noted." "reporter"
                  (Path.join (AUDIO_DIR Samples.world) "run") 3 Samples.world).
  assert (H1 : first.1 = Returned "/app/generated-audio/run/turn-003-reporter.mp3")
    by (vm_compute; reflexivity).
  assert (H2 : (synthesizeDialogueTurn "Again." "reporter"
                  (Path.join (AUDIO_DIR first.2) "run") 3 first.2).1
               = Returned "/app/generated-audio/run/turn-003-reporter.mp3")
    by (vm_compute; reflexivity).
  pose proof (turn_files_distinct Samples.world first.2 "run" "Noted." "Again."
                "reporter" "reporter" _ 3 3 eq_refl eq_refl (conj eq_refl eq_refl)
                eq_refl eq_refl H1 H2) as _.
  split; [exact H1 | rewrite H1; exact H2].
Defined.

(** The hypothesis on the speaker key is needed: with a key that climbs
    out of the run directory, the audio is saved outside the audio
    directory. *)
Lemma turn_file_outside_for_key_with_slashes :
  let r := synthesizeDialogueTurn "Noted." "a/../../../outside"
             (Path.join (AUDIO_DIR Samples.world) "run") 0 Samples.world in
  r.1 = Returned "/app/outside.mp3"
  /\ fs r.2 !! "/app/outside.mp3" = Some (FsFile [Byte.x01]).
Proof. cbv zeta. split; vm_compute; reflexivity. Qed.

(** ** synthesizeSpeech and the voice of a turn *)

Lemma mkdirs_keep_files (dirs : list string) (f : gmap string FsNode) (q : string)
    (data : list Byte.byte) :
  fold_left (fun f d => <[d := FsDir]> f) dirs f !! q = Some (FsFile data) ->
  f !! q = Some (FsFile data).
Proof.
  revert f. induction dirs as [|d rest IH]; intros f H; cbn in H; [exact H|].
  apply IH in H. destruct (decide (d = q)) as [->|Hne].
  - rewrite lookup_insert_eq in H. discriminate H.
  - rewrite lookup_insert_ne in H by exact Hne. exact H.
Qed.

Lemma mkdirSync_cases (p : string) (w : World) :
  (exists msg, Fs.mkdirSync p w = (Thrown msg, w))
  \/ Fs.mkdirSync p w
     = (Returned tt,
        with_fs w (fold_left (fun f d => <[d := FsDir]> f) (Fs.ancestors p ++ [p]) (fs w))).
Proof.
  unfold Fs.mkdirSync, bind, get, throw, modify. cbn [fst snd].
  destruct (existsb _ _); [left; eexists; reflexivity | right; reflexivity].
Qed.

(** [fetchAndSave] step by step. *)
Lemma fetchAndSave_run (req : TtsRequest) (p : string) (w : World) :
  let w1 := with_trace w (trace w ++ [TtsCall req p]) in
  fetchAndSave req p w
  = match ttsApi w (length (ttsCalls w)) req with
    | Rejected reason => (Thrown reason, w1)
    | Resolved response =>
        if negb (http_ok (tts_status response)) then
          (Thrown ("ElevenLabs API error: " +:+ JsString.decimal (tts_status response)
                   +:+ " - " +:+ tts_body response), w1)
        else match tts_audio response with
             | [] => (Thrown "ElevenLabs returned empty audio buffer", w1)
             | audio => bind (Fs.writeFileSync p audio) (fun _ => ret p) w1
             end
    end.
Proof.
  unfold fetchAndSave, fetchTts, log, modify, get, ret, throw, bind. cbn [fst snd].
  destruct (ttsApi w (length (ttsCalls w)) req) as [reason|response]; [reflexivity|].
  destruct (negb (http_ok (tts_status response))); [reflexivity|].
  destruct (tts_audio response); reflexivity.
Qed.

(** What a call of [fetchAndSave] that returns has done. *)
Lemma fetchAndSave_Returned (req : TtsRequest) (p path : string) (w w' : World) :
  fetchAndSave req p w = (Returned path, w') ->
  path = p
  /\ exists response,
       ttsApi w (length (ttsCalls w)) req = Resolved response
       /\ http_ok (tts_status response) = true /\ tts_audio response <> []
       /\ w' = with_fs (with_trace w (trace w ++ [TtsCall req p]))
                 (<[p := FsFile (tts_audio response)]> (fs w)).
Proof.
  rewrite fetchAndSave_run. cbv zeta.
  destruct (ttsApi w (length (ttsCalls w)) req) as [reason|response]; [discriminate|].
  destruct (http_ok (tts_status response)) eqn:Hok; cbn [negb]; [|discriminate].
  destruct (tts_audio response) as [|b audio] eqn:Haudio; [discriminate|].
  set (w1 := with_trace w (trace w ++ [TtsCall req p])).
  unfold bind.
  destruct (writeFileSync_cases p (b :: audio) w1) as [[msg ->]| ->]; [discriminate|].
  cbn. intros H. injection H as <- <-. split; [reflexivity|].
  exists response. rewrite Haudio. split_and!; auto; discriminate.
Qed.

Lemma fetchAndSave_Thrown (req : TtsRequest) (p msg : string) (w w' : World) :
  fetchAndSave req p w = (Thrown msg, w') -> fs w' = fs w.
Proof.
  rewrite fetchAndSave_run. cbv zeta.
  destruct (ttsApi w (length (ttsCalls w)) req) as [reason|response];
    [intros H; injection H as _ <-; reflexivity|].
  destruct (negb (http_ok (tts_status response)));
    [intros H; injection H as _ <-; reflexivity|].
  destruct (tts_audio response) as [|b audio];
    [intros H; injection H as _ <-; reflexivity|].
  set (w1 := with_trace w (trace w ++ [TtsCall req p])).
  unfold bind.
  destruct (writeFileSync_cases p (b :: audio) w1) as [[m ->]| ->]; [|discriminate].
  intros H; injection H as _ <-; reflexivity.
Qed.

(** [synthesizeSpeech] step by step: the credential, the output directory,
    then the request. *)
Lemma synthesizeSpeech_run (t : string) (v : Voice) (p : string) (w : World) :
  synthesizeSpeech t v p w
  = match JsString.orElse (env w !! "ELEVENLABS_API_KEY") None with
    | None => (Thrown "ELEVENLABS_API_KEY is not configured", w)
    | Some key =>
        match fs w !! Path.dirname p with
        | Some _ => fetchAndSave (ttsRequest key t v) p w
        | None =>
            match Fs.mkdirSync (Path.dirname p) w with
            | (Returned _, w1) => fetchAndSave (ttsRequest key t v) p w1
            | (Thrown msg, w1) => (Thrown msg, w1)
            end
        end
    end.
Proof.
  unfold synthesizeSpeech, getenv, Fs.existsSync, get, ret, throw, bind. cbn [fst snd].
  destruct (JsString.orElse (env w !! "ELEVENLABS_API_KEY") None) as [key|]; [|reflexivity].
  destruct (fs w !! Path.dirname p); [reflexivity|]. cbn [fst snd].
  destruct (Fs.mkdirSync (Path.dirname p) w) as [[[]|msg] w1]; reflexivity.
Qed.

Lemma orElse_Some (a : option string) (key : string) :
  JsString.orElse a None = Some key -> a = Some key /\ key <> EmptyString.
Proof.
  destruct a as [s|]; cbn; [|discriminate].
  destruct (JsString.truthy s) eqn:E; [|discriminate].
  intros H. injection H as ->. split; [reflexivity|]. intros ->. discriminate E.
Qed.

(** What a call of [synthesizeSpeech] that returns has done. *)
Lemma synthesizeSpeech_request (t : string) (v : Voice) (p path : string) (w : World) :
  (synthesizeSpeech t v p w).1 = Returned path ->
  path = p
  /\ exists key response,
       env w !! "ELEVENLABS_API_KEY" = Some key /\ key <> EmptyString
       /\ ttsApi w (length (ttsCalls w)) (ttsRequest key t v) = Resolved response
       /\ http_ok (tts_status response) = true /\ tts_audio response <> []
       /\ trace (synthesizeSpeech t v p w).2 = trace w ++ [TtsCall (ttsRequest key t v) p]
       /\ fs (synthesizeSpeech t v p w).2 !! p = Some (FsFile (tts_audio response))
       /\ forall q data, q <> p ->
            fs (synthesizeSpeech t v p w).2 !! q = Some (FsFile data) ->
            fs w !! q = Some (FsFile data).
Proof.
  rewrite synthesizeSpeech_run.
  destruct (JsString.orElse (env w !! "ELEVENLABS_API_KEY") None) as [key|] eqn:Hkey;
    [|discriminate].
  apply orElse_Some in Hkey as [Hkey Hne].
  destruct (fs w !! Path.dirname p) as [node|] eqn:Hdir.
  - intros H. apply outcome_eq in H. apply fetchAndSave_Returned in H as (-> & response & H).
    destruct H as (Hf & Hok & Ha & Hw). split; [reflexivity|].
    exists key, response. rewrite Hw. cbn.
    split_and!; auto; [apply lookup_insert_eq|].
    intros q data Hq Hl. rewrite lookup_insert_ne in Hl by congruence. exact Hl.
  - destruct (mkdirSync_cases (Path.dirname p) w) as [[msg ->]| ->]; [discriminate|].
    intros H. apply outcome_eq in H. apply fetchAndSave_Returned in H as (-> & response & H).
    destruct H as (Hf & Hok & Ha & Hw). split; [reflexivity|].
    exists key, response. rewrite Hw. cbn in *.
    split_and!; auto; [apply lookup_insert_eq|].
    intros q data Hq Hl. rewrite lookup_insert_ne in Hl by congruence.
    exact (mkdirs_keep_files _ _ _ _ Hl).
Qed.

(** X6.  [synthesizeSpeech] saves audio only from a successful,
    non-empty response.  Without credential it throws before anything
    else happens.  When it returns, it returns the output path, it has sent
    one request, and the file at the output path holds exactly the bytes of
    the response.  When it throws, no file was written or changed (only
    the output directory may have been created). *)
Theorem synthesizeSpeech_outcomes (t : string) (v : Voice) (p : string) (w : World) :
  let r := synthesizeSpeech t v p w in
  (JsString.orElse (env w !! "ELEVENLABS_API_KEY") None = None ->
   r = (Thrown "ELEVENLABS_API_KEY is not configured", w))
  /\ (forall path, r.1 = Returned path ->
        path = p
        /\ exists key response,
             env w !! "ELEVENLABS_API_KEY" = Some key
             /\ ttsApi w (length (ttsCalls w)) (ttsRequest key t v) = Resolved response
             /\ http_ok (tts_status response) = true /\ tts_audio response <> []
             /\ trace r.2 = trace w ++ [TtsCall (ttsRequest key t v) p]
             /\ fs r.2 !! p = Some (FsFile (tts_audio response)))
  /\ (forall msg, r.1 = Thrown msg ->
        forall q data, fs r.2 !! q = Some (FsFile data) -> fs w !! q = Some (FsFile data)).
Proof.
  cbv zeta. split_and!.
  - intros Hkey. rewrite synthesizeSpeech_run, Hkey. reflexivity.
  - intros path H. apply synthesizeSpeech_request in H as (-> & key & response & H).
    split; [reflexivity|]. exists key, response. destruct H as (?&?&?&?&?&?&?&?).
    split_and!; assumption.
  - intros msg. rewrite synthesizeSpeech_run.
    destruct (JsString.orElse (env w !! "ELEVENLABS_API_KEY") None) as [key|];
      [|cbn; auto].
    destruct (fs w !! Path.dirname p) as [node|].
    + intros H q data Hq.
      destruct (fetchAndSave (ttsRequest key t v) p w) as [o w'] eqn:E. cbn in H. subst o.
      apply fetchAndSave_Thrown in E. cbn in Hq. rewrite E in Hq. exact Hq.
    + destruct (mkdirSync_cases (Path.dirname p) w) as [[m ->]| ->]; [cbn; auto|].
      intros H q data Hq.
      destruct (fetchAndSave _ _ _) as [o w'] eqn:E. cbn in H. subst o.
      apply fetchAndSave_Thrown in E. cbn in Hq, E. rewrite E in Hq.
      exact (mkdirs_keep_files _ _ _ _ Hq).
Qed.

Lemma personalities_keys (key : string) (p : Personality) :
  Config.personalities !! key = Some p ->
  (key = "reporter" /\ p = Config.reporter) \/ (key = "privateEye" /\ p = Config.privateEye)
  \/ (key = "host1" /\ p = Config.host1) \/ (key = "host2" /\ p = Config.host2).
Proof.
  unfold Config.personalities. intros H.
  repeat (apply lookup_insert_Some in H as [[<- <-]|[_ H]]; [tauto|]).
  rewrite lookup_empty in H. discriminate H.
Qed.

(** X7.  The voice of a turn is chosen from the speaker key alone.
    For each of the four configured personalities it is the voice that
    config.ts gives that personality.  For any other key but john it is
    Sadie's voice, also where the generators fall back to the personality
    privateEye or host1, whose configured voice is John's. *)
Theorem voice_follows_speaker_key (text speakerId outputDir path : string) (turn : nat)
    (w : World) :
  let r := synthesizeDialogueTurn text speakerId outputDir turn w in
  r.1 = Returned path ->
  exists req, last (trace r.2) = Some (TtsCall req path)
    /\ (forall p, Config.personalities !! speakerId = Some p ->
          tts_url req = Config.elevenLabs_apiUrl +:+ "/text-to-speech/" +:+ voiceId (voice p)
          /\ Some (tts_stability req) = stability (voice p)
          /\ Some (tts_similarity_boost req) = similarityBoost (voice p))
    /\ (Config.personalities !! speakerId = None -> speakerId <> "john" ->
          tts_url req
          = Config.elevenLabs_apiUrl +:+ "/text-to-speech/" +:+ voiceId Config.sadie
          /\ voice Config.privateEye = Config.john /\ voice Config.host1 = Config.john
          /\ voiceId Config.john <> voiceId Config.sadie).
Proof.
  cbv zeta. unfold synthesizeDialogueTurn. cbv zeta.
  set (v := if String.eqb speakerId "john" || String.eqb speakerId "privateEye"
               || String.eqb speakerId "host1" then Config.john else Config.sadie).
  set (out := Path.join outputDir _).
  set (sent := if (String.length text <=? maxChunkLength)%nat then text
               else JsString.take maxChunkLength text).
  assert (Hrun : (if (String.length text <=? maxChunkLength)%nat
                  then synthesizeSpeech text v out
                  else synthesizeSpeech (JsString.take maxChunkLength text) v out) w
                 = synthesizeSpeech sent v out w).
  { unfold sent. destruct (String.length text <=? maxChunkLength)%nat; reflexivity. }
  rewrite Hrun. intros H.
  apply synthesizeSpeech_request in H as (-> & key & response & H).
  destruct H as (_ & _ & _ & _ & _ & Htrace & _).
  exists (ttsRequest key sent v). rewrite Htrace, last_snoc. split_and!; [reflexivity| |].
  - intros p Hp. subst v.
    destruct (personalities_keys _ _ Hp) as [[-> ->]|[[-> ->]|[[-> ->]|[-> ->]]]];
      split_and!; reflexivity.
  - intros Hnone Hjohn. subst v.
    destruct (String.eqb_spec speakerId "john") as [->|_]; [contradiction|].
    destruct (String.eqb_spec speakerId "privateEye") as [->|_]; [discriminate Hnone|].
    destruct (String.eqb_spec speakerId "host1") as [->|_]; [discriminate Hnone|].
    split_and!; try reflexivity. discriminate.
Qed.

Lemma voice_follows_speaker_key_witness :
  exists req,
    last (trace (synthesizeDialogueTurn "Noted." "privateEye" "/app/generated-audio/run" 1
                   Samples.world).2)
    = Some (TtsCall req "/app/generated-audio/run/turn-001-privateEye.mp3")
    /\ tts_url req = "https://api.elevenlabs.io/v1/text-to-speech/n1PvBOwxb8X6m7tahp2h".
Proof.
  assert (H : (synthesizeDialogueTurn "Noted." "privateEye" "/app/generated-audio/run" 1
                 Samples.world).1
              = Returned "/app/generated-audio/run/turn-001-privateEye.mp3")
    by (vm_compute; reflexivity).
  destruct (voice_follows_speaker_key _ _ _ _ _ _ H) as (req & Hlast & Hown & _).
  exists req. split; [exact Hlast|].
  destruct (Hown Config.privateEye eq_refl) as [Hurl _]. exact Hurl.
Defined.

(** ** How groupRelatedDocuments builds its groups *)

Lemma includes_spec (a : option (list string)) (x : string) :
  Report.includes a x = true <-> exists l, a = Some l /\ In x l.
Proof.
  destruct a as [l|]; cbn.
  - rewrite existsb_exists. split.
    + intros (y & Hy & Heq). apply String.eqb_eq in Heq. subst y. eauto.
    + intros (l' & Hl & Hx). injection Hl as <-. exists x. split; [exact Hx|].
      apply String.eqb_refl.
  - split; [discriminate | intros (l & Hl & _); discriminate Hl].
Qed.

Lemma someIncluded_spec (a b : option (list string)) :
  Report.someIncluded a b = true
  <-> exists la lb x, a = Some la /\ b = Some lb /\ In x la /\ In x lb.
Proof.
  destruct a as [la|]; cbn.
  - rewrite existsb_exists. split.
    + intros (x & Hx & Hinc). apply includes_spec in Hinc as (lb & -> & Hb).
      exists la, lb, x. auto.
    + intros (la' & lb & x & Hla & -> & Hx & Hb). injection Hla as <-.
      exists x. split; [exact Hx|]. apply includes_spec. eauto.
  - split; [discriminate | intros (la & lb & x & Hla & _); discriminate Hla].
Qed.

Lemma someIncluded_sym (a b : option (list string)) :
  Report.someIncluded a b = Report.someIncluded b a.
Proof.
  apply eq_true_iff_eq. rewrite !someIncluded_spec.
  split; intros (la & lb & x & ? & ? & ? & ?); exists lb, la, x; auto.
Qed.

(** Sharing a name, a place or a date is symmetric. *)
Lemma hasOverlap_sym (d1 d2 : DocumentInput) :
  Report.hasOverlap d1 d2 = Report.hasOverlap d2 d1.
Proof.
  unfold Report.hasOverlap.
  rewrite (someIncluded_sym (names d1)), (someIncluded_sym (places d1)),
    (someIncluded_sym (dates d1)). reflexivity.
Qed.

Lemma innerStep_around doc st other :
  (exists others, st.1 = doc :: others
                  /\ Forall (fun o => Report.hasOverlap doc o = true) others) ->
  exists others, (Report.innerStep doc st other).1 = doc :: others
                 /\ Forall (fun o => Report.hasOverlap doc o = true) others.
Proof.
  intros (others & Hst & Hall). unfold Report.innerStep.
  case_bool_decide; [eauto|].
  destruct (Report.hasOverlap doc other) eqn:E; [|eauto].
  exists (others ++ [other]). cbn. rewrite Hst. split; [reflexivity|].
  apply Forall_app. split; [exact Hall | constructor; [exact E | constructor]].
Qed.

Lemma inner_fold_around doc docArray st :
  (exists others, st.1 = doc :: others
                  /\ Forall (fun o => Report.hasOverlap doc o = true) others) ->
  groupedAround (fold_left (Report.innerStep doc) docArray st).1.
Proof.
  revert st. induction docArray as [|other rest IH]; intros st H; cbn.
  - destruct H as (others & -> & Hall). exact Hall.
  - apply IH, innerStep_around, H.
Qed.

Lemma outerStep_around docArray st doc :
  Forall groupedAround st.1 -> Forall groupedAround (Report.outerStep docArray st doc).1.
Proof.
  intros H. unfold Report.outerStep. case_bool_decide; [exact H|].
  destruct (1 <? _)%nat; cbn [fst]; [|exact H].
  apply Forall_app. split; [exact H|]. constructor; [|constructor].
  apply inner_fold_around. exists []. split; [reflexivity | constructor].
Qed.

Lemma outer_fold_around docArray l st :
  Forall groupedAround st.1 ->
  Forall groupedAround (fold_left (Report.outerStep docArray) l st).1.
Proof.
  revert st. induction l as [|doc rest IH]; intros st H; cbn; [exact H|].
  apply IH, outerStep_around, H.
Qed.

Lemma uniqueDocuments_ids (documents acc : list DocumentInput) :
  Forall (fun d => documentId d <> EmptyString) acc ->
  Forall (fun d => documentId d <> EmptyString) (fold_left Report.addUnique documents acc).
Proof.
  revert acc. induction documents as [|doc rest IH]; intros acc H; cbn; [exact H|].
  apply IH. unfold Report.addUnique.
  destruct (JsString.truthy (documentId doc)) eqn:E; cbn [andb]; [|exact H].
  destruct (negb _); [|exact H].
  apply Forall_app. split; [exact H|]. constructor; [|constructor].
  intros Hempty. rewrite Hempty in E. discriminate E.
Qed.

Lemma grouped_elsewhere (group : list DocumentInput) (d : DocumentInput) :
  groupedAround group -> (2 <= length group)%nat -> NoDup (map documentId group) ->
  d ∈ group ->
  exists d', d' ∈ group /\ documentId d' <> documentId d /\ Report.hasOverlap d d' = true.
Proof.
  destruct group as [|first [|second others]]; cbn; [contradiction | lia |].
  intros Hall _ Hnd Hd.
  apply NoDup_cons in Hnd as [Hfirst Hnd].
  apply elem_of_cons in Hd as [->|Hd].
  - exists second. split_and!.
    + right. left.
    + intros Heq. apply Hfirst. rewrite <- Heq. left.
    + apply Forall_cons in Hall as [H _]. exact H.
  - exists first. split_and!.
    + left.
    + intros Heq. apply Hfirst. rewrite Heq.
      apply (list_elem_of_fmap_2 documentId) in Hd. exact Hd.
    + rewrite hasOverlap_sym.
      rewrite Forall_forall in Hall. apply Hall. exact Hd.
Qed.

Lemma elem_of_concat {A} (x : A) (ls : list (list A)) :
  x ∈ concat ls <-> exists l, x ∈ l /\ l ∈ ls.
Proof.
  induction ls as [|l0 rest IH]; cbn.
  - split; [intros H; inversion H | intros (l & _ & H); inversion H].
  - rewrite elem_of_app, IH. split.
    + intros [H|(l & Hx & Hl)]; [exists l0; split; [exact H | left] |].
      exists l. split; [exact Hx | right; exact Hl].
    + intros (l & Hx & Hl). apply elem_of_cons in Hl as [->|Hl]; [left; exact Hx|].
      right. exists l. auto.
Qed.

(** X8.  Every related group is built around its first document:
    each later document of the group shares a name, a place or a date with
    the first one.  A grouped document has a non-empty documentId and
    shares a name, a place or a date with an input document of another
    id; so a document without id, or one that shares nothing with the
    others, is in no group. *)
Theorem groups_built_around_first_document (documents : list DocumentInput) :
  let g := Report.groupRelatedDocuments documents in
  Forall groupedAround (Report.relatedGroups g)
  /\ (forall d, d ∈ concat (Report.relatedGroups g) ->
        documentId d <> EmptyString
        /\ exists d', d' ∈ documents /\ documentId d' <> documentId d
                      /\ Report.hasOverlap d d' = true)
  /\ (forall d1 d2, Report.hasOverlap d1 d2 = Report.hasOverlap d2 d1).
Proof.
  unfold Report.groupRelatedDocuments. cbn [Report.relatedGroups].
  set (docArray := Report.uniqueDocuments documents).
  set (r := fold_left (Report.outerStep docArray) docArray ([], ∅)).
  assert (Haround : Forall groupedAround r.1).
  { apply outer_fold_around. constructor. }
  assert (Hinv : outerInv docArray r).
  { apply outer_fold_inv; [auto | auto |].
    repeat split; cbn; try constructor. intros x Hx. inversion Hx. intros d Hd. inversion Hd. }
  destruct Hinv as (Hnd & _ & Hlen & Hmem).
  assert (Hids : Forall (fun d => documentId d <> EmptyString) docArray).
  { apply uniqueDocuments_ids. constructor. }
  split_and!; [exact Haround | | exact hasOverlap_sym].
  intros d Hd. split.
  - rewrite Forall_forall in Hids. apply Hids, Hmem, Hd.
  - apply elem_of_concat in Hd as (group & Hd & Hgroup).
    rewrite Forall_forall in Haround, Hlen.
    assert (Hnd' : NoDup (map documentId group)).
    { clear -Hnd Hgroup. induction r.1 as [|x rest IH]; [inversion Hgroup|].
      cbn in Hnd. rewrite map_app in Hnd. apply NoDup_app in Hnd as (Hx & _ & Hrest).
      apply elem_of_cons in Hgroup as [->|Hg]; [exact Hx | exact (IH Hrest Hg)]. }
    destruct (grouped_elsewhere group d (Haround _ Hgroup) (Hlen _ Hgroup) Hnd' Hd)
      as (d' & Hd' & Hne & Hov).
    exists d'. split_and!; [|exact Hne | exact Hov].
    assert (Hin : d' ∈ docArray).
    { apply Hmem. apply elem_of_concat. exists group. auto. }
    apply uniqueDocuments_members in Hin as [Hin|Hin]; [inversion Hin | exact Hin].
Qed.

(** ** createDocumentSummary *)

Lemma dedupe_step_elem (acc : list string) (x y : string) :
  In y (if existsb (String.eqb x) acc then acc else acc ++ [x]) <-> In y acc \/ y = x.
Proof.
  destruct (existsb (String.eqb x) acc) eqn:E.
  - split; [auto|]. intros [H| ->]; [exact H|].
    apply existsb_exists in E as (z & Hz & Heq). apply String.eqb_eq in Heq. subst z.
    exact Hz.
  - rewrite in_app_iff. cbn. intuition.
Qed.

Lemma dedupe_from_elem (ids acc : list string) (y : string) :
  In y (fold_left (fun acc x => if existsb (String.eqb x) acc then acc else acc ++ [x])
          ids acc)
  <-> In y acc \/ In y ids.
Proof.
  revert acc. induction ids as [|x rest IH]; intros acc; cbn; [tauto|].
  rewrite IH, dedupe_step_elem. intuition.
Qed.

Lemma dedupe_snoc_known (ids : list string) (x : string) :
  In x ids -> Report.dedupe (ids ++ [x]) = Report.dedupe ids.
Proof.
  intros Hx. unfold Report.dedupe. rewrite fold_left_app. cbn.
  assert (H : existsb (String.eqb x)
                (fold_left (fun acc x => if existsb (String.eqb x) acc then acc else acc ++ [x])
                   ids []) = true).
  { apply existsb_exists. exists x. split; [|apply String.eqb_refl].
    apply dedupe_from_elem. right. exact Hx. }
  rewrite H. reflexivity.
Qed.

Lemma find_app_known (docs : list DocumentInput) (d : DocumentInput) (docId : string) :
  In docId (map documentId docs) ->
  List.find (fun x => String.eqb (documentId x) docId) (docs ++ [d])
  = List.find (fun x => String.eqb (documentId x) docId) docs.
Proof.
  induction docs as [|x rest IH]; cbn; [contradiction|].
  intros [Hx|Hin].
  - rewrite Hx, String.eqb_refl. reflexivity.
  - destruct (String.eqb (documentId x) docId); [reflexivity | exact (IH Hin)].
Qed.

Lemma summary_snoc_known (docs : list DocumentInput) (d : DocumentInput) :
  In (documentId d) (map documentId docs) ->
  Report.createDocumentSummary (docs ++ [d]) = Report.createDocumentSummary docs.
Proof.
  intros Hd. unfold Report.createDocumentSummary.
  rewrite map_app. cbn [map]. rewrite (dedupe_snoc_known _ _ Hd). f_equal.
  assert (Hsub : forall y, In y (Report.dedupe (map documentId docs)) ->
                           In y (map documentId docs)).
  { intros y Hy. apply dedupe_from_elem in Hy as [[]|Hy]. exact Hy. }
  induction (Report.dedupe (map documentId docs)) as [|y rest IH]; [reflexivity|].
  cbn. rewrite (find_app_known docs d y) by (apply Hsub; left; reflexivity).
  rewrite IH by (intros z Hz; apply Hsub; right; exact Hz). reflexivity.
Qed.

(** X9.  Only the first document of each documentId is summarised:
    documents appended to the input under ids that already occur do not
    change the summary. *)
Theorem createDocumentSummary_ignores_repeated_ids (docs more : list DocumentInput) :
  (forall d, In d more -> In (documentId d) (map documentId docs)) ->
  Report.createDocumentSummary (docs ++ more) = Report.createDocumentSummary docs.
Proof.
  revert docs. induction more as [|d rest IH]; intros docs H.
  - rewrite app_nil_r. reflexivity.
  - change (docs ++ d :: rest) with (docs ++ [d] ++ rest). rewrite app_assoc.
    rewrite IH.
    + apply summary_snoc_known, H. left. reflexivity.
    + intros d' Hd'. rewrite map_app, in_app_iff. left. apply H. right. exact Hd'.
Qed.

Lemma createDocumentSummary_ignores_repeated_ids_witness :
  Report.createDocumentSummary
    (Samples.twoDocuments ++ [Samples.document "doc-1" ["Ruby"]])
  = Report.createDocumentSummary Samples.twoDocuments.
Proof.
  apply createDocumentSummary_ignores_repeated_ids.
  intros d [<-|[]]. vm_compute. left. reflexivity.
Defined.

(** ** Concatenating the turn files *)

(** Both copies of [concatenateWithFfmpeg] do nothing at all when the list
    file cannot be written. *)
Lemma concatenateWithFfmpeg_unlisted (files : list string) (out msg : string) (w : World) :
  Fs.writeFileSync (out +:+ ".txt") (list_byte_of_string (listContent files)) w
  = (Thrown msg, w) ->
  Report.concatenateWithFfmpeg files out w = (Thrown msg, w)
  /\ Podcast.concatenateWithFfmpeg files out w = (Thrown msg, w).
Proof.
  intros Hw. unfold Report.concatenateWithFfmpeg, Podcast.concatenateWithFfmpeg.
  rewrite !(bind_Thrown _ _ _ _ _ Hw). split; reflexivity.
Qed.

(** X10.  [concatenateWithFfmpeg] never leaves its list file
    behind: either the list could not be written, and then nothing at all
    happened, or the list file is gone when the function ends, whether
    ffmpeg succeeded or failed.  This holds for the report's copy and for
    the podcast's copy. *)
Theorem ffmpeg_list_file_removed (inputs : list string) (out : string) (w : World) :
  let report := Report.concatenateWithFfmpeg inputs out w in
  let podcast := Podcast.concatenateWithFfmpeg inputs out w in
  ((exists msg, report = (Thrown msg, w)) \/ fs report.2 !! (out +:+ ".txt") = None)
  /\ ((exists msg, podcast = (Thrown msg, w)) \/ fs podcast.2 !! (out +:+ ".txt") = None).
Proof.
  cbv zeta.
  destruct (writeFileSync_cases (out +:+ ".txt")
              (list_byte_of_string (listContent inputs)) w) as [[msg Hw] | Hw].
  - destruct (concatenateWithFfmpeg_unlisted inputs out msg w Hw) as [-> ->].
    split; left; eauto.
  - destruct (concatenateWithFfmpeg_run inputs out w Hw) as (_ & _ & Hsame & _ & Hlist & _).
    cbv zeta in Hsame, Hlist. rewrite <- Hsame. split; right; exact Hlist.
Qed.

(** X11.  Only the report checks what ffmpeg produced.  When the
    output path does not exist and ffmpeg writes no output, the report's
    [concatenateWithFfmpeg] throws, whereas the podcast's copy, if it
    returns, returns without an output file. *)
Theorem only_report_checks_ffmpeg_output (inputs : list string) (out : string) (w : World) :
  fs w !! out = None ->
  (forall l, ffmpeg_output (ffmpeg w l) = None) ->
  (exists msg, (Report.concatenateWithFfmpeg inputs out w).1 = Thrown msg)
  /\ fs (Podcast.concatenateWithFfmpeg inputs out w).2 !! out = None.
Proof.
  intros Hout Hff.
  destruct (writeFileSync_cases (out +:+ ".txt")
              (list_byte_of_string (listContent inputs)) w) as [[msg Hw] | Hw].
  - destruct (concatenateWithFfmpeg_unlisted inputs out msg w Hw) as [-> ->].
    split; [eauto | exact Hout].
  - destruct (concatenateWithFfmpeg_run inputs out w Hw) as (_ & Hr & Hsame & Hleft & _).
    cbv zeta in Hr, Hsame, Hleft. unfold ffmpegRunOn in Hr, Hleft.
    rewrite Hff in Hr, Hleft. rewrite Hout in Hr, Hleft. rewrite <- Hsame. split.
    + rewrite Hr. destruct (ffmpeg_failure _); eauto.
    + exact Hleft.
Qed.

Lemma only_report_checks_ffmpeg_output_witness :
  let w := mkWorld "/app" ∅ (fs Samples.worldWithOneTurn) (chatApi Samples.world)
             (ttsApi Samples.world) true (fun _ => mkFfmpegRun None None) (fun n => n) 0 [] []
             false (fun _ => 0%nat) None in
  let out := "/app/generated-audio/out.mp3" in
  (exists msg, (Report.concatenateWithFfmpeg
                  ["/app/generated-audio/run/turn-000-host1.mp3"] out w).1 = Thrown msg)
  /\ (Podcast.concatenateWithFfmpeg
        ["/app/generated-audio/run/turn-000-host1.mp3"] out w).1 = Returned tt
  /\ fs (Podcast.concatenateWithFfmpeg
           ["/app/generated-audio/run/turn-000-host1.mp3"] out w).2 !! out = None.
Proof.
  cbv zeta.
  pose proof (only_report_checks_ffmpeg_output
                ["/app/generated-audio/run/turn-000-host1.mp3"]
                "/app/generated-audio/out.mp3"
                (mkWorld "/app" ∅ (fs Samples.worldWithOneTurn) (chatApi Samples.world)
                   (ttsApi Samples.world) true (fun _ => mkFfmpegRun None None) (fun n => n)
                   0 [] [] false (fun _ => 0%nat) None)
                ltac:(vm_compute; reflexivity) ltac:(intros l; reflexivity))
    as [H1 H2].
  split; [exact H1|]. split; [vm_compute; reflexivity | exact H2].
Defined.

Lemma readAll_Returned (files : list string) (w w' : World)
    (buffers : list (list Byte.byte)) :
  Report.readAll files w = (Returned buffers, w') ->
  w' = w /\ Forall2 (fun file buffer => fs w !! file = Some (FsFile buffer)) files buffers.
Proof.
  revert buffers. induction files as [|f rest IH]; intros buffers; cbn [Report.readAll].
  - intros H. injection H as <- <-. split; [reflexivity | constructor].
  - intros H. apply bind_Returned_inv in H as (b & w1 & Hread & H).
    apply bind_Returned_inv in H as (bs & w2 & Hrest & H).
    injection H as <- <-.
    assert (Hb : w1 = w /\ fs w !! f = Some (FsFile b)).
    { revert Hread. unfold Fs.readFileSync, bind, get, ret, throw. cbn [fst snd].
      destruct (fs w !! f) as [[d|]|]; intros H; try discriminate H.
      injection H as -> ->. auto. }
    destruct Hb as [-> Hb]. apply IH in Hrest as [-> Hrest].
    split; [reflexivity | constructor; assumption].
Qed.

(** X12.  Without ffmpeg, the output of [concatenateAudioFiles] is the
    bytes of the existing input files, in the order of the input list, and
    nothing else changes.  This holds for both generators. *)
Theorem concatenation_without_ffmpeg (inputFiles : list string) (outputPath : string)
    (w : World) :
  ffmpegInstalled w = false ->
  forall w',
    Report.concatenateAudioFiles inputFiles outputPath w = (Returned tt, w')
    \/ Podcast.concatenateAudioFiles inputFiles outputPath w = (Returned tt, w') ->
    exists buffers,
      Forall2 (fun file buffer => fs w !! file = Some (FsFile buffer))
        (existingFilesOf w inputFiles) buffers
      /\ w' = with_fs w (<[outputPath := FsFile (concat buffers)]> (fs w)).
Proof.
  intros Hff w' H.
  assert (Hrun : bind (Report.readAll (existingFilesOf w inputFiles))
                   (fun buffers => Fs.writeFileSync outputPath (concat buffers)) w
                 = (Returned tt, w')).
  { destruct H as [H|H]; revert H;
      unfold Report.concatenateAudioFiles, Podcast.concatenateAudioFiles,
        Report.concatenateSimple, checkFfmpegAvailable;
      unfold bind at 1, get at 1; cbn [fst snd];
      (destruct (existingFilesOf w inputFiles) as [|f rest] eqn:E; [discriminate|]);
      unfold bind at 1, bind at 1, get at 1, ret at 1; cbn [fst snd];
      rewrite Hff; exact id. }
  apply bind_Returned_inv in Hrun as (buffers & w1 & Hread & Hwrite).
  apply readAll_Returned in Hread as [-> Hread].
  exists buffers. split; [exact Hread|].
  destruct (writeFileSync_cases outputPath (concat buffers) w) as [[msg Hw] | Hw];
    rewrite Hw in Hwrite; [discriminate|]. injection Hwrite as <-. reflexivity.
Qed.

Lemma concatenation_without_ffmpeg_witness :
  exists w',
    Report.concatenateAudioFiles Samples.turnFiles "/app/generated-audio/out.mp3"
      Samples.worldWithOneTurn = (Returned tt, w')
    /\ fs w' !! "/app/generated-audio/out.mp3" = Some (FsFile [Byte.x0a; Byte.x0b]).
Proof.
  eexists. split; [vm_compute; reflexivity|].
  destruct (concatenation_without_ffmpeg Samples.turnFiles "/app/generated-audio/out.mp3"
              Samples.worldWithOneTurn eq_refl _ (or_introl eq_refl))
    as (buffers & _ & _).
  vm_compute. reflexivity.
Defined.

(** ** Identifiers, the run directory and the finished file *)

Lemma hexDigit_hex (n : Z) : 0 <= n < 16 -> isHexDigit (Sha256.hexDigit n) = true.
Proof.
  intros H. replace n with (Z.of_nat (Z.to_nat n)) by lia.
  assert (Hk : (Z.to_nat n < 16)%nat) by lia. revert Hk. generalize (Z.to_nat n).
  intros k Hk. do 16 (destruct k as [|k]; [reflexivity|]). lia.
Qed.

Lemma allHex_app (a b : string) : allHex (a +:+ b) = allHex a && allHex b.
Proof.
  induction a as [|x rest IH]; [reflexivity|].
  rewrite append_cons. cbn. rewrite IH, andb_assoc. reflexivity.
Qed.

Lemma allHex_take (n : nat) (s : string) : allHex s = true -> allHex (JsString.take n s) = true.
Proof.
  revert s. induction n as [|k IH]; intros [|c rest]; cbn; auto.
  intros H. apply andb_true_iff in H as [Hc Hr]. rewrite Hc, (IH _ Hr). reflexivity.
Qed.

Lemma hexWord_hex (x : Z) : allHex (Sha256.hexWord x) = true.
Proof.
  assert (H : forall i, isHexDigit (Sha256.hexDigit (Z.land (Z.shiftr x (4 * i)) 0xf)) = true).
  { intros i. apply hexDigit_hex. change 0xf with (Z.ones 4).
    rewrite Z.land_ones by lia. apply Z.mod_pos_bound. reflexivity. }
  unfold Sha256.hexWord. cbn [map string_of_list_ascii allHex]. rewrite !H. reflexivity.
Qed.

Lemma hex_hex (s : string) : allHex (Sha256.hex s) = true.
Proof. unfold Sha256.hex. rewrite !allHex_app, !hexWord_hex. reflexivity. Qed.

Lemma allHex_slashFree (s : string) : allHex s = true -> Path.slashFree s = true.
Proof.
  induction s as [|c rest IH]; cbn; [reflexivity|]. intros H.
  apply andb_true_iff in H as [Hc Hr]. rewrite (IH Hr), andb_true_r.
  apply negb_true_iff, Ascii.eqb_neq. intros ->. discriminate Hc.
Qed.

Lemma allHex_plain (s rest : string) :
  allHex s = true -> s <> EmptyString -> Path.plain (s +:+ rest) = true.
Proof.
  destruct s as [|c s']; [contradiction|]. intros H _. cbn in H.
  apply andb_true_iff in H as [Hc _]. rewrite append_cons.
  unfold Path.plain, Path.isDot, Path.isDotDot. cbn [String.eqb negb andb].
  destruct (Ascii.eqb_spec c "."%char) as [->|_]; [discriminate Hc | reflexivity].
Qed.

(** An identifier is sixteen hexadecimal digits; it and the name of the
    finished file are single path segments. *)
Lemma identifier_shape (key : string) :
  let id := JsString.take 16 (Sha256.hex key) in
  allHex id = true /\ String.length id = 16%nat
  /\ Path.segment id /\ Path.segment (id +:+ ".mp3").
Proof.
  cbv zeta. set (id := JsString.take 16 (Sha256.hex key)).
  assert (Hhex : allHex id = true) by apply allHex_take, hex_hex.
  assert (Hlen : String.length id = 16%nat).
  { subst id. rewrite take_length, hex_length. reflexivity. }
  assert (Hne : id <> EmptyString) by (intros E; rewrite E in Hlen; discriminate Hlen).
  split_and!; auto.
  - split; [apply allHex_slashFree, Hhex|].
    rewrite <- (append_nil_r id). apply allHex_plain; assumption.
  - split; [|apply allHex_plain; assumption].
    rewrite slashFree_app, (allHex_slashFree _ Hhex). reflexivity.
Qed.

Lemma startsWith_common (a b c : string) :
  JsString.startsWith (a +:+ b) (a +:+ c) = JsString.startsWith b c.
Proof.
  induction a as [|x rest IH]; [reflexivity|].
  rewrite !append_cons. cbn. rewrite Ascii.eqb_refl. exact IH.
Qed.

(** The finished file [dir.mp3] is not inside the run directory [dir]. *)
Lemma finished_file_not_under (dir : string) : Fs.under dir (dir +:+ ".mp3") = false.
Proof.
  unfold Fs.under. apply orb_false_iff. split.
  - apply String.eqb_neq. intros H. apply (f_equal String.length) in H.
    rewrite string_length_append in H. cbn in H. lia.
  - apply startsWith_common.
Qed.

Lemma under_self (dir : string) : Fs.under dir dir = true.
Proof. unfold Fs.under. rewrite String.eqb_refl. reflexivity. Qed.

(** [fs.rmSync(dir, { recursive: true })] in a [try] block that swallows
    the error: what is not under [dir] stays, and [dir] is gone. *)
Lemma rmSync_quietly (dir : string) (w : World) :
  let r := tryCatch (Fs.rmSync dir) (fun _ => ret tt) w in
  r.1 = Returned tt /\ fs r.2 !! dir = None
  /\ (forall p, Fs.under dir p = false -> fs r.2 !! p = fs w !! p)
  /\ trace r.2 = trace w /\ cwd r.2 = cwd w.
Proof.
  cbv zeta. unfold tryCatch, Fs.rmSync, bind, get, ret, throw, modify. cbn [fst snd].
  destruct (fs w !! dir) as [node|] eqn:E; cbn.
  - split_and!; auto.
    + apply map_lookup_filter_None. right. intros x _. cbn. rewrite under_self. discriminate.
    + intros p Hp. destruct (fs w !! p) as [x|] eqn:Ep.
      * apply map_lookup_filter_Some. split; [exact Ep | exact Hp].
      * apply map_lookup_filter_None. left. exact Ep.
  - split_and!; auto.
Qed.

(** The cleanup of the [catch] clause never throws and leaves no run
    directory. *)
Lemma cleanupOnError_removes (dir : string) (w : World) :
  let r := cleanupOnError dir w in
  r.1 = Returned tt /\ fs r.2 !! dir = None /\ trace r.2 = trace w.
Proof.
  cbv zeta. unfold cleanupOnError, tryCatch, Fs.existsSync, Fs.rmSync, bind, get, ret,
    throw, modify. cbn [fst snd].
  destruct (fs w !! dir) as [node|] eqn:E; cbn; rewrite ?E; cbn.
  - split_and!; auto.
    apply map_lookup_filter_None. right. intros x _. cbn. rewrite under_self. discriminate.
  - split_and!; auto.
Qed.

(** When the report's [concatenateAudioFiles] returns, the output path
    exists; apart from it and from the list file, no path has changed. *)
Lemma report_concatenation_Returned (inputFiles : list string) (out : string) (w w' : World) :
  Report.concatenateAudioFiles inputFiles out w = (Returned tt, w') ->
  is_Some (fs w' !! out)
  /\ (forall p, p <> out -> p <> out +:+ ".txt" -> fs w' !! p = fs w !! p)
  /\ cwd w' = cwd w.
Proof.
  unfold Report.concatenateAudioFiles, checkFfmpegAvailable.
  unfold bind at 1, get at 1. cbn [fst snd].
  destruct (existingFilesOf w inputFiles) as [|f rest] eqn:E; [discriminate|].
  unfold bind at 1, bind at 1, get at 1, ret at 1. cbn [fst snd].
  destruct (ffmpegInstalled w).
  - intros H.
    destruct (writeFileSync_cases (out +:+ ".txt")
                (list_byte_of_string (listContent (f :: rest))) w) as [[msg Hw] | Hw].
    { destruct (concatenateWithFfmpeg_unlisted (f :: rest) out msg w Hw) as [Hr _].
      rewrite Hr in H. discriminate H. }
    destruct (concatenateWithFfmpeg_run (f :: rest) out w Hw)
      as (_ & Hr & _ & Hleft & _ & Hother & Hcwd & _).
    cbv zeta in Hr, Hleft, Hother, Hcwd. rewrite H in Hr, Hleft, Hother, Hcwd.
    cbn [fst snd] in Hr, Hleft, Hother, Hcwd.
    split_and!; [|exact Hother | exact Hcwd].
    rewrite Hleft.
    destruct (ffmpeg_failure _); [discriminate Hr|].
    destruct (match ffmpeg_output _ with Some data => _ | None => _ end);
      [eauto | discriminate Hr].
  - unfold Report.concatenateSimple. intros H.
    apply bind_Returned_inv in H as (buffers & w1 & Hread & Hwrite).
    apply readAll_Returned in Hread as [-> _].
    destruct (writeFileSync_cases out (concat buffers) w) as [[msg Hw] | Hw];
      rewrite Hw in Hwrite; [discriminate|]. injection Hwrite as <-. cbn.
    split_and!; auto.
    + rewrite lookup_insert_eq. eauto.
    + intros p Hp _. apply lookup_insert_ne. congruence.
Qed.

(** ** How a run ends *)

Lemma sameFiles_refl (w : World) : sameFiles w w.
Proof. reflexivity. Qed.

Lemma sameFiles_trans (w1 w2 w3 : World) : sameFiles w1 w2 -> sameFiles w2 w3 -> sameFiles w1 w3.
Proof. unfold sameFiles. congruence. Qed.

Lemma sameFiles_trace (w : World) (t : list Event) : sameFiles w (with_trace w t).
Proof. reflexivity. Qed.

Lemma sameFiles_chat (w : World) (req : ChatRequest) :
  sameFiles w (with_trace w (trace w ++ [ChatCall req])).
Proof. reflexivity. Qed.

Lemma sameFiles_random (w : World) (n : nat) : sameFiles w (with_randomCalls w n).
Proof. reflexivity. Qed.

Lemma sameProcess_refl (w : World) : sameProcess w w.
Proof. split; reflexivity. Qed.

Lemma sameProcess_trans (w1 w2 w3 : World) :
  sameProcess w1 w2 -> sameProcess w2 w3 -> sameProcess w1 w3.
Proof. unfold sameProcess. intros [? ?] [? ?]. split; congruence. Qed.

Lemma sameProcess_fs (w : World) (f : gmap string FsNode) : sameProcess w (with_fs w f).
Proof. split; reflexivity. Qed.

Lemma sameProcess_trace (w : World) (t : list Event) : sameProcess w (with_trace w t).
Proof. split; reflexivity. Qed.

Lemma sameProcess_random (w : World) (n : nat) : sameProcess w (with_randomCalls w n).
Proof. split; reflexivity. Qed.

(** Both generators leave the working directory and the environment as
    they are, for a callback that does. *)
Lemma report_sameProcess documents investigation selected target onProgress (w : World) :
  (forall cb p, onProgress = Some cb -> keeps sameProcess (cb p)) ->
  sameProcess w (Report.generateInvestigativeReport documents investigation selected
                   target onProgress w).2.
Proof.
  intros Hcb.
  apply (keeps_generateInvestigativeReport sameProcess_refl sameProcess_trans
           sameProcess_fs (fun w req => sameProcess_trace w _)
           (fun w req p => sameProcess_trace w _)
           (fun w inputs out => sameProcess_trace w _) sameProcess_random onProgress Hcb).
Qed.

(** Reading down the [try] block of the report generator: what a run that
    reaches the [return] has done at its end. *)
Lemma report_generate_Returned documents investigation selected target onProgress
    reportId outputDir finalOutputPath (w w' : World) (res : GenerationResult) :
  Report.generate documents investigation selected target onProgress reportId
    outputDir finalOutputPath w = (Returned res, w') ->
  exists t tg files wa wb wc wd,
    res = completeResult reportId t tg
    /\ Report.concatenateAudioFiles files finalOutputPath wa = (Returned tt, wb)
    /\ sameFiles wb wc
    /\ tryCatch (Fs.rmSync outputDir) (fun _ => ret tt) wc = (Returned tt, wd)
    /\ callOpt onProgress (mkProgress "complete" "Investigation complete" None None) wd
       = (Returned tt, w').
Proof.
  unfold Report.generate. cbv zeta. intros H.
  repeat (apply bind_Returned_inv in H as (? & ? & ? & H); cbv beta in H).
  injection H as <- <-.
  repeat match goal with u : unit |- _ => destruct u end.
  match goal with
  | Hc : Report.concatenateAudioFiles ?files _ ?wa = (Returned tt, ?wb),
    Ht : generateTitle ?dl ?hn ?wb = (Returned ?t, ?w2),
    Hg : generateTags ?dl' ?w2 = (Returned ?tg, ?wc),
    Hr : tryCatch _ _ ?wc = (Returned tt, ?wd) |- _ =>
      pose proof (keeps_generateTitle sameFiles_refl sameFiles_trans sameFiles_chat
                    dl hn wb) as Hx1;
      pose proof (keeps_generateTags sameFiles_refl sameFiles_trans sameFiles_chat
                    dl' w2) as Hx2;
      rewrite Ht in Hx1; rewrite Hg in Hx2;
      exists t, tg, files, wa, wb, wc, wd; split_and!; auto;
      exact (sameFiles_trans _ _ _ Hx1 Hx2)
  end.
Qed.

Lemma report_generate_success documents investigation selected target onProgress
    reportId outputDir finalOutputPath (w w' : World) (res : GenerationResult) :
  Report.generate documents investigation selected target onProgress reportId
    outputDir finalOutputPath w = (Returned res, w') ->
  success res = true /\ audioFile res = Some (reportId +:+ ".mp3").
Proof.
  intros H. apply report_generate_Returned in H as (t & tg & _ & _ & _ & _ & _ & -> & _).
  split; reflexivity.
Qed.

Lemma podcast_generate_success fuel arts hosts target onProgress
    podcastId outputDir finalOutputPath (w w' : World) (res : GenerationResult) :
  Podcast.generate fuel arts hosts target onProgress podcastId outputDir finalOutputPath w
  = (Returned (Some res), w') ->
  success res = true /\ audioFile res = Some (podcastId +:+ ".mp3").
Proof.
  unfold Podcast.generate. cbv zeta. intros H.
  repeat (apply bind_Returned_inv in H as (? & ? & ? & H); cbv beta in H).
  match goal with
  | x : option LoopState |- _ => destruct x as [st|]; [|discriminate H]
  end.
  apply bind_Returned_inv in H as (r & w1 & Hfinish & H). injection H as <- <-.
  unfold Podcast.finish in Hfinish.
  repeat (apply bind_Returned_inv in Hfinish as (? & ? & ? & Hfinish); cbv beta in Hfinish).
  injection Hfinish as <- _. split; reflexivity.
Qed.

Lemma mkdirSync_Thrown (p msg : string) (w w' : World) :
  Fs.mkdirSync p w = (Thrown msg, w') ->
  w' = w /\ existsb (Fs.isFile (fs w)) (Fs.ancestors p ++ [p]) = true.
Proof.
  unfold Fs.mkdirSync, bind, get, throw, modify. cbn [fst snd].
  destruct (existsb _ _); [|discriminate]. intros H. injection H as _ <-. auto.
Qed.

(** The report generator step by step: the cache, the run directory, then
    the [try] block with its [catch] clause. *)
Lemma report_run (documents : list DocumentInput) (investigation : option string)
    (selected : option (list string)) (target : option Q)
    (onProgress : option (GenerationProgress -> M unit)) (w : World) :
  let name := default "Document Investigation" investigation in
  let reportId := Report.generateReportId documents name in
  let outputDir := Path.join (AUDIO_DIR w) reportId in
  let finalOutputPath := Path.join (AUDIO_DIR w) (reportId +:+ ".mp3") in
  let try_ := fun w1 =>
    tryCatch (Report.generate documents name (default ["reporter"; "privateEye"] selected)
                (default 300%Q target) onProgress reportId outputDir finalOutputPath)
      (fun msg => cleanupOnError outputDir ;;; ret (failedResult msg)) w1 in
  Report.generateInvestigativeReport documents investigation selected target onProgress w
  = match fs w !! finalOutputPath with
    | Some _ => (Returned (cachedResult reportId), w)
    | None =>
        match fs w !! outputDir with
        | Some _ => try_ w
        | None =>
            match Fs.mkdirSync outputDir w with
            | (Returned _, w1) => try_ w1
            | (Thrown msg, w1) => (Thrown msg, w1)
            end
        end
    end.
Proof.
  cbv zeta. unfold Report.generateInvestigativeReport. cbv zeta.
  rewrite (bind_Returned get _ w w w eq_refl).
  rewrite (bind_Returned (Fs.existsSync _) _ w w _ (existsSync_run _ w)).
  destruct (fs w !! Path.join (AUDIO_DIR w) (_ +:+ ".mp3")); [reflexivity|].
  rewrite (bind_Returned (Fs.existsSync _) _ w w _ (existsSync_run _ w)).
  destruct (fs w !! Path.join (AUDIO_DIR w) _).
  - rewrite (bind_Returned (ret tt) _ w w tt eq_refl). reflexivity.
  - destruct (Fs.mkdirSync _ w) as [[[]|msg] w1] eqn:E.
    + rewrite (bind_Returned _ _ _ _ _ E). reflexivity.
    + rewrite (bind_Thrown _ _ _ _ _ E). reflexivity.
Qed.

Lemma podcast_run (fuel : nat) (request : PodcastRequest)
    (onProgress : option (GenerationProgress -> M unit)) (w : World) :
  let hosts := default ["host1"; "host2"] (selectedHosts request) in
  let podcastId := Podcast.generatePodcastId (articles request) hosts in
  let outputDir := Path.join (AUDIO_DIR w) podcastId in
  let finalOutputPath := Path.join (AUDIO_DIR w) (podcastId +:+ ".mp3") in
  let try_ := fun w1 =>
    tryCatch (Podcast.generate fuel (articles request) hosts
                (default 300%Q (podcast_targetLengthSeconds request)) onProgress
                podcastId outputDir finalOutputPath)
      (fun msg => cleanupOnError outputDir ;;; ret (Some (failedResult msg))) w1 in
  Podcast.generatePodcast fuel request onProgress w
  = match fs w !! finalOutputPath with
    | Some _ => (Returned (Some (cachedResult podcastId)), w)
    | None =>
        match fs w !! outputDir with
        | Some _ => try_ w
        | None =>
            match Fs.mkdirSync outputDir w with
            | (Returned _, w1) => try_ w1
            | (Thrown msg, w1) => (Thrown msg, w1)
            end
        end
    end.
Proof.
  cbv zeta. unfold Podcast.generatePodcast. cbv zeta.
  rewrite (bind_Returned get _ w w w eq_refl).
  rewrite (bind_Returned (Fs.existsSync _) _ w w _ (existsSync_run _ w)).
  destruct (fs w !! Path.join (AUDIO_DIR w) (_ +:+ ".mp3")); [reflexivity|].
  rewrite (bind_Returned (Fs.existsSync _) _ w w _ (existsSync_run _ w)).
  destruct (fs w !! Path.join (AUDIO_DIR w) _).
  - rewrite (bind_Returned (ret tt) _ w w tt eq_refl). reflexivity.
  - destruct (Fs.mkdirSync _ w) as [[[]|msg] w1] eqn:E.
    + rewrite (bind_Returned _ _ _ _ _ E). reflexivity.
    + rewrite (bind_Thrown _ _ _ _ _ E). reflexivity.
Qed.

(** The [try] block with its [catch] clause: it never throws, and a result
    that is no success comes from the [catch] clause, after the cleanup. *)
Lemma try_block_outcome {A} (m : M A) (dir : string) (failed : string -> A) (w : World) :
  let r := tryCatch m (fun msg => cleanupOnError dir ;;; ret (failed msg)) w in
  (exists a, r.1 = Returned a)
  /\ (forall a, r.1 = Returned a ->
        m w = (Returned a, r.2)
        \/ exists msg, (m w).1 = Thrown msg /\ a = failed msg /\ fs r.2 !! dir = None).
Proof.
  cbv zeta. unfold tryCatch. destruct (m w) as [[a|msg] w1] eqn:E.
  - split; [eauto|]. intros a' H. cbn in H. injection H as <-. left. reflexivity.
  - destruct (cleanupOnError_removes dir w1) as (Hret & Hgone & _).
    unfold bind. destruct (cleanupOnError dir w1) as [[u|m'] w2]; cbn in Hret, Hgone;
      [|discriminate Hret].
    cbn. split; [eauto|]. intros a H. injection H as <-. right. eauto.
Qed.

(** X13.  Apart from a failure to create the run directory, which
    happens before anything else, the two generators never throw: every
    error of a run is caught and reported as a result with success = false
    and the message of the error, and by then the run directory has been
    removed. *)
Theorem failed_run_is_reported (documents : list DocumentInput)
    (investigation : option string) (selected : option (list string)) (target : option Q)
    (fuel : nat) (request : PodcastRequest)
    (onProgress : option (GenerationProgress -> M unit)) (w : World) :
  let reportDir :=
    Path.join (AUDIO_DIR w)
      (Report.generateReportId documents (default "Document Investigation" investigation)) in
  let podcastDir :=
    Path.join (AUDIO_DIR w)
      (Podcast.generatePodcastId (articles request)
         (default ["host1"; "host2"] (selectedHosts request))) in
  let report :=
    Report.generateInvestigativeReport documents investigation selected target onProgress w in
  let podcast := Podcast.generatePodcast fuel request onProgress w in
  (forall msg, report.1 = Thrown msg ->
     report.2 = w
     /\ existsb (Fs.isFile (fs w)) (Fs.ancestors reportDir ++ [reportDir]) = true)
  /\ (forall res, report.1 = Returned res -> success res = false ->
        (exists msg, res = failedResult msg) /\ fs report.2 !! reportDir = None)
  /\ (forall msg, podcast.1 = Thrown msg ->
        podcast.2 = w
        /\ existsb (Fs.isFile (fs w)) (Fs.ancestors podcastDir ++ [podcastDir]) = true)
  /\ (forall res, podcast.1 = Returned (Some res) -> success res = false ->
        (exists msg, res = failedResult msg) /\ fs podcast.2 !! podcastDir = None).
Proof.
  cbv zeta. rewrite report_run, podcast_run. cbv zeta.
  set (reportDir := Path.join (AUDIO_DIR w) (Report.generateReportId _ _)).
  set (podcastDir := Path.join (AUDIO_DIR w) (Podcast.generatePodcastId _ _)).
  set (reportTry := tryCatch (Report.generate _ _ _ _ _ _ _ _) _).
  set (podcastTry := tryCatch (Podcast.generate _ _ _ _ _ _ _ _) _).
  assert (Hr : forall w1,
             (forall msg, (reportTry w1).1 <> Thrown msg)
             /\ (forall res, (reportTry w1).1 = Returned res -> success res = false ->
                   (exists msg, res = failedResult msg) /\ fs (reportTry w1).2 !! reportDir = None)).
  { intros w1. subst reportTry.
    destruct (try_block_outcome
                (Report.generate documents (default "Document Investigation" investigation)
                   (default ["reporter"; "privateEye"] selected) (default 300%Q target)
                   onProgress (Report.generateReportId documents
                                 (default "Document Investigation" investigation))
                   reportDir
                   (Path.join (AUDIO_DIR w)
                      (Report.generateReportId documents
                         (default "Document Investigation" investigation) +:+ ".mp3")))
                reportDir failedResult w1) as [[a Ha] Hcases].
    cbv zeta in Ha, Hcases. split.
    - intros msg Hm. rewrite Ha in Hm. discriminate Hm.
    - intros res Hres Hfail. destruct (Hcases res Hres) as [Hgen|(msg & _ & -> & Hgone)].
      + apply report_generate_success in Hgen as [Hs _]. rewrite Hs in Hfail.
        discriminate Hfail.
      + split; [eauto | exact Hgone]. }
  assert (Hp : forall w1,
             (forall msg, (podcastTry w1).1 <> Thrown msg)
             /\ (forall res, (podcastTry w1).1 = Returned (Some res) -> success res = false ->
                   (exists msg, res = failedResult msg)
                   /\ fs (podcastTry w1).2 !! podcastDir = None)).
  { intros w1. subst podcastTry.
    destruct (try_block_outcome
                (Podcast.generate fuel (articles request)
                   (default ["host1"; "host2"] (selectedHosts request))
                   (default 300%Q (podcast_targetLengthSeconds request)) onProgress
                   (Podcast.generatePodcastId (articles request)
                      (default ["host1"; "host2"] (selectedHosts request)))
                   podcastDir
                   (Path.join (AUDIO_DIR w)
                      (Podcast.generatePodcastId (articles request)
                         (default ["host1"; "host2"] (selectedHosts request)) +:+ ".mp3")))
                podcastDir (fun msg => Some (failedResult msg)) w1) as [[a Ha] Hcases].
    cbv zeta in Ha, Hcases. split.
    - intros msg Hm. rewrite Ha in Hm. discriminate Hm.
    - intros res Hres Hfail.
      destruct (Hcases (Some res) Hres) as [Hgen|(msg & _ & Heq & Hgone)].
      + apply podcast_generate_success in Hgen as [Hs _]. rewrite Hs in Hfail.
        discriminate Hfail.
      + injection Heq as ->. split; [eauto | exact Hgone]. }
  split_and!.
  - destruct (fs w !! _); [discriminate|].
    destruct (fs w !! reportDir); [intros msg H; destruct (proj1 (Hr w) msg H)|].
    destruct (Fs.mkdirSync reportDir w) as [[[]|m] w1] eqn:E;
      [intros msg H; destruct (proj1 (Hr w1) msg H)|].
    intros msg _. apply mkdirSync_Thrown in E as [-> E]. auto.
  - destruct (fs w !! _); [intros res H; injection H as <-; discriminate|].
    destruct (fs w !! reportDir); [apply Hr|].
    destruct (Fs.mkdirSync reportDir w) as [[[]|m] w1]; [apply Hr | discriminate].
  - destruct (fs w !! _); [discriminate|].
    destruct (fs w !! podcastDir); [intros msg H; destruct (proj1 (Hp w) msg H)|].
    destruct (Fs.mkdirSync podcastDir w) as [[[]|m] w1] eqn:E;
      [intros msg H; destruct (proj1 (Hp w1) msg H)|].
    intros msg _. apply mkdirSync_Thrown in E as [-> E]. auto.
  - destruct (fs w !! _); [intros res H; injection H as <-; discriminate|].
    destruct (fs w !! podcastDir); [apply Hp|].
    destruct (Fs.mkdirSync podcastDir w) as [[[]|m] w1]; [apply Hp | discriminate].
Qed.

(** ** A finished report is the cache entry of its inputs *)

Lemma report_paths (w : World) (key : string) :
  Path.isAbsolute (cwd w) = true ->
  let id := JsString.take 16 (Sha256.hex key) in
  Path.join (AUDIO_DIR w) id = AUDIO_DIR w +:+ "/" +:+ id
  /\ Path.join (AUDIO_DIR w) (id +:+ ".mp3") = (AUDIO_DIR w +:+ "/" +:+ id) +:+ ".mp3".
Proof.
  intros Habs. cbv zeta. destruct (identifier_shape key) as (_ & _ & Hid & Hfile).
  cbv zeta in Hid, Hfile.
  destruct (run_directory_shape w _ Habs Hid) as (_ & _ & _ & H1).
  destruct (run_directory_shape w _ Habs Hfile) as (_ & _ & _ & H2).
  split; [exact H1|]. rewrite H2, !append_assoc. reflexivity.
Qed.

Lemma report_cached (documents : list DocumentInput) (investigation : option string)
    (selected : option (list string)) (target : option Q)
    (onProgress : option (GenerationProgress -> M unit)) (w : World) :
  let id := Report.generateReportId documents
              (default "Document Investigation" investigation) in
  is_Some (fs w !! Path.join (AUDIO_DIR w) (id +:+ ".mp3")) ->
  Report.generateInvestigativeReport documents investigation selected target onProgress w
  = (Returned (cachedResult id), w).
Proof.
  cbv zeta. intros [node H]. rewrite report_run. cbv zeta. rewrite H. reflexivity.
Qed.

(** X14.  A report run that returns success, with a progress callback
    that leaves the files and the process alone, has left the finished
    file [AUDIO_DIR/id.mp3] and no run directory; [reportExists] then
    answers true for the identifier, [getReportPath], which looks for
    [AUDIO_DIR/id], answers null, and every later run over the same
    documents and investigation name returns the cached result, whatever
    investigators, target length or callback it is given, without changing
    anything. *)
Theorem finished_report_is_cached (documents : list DocumentInput)
    (investigation : option string) (selected : option (list string)) (target : option Q)
    (onProgress : option (GenerationProgress -> M unit)) (w : World)
    (res : GenerationResult) :
  Path.isAbsolute (cwd w) = true -> quiet onProgress ->
  let id := Report.generateReportId documents
              (default "Document Investigation" investigation) in
  let r := Report.generateInvestigativeReport documents investigation selected target
             onProgress w in
  fs w !! (AUDIO_DIR w +:+ "/" +:+ id +:+ ".mp3") = None ->
  r.1 = Returned res -> success res = true ->
  audioFile res = Some (id +:+ ".mp3")
  /\ is_Some (fs r.2 !! (AUDIO_DIR w +:+ "/" +:+ id +:+ ".mp3"))
  /\ fs r.2 !! (AUDIO_DIR w +:+ "/" +:+ id) = None
  /\ Report.reportExists id r.2 = (Returned true, r.2)
  /\ Report.getReportPath id r.2 = (Returned None, r.2)
  /\ forall selected' target' onProgress',
       Report.generateInvestigativeReport documents investigation selected' target'
         onProgress' r.2
       = (Returned (cachedResult id), r.2).
Proof.
  intros Habs Hquiet id r Hfresh Hret Hsucc.
  destruct (report_paths w (Report.reportKey documents
                              (default "Document Investigation" investigation)) Habs)
    as [Hdir Hfinal].
  cbv zeta in Hdir, Hfinal. fold (Report.generateReportId documents
                                   (default "Document Investigation" investigation)) in *.
  fold id in Hdir, Hfinal.
  set (dir := AUDIO_DIR w +:+ "/" +:+ id) in *.
  assert (Hfresh' : fs w !! (dir +:+ ".mp3") = None).
  { subst dir. rewrite !append_assoc. exact Hfresh. }
  assert (Hproc : sameProcess w r.2).
  { apply report_sameProcess. intros cb p Hcb. apply (Hquiet cb p Hcb). }
  assert (Haudio : AUDIO_DIR r.2 = AUDIO_DIR w).
  { unfold AUDIO_DIR. destruct Hproc as [-> _]. reflexivity. }
  assert (Hend : audioFile res = Some (id +:+ ".mp3")
                 /\ is_Some (fs r.2 !! (dir +:+ ".mp3")) /\ fs r.2 !! dir = None).
  { subst r. revert Hret. rewrite report_run. cbv zeta. fold id. rewrite Hdir, Hfinal, Hfresh'.
    assert (Htry : forall w1,
               let t := tryCatch
                          (Report.generate documents
                             (default "Document Investigation" investigation)
                             (default ["reporter"; "privateEye"] selected)
                             (default 300%Q target) onProgress id dir (dir +:+ ".mp3"))
                          (fun msg => cleanupOnError dir ;;; ret (failedResult msg)) w1 in
               t.1 = Returned res ->
               audioFile res = Some (id +:+ ".mp3")
               /\ is_Some (fs t.2 !! (dir +:+ ".mp3")) /\ fs t.2 !! dir = None).
    { intros w1 t Ht. subst t.
      destruct (try_block_outcome
                  (Report.generate documents
                     (default "Document Investigation" investigation)
                     (default ["reporter"; "privateEye"] selected)
                     (default 300%Q target) onProgress id dir (dir +:+ ".mp3"))
                  dir failedResult w1) as [_ Hcases].
      cbv zeta in Hcases. destruct (Hcases res Ht) as [Hgen|(msg & _ & -> & _)];
        [|discriminate Hsucc].
      set (w' := (tryCatch _ _ w1).2) in *. clearbody w'.
      apply report_generate_Returned in Hgen
        as (t & tg & files & wa & wb & wc & wd & -> & Hcat & Hsame & Hrm & Hcb).
      apply report_concatenation_Returned in Hcat as (Hout & _ & _).
      destruct (rmSync_quietly dir wc) as (_ & Hgone & Hkeep & _).
      cbv zeta in Hgone, Hkeep. rewrite Hrm in Hgone, Hkeep. cbn [snd] in Hgone, Hkeep.
      assert (Hw' : fs w' = fs wd).
      { unfold callOpt in Hcb. destruct onProgress as [cb|] eqn:Eon.
        - destruct (Hquiet cb (mkProgress "complete" "Investigation complete" None None)
                      eq_refl) as [Hf _].
          specialize (Hf wd). rewrite Hcb in Hf. exact Hf.
        - injection Hcb as <-. reflexivity. }
      split; [reflexivity|]. rewrite Hw'. split; [|exact Hgone].
      rewrite (Hkeep _ (finished_file_not_under dir)), Hsame. exact Hout. }
    destruct (fs w !! dir); [apply Htry|].
    destruct (Fs.mkdirSync dir w) as [[[]|m] w1]; [apply Htry | discriminate]. }
  destruct Hend as (Hfile & Hsome & Hgone).
  assert (Hsome' : is_Some (fs r.2 !! Path.join (AUDIO_DIR r.2) (id +:+ ".mp3"))).
  { rewrite Haudio, Hfinal. exact Hsome. }
  split_and!.
  - exact Hfile.
  - replace (AUDIO_DIR w +:+ "/" +:+ id +:+ ".mp3") with (dir +:+ ".mp3")
      by (subst dir; rewrite !append_assoc; reflexivity).
    exact Hsome.
  - exact Hgone.
  - unfold Report.reportExists. rewrite (bind_Returned get _ r.2 r.2 r.2 eq_refl).
    rewrite existsSync_run. destruct Hsome' as [node ->]. reflexivity.
  - unfold Report.getReportPath. rewrite (bind_Returned get _ r.2 r.2 r.2 eq_refl).
    cbv zeta. rewrite (bind_Returned (Fs.existsSync _) _ r.2 r.2 _ (existsSync_run _ r.2)).
    rewrite Haudio, Hdir, Hgone. reflexivity.
  - intros selected' target' onProgress'. apply report_cached. exact Hsome'.
Qed.

Lemma finished_report_is_cached_witness :
  let r := Report.generateInvestigativeReport Samples.twoDocuments None None (Some 10%Q)
             None Samples.world in
  (exists res, r.1 = Returned res /\ success res = true)
  /\ Report.generateInvestigativeReport Samples.twoDocuments None
       (Some ["privateEye"; "reporter"]) (Some 600%Q) None r.2
     = (Returned (cachedResult "f8ec3809663b680c"), r.2).
Proof.
  cbv zeta.
  set (r := Report.generateInvestigativeReport Samples.twoDocuments None None (Some 10%Q)
              None Samples.world).
  assert (Hret : r.1 = Returned (completeResult "f8ec3809663b680c" "Noted." ["Noted."]))
    by (vm_compute; reflexivity).
  assert (Hq : quiet None) by (intros cb p H; discriminate H).
  destruct (finished_report_is_cached Samples.twoDocuments None None (Some 10%Q) None
              Samples.world _ eq_refl Hq ltac:(vm_compute; reflexivity) Hret eq_refl)
    as (_ & _ & _ & _ & _ & Hnext).
  split; [eexists; split; [exact Hret | reflexivity]|].
  assert (Hid : Report.generateReportId Samples.twoDocuments
                  (default "Document Investigation" None) = "f8ec3809663b680c")
    by (vm_compute; reflexivity).
  rewrite <- Hid. apply Hnext.
Defined.

(** ** How many requests a run can make *)

Lemma costs_weaken {A} (c t c' t' : nat) (m : M A) :
  costs c t m -> (c <= c')%nat -> (t <= t')%nat -> costs c' t' m.
Proof. intros H Hc Ht w. destruct (H w). split; lia. Qed.

Lemma costs_ret {A} (a : A) : costs 0 0 (ret a).
Proof. intros w. cbn. split; lia. Qed.

Lemma costs_bind {A B} (c1 t1 c2 t2 : nat) (m : M A) (k : A -> M B) :
  costs c1 t1 m ->
  (forall a w w', m w = (Returned a, w') -> costs c2 t2 (k a)) ->
  costs (c1 + c2) (t1 + t2) (bind m k).
Proof.
  intros Hm Hk w. unfold bind. destruct (Hm w) as [H1 H2].
  destruct (m w) as [[a|msg] w1] eqn:E; cbn in *.
  - destruct (Hk a w w1 E w1). split; lia.
  - split; lia.
Qed.

Lemma costs_tryCatch {A} (c1 t1 c2 t2 : nat) (m : M A) (h : string -> M A) :
  costs c1 t1 m -> (forall msg, costs c2 t2 (h msg)) ->
  costs (c1 + c2) (t1 + t2) (tryCatch m h).
Proof.
  intros Hm Hh w. unfold tryCatch. destruct (Hm w) as [H1 H2].
  destruct (m w) as [[a|msg] w1]; cbn in *.
  - split; lia.
  - destruct (Hh msg w1). split; lia.
Qed.

Lemma sameCalls_refl (w : World) : sameCalls w w.
Proof. split; reflexivity. Qed.

Lemma sameCalls_trans (w1 w2 w3 : World) :
  sameCalls w1 w2 -> sameCalls w2 w3 -> sameCalls w1 w3.
Proof. unfold sameCalls. intros [? ?] [? ?]. split; congruence. Qed.

Lemma sameCalls_fs (w : World) (f : gmap string FsNode) : sameCalls w (with_fs w f).
Proof. split; reflexivity. Qed.

Lemma sameCalls_random (w : World) (n : nat) : sameCalls w (with_randomCalls w n).
Proof. split; reflexivity. Qed.

Lemma sameCalls_ffmpeg (w : World) (inputs : list string) (out : string) :
  sameCalls w (with_trace w (trace w ++ [FfmpegCall inputs out])).
Proof.
  unfold sameCalls, chatCalls, ttsCalls. cbn.
  rewrite !List.filter_app. cbn. rewrite !app_nil_r. split; reflexivity.
Qed.

Lemma costs_of_keeps {A} (m : M A) : keeps sameCalls m -> costs 0 0 m.
Proof. intros H w. destruct (H w) as [-> ->]. split; lia. Qed.

Lemma ttsCalls_after_call (w : World) (req : TtsRequest) (p : string) :
  length (ttsCalls (with_trace w (trace w ++ [TtsCall req p]))) = S (length (ttsCalls w))
  /\ chatCalls (with_trace w (trace w ++ [TtsCall req p])) = chatCalls w.
Proof.
  unfold ttsCalls, chatCalls. cbn. rewrite !List.filter_app, length_app. cbn.
  rewrite app_nil_r. split; [lia | reflexivity].
Qed.

Lemma ttsCalls_after_chat (w : World) (req : ChatRequest) :
  ttsCalls (with_trace w (trace w ++ [ChatCall req])) = ttsCalls w.
Proof. unfold ttsCalls. cbn. rewrite List.filter_app. cbn. apply app_nil_r. Qed.

Lemma costs_generateText (userPrompt : string) (options : GenerateTextOptions) :
  costs 1 0 (generateText userPrompt options).
Proof.
  intros w. rewrite generateText_run.
  destruct (JsString.orElse (env w !! "XAI_API_KEY") None) as [key|]; [|cbn; split; lia].
  cbv zeta.
  assert (H : forall o : Outcome Js.Json,
             let w1 := with_trace w (trace w ++ [ChatCall (chatRequest key userPrompt options)]) in
             (length (chatCalls (o, w1).2) <= length (chatCalls w) + 1)%nat
             /\ (length (ttsCalls (o, w1).2) <= length (ttsCalls w) + 0)%nat).
  { intros o. cbn [snd]. rewrite chatCalls_after_call, ttsCalls_after_chat. split; lia. }
  destruct (chatApi _ _ _) as [reason|response]; [apply H|].
  destruct (negb _); [apply H|].
  destruct (chat_json response) as [data|]; [|apply H].
  pose proof (readContent_world data
                (with_trace w (trace w ++ [ChatCall (chatRequest key userPrompt options)])))
    as Hw.
  destruct (readContent data _) as [o w2]. cbn in Hw. subst w2. apply H.
Qed.

Lemma costs_asString (method : string) (v : Js.Json) : costs 0 0 (asString method v).
Proof. intros w. destruct v; cbn; split; lia. Qed.

Create HintDb costs.

#[local] Hint Resolve costs_generateText costs_asString : costs.

(** A chain of binds: the costs add up. *)
Ltac cost_chain :=
  lazymatch goal with
  | |- costs _ _ (bind _ _) =>
      eapply costs_bind; [solve [eauto with costs] | intros ? ? ? ?; cbv beta; cost_chain]
  | |- costs _ _ (ret _) => apply costs_ret
  | |- _ => solve [eauto with costs]
  end.

Ltac cost_bound := eapply costs_weaken; [cbv zeta; cost_chain | cbn; lia | cbn; lia].

Lemma costs_generateInvestigatorComment (p : InvestigatorCommentParams) :
  costs 1 0 (generateInvestigatorComment p).
Proof. unfold generateInvestigatorComment. cost_bound. Qed.

Lemma costs_generateHostComment (p : HostCommentParams) :
  costs 1 0 (generateHostComment p).
Proof. unfold generateHostComment. cost_bound. Qed.

Lemma costs_generateTitle (dialogue : list DialogueTurn) (hostNames : list string) :
  costs 1 0 (generateTitle dialogue hostNames).
Proof. unfold generateTitle. cost_bound. Qed.

Lemma costs_generateTags (dialogue : list DialogueTurn) : costs 1 0 (generateTags dialogue).
Proof. unfold generateTags. cost_bound. Qed.

Lemma costs_synthesizeSpeech (t : string) (v : Voice) (p : string) :
  costs 0 1 (synthesizeSpeech t v p).
Proof.
  intros w. destruct (synthesizeSpeech_trace t v p w) as [[Ht _]|(req & Ht & _)];
    cbv zeta in Ht; unfold chatCalls, ttsCalls; rewrite Ht.
  - split; lia.
  - rewrite !List.filter_app, !length_app. cbn. split; lia.
Qed.

Lemma costs_synthesizeDialogueTurn (t speakerId outputDir : string) (turn : nat) :
  costs 0 1 (synthesizeDialogueTurn t speakerId outputDir turn).
Proof.
  unfold synthesizeDialogueTurn. cbv zeta.
  destruct (String.length t <=? maxChunkLength)%nat; apply costs_synthesizeSpeech.
Qed.

Lemma costs_pickLine (lines : option (list string)) : costs 0 0 (pickLine lines).
Proof.
  apply costs_of_keeps, (keeps_pickLine sameCalls_refl sameCalls_trans sameCalls_random).
Qed.

Lemma costs_report_concatenateAudioFiles (inputs : list string) (out : string) :
  costs 0 0 (Report.concatenateAudioFiles inputs out).
Proof.
  apply costs_of_keeps,
    (keeps_report_concatenateAudioFiles sameCalls_refl sameCalls_trans sameCalls_fs
       sameCalls_ffmpeg).
Qed.

Lemma costs_podcast_concatenateAudioFiles (inputs : list string) (out : string) :
  costs 0 0 (Podcast.concatenateAudioFiles inputs out).
Proof.
  apply costs_of_keeps,
    (keeps_podcast_concatenateAudioFiles sameCalls_refl sameCalls_trans sameCalls_fs
       sameCalls_ffmpeg).
Qed.

Lemma costs_rmSync_quietly (dir : string) :
  costs 0 0 (tryCatch (Fs.rmSync dir) (fun _ => ret tt)).
Proof.
  apply costs_of_keeps, keeps_tryCatch; [exact sameCalls_trans | |].
  - apply (keeps_rmSync sameCalls_refl sameCalls_trans sameCalls_fs).
  - intros msg. apply keeps_ret, sameCalls_refl.
Qed.

Lemma costs_cleanupOnError (dir : string) : costs 0 0 (cleanupOnError dir).
Proof.
  apply costs_of_keeps, (keeps_cleanupOnError sameCalls_refl sameCalls_trans sameCalls_fs).
Qed.

Lemma costs_existsSync (p : string) : costs 0 0 (Fs.existsSync p).
Proof. apply costs_of_keeps, (keeps_existsSync sameCalls_refl sameCalls_trans). Qed.

Lemma costs_mkdirSync (p : string) : costs 0 0 (Fs.mkdirSync p).
Proof.
  apply costs_of_keeps, (keeps_mkdirSync sameCalls_refl sameCalls_trans sameCalls_fs).
Qed.

Lemma costs_randomIndex (n : nat) : costs 0 0 (randomIndex n).
Proof.
  apply costs_of_keeps, (keeps_randomIndex sameCalls_refl sameCalls_trans sameCalls_random).
Qed.

#[local] Hint Resolve costs_generateInvestigatorComment costs_generateHostComment
  costs_generateTitle costs_generateTags costs_synthesizeDialogueTurn costs_pickLine
  costs_report_concatenateAudioFiles costs_podcast_concatenateAudioFiles
  costs_rmSync_quietly costs_cleanupOnError costs_existsSync costs_mkdirSync
  costs_randomIndex : costs.

Section Costs.

Variable onProgress : option (GenerationProgress -> M unit).
Hypothesis Hsilent : silent onProgress.

Lemma costs_callOpt (p : GenerationProgress) : costs 0 0 (callOpt onProgress p).
Proof.
  unfold callOpt. destruct onProgress as [cb|] eqn:E; [|apply costs_ret].
  apply (Hsilent cb p). reflexivity.
Qed.

#[local] Hint Resolve costs_callOpt : costs.

Lemma costs_report_contentTurn investigation outputDir speakers summary st :
  costs 1 1 (Report.contentTurn investigation outputDir speakers summary st).
Proof. unfold Report.contentTurn. cost_bound. Qed.

#[local] Hint Resolve costs_report_contentTurn : costs.

Lemma costs_groupTurns investigation target outputDir speakers remaining summary st :
  costs remaining remaining
    (Report.groupTurns investigation target outputDir speakers remaining summary st).
Proof.
  revert st. induction remaining as [|k IH]; intros st; cbn [Report.groupTurns].
  - apply costs_ret.
  - destruct (below _ _ _).
    + eapply costs_weaken; [eapply costs_bind; [apply costs_report_contentTurn|]| |].
      * intros st' _ _ _. apply IH.
      * lia.
      * lia.
    + eapply costs_weaken; [apply costs_ret | lia | lia].
Qed.

Lemma costs_groupLoop investigation target outputDir speakers i total groups st :
  costs (2 * length groups) (2 * length groups)
    (Report.groupLoop investigation target onProgress outputDir speakers i total groups st).
Proof.
  revert i st. induction groups as [|g rest IH]; intros i st; cbn [Report.groupLoop].
  - apply costs_ret.
  - destruct (below _ _ _); [|eapply costs_weaken; [apply costs_ret | lia | lia]].
    cbv zeta.
    eapply costs_weaken;
      [eapply costs_bind; [apply costs_callOpt|]; intros ? ? ? ?;
       eapply costs_bind; [apply costs_groupTurns|]; intros ? ? ? ?; apply IH | |];
      cbn [length]; lia.
Qed.

#[local] Hint Resolve costs_groupLoop : costs.

Lemma costs_report_generate documents investigation selected target reportId outputDir
    finalOutputPath :
  costs (2 * length (Report.relatedGroups (Report.groupRelatedDocuments documents)) + 5)
        (2 * length (Report.relatedGroups (Report.groupRelatedDocuments documents)) + 3)
    (Report.generate documents investigation selected target onProgress reportId
       outputDir finalOutputPath).
Proof. unfold Report.generate. cost_bound. Qed.

Lemma costs_podcast_contentTurn arts outputDir speakers st :
  costs 1 1 (Podcast.contentTurn arts onProgress outputDir speakers st).
Proof.
  unfold Podcast.contentTurn. cbv zeta.
  eapply costs_weaken;
    [eapply costs_bind; [apply costs_callOpt|]; intros ? ? ? ?;
     eapply costs_bind; [apply costs_randomIndex|]; intros articleIndex ? ? ? | |].
  - destruct (nth_error arts articleIndex) as [article|].
    + eapply (costs_weaken _ _ 1 1); [cbv zeta; cost_chain | cbn; lia | cbn; lia].
    + apply (costs_weaken 0 0 1 1); [|lia|lia]. intros world. cbn. split; lia.
  - lia.
  - lia.
Qed.

Lemma costs_contentLoop arts target outputDir speakers fuel st :
  costs (Nat.max 1 (21 - turnIndex st)) (Nat.max 1 (21 - turnIndex st))
    (Podcast.contentLoop arts target onProgress outputDir speakers fuel st).
Proof.
  revert st. induction fuel as [|f IH]; intros st; cbn [Podcast.contentLoop].
  - eapply costs_weaken; [apply costs_ret | lia | lia].
  - destruct (below _ _ _); [|eapply costs_weaken; [apply costs_ret | lia | lia]].
    eapply costs_weaken; [eapply costs_bind; [apply costs_podcast_contentTurn|]| |].
    + intros st' w w' Hturn.
      apply (podcast_contentTurn_Returned arts target) in Hturn as (Hidx & _ & _).
      destruct (20 <? turnIndex st')%nat eqn:Hlimit.
      * apply (costs_weaken 0 0 (20 - turnIndex st) (20 - turnIndex st));
          [apply costs_ret | lia | lia].
      * apply Nat.ltb_ge in Hlimit.
        eapply costs_weaken; [apply IH | lia | lia].
    + lia.
    + lia.
Qed.

#[local] Hint Resolve costs_contentLoop : costs.

Lemma costs_podcast_finish host1Key speaker1 speaker2 overview podcastId outputDir
    finalOutputPath st :
  costs 3 1 (Podcast.finish onProgress host1Key speaker1 speaker2 overview podcastId
               outputDir finalOutputPath st).
Proof. unfold Podcast.finish. cost_bound. Qed.

#[local] Hint Resolve costs_podcast_finish : costs.

Lemma costs_podcast_generate fuel arts hosts target podcastId outputDir finalOutputPath :
  costs 24 22 (Podcast.generate fuel arts hosts target onProgress podcastId outputDir
                 finalOutputPath).
Proof.
  unfold Podcast.generate. cbv zeta.
  eapply costs_weaken.
  - do 8 (eapply costs_bind; [solve [eauto with costs] | intros ? ? ? ?; cbv beta]).
    eapply costs_bind;
      [eapply (costs_weaken _ _ 19 19); [apply costs_contentLoop | cbn; lia | cbn; lia]|].
    intros exit ? ? ?.
    destruct exit as [st|].
    + eapply (costs_weaken _ _ 3 1); [cost_chain | cbn; lia | cbn; lia].
    + apply (costs_weaken 0 0 3 1); [apply costs_ret | lia | lia].
  - cbn. lia.
  - cbn. lia.
Qed.

End Costs.

(** The related groups hold at least two documents each and share none:
    there are at most half as many groups as input documents. *)
Lemma groups_at_most_half (documents : list DocumentInput) :
  (2 * length (Report.relatedGroups (Report.groupRelatedDocuments documents))
   <= length documents)%nat.
Proof.
  unfold Report.groupRelatedDocuments. cbn [Report.relatedGroups].
  set (docArray := Report.uniqueDocuments documents).
  assert (Hpool : forall d, d ∈ docArray -> d ∈ documents).
  { intros d Hd. apply uniqueDocuments_members in Hd as [Hd|Hd]; [inversion Hd | exact Hd]. }
  assert (Hinv : outerInv documents (fold_left (Report.outerStep docArray) docArray ([], ∅))).
  { apply outer_fold_inv; [exact Hpool | exact Hpool|].
    repeat split; cbn; try constructor. intros x Hx. inversion Hx. intros d Hd. inversion Hd. }
  destruct Hinv as (Hnd & _ & Hlen & Hmem).
  set (groups := (fold_left (Report.outerStep docArray) docArray ([], ∅)).1) in *.
  assert (H1 : (2 * length groups <= length (concat groups))%nat).
  { clear -Hlen. induction Hlen as [|g rest Hg _ IH]; cbn; [lia|].
    rewrite length_app. lia. }
  assert (H2 : (length (concat groups) <= length documents)%nat).
  { apply submseteq_length, NoDup_submseteq; [|exact Hmem].
    eapply NoDup_fmap_1. exact Hnd. }
  lia.
Qed.

(** X15.  A report run over [n] input documents, with a
    progress callback that makes no request, sends at most [n + 5] chat
    requests and at most [n + 3] speech requests, however it ends. *)
Theorem report_request_bound (documents : list DocumentInput)
    (investigation : option string) (selected : option (list string)) (target : option Q)
    (onProgress : option (GenerationProgress -> M unit)) (w : World) :
  silent onProgress ->
  let r := Report.generateInvestigativeReport documents investigation selected target
             onProgress w in
  (length (chatCalls r.2) <= length (chatCalls w) + length documents + 5)%nat
  /\ (length (ttsCalls r.2) <= length (ttsCalls w) + length documents + 3)%nat.
Proof.
  intros Hsilent. cbv zeta.
  pose proof (groups_at_most_half documents) as Hhalf.
  assert (H : costs (length documents + 5) (length documents + 3)
                (Report.generateInvestigativeReport documents investigation selected
                   target onProgress)).
  { unfold Report.generateInvestigativeReport. cbv zeta.
    eapply costs_weaken.
    - eapply costs_bind; [apply costs_of_keeps, keeps_get, sameCalls_refl|].
      intros w0 ? ? ?. cbv beta.
      eapply costs_bind; [apply costs_existsSync|]. intros cached ? ? ?.
      destruct cached.
      + eapply (costs_weaken 0 0 (length documents + 5) (length documents + 3));
          [apply costs_ret | lia | lia].
      + eapply (costs_weaken _ _ (length documents + 5) (length documents + 3)).
        * eapply costs_bind; [apply costs_existsSync|]. intros present ? ? ?.
          eapply costs_bind.
          { instantiate (1 := 0%nat). instantiate (1 := 0%nat).
            destruct present; [apply costs_ret | apply costs_mkdirSync]. }
          intros ? ? ? ?.
          eapply costs_tryCatch; [apply (costs_report_generate onProgress Hsilent)|].
          intros msg. eapply costs_bind; [apply costs_cleanupOnError|].
          intros ? ? ? ?. apply costs_ret.
        * lia.
        * lia.
    - cbn. lia.
    - cbn. lia. }
  destruct (H w) as [H1 H2]. split; lia.
Qed.

Lemma report_request_bound_witness :
  let r := Report.generateInvestigativeReport Samples.elevenPairs None None (Some 60%Q)
             None Samples.world in
  (length (chatCalls r.2) <= 27)%nat /\ (length (ttsCalls r.2) <= 25)%nat
  /\ length (ttsCalls r.2) = 25%nat.
Proof.
  cbv zeta.
  assert (Hs : silent None) by (intros cb p H; discriminate H).
  destruct (report_request_bound Samples.elevenPairs None None (Some 60%Q) None
              Samples.world Hs) as [H1 H2].
  split; [exact H1|]. split; [exact H2|]. vm_compute. reflexivity.
Defined.

(** X16.  A podcast run, with a progress callback that makes
    no request, sends at most 24 chat requests and at most 22 speech
    requests, whatever the articles, the target length and the replies of
    the two APIs. *)
Theorem podcast_request_bound (fuel : nat) (request : PodcastRequest)
    (onProgress : option (GenerationProgress -> M unit)) (w : World) :
  silent onProgress ->
  let r := Podcast.generatePodcast fuel request onProgress w in
  (length (chatCalls r.2) <= length (chatCalls w) + 24)%nat
  /\ (length (ttsCalls r.2) <= length (ttsCalls w) + 22)%nat.
Proof.
  intros Hsilent. cbv zeta.
  assert (H : costs 24 22 (Podcast.generatePodcast fuel request onProgress)).
  { unfold Podcast.generatePodcast. cbv zeta.
    eapply costs_weaken.
    - eapply costs_bind; [apply costs_of_keeps, keeps_get, sameCalls_refl|].
      intros w0 ? ? ?. cbv beta.
      eapply costs_bind; [apply costs_existsSync|]. intros cached ? ? ?.
      destruct cached.
      + eapply (costs_weaken 0 0 24 22); [apply costs_ret | lia | lia].
      + eapply (costs_weaken _ _ 24 22).
        * eapply costs_bind; [apply costs_existsSync|]. intros present ? ? ?.
          eapply costs_bind.
          { instantiate (1 := 0%nat). instantiate (1 := 0%nat).
            destruct present; [apply costs_ret | apply costs_mkdirSync]. }
          intros ? ? ? ?.
          eapply costs_tryCatch; [apply (costs_podcast_generate onProgress Hsilent)|].
          intros msg. eapply costs_bind; [apply costs_cleanupOnError|].
          intros ? ? ? ?. apply costs_ret.
        * cbn. lia.
        * cbn. lia.
    - cbn. lia.
    - cbn. lia. }
  destruct (H w) as [H1 H2]. split; lia.
Qed.

Lemma podcast_request_bound_witness :
  let r := Podcast.generatePodcast 19 Samples.podcastRequest None Samples.world in
  (length (chatCalls r.2) <= 24)%nat /\ (length (ttsCalls r.2) <= 22)%nat
  /\ length (ttsCalls r.2) = 22%nat /\ length (chatCalls r.2) = 24%nat.
Proof.
  cbv zeta.
  assert (Hs : silent None) by (intros cb p H; discriminate H).
  destruct (podcast_request_bound 19 Samples.podcastRequest None Samples.world Hs)
    as [H1 H2].
  split; [exact H1|]. split; [exact H2|]. split; vm_compute; reflexivity.
Defined.
(** ** The event stream of the report route *)

Lemma streamGrows_refl (w : World) : streamGrows w w.
Proof.
  intros H. split; [exact H|]. exists []. rewrite app_nil_r.
  split; [reflexivity | constructor].
Qed.

Lemma streamGrows_trans (w1 w2 w3 : World) :
  streamGrows w1 w2 -> streamGrows w2 w3 -> streamGrows w1 w3.
Proof.
  intros H12 H23 Hopen. destruct (H12 Hopen) as (Hopen2 & ev1 & Hq1 & Hf1).
  destruct (H23 Hopen2) as (Hopen3 & ev2 & Hq2 & Hf2).
  split; [exact Hopen3|]. exists (ev1 ++ ev2).
  rewrite Hq2, Hq1, app_assoc. split; [reflexivity | apply Forall_app; auto].
Qed.

Lemma streamGrows_same (w w' : World) :
  sseClosed w' = sseClosed w -> sseQueue w' = sseQueue w -> streamGrows w w'.
Proof.
  intros Hc Hq H. rewrite Hc, Hq. split; [exact H|]. exists [].
  rewrite app_nil_r. split; [reflexivity | constructor].
Qed.

Lemma streamGrows_fs (w : World) (f : gmap string FsNode) : streamGrows w (with_fs w f).
Proof. apply streamGrows_same; reflexivity. Qed.

Lemma streamGrows_trace (w : World) (t : list Event) : streamGrows w (with_trace w t).
Proof. apply streamGrows_same; reflexivity. Qed.

Lemma streamGrows_random (w : World) (n : nat) : streamGrows w (with_randomCalls w n).
Proof. apply streamGrows_same; reflexivity. Qed.

(** [sendEvent] on an open stream returns; the stream is then up to date,
    and the pings that were due stand before the event. *)
Lemma sendEvent_spec (event : string) (data : list (string * Js.Value)) (w : World) :
  sseClosed w = false ->
  let r := ReportRoute.sendEvent event data w in
  r.1 = Returned tt /\ sseClosed r.2 = false /\ upToDate r.2
  /\ trace r.2 = trace w /\ fs r.2 = fs w
  /\ exists pings e,
       sseQueue r.2 = sseQueue w ++ pings ++ [e]
       /\ Forall (fun e => isPing e = true) pings
       /\ sse_event e = event
       /\ sse_data e = List.filter (fun kv => match kv.2 with
                                              | Some _ => true
                                              | None => false
                                              end) data.
Proof.
  intros Hopen. cbv zeta.
  destruct (sendEvent_open event data w Hopen) as (e & w' & He & Hd & -> & ->).
  destruct (deliverPings_spec w) as (Hup & _ & Ht & Hf & _ & _ & _ & _ & pings & Hq & Hp).
  cbv zeta in Hup, Ht, Hf, Hq. cbn [fst snd].
  split_and!; auto.
  exists pings, e. cbn. rewrite Hq, <- app_assoc. auto.
Qed.

Lemma progressEvent_grows (progress : GenerationProgress) :
  keeps streamGrows (ReportRoute.progressEvent progress).
Proof.
  intros w Hopen. unfold ReportRoute.progressEvent.
  destruct (sendEvent_spec "investigationUpdate"
              [("status", ReportRoute.jstr (status progress));
               ("message", ReportRoute.jstr (message progress));
               ("currentStep", ReportRoute.jnum (currentStep progress));
               ("totalSteps", ReportRoute.jnum (totalSteps progress))] w Hopen)
    as (_ & Ho & _ & _ & _ & pings & e & Hq & Hp & He & _).
  cbv zeta in Ho, Hq. split; [exact Ho|]. exists (pings ++ [e]). split; [exact Hq|].
  apply Forall_app. split.
  - eapply Forall_impl; [exact Hp|]. intros x Hx. right. exact Hx.
  - constructor; [left; right; exact He | constructor].
Qed.

(** The generator, called with the route's callback, keeps the stream open
    and adds only progress events and pings. *)
Lemma report_stream_grows documents investigation selected target (w : World) :
  streamGrows w
    (Report.generateInvestigativeReport documents investigation selected target
       (Some ReportRoute.progressEvent) w).2.
Proof.
  apply (keeps_generateInvestigativeReport streamGrows_refl streamGrows_trans
           streamGrows_fs (fun w req => streamGrows_trace w _)
           (fun w req p => streamGrows_trace w _)
           (fun w inputs out => streamGrows_trace w _) streamGrows_random
           (Some ReportRoute.progressEvent)).
  intros cb p H. injection H as <-. apply progressEvent_grows.
Qed.

(** What the [try] block and the [catch] clause of the route leave in the
    stream: progress events and pings, then one final event.  They return,
    with the stream up to date, and closed only at the validation. *)
Lemma route_try_catch (body : ReportRoute.RequestBody) (w : World) :
  sseClosed w = false ->
  let r := tryCatch (ReportRoute.handle body)
             (fun msg => ReportRoute.sendEvent "error" [("message", ReportRoute.jstr msg)]) w in
  r.1 = Returned tt /\ upToDate r.2 /\ sseClosed r.2 = stopsAtValidation body
  /\ exists events final,
       sseQueue r.2 = sseQueue w ++ events ++ [final]
       /\ Forall (fun e => isProgressEvent e \/ isPing e = true) events
       /\ isFinalEvent final.
Proof.
  intros Hopen. cbv zeta.
  assert (Hsend : forall event data w1 events,
             event = "reportComplete" \/ event = "error" ->
             sseClosed w1 = false -> sseQueue w1 = sseQueue w ++ events ->
             Forall (fun e => isProgressEvent e \/ isPing e = true) events ->
             let r := ReportRoute.sendEvent event data w1 in
             r.1 = Returned tt /\ upToDate r.2 /\ sseClosed r.2 = false
             /\ exists events' final,
                  sseQueue r.2 = sseQueue w ++ events' ++ [final]
                  /\ Forall (fun e => isProgressEvent e \/ isPing e = true) events'
                  /\ isFinalEvent final).
  { intros event data w1 events Hev Ho Hq Hf. cbv zeta.
    destruct (sendEvent_spec event data w1 Ho)
      as (Hr & Ho' & Hup & _ & _ & pings & e & Hq' & Hp & He & _).
    cbv zeta in Hr, Ho', Hup, Hq'. split_and!; auto.
    exists (events ++ pings), e. rewrite Hq', Hq, <- !app_assoc.
    split; [reflexivity|]. split.
    - apply Forall_app. split; [exact Hf|].
      eapply Forall_impl; [exact Hp|]. intros x Hx. right. exact Hx.
    - unfold isFinalEvent. rewrite He. exact Hev. }
  assert (Hcatch : forall msg w1 events,
             sseClosed w1 = false -> sseQueue w1 = sseQueue w ++ events ->
             Forall (fun e => isProgressEvent e \/ isPing e = true) events ->
             let r := ReportRoute.sendEvent "error" [("message", ReportRoute.jstr msg)] w1 in
             r.1 = Returned tt /\ upToDate r.2 /\ sseClosed r.2 = false
             /\ exists events' final,
                  sseQueue r.2 = sseQueue w ++ events' ++ [final]
                  /\ Forall (fun e => isProgressEvent e \/ isPing e = true) events'
                  /\ isFinalEvent final)
    by (intros msg w1 events; apply Hsend; right; reflexivity).
  unfold tryCatch. destruct body as [| |b].
  - cbn [ReportRoute.handle throw stopsAtValidation].
    apply (Hcatch _ w []); auto. rewrite app_nil_r. reflexivity.
  - cbn [ReportRoute.handle throw stopsAtValidation].
    apply (Hcatch _ w []); auto. rewrite app_nil_r. reflexivity.
  - cbn [ReportRoute.handle stopsAtValidation].
    assert (Hinvalid :
              let m := ReportRoute.sendEvent "error"
                         [("message", ReportRoute.jstr "Documents are required")] ;;;
                       ReportRoute.clearInterval ;;;
                       ReportRoute.controllerClose in
              let r := match m w with
                       | (Thrown msg, w') =>
                           ReportRoute.sendEvent "error"
                             [("message", ReportRoute.jstr msg)] w'
                       | r => r
                       end in
              r.1 = Returned tt /\ upToDate r.2 /\ sseClosed r.2 = true
              /\ exists events final,
                   sseQueue r.2 = sseQueue w ++ events ++ [final]
                   /\ Forall (fun e => isProgressEvent e \/ isPing e = true) events
                   /\ isFinalEvent final).
    { cbv zeta.
      destruct (Hcatch "Documents are required" w [] Hopen ltac:(rewrite app_nil_r; reflexivity)
                  ltac:(constructor))
        as (Hr & Hup & Ho & events & final & Hq & Hf & Hfin).
      cbv zeta in Hr, Hup, Ho, Hq.
      unfold ReportRoute.jstr in *.
      destruct (ReportRoute.sendEvent "error" _ w) as [[[]|msg] w1] eqn:Es;
        [|discriminate Hr].
      cbn [fst snd] in Hup, Ho, Hq. rewrite !(bind_Returned _ _ _ _ _ Es).
      unfold ReportRoute.clearInterval, ReportRoute.controllerClose, bind, get, throw, modify.
      cbn [fst snd]. rewrite (deliverPings_upToDate w1 Ho Hup). cbn. rewrite Ho. cbn.
      split_and!; auto. exists events, final. auto. }
    destruct (ReportRoute.body_documents b) as [|v|[|d ds]]; try exact Hinvalid.
    clear Hinvalid. cbn [ReportRoute.documentsInvalid].
    destruct (sendEvent_spec "generatingReport"
                [("message", ReportRoute.jstr "Starting investigative report generation")]
                w Hopen)
      as (Hr0 & Ho0 & _ & _ & _ & pings0 & e0 & Hq0 & Hp0 & He0 & _).
    cbv zeta in Hr0, Ho0, Hq0.
    destruct (ReportRoute.sendEvent "generatingReport" _ w) as [[[]|msg0] w1] eqn:Es;
      [|discriminate Hr0].
    cbn [fst snd] in Ho0, Hq0. rewrite !(bind_Returned _ _ _ _ _ Es).
    pose proof (report_stream_grows (d :: ds)
                  (Some (default "Document Investigation" (ReportRoute.body_investigation b)))
                  (Some (default ["reporter"; "privateEye"]
                           (ReportRoute.body_selectedInvestigators b)))
                  (Some (default 300%Q (ReportRoute.body_targetLengthSeconds b)))
                  w1 Ho0) as (Hopen2 & events & Hq & Hf).
    assert (Hall : Forall (fun e => isProgressEvent e \/ isPing e = true)
                     ((pings0 ++ [e0]) ++ events)).
    { apply Forall_app. split; [|exact Hf]. apply Forall_app. split.
      - eapply Forall_impl; [exact Hp0|]. intros x Hx. right. exact Hx.
      - constructor; [left; left; exact He0 | constructor]. }
    unfold bind.
    destruct (Report.generateInvestigativeReport _ _ _ _ _ w1) as [[result|msg] w2];
      cbn [snd] in Hopen2, Hq.
    + assert (Hq2 : sseQueue w2 = sseQueue w ++ (pings0 ++ [e0]) ++ events)
        by (rewrite Hq, Hq0, <- !app_assoc; reflexivity).
      assert (Hsome : forall event data,
                 event = "reportComplete" \/ event = "error" ->
                 let r := match ReportRoute.sendEvent event data w2 with
                          | (Thrown msg, w') =>
                              ReportRoute.sendEvent "error"
                                [("message", ReportRoute.jstr msg)] w'
                          | r => r
                          end in
                 r.1 = Returned tt /\ upToDate r.2 /\ sseClosed r.2 = false
                 /\ exists events' final,
                      sseQueue r.2 = sseQueue w ++ events' ++ [final]
                      /\ Forall (fun e => isProgressEvent e \/ isPing e = true) events'
                      /\ isFinalEvent final).
      { intros event data Hev. cbv zeta.
        pose proof (Hsend event data w2 _ Hev Hopen2 Hq2 Hall) as Hs. cbv zeta in Hs.
        destruct (ReportRoute.sendEvent event data w2) as [[[]|m] w3].
        - exact Hs.
        - destruct Hs as [Hs _]. discriminate Hs. }
      destruct (success result); apply Hsome; auto.
    + apply (Hcatch msg w2 ((pings0 ++ [e0]) ++ events)); auto.
      rewrite Hq, Hq0, <- !app_assoc. reflexivity.
Qed.

Lemma deliverPings_queue (w : World) :
  upToDate w -> sseQueue (ReportRoute.deliverPings w) = sseQueue w
                /\ sseClosed (ReportRoute.deliverPings w) = sseClosed w.
Proof.
  intros Hup. unfold ReportRoute.deliverPings. rewrite (firings_upToDate w Hup).
  destruct (keepAliveFrom w); [|auto].
  destruct (sseClosed w) eqn:E; cbn; rewrite ?E, ?app_nil_r; auto.
Qed.

(** X17.  Whatever the request body and whatever happens during the
    generation, the route ends an open stream in the same way: it has
    added progress events (generatingReport, investigationUpdate) and the
    pings of the keep-alive timer, then exactly one final event,
    reportComplete or error, after which nothing is added, and it has
    closed the controller.  The start callback throws, by closing a second
    time, exactly for a body that stops at the validation of its
    documents. *)
Theorem POST_ends_with_one_final_event (body : ReportRoute.RequestBody) (w : World) :
  sseClosed w = false ->
  let r := ReportRoute.POST body w in
  sseClosed r.2 = true
  /\ (exists events final,
        sseQueue r.2 = sseQueue w ++ events ++ [final]
        /\ Forall (fun e => isProgressEvent e \/ isPing e = true) events
        /\ isFinalEvent final)
  /\ r.1 = if stopsAtValidation body then Thrown ReportRoute.closedMessage else Returned tt.
Proof.
  intros Hopen. cbv zeta.
  set (w0 := with_keepAliveFrom w (Some (length (trace w)))).
  assert (Hpost : ReportRoute.POST body w
                  = tryFinally
                      (tryCatch (ReportRoute.handle body)
                         (fun msg => ReportRoute.sendEvent "error"
                                       [("message", ReportRoute.jstr msg)]))
                      (ReportRoute.clearInterval ;;; ReportRoute.controllerClose) w0)
    by reflexivity.
  rewrite Hpost. clear Hpost.
  destruct (route_try_catch body w0 Hopen) as (Hr & Hup & Hc & events & final & Hq & Hf & Hfin).
  cbv zeta in Hr, Hup, Hc, Hq. unfold tryFinally.
  destruct (tryCatch _ _ w0) as [[[]|msg] w1]; [|discriminate Hr].
  cbn [fst snd] in Hup, Hc, Hq.
  destruct (deliverPings_queue w1 Hup) as [Hdq Hdc].
  unfold ReportRoute.clearInterval, ReportRoute.controllerClose, bind, get, throw, modify.
  cbn [fst snd sseClosed with_keepAliveFrom]. rewrite Hdc, Hc.
  destruct (stopsAtValidation body); cbn; rewrite ?Hdq, ?Hdc, ?Hc, Hq;
    (split_and!; [reflexivity | exists events, final; auto | reflexivity]).
Qed.

(** The sample report over a timer that fires once during the third
    call: the ping stands where the run next sent an event. *)
Lemma POST_ends_with_one_final_event_witness :
  let r := ReportRoute.POST
             (ReportRoute.BodyValue
                (ReportRoute.mkBody (ReportRoute.DocsArray Samples.twoDocuments)
                   None None (Some 10%Q))) (Samples.withSlowThirdCall Samples.world) in
  r.1 = Returned tt /\ sseClosed r.2 = true
  /\ map sse_event (sseQueue r.2)
     = ["generatingReport"; "investigationUpdate"; "investigationUpdate";
        "investigationUpdate"; "ping"; "investigationUpdate"; "investigationUpdate";
        "investigationUpdate"; "investigationUpdate"; "reportComplete"].
Proof.
  cbv zeta.
  destruct (POST_ends_with_one_final_event
              (ReportRoute.BodyValue
                 (ReportRoute.mkBody (ReportRoute.DocsArray Samples.twoDocuments)
                    None None (Some 10%Q)))
              (Samples.withSlowThirdCall Samples.world) eq_refl) as (Hc & _ & Hr).
  split; [exact Hr|]. split; [exact Hc|]. vm_compute. reflexivity.
Defined.

(** ** Serving a finished file *)

Lemma basename_from_segment (last cur s : string) :
  Path.slashFree s = true ->
  Path.basename_from last cur s
  = match cur +:+ s with EmptyString => last | name => name end.
Proof.
  revert cur. induction s as [|c rest IH]; intros cur Hs.
  - cbn. rewrite append_nil_r. destruct cur; reflexivity.
  - cbn in Hs. apply andb_true_iff in Hs as [Hc Hr].
    cbn [Path.basename_from]. apply negb_true_iff in Hc. rewrite Hc.
    rewrite (IH _ Hr), append_assoc. reflexivity.
Qed.

Lemma basename_segment (s : string) :
  Path.slashFree s = true -> s <> EmptyString -> Path.basename s = s.
Proof.
  intros Hs Hne. unfold Path.basename. rewrite (basename_from_segment _ _ _ Hs).
  rewrite append_nil_l. destruct s; [contradiction | reflexivity].
Qed.

Lemma lastDotSuffix_hex (h : string) :
  allHex h = true -> Path.lastDotSuffix (h +:+ ".mp3") = Some ".mp3".
Proof.
  induction h as [|c rest IH]; [reflexivity|]. cbn [allHex]. intros H.
  apply andb_true_iff in H as [_ Hr]. rewrite append_cons. cbn [Path.lastDotSuffix].
  rewrite (IH Hr). reflexivity.
Qed.

Lemma extname_finished_file (id : string) :
  allHex id = true -> id <> EmptyString -> Path.extname (id +:+ ".mp3") = ".mp3".
Proof.
  intros Hhex Hne. unfold Path.extname.
  assert (Hs : Path.slashFree (id +:+ ".mp3") = true).
  { rewrite slashFree_app, (allHex_slashFree _ Hhex). reflexivity. }
  rewrite (basename_segment _ Hs) by (destruct id; [contradiction | discriminate]).
  destruct id as [|c rest]; [contradiction|]. rewrite append_cons.
  cbn in Hhex. apply andb_true_iff in Hhex as [Hc Hr].
  assert (Hdd : Path.isDotDot (String c (rest +:+ ".mp3")) = false).
  { unfold Path.isDotDot. cbn. destruct (Ascii.eqb_spec c "."%char) as [->|_];
      [discriminate Hc | reflexivity]. }
  rewrite Hdd, (lastDotSuffix_hex _ Hr). reflexivity.
Qed.

(** X18.  The file of a finished report or podcast is served by the
    media route under the name that the generator returned: when
    [AUDIO_DIR/id.mp3] is a file, GET with id = [id.mp3] (the query of the
    result's audioUrl) answers 200 with the bytes of that file, their
    length, and the content type audio/mpeg. *)
Theorem media_serves_finished_file (w : World) (id : string) (body : list Byte.byte) :
  Path.isAbsolute (cwd w) = true ->
  fs w !! AUDIO_DIR w = Some FsDir ->
  (exists documents investigation, id = Report.generateReportId documents investigation)
  \/ (exists arts hosts, id = Podcast.generatePodcastId arts hosts) ->
  fs w !! Path.join (AUDIO_DIR w) (id +:+ ".mp3") = Some (FsFile body) ->
  audioFile (cachedResult id) = Some (id +:+ ".mp3")
  /\ audioUrl (cachedResult id) = Some ("/api/generate/media?id=" +:+ id +:+ ".mp3")
  /\ MediaRoute.GET (Some (id +:+ ".mp3")) w
     = (Returned (MediaRoute.Audio "audio/mpeg" (length body) body), w).
Proof.
  intros Habs Hdir Hid Hfile.
  assert (Hkey : exists key, id = JsString.take 16 (Sha256.hex key)).
  { destruct Hid as [(d & i & ->)|(a & h & ->)]; eexists; reflexivity. }
  destruct Hkey as [key ->].
  destruct (identifier_shape key) as (Hhex & Hlen & Hseg & Hsegfile).
  cbv zeta in Hhex, Hlen, Hseg, Hsegfile.
  set (id := JsString.take 16 (Sha256.hex key)) in *.
  assert (Hne : id <> EmptyString) by (intros E; rewrite E in Hlen; discriminate Hlen).
  assert (Hname : Path.basename (id +:+ ".mp3") = id +:+ ".mp3").
  { apply basename_segment; [apply Hsegfile|]. destruct id; [contradiction | discriminate]. }
  assert (Htruthy : JsString.truthy (id +:+ ".mp3") = true).
  { destruct id; [contradiction | reflexivity]. }
  destruct (run_directory_shape w _ Habs Hsegfile) as (_ & _ & _ & Hjoin).
  rewrite Hjoin in Hfile.
  split; [reflexivity|]. split; [reflexivity|].
  destruct (media_GET_cases (id +:+ ".mp3") w Habs Hdir Htruthy) as [Hworld Hcases].
  cbv zeta in Hworld, Hcases. rewrite Hname in Hcases.
  rewrite (proj2 Hsegfile), Hfile in Hcases.
  rewrite (extname_finished_file _ Hhex Hne) in Hcases.
  destruct (MediaRoute.GET (Some (id +:+ ".mp3")) w) as [o w']. cbn in Hworld, Hcases.
  rewrite Hworld, Hcases. reflexivity.
Qed.

Lemma media_serves_finished_file_witness :
  MediaRoute.GET (Some "f8ec3809663b680c.mp3") Samples.cachedWorld
  = (Returned (MediaRoute.Audio "audio/mpeg" 1 [Byte.x01]), Samples.cachedWorld).
Proof.
  assert (Hid : Report.generateReportId Samples.twoDocuments "Document Investigation"
                = "f8ec3809663b680c") by (vm_compute; reflexivity).
  destruct (media_serves_finished_file Samples.cachedWorld
              (Report.generateReportId Samples.twoDocuments "Document Investigation")
              [Byte.x01] eq_refl ltac:(vm_compute; reflexivity)
              (or_introl (ex_intro _ Samples.twoDocuments (ex_intro _ _ eq_refl)))
              ltac:(vm_compute; reflexivity)) as (_ & _ & H).
  rewrite Hid in H. exact H.
Defined.

(** ** Runs that cannot succeed *)

Lemma inherited_speaker (key : string) (fallback : Personality) :
  In key Config.objectPrototypeKeys ->
  Config.lookupOr key fallback = Config.Inherited key.
Proof.
  intros H. unfold Config.objectPrototypeKeys in H. cbn in H.
  repeat (destruct H as [<-|H]; [reflexivity|]). contradiction.
Qed.

Lemma pickLine_undefined (w : World) :
  pickLine None w
  = (Thrown "Cannot read properties of undefined (reading 'length')",
     with_randomCalls w (S (randomCalls w))).
Proof. reflexivity. Qed.

(** The [try] block of the report generator when the first investigator
    key names a member inherited from [Object.prototype]. *)
Lemma report_generate_inherited documents investigation key others target reportId
    outputDir finalOutputPath (w : World) :
  In key Config.objectPrototypeKeys ->
  Report.generate documents investigation (key :: others) target None reportId outputDir
    finalOutputPath w
  = (Thrown "Cannot read properties of undefined (reading 'length')",
     with_randomCalls w (S (randomCalls w))).
Proof.
  intros Hkey. unfold Report.generate. cbv zeta. cbn [nth].
  rewrite (inherited_speaker key Config.reporter Hkey).
  cbn [callOpt Config.speakerLines].
  rewrite (bind_Returned (ret tt) _ w w tt eq_refl).
  rewrite (bind_Returned (ret tt) _ w w tt eq_refl).
  apply (bind_Thrown _ _ _ _ _ (pickLine_undefined w)).
Qed.

Lemma podcast_generate_inherited fuel arts key others target podcastId
    outputDir finalOutputPath (w : World) :
  In key Config.objectPrototypeKeys ->
  Podcast.generate fuel arts (key :: others) target None podcastId outputDir
    finalOutputPath w
  = (Thrown "Cannot read properties of undefined (reading 'length')",
     with_randomCalls w (S (randomCalls w))).
Proof.
  intros Hkey. unfold Podcast.generate. cbv zeta. cbn [nth].
  rewrite (inherited_speaker key Config.host1 Hkey).
  cbn [callOpt Config.speakerLines].
  rewrite (bind_Returned (ret tt) _ w w tt eq_refl).
  rewrite (bind_Returned (ret tt) _ w w tt eq_refl).
  apply (bind_Thrown _ _ _ _ _ (pickLine_undefined w)).
Qed.

Lemma catch_after_throw {A} (m : M A) (dir msg : string) (failed : string -> A)
    (w w1 : World) :
  m w = (Thrown msg, w1) ->
  let r := tryCatch m (fun msg => cleanupOnError dir ;;; ret (failed msg)) w in
  r.1 = Returned (failed msg) /\ trace r.2 = trace w1 /\ fs r.2 !! dir = None.
Proof.
  intros Hm. cbv zeta. unfold tryCatch. rewrite Hm.
  destruct (cleanupOnError_removes dir w1) as (Hret & Hgone & Htrace).
  unfold bind. destruct (cleanupOnError dir w1) as [[u|m'] w2]; cbn in Hret, Hgone, Htrace;
    [|discriminate Hret].
  cbn. auto.
Qed.

(** X19.  The personality of a speaker is looked up with
    [personalities[key] || fallback].  When the first selected key names a
    member that every object inherits (constructor, toString, ...), the
    lookup yields that member instead of the fallback, the opening line
    cannot be picked, and the run, if it gets to its [try] block, ends as a
    failure with a TypeError message, before any request is made.  This
    holds for reports and for podcasts. *)
Theorem inherited_key_fails_the_run (key : string) (others : list string)
    (documents : list DocumentInput) (investigation : option string) (target : option Q)
    (fuel : nat) (arts : list Article) (w : World) :
  In key Config.objectPrototypeKeys ->
  let report :=
    Report.generateInvestigativeReport documents investigation (Some (key :: others))
      target None w in
  let podcast :=
    Podcast.generatePodcast fuel (mkPodcastRequest arts (Some (key :: others)) target)
      None w in
  let typeError := "Cannot read properties of undefined (reading 'length')" in
  (fs w !! Path.join (AUDIO_DIR w)
             (Report.generateReportId documents
                (default "Document Investigation" investigation) +:+ ".mp3") = None ->
   (report.1 = Returned (failedResult typeError) \/ exists msg, report.1 = Thrown msg)
   /\ networkCalls report.2 = networkCalls w)
  /\ (fs w !! Path.join (AUDIO_DIR w)
                (Podcast.generatePodcastId arts (key :: others) +:+ ".mp3") = None ->
      (podcast.1 = Returned (Some (failedResult typeError))
       \/ exists msg, podcast.1 = Thrown msg)
      /\ networkCalls podcast.2 = networkCalls w).
Proof.
  intros Hkey. cbv zeta. split; intros Hfresh.
  - rewrite report_run. cbv zeta. rewrite Hfresh.
    change (default ["reporter"; "privateEye"] (Some (key :: others))) with (key :: others).
    set (name := default "Document Investigation" investigation).
    set (id := Report.generateReportId documents name).
    set (dir := Path.join (AUDIO_DIR w) id).
    set (final := Path.join (AUDIO_DIR w) (id +:+ ".mp3")).
    set (tgt := default 300%Q target).
    assert (Htry : forall w1, trace w1 = trace w ->
               let t := tryCatch
                          (Report.generate documents name (key :: others) tgt None id dir final)
                          (fun msg => cleanupOnError dir ;;; ret (failedResult msg)) w1 in
               (t.1 = Returned (failedResult
                                  "Cannot read properties of undefined (reading 'length')")
                \/ exists msg, t.1 = Thrown msg)
               /\ networkCalls t.2 = networkCalls w).
    { intros w1 Hw1. cbv zeta.
      pose proof (catch_after_throw _ dir _ failedResult _ _
                    (report_generate_inherited documents name key others tgt id dir final
                       w1 Hkey)) as (Hr & Ht & _).
      cbv zeta in Hr, Ht. rewrite Hr. split; [left; reflexivity|].
      unfold networkCalls. rewrite Ht. cbn. rewrite Hw1. reflexivity. }
    destruct (fs w !! dir); [apply Htry; reflexivity|].
    destruct (mkdirSync_cases dir w) as [[msg ->]| ->]; [split; [right; eauto | reflexivity]|].
    apply Htry. reflexivity.
  - rewrite podcast_run. cbv zeta.
    cbn [articles selectedHosts podcast_targetLengthSeconds].
    change (default ["host1"; "host2"] (Some (key :: others))) with (key :: others).
    rewrite Hfresh.
    set (id := Podcast.generatePodcastId arts (key :: others)).
    set (dir := Path.join (AUDIO_DIR w) id).
    set (final := Path.join (AUDIO_DIR w) (id +:+ ".mp3")).
    set (tgt := default 300%Q target).
    assert (Htry : forall w1, trace w1 = trace w ->
               let t := tryCatch
                          (Podcast.generate fuel arts (key :: others) tgt None id dir final)
                          (fun msg => cleanupOnError dir ;;; ret (Some (failedResult msg)))
                          w1 in
               (t.1 = Returned (Some (failedResult
                                        "Cannot read properties of undefined (reading 'length')"))
                \/ exists msg, t.1 = Thrown msg)
               /\ networkCalls t.2 = networkCalls w).
    { intros w1 Hw1. cbv zeta.
      pose proof (catch_after_throw _ dir _ (fun msg => Some (failedResult msg)) _ _
                    (podcast_generate_inherited fuel arts key others tgt id dir final
                       w1 Hkey)) as (Hr & Ht & _).
      cbv zeta in Hr, Ht. rewrite Hr. split; [left; reflexivity|].
      unfold networkCalls. rewrite Ht. cbn. rewrite Hw1. reflexivity. }
    destruct (fs w !! dir); [apply Htry; reflexivity|].
    destruct (mkdirSync_cases dir w) as [[msg ->]| ->]; [split; [right; eauto | reflexivity]|].
    apply Htry. reflexivity.
Qed.

Lemma inherited_key_fails_the_run_witness :
  let r := Report.generateInvestigativeReport Samples.twoDocuments None
             (Some ["constructor"; "privateEye"]) None None Samples.world in
  r.1 = Returned (failedResult "Cannot read properties of undefined (reading 'length')")
  /\ networkCalls r.2 = [].
Proof.
  cbv zeta.
  destruct (inherited_key_fails_the_run "constructor" ["privateEye"] Samples.twoDocuments
              None None 0 [] Samples.world ltac:(left; reflexivity)) as [H _].
  destruct (H ltac:(vm_compute; reflexivity)) as [_ Hcalls].
  split; [vm_compute; reflexivity | exact Hcalls].
Defined.

(** With no article, a content turn of the podcast throws. *)
Lemma podcast_turn_without_articles onProgress outputDir speakers st (w : World) :
  exists msg, (Podcast.contentTurn [] onProgress outputDir speakers st w).1 = Thrown msg.
Proof.
  unfold Podcast.contentTurn. cbv zeta. unfold bind at 1.
  destruct (callOpt onProgress _ w) as [[u|msg] w1]; [|eexists; reflexivity].
  eexists. reflexivity.
Qed.

(** The trace only grows along the steps of a run. *)
Lemma traceGrows_refl (w : World) : traceGrows w w.
Proof. exists []. rewrite app_nil_r. reflexivity. Qed.

Lemma traceGrows_trans (w1 w2 w3 : World) :
  traceGrows w1 w2 -> traceGrows w2 w3 -> traceGrows w1 w3.
Proof.
  intros [m1 H1] [m2 H2]. exists (m1 ++ m2). rewrite H2, H1, app_assoc. reflexivity.
Qed.

Lemma traceGrows_fs (w : World) (f : gmap string FsNode) : traceGrows w (with_fs w f).
Proof. exists []. cbn. rewrite app_nil_r. reflexivity. Qed.

Lemma traceGrows_random (w : World) (n : nat) : traceGrows w (with_randomCalls w n).
Proof. exists []. cbn. rewrite app_nil_r. reflexivity. Qed.

Lemma traceGrows_log (w : World) (e : Event) :
  traceGrows w (with_trace w (trace w ++ [e])).
Proof. exists [e]. reflexivity. Qed.

Ltac grows :=
  first [ exact traceGrows_refl | exact traceGrows_trans | exact traceGrows_fs
        | exact traceGrows_random | (intros; apply traceGrows_log) | assumption ].

Lemma spokenTexts_grows (w w' : World) (t : string) :
  traceGrows w w' -> In t (spokenTexts w) -> In t (spokenTexts w').
Proof.
  intros [more H] Hin. unfold spokenTexts in *. rewrite H, flat_map_app.
  apply in_or_app. left. exact Hin.
Qed.

(** A turn that was synthesized has sent its text, cut to [maxChunkLength]
    characters, to the speech API. *)
Lemma synthesizeDialogueTurn_spoken (t speakerId outputDir path : string) (turn : nat)
    (w w' : World) :
  synthesizeDialogueTurn t speakerId outputDir turn w = (Returned path, w') ->
  In (JsString.take maxChunkLength t) (spokenTexts w').
Proof.
  unfold synthesizeDialogueTurn. cbv zeta. intros H.
  destruct (String.length t <=? maxChunkLength)%nat eqn:E.
  - apply Nat.leb_le in E. rewrite (take_all _ _ E).
    pose proof (synthesizeSpeech_request t _ _ path w ltac:(rewrite H; reflexivity))
      as (_ & key & response & _ & _ & _ & _ & _ & Htrace & _).
    rewrite H in Htrace. cbn [snd] in Htrace. unfold spokenTexts. rewrite Htrace, flat_map_app.
    apply in_or_app. right. left. reflexivity.
  - pose proof (synthesizeSpeech_request (JsString.take maxChunkLength t) _ _ path w
                  ltac:(rewrite H; reflexivity))
      as (_ & key & response & _ & _ & _ & _ & _ & Htrace & _).
    rewrite H in Htrace. cbn [snd] in Htrace. unfold spokenTexts. rewrite Htrace, flat_map_app.
    apply in_or_app. right. left. reflexivity.
Qed.

(** X20.  With an empty article list the podcast cannot get
    through its content loop: the first content turn reads an article that
    does not exist.  So a run that is not served from the cache returns
    success only if the opening and the first response, the two comments it
    has sent to the speech API, alone reach 75% of the target length. *)
Theorem podcast_without_articles (fuel : nat) (hosts : option (list string))
    (target : option Q) (onProgress : option (GenerationProgress -> M unit)) (w : World)
    (res : GenerationResult) :
  let request := mkPodcastRequest [] hosts target in
  let r := Podcast.generatePodcast fuel request onProgress w in
  (forall cb p, onProgress = Some cb -> keeps traceGrows (cb p)) ->
  fs w !! Path.join (AUDIO_DIR w)
            (Podcast.generatePodcastId [] (default ["host1"; "host2"] hosts) +:+ ".mp3")
  = None ->
  r.1 = Returned (Some res) ->
  success res = true ->
  exists opening response,
    In (JsString.take maxChunkLength opening) (spokenTexts r.2)
    /\ In (JsString.take maxChunkLength response) (spokenTexts r.2)
    /\ below (0 + estimateAudioDuration opening + estimateAudioDuration response)
         (default 300%Q target) 0.75 = false.
Proof.
  cbv zeta. intros Hcb Hfresh. rewrite podcast_run. cbv zeta.
  cbn [articles selectedHosts podcast_targetLengthSeconds]. rewrite Hfresh.
  set (dir := Path.join (AUDIO_DIR w) (Podcast.generatePodcastId [] _)).
  set (final := Path.join (AUDIO_DIR w) (_ +:+ ".mp3")).
  assert (Htry : forall w1,
             let t := tryCatch
                        (Podcast.generate fuel [] (default ["host1"; "host2"] hosts)
                           (default 300%Q target) onProgress
                           (Podcast.generatePodcastId []
                              (default ["host1"; "host2"] hosts))
                           dir final)
                        (fun msg => cleanupOnError dir ;;; ret (Some (failedResult msg)))
                        w1 in
             t.1 = Returned (Some res) ->
             success res = true ->
             exists opening response,
               In (JsString.take maxChunkLength opening) (spokenTexts t.2)
               /\ In (JsString.take maxChunkLength response) (spokenTexts t.2)
               /\ below (0 + estimateAudioDuration opening + estimateAudioDuration response)
                    (default 300%Q target) 0.75 = false).
  { intros w1. cbv zeta. intros Hret Hsucc.
    destruct (try_block_outcome
                (Podcast.generate fuel [] (default ["host1"; "host2"] hosts)
                   (default 300%Q target) onProgress
                   (Podcast.generatePodcastId [] (default ["host1"; "host2"] hosts))
                   dir final)
                dir (fun msg => Some (failedResult msg)) w1) as [_ Hcases].
    cbv zeta in Hcases. destruct (Hcases _ Hret) as [Hgen|(msg & _ & Heq & _)].
    2:{ injection Heq as ->. discriminate Hsucc. }
    clear Hcases Hret. set (wend := (tryCatch _ _ w1).2) in *. clearbody wend.
    unfold Podcast.generate in Hgen. cbv zeta in Hgen.
    do 8 (apply bind_Returned_inv in Hgen as (? & ? & ? & Hgen); cbv beta in Hgen).
    apply bind_Returned_inv in Hgen as (exit & wl & Hloop & Hrest).
    match goal with
    | Hc1 : generateHostComment _ _ = (Returned ?c1, _),
      Hs1 : synthesizeDialogueTurn ?c1 _ _ 0%nat _ = (Returned _, ?wb),
      Hp : callOpt onProgress ?pr ?wb = (Returned _, ?wb'),
      Hc2 : generateHostComment ?prm ?wb' = (Returned ?c2, ?wc),
      Hs2 : synthesizeDialogueTurn ?c2 ?k2 ?d2 1%nat ?wc = (Returned _, ?wd) |- _ =>
        exists c1, c2;
        pose proof (synthesizeDialogueTurn_spoken _ _ _ _ _ _ _ Hs1) as Hin1;
        pose proof (synthesizeDialogueTurn_spoken _ _ _ _ _ _ _ Hs2) as Hin2;
        assert (Hg1 : traceGrows wb wd)
          by (apply (traceGrows_trans _ wb');
              [ assert (Hk : keeps traceGrows (callOpt onProgress pr))
                  by (apply keeps_callOpt; grows);
                specialize (Hk wb); rewrite Hp in Hk; exact Hk
              | apply (traceGrows_trans _ wc);
                [ assert (Hk : keeps traceGrows (generateHostComment prm))
                    by (apply keeps_generateHostComment; grows);
                  specialize (Hk wb'); rewrite Hc2 in Hk; exact Hk
                | assert (Hk : keeps traceGrows (synthesizeDialogueTurn c2 k2 d2 1%nat))
                    by (apply keeps_synthesizeDialogueTurn; grows);
                  specialize (Hk wc); rewrite Hs2 in Hk; exact Hk ] ]);
        assert (Hg2 : traceGrows wd wend)
    end.
    { apply (traceGrows_trans _ wl).
      - match type of Hloop with
        | Podcast.contentLoop ?a ?t ?cb ?d ?sp ?f ?st ?w0 = _ =>
            assert (Hk : keeps traceGrows (Podcast.contentLoop a t cb d sp f st))
              by (apply keeps_contentLoop; grows);
            specialize (Hk w0); rewrite Hloop in Hk; exact Hk
        end.
      - destruct exit as [st|]; [|discriminate Hrest].
        apply bind_Returned_inv in Hrest as (r' & wf & Hfin & Hret).
        injection Hret as _ <-.
        match type of Hfin with
        | Podcast.finish ?cb ?k ?s1 ?s2 ?o ?i ?d ?f ?st0 ?w0 = _ =>
            assert (Hk : keeps traceGrows (Podcast.finish cb k s1 s2 o i d f st0))
              by (apply keeps_podcast_finish; grows);
            specialize (Hk w0); rewrite Hfin in Hk; exact Hk
        end. }
    split_and!.
    - eapply spokenTexts_grows; [|exact Hin1].
      eapply traceGrows_trans; [exact Hg1 | exact Hg2].
    - eapply spokenTexts_grows; [exact Hg2 | exact Hin2].
    - destruct fuel as [|f]; cbn [Podcast.contentLoop] in Hloop.
      + exfalso. injection Hloop as <- _. discriminate Hrest.
      + cbn [currentDuration] in Hloop.
        destruct (below _ _ _) eqn:E; [|reflexivity]. exfalso.
        apply bind_Returned_inv in Hloop as (st' & w' & Hturn & _).
        match type of Hturn with
        | Podcast.contentTurn _ ?cb ?d ?sp ?st ?w0 = _ =>
            destruct (podcast_turn_without_articles cb d sp st w0) as [msg Hmsg]
        end.
        rewrite Hturn in Hmsg. discriminate Hmsg. }
  destruct (fs w !! dir); [apply Htry|].
  destruct (Fs.mkdirSync dir w) as [[[]|m] w1]; [apply Htry | discriminate].
Qed.

Lemma podcast_without_articles_witness :
  let r := Podcast.generatePodcast 19 (mkPodcastRequest [] None (Some 1%Q)) None
             Samples.world in
  exists opening response,
    In (JsString.take maxChunkLength opening) (spokenTexts r.2)
    /\ In (JsString.take maxChunkLength response) (spokenTexts r.2)
    /\ below (0 + estimateAudioDuration opening + estimateAudioDuration response) 1 0.75
       = false.
Proof.
  cbv zeta.
  eapply (podcast_without_articles 19 None (Some 1%Q) None Samples.world).
  - intros cb p H. discriminate H.
  - vm_compute. reflexivity.
  - vm_compute. reflexivity.
  - reflexivity.
Defined.

(** ** A run without credential *)

Section NoCredential.

(** [P] holds of the worlds in which the progress callback returns. *)
Variable P : World -> Prop.
Hypothesis P_random : forall w n, P w -> P (with_randomCalls w n).
Hypothesis P_fs : forall w f, P w -> P (with_fs w f).

Variable onProgress : option (GenerationProgress -> M unit).
Hypothesis callback_returns :
  forall cb p w, onProgress = Some cb -> P w ->
    exists w', cb p w = (Returned tt, w') /\ P w' /\ env w' = env w
               /\ fs w' = fs w /\ trace w' = trace w.

Lemma callOpt_returns (p : GenerationProgress) (w : World) :
  P w ->
  exists w', callOpt onProgress p w = (Returned tt, w') /\ P w' /\ env w' = env w
             /\ fs w' = fs w /\ trace w' = trace w.
Proof.
  intros HP. unfold callOpt. destruct onProgress as [cb|] eqn:E.
  - apply (callback_returns cb p w eq_refl HP).
  - exists w. auto.
Qed.

Lemma report_generate_without_credential documents investigation selected target
    reportId outputDir finalOutputPath (w : World) :
  P w -> JsString.orElse (env w !! "XAI_API_KEY") None = None ->
  ~ In (nth 0 selected "undefined") Config.objectPrototypeKeys ->
  exists w', Report.generate documents investigation selected target onProgress reportId
               outputDir finalOutputPath w
             = (Thrown "XAI_API_KEY is not configured", w')
             /\ P w' /\ fs w' = fs w /\ trace w' = trace w.
Proof.
  intros HP Hkey Hown. unfold Report.generate. cbv zeta.
  destruct (callOpt_returns
              (mkProgress "preparing"
                 (Config.speakerName (Config.lookupOr (nth 0 selected "undefined") Config.reporter)
                  +:+ " and "
                  +:+ Config.speakerName
                        (Config.lookupOr (nth 1 selected "undefined") Config.privateEye)
                  +:+ " are beginning the investigation") None None) w HP)
    as (w1 & H1 & HP1 & He1 & Hf1 & Ht1).
  rewrite (bind_Returned _ _ _ _ _ H1).
  destruct (callOpt_returns
              (mkProgress "generating"
                 (Config.speakerName (Config.lookupOr (nth 0 selected "undefined") Config.reporter)
                  +:+ " is setting the stage") (Some 1%nat) None) w1 HP1)
    as (w2 & H2 & HP2 & He2 & Hf2 & Ht2).
  rewrite (bind_Returned _ _ _ _ _ H2).
  assert (Hspeaker : exists p, Config.lookupOr (nth 0 selected "undefined") Config.reporter
                               = Config.Own p).
  { unfold Config.lookupOr. destruct (Config.personalities !! _) as [p|]; [eauto|].
    destruct (existsb _ _) eqn:E; [|eauto].
    exfalso. apply Hown. apply existsb_exists in E as (x & Hx & Heq).
    apply String.eqb_eq in Heq. subst x. exact Hx. }
  destruct Hspeaker as [p ->]. cbn [Config.speakerLines pickLine].
  set (w3 := with_randomCalls w2 (S (randomCalls w2))).
  assert (Hpick : forall n, randomIndex n w2
                            = (Returned (match n with
                                         | O => O
                                         | _ => (random w2 (randomCalls w2) mod n)%nat
                                         end), w3)) by reflexivity.
  rewrite (bind_Returned _ _ _ _ _ (bind_Returned _ _ _ _ _ (Hpick _))).
  cbn [ret].
  assert (Henv : env w3 = env w) by (cbn; congruence).
  exists w3. split_and!.
  - apply bind_Thrown. unfold generateInvestigatorComment. apply bind_Thrown.
    rewrite generateText_run, Henv, Hkey. reflexivity.
  - apply P_random, HP2.
  - cbn. congruence.
  - cbn. congruence.
Qed.

(** The whole run: the result is the failure with the message of
    [generateText], and no request was made. *)
Lemma report_run_without_credential documents investigation selected target (w : World) :
  let name := default "Document Investigation" investigation in
  let names := default ["reporter"; "privateEye"] selected in
  let reportId := Report.generateReportId documents name in
  let dir := Path.join (AUDIO_DIR w) reportId in
  P w -> JsString.orElse (env w !! "XAI_API_KEY") None = None ->
  ~ In (nth 0 names "undefined") Config.objectPrototypeKeys ->
  fs w !! Path.join (AUDIO_DIR w) (reportId +:+ ".mp3") = None ->
  is_Some (fs w !! dir) \/ existsb (Fs.isFile (fs w)) (Fs.ancestors dir ++ [dir]) = false ->
  let r := Report.generateInvestigativeReport documents investigation selected target
             onProgress w in
  r.1 = Returned (failedResult "XAI_API_KEY is not configured")
  /\ trace r.2 = trace w /\ fs r.2 !! dir = None.
Proof.
  cbv zeta. intros HP Hkey Hown Hfresh Hdir. rewrite report_run. cbv zeta. rewrite Hfresh.
  set (name := default "Document Investigation" investigation) in *.
  set (names := default ["reporter"; "privateEye"] selected) in *.
  set (id := Report.generateReportId documents name) in *.
  set (dir := Path.join (AUDIO_DIR w) id) in *.
  assert (Htry : forall w1, P w1 -> env w1 = env w -> trace w1 = trace w ->
             let t := tryCatch
                        (Report.generate documents name names (default 300%Q target)
                           onProgress id dir (Path.join (AUDIO_DIR w) (id +:+ ".mp3")))
                        (fun msg => cleanupOnError dir ;;; ret (failedResult msg)) w1 in
             t.1 = Returned (failedResult "XAI_API_KEY is not configured")
             /\ trace t.2 = trace w /\ fs t.2 !! dir = None).
  { intros w1 HP1 He1 Ht1. cbv zeta.
    destruct (report_generate_without_credential documents name names
                (default 300%Q target) id dir (Path.join (AUDIO_DIR w) (id +:+ ".mp3"))
                w1 HP1 ltac:(rewrite He1; exact Hkey) Hown) as (w2 & Hgen & _ & _ & Ht2).
    destruct (catch_after_throw _ dir _ failedResult _ _ Hgen) as (Hr & Ht & Hgone).
    split_and!; [exact Hr | congruence | exact Hgone]. }
  destruct (fs w !! dir) as [node|] eqn:Edir; [apply Htry; auto|].
  destruct Hdir as [[node Hnode]|Hfiles]; [discriminate Hnode|].
  destruct (mkdirSync_cases dir w) as [[msg Hm]|Hm].
  - apply mkdirSync_Thrown in Hm as [_ Hm]. congruence.
  - rewrite Hm. apply Htry; auto.
Qed.

End NoCredential.

(** Along a stretch without any call an open, up-to-date stream receives
    progress events only. *)
Lemma quietly_refl (w : World) : streamGrowsQuietly w w.
Proof.
  split; [apply traceGrows_refl|]. intros Ho Hup _. split_and!; auto.
  exists []. rewrite app_nil_r. split; [reflexivity | constructor].
Qed.

Lemma quietly_trans (w1 w2 w3 : World) :
  streamGrowsQuietly w1 w2 -> streamGrowsQuietly w2 w3 -> streamGrowsQuietly w1 w3.
Proof.
  intros [Hg12 H12] [Hg23 H23]. split; [eapply traceGrows_trans; eauto|].
  intros Ho Hup Ht. destruct Hg12 as [m1 Hm1]. destruct Hg23 as [m2 Hm2].
  assert (Hnil : m1 ++ m2 = []).
  { apply (app_inv_head (trace w1)). rewrite app_nil_r, app_assoc, <- Hm1, <- Hm2. exact Ht. }
  apply app_eq_nil in Hnil as [-> ->]. rewrite app_nil_r in Hm1, Hm2.
  destruct (H12 Ho Hup Hm1) as (Ho2 & Hup2 & ev1 & Hq1 & Hf1).
  destruct (H23 Ho2 Hup2 Hm2) as (Ho3 & Hup3 & ev2 & Hq2 & Hf2).
  split_and!; auto. exists (ev1 ++ ev2). rewrite Hq2, Hq1, app_assoc.
  split; [reflexivity | apply Forall_app; auto].
Qed.

Lemma quietly_same (w w' : World) :
  trace w' = trace w -> sseClosed w' = sseClosed w -> sseQueue w' = sseQueue w ->
  keepAliveFrom w' = keepAliveFrom w -> streamGrowsQuietly w w'.
Proof.
  intros Ht Hc Hq Hk. split.
  - exists []. rewrite app_nil_r. exact Ht.
  - intros Ho Hup _. unfold upToDate in *. rewrite Hc, Hq, Hk, Ht. split_and!; auto.
    exists []. rewrite app_nil_r. split; [reflexivity | constructor].
Qed.

Lemma quietly_log (w : World) (e : Event) :
  streamGrowsQuietly w (with_trace w (trace w ++ [e])).
Proof.
  split; [apply traceGrows_log|]. intros _ _ H. cbn in H.
  apply (f_equal (@length Event)) in H. rewrite length_app in H. cbn in H. lia.
Qed.

Lemma sendEvent_trace (event : string) (data : list (string * Js.Value)) (w : World) :
  trace (ReportRoute.sendEvent event data w).2 = trace w.
Proof.
  destruct (deliverPings_spec w) as (_ & _ & Ht & _). cbv zeta in Ht.
  unfold ReportRoute.sendEvent, bind, get, throw, modify. cbn [fst snd].
  destruct (sseClosed (ReportRoute.deliverPings w)); cbn; exact Ht.
Qed.

Lemma progressEvent_quietly (progress : GenerationProgress) :
  keeps streamGrowsQuietly (ReportRoute.progressEvent progress).
Proof.
  intros w. unfold ReportRoute.progressEvent. split.
  - exists []. rewrite app_nil_r. apply sendEvent_trace.
  - intros Ho Hup _. rewrite (sendEvent_upToDate _ _ w Ho Hup). cbn [snd].
    split_and!; auto. eexists. split; [reflexivity|].
    constructor; [right; reflexivity | constructor].
Qed.

Lemma report_stream_grows_quietly documents investigation selected target (w : World) :
  streamGrowsQuietly w
    (Report.generateInvestigativeReport documents investigation selected target
       (Some ReportRoute.progressEvent) w).2.
Proof.
  apply (keeps_generateInvestigativeReport quietly_refl quietly_trans
           (fun w f => quietly_same w (with_fs w f) eq_refl eq_refl eq_refl eq_refl)
           (fun w req => quietly_log w _)
           (fun w req p => quietly_log w _)
           (fun w inputs out => quietly_log w _)
           (fun w n => quietly_same w (with_randomCalls w n) eq_refl eq_refl eq_refl eq_refl)
           (Some ReportRoute.progressEvent)).
  intros cb p H. injection H as <-. apply progressEvent_quietly.
Qed.

(** X21.  Without the credential of the text API, a request to the
    report route with valid documents runs into the first call of
    [generateText]: the stream receives progress events and then one error
    event whose message is the one [generateText] throws with; no request
    is sent to either API, the run directory is removed, and the stream is
    closed. *)
Theorem POST_without_credential (b : ReportRoute.BodyFields) (d : DocumentInput)
    (ds : list DocumentInput) (w : World) :
  let name := default "Document Investigation" (ReportRoute.body_investigation b) in
  let names := default ["reporter"; "privateEye"] (ReportRoute.body_selectedInvestigators b) in
  let reportId := Report.generateReportId (d :: ds) name in
  let dir := Path.join (AUDIO_DIR w) reportId in
  ReportRoute.body_documents b = ReportRoute.DocsArray (d :: ds) ->
  sseClosed w = false ->
  JsString.orElse (env w !! "XAI_API_KEY") None = None ->
  ~ In (nth 0 names "undefined") Config.objectPrototypeKeys ->
  fs w !! Path.join (AUDIO_DIR w) (reportId +:+ ".mp3") = None ->
  is_Some (fs w !! dir) \/ existsb (Fs.isFile (fs w)) (Fs.ancestors dir ++ [dir]) = false ->
  let r := ReportRoute.POST (ReportRoute.BodyValue b) w in
  trace r.2 = trace w /\ fs r.2 !! dir = None /\ sseClosed r.2 = true
  /\ exists events,
       sseQueue r.2
       = sseQueue w ++ events
         ++ [mkSse "error" [("message", Some (Js.JStr "XAI_API_KEY is not configured"))]]
       /\ Forall isProgressEvent events.
Proof.
  cbv zeta. intros Hdocs Hopen Hkey Hown Hfresh Hdir.
  set (w0 := with_keepAliveFrom w (Some (length (trace w)))).
  assert (Hpost : ReportRoute.POST (ReportRoute.BodyValue b) w
                  = tryFinally
                      (tryCatch (ReportRoute.handle (ReportRoute.BodyValue b))
                         (fun msg => ReportRoute.sendEvent "error"
                                       [("message", ReportRoute.jstr msg)]))
                      (ReportRoute.clearInterval ;;; ReportRoute.controllerClose) w0)
    by reflexivity.
  rewrite Hpost. clear Hpost.
  assert (Hopen0 : sseClosed w0 = false) by exact Hopen.
  assert (Hup0 : upToDate w0) by reflexivity.
  set (dir := Path.join (AUDIO_DIR w)
                (Report.generateReportId (d :: ds)
                   (default "Document Investigation" (ReportRoute.body_investigation b))))
    in *.
  assert (Hinner : exists w3 events,
             tryCatch (ReportRoute.handle (ReportRoute.BodyValue b))
               (fun msg => ReportRoute.sendEvent "error" [("message", ReportRoute.jstr msg)])
               w0 = (Returned tt, w3)
             /\ sseClosed w3 = false /\ upToDate w3
             /\ trace w3 = trace w /\ fs w3 !! dir = None
             /\ sseQueue w3
                = sseQueue w ++ events
                  ++ [mkSse "error"
                        [("message", Some (Js.JStr "XAI_API_KEY is not configured"))]]
             /\ Forall isProgressEvent events).
  { unfold tryCatch. cbn [ReportRoute.handle]. rewrite Hdocs.
    rewrite (bind_Returned _ _ _ _ _
               (sendEvent_upToDate "generatingReport"
                  [("message", ReportRoute.jstr "Starting investigative report generation")]
                  w0 Hopen0 Hup0)).
    set (w1 := with_sse w0 _ false).
    assert (Hopen1 : sseClosed w1 = false) by reflexivity.
    assert (Hup1 : upToDate w1) by reflexivity.
    pose proof (report_run_without_credential
                  (fun w => sseClosed w = false /\ upToDate w)
                  (fun w n H => H) (fun w f H => H) (Some ReportRoute.progressEvent))
      as Hrun.
    specialize (Hrun ltac:(
      intros cb p wa Hcb [Ho Hu]; injection Hcb as <-;
      unfold ReportRoute.progressEvent;
      rewrite (sendEvent_upToDate _ _ wa Ho Hu);
      eexists; split; [reflexivity|]; cbn; auto)).
    specialize (Hrun (d :: ds)
                  (Some (default "Document Investigation" (ReportRoute.body_investigation b)))
                  (Some (default ["reporter"; "privateEye"]
                           (ReportRoute.body_selectedInvestigators b)))
                  (Some (default 300%Q (ReportRoute.body_targetLengthSeconds b)))
                  w1 (conj Hopen1 Hup1) Hkey Hown Hfresh Hdir).
    cbv zeta in Hrun. destruct Hrun as (Hres & Htrace & Hgone).
    pose proof (report_stream_grows_quietly (d :: ds)
                  (Some (default "Document Investigation" (ReportRoute.body_investigation b)))
                  (Some (default ["reporter"; "privateEye"]
                           (ReportRoute.body_selectedInvestigators b)))
                  (Some (default 300%Q (ReportRoute.body_targetLengthSeconds b)))
                  w1) as [_ Hquiet].
    specialize (Hquiet Hopen1 Hup1 Htrace).
    destruct Hquiet as (Hopen2 & Hup2 & events & Hqueue & Hf).
    unfold bind.
    destruct (Report.generateInvestigativeReport _ _ _ _ _ w1) as [o w2].
    cbn [fst snd] in Hres, Htrace, Hgone, Hopen2, Hup2, Hqueue. subst o.
    cbn [success error failedResult JsString.orElse JsString.truthy default].
    rewrite (sendEvent_upToDate "error" _ w2 Hopen2 Hup2).
    eexists _, (_ :: events). split; [reflexivity|].
    cbn [sseClosed sseQueue with_sse trace fs]. split_and!; auto.
    - rewrite Hqueue. subst w1. cbn. rewrite <- !app_assoc. reflexivity.
    - constructor; [left; reflexivity | exact Hf]. }
  destruct Hinner as (w3 & events & Hinner & Hopen3 & Hup3 & Ht3 & Hgone & Hqueue & Hf).
  unfold tryFinally. rewrite Hinner.
  unfold ReportRoute.clearInterval, ReportRoute.controllerClose, bind, get, throw, modify.
  cbn [fst snd]. rewrite (deliverPings_upToDate w3 Hopen3 Hup3). cbn. rewrite Hopen3. cbn.
  split_and!; auto. exists events. auto.
Qed.

(** The timer of this host would fire during every call; no call is made,
    so no ping is sent. *)
Lemma POST_without_credential_witness :
  let w := mkWorld "/app" (<["ELEVENLABS_API_KEY" := "el-key"]> (∅ : gmap string string))
             (fs Samples.world) (chatApi Samples.world) (ttsApi Samples.world) false
             (ffmpeg Samples.world) (fun n => n) 0 [] [] false (fun _ => 1%nat) None in
  let r := ReportRoute.POST
             (ReportRoute.BodyValue
                (ReportRoute.mkBody (ReportRoute.DocsArray Samples.twoDocuments)
                   None None None)) w in
  trace r.2 = []
  /\ map sse_event (sseQueue r.2)
     = ["generatingReport"; "investigationUpdate"; "investigationUpdate"; "error"].
Proof.
  cbv zeta.
  edestruct (POST_without_credential
               (ReportRoute.mkBody (ReportRoute.DocsArray Samples.twoDocuments) None None None)
               (Samples.document "doc-1" ["Oswald"]) [Samples.document "doc-2" ["Oswald"]]
               (mkWorld "/app" (<["ELEVENLABS_API_KEY" := "el-key"]> (∅ : gmap string string))
                  (fs Samples.world) (chatApi Samples.world) (ttsApi Samples.world) false
                  (ffmpeg Samples.world) (fun n => n) 0 [] [] false (fun _ => 1%nat) None))
    as (Ht & _);
    [ reflexivity | reflexivity | vm_compute; reflexivity
    | vm_compute; intuition discriminate | vm_compute; reflexivity
    | right; vm_compute; reflexivity | ].
  split; [exact Ht | vm_compute; reflexivity].
Defined.
(** ** The identifiers, as described *)

Lemma firstNonEmpty_orElse (a b : option string) (otherwise : string) :
  Described.firstNonEmpty [a; b] otherwise
  = default otherwise (JsString.orElse a (JsString.orElse b None)).
Proof. destruct a as [[|c s]|], b as [[|c' s']|]; reflexivity. Qed.

Lemma join_head (sep a b : string) (rest : list string) :
  JsString.join sep ((a +:+ b) :: rest) = a +:+ JsString.join sep (b :: rest).
Proof.
  destruct rest as [|x rest]; cbn [JsString.join]; [reflexivity|].
  rewrite append_assoc. reflexivity.
Qed.

Lemma commaSeparated_join (parts : list string) :
  Described.commaSeparated parts = JsString.join "," parts.
Proof.
  destruct parts as [|first others]; [reflexivity|]. cbn [Described.commaSeparated].
  revert first. induction others as [|x rest IH]; intros first; [reflexivity|].
  cbn [fold_left]. rewrite IH, !join_head. reflexivity.
Qed.

Lemma take_firstn (n : nat) (s : string) :
  JsString.take n s = string_of_list_ascii (firstn n (list_ascii_of_string s)).
Proof.
  revert s. induction n as [|n IH]; intros [|c s]; cbn; try reflexivity.
  rewrite IH. reflexivity.
Qed.

Lemma described_identifiers (documents : list DocumentInput) (investigation : string)
    (arts : list Article) (hosts : list string) :
  Report.generateReportId documents investigation
  = Described.reportIdentifier documents investigation
  /\ Podcast.generatePodcastId arts hosts = Described.podcastIdentifier arts hosts.
Proof.
  unfold Report.generateReportId, Podcast.generatePodcastId, Described.reportIdentifier,
    Described.podcastIdentifier, Described.identifier, Report.reportKey, Podcast.podcastKey.
  rewrite !take_firstn, !commaSeparated_join.
  rewrite (map_ext (fun d => Described.firstNonEmpty [Some (documentId d); url d] "doc")
             (fun d => default "doc" (JsString.orElse (Some (documentId d))
                                        (JsString.orElse (url d) None))))
    by (intros d; apply firstNonEmpty_orElse).
  rewrite (map_ext (fun a => Described.firstNonEmpty [article_url a; article_title a]
                               (article_id a))
             (fun a => default (article_id a)
                         (JsString.orElse (article_url a)
                            (JsString.orElse (article_title a) None))))
    by (intros a; apply firstNonEmpty_orElse).
  split; reflexivity.
Qed.

(** The file of a successful run is named by the identifier. *)
Lemma report_success_file documents investigation selected target onProgress (w : World)
    (res : GenerationResult) :
  (Report.generateInvestigativeReport documents investigation selected target onProgress w).1
  = Returned res ->
  success res = true ->
  audioFile res
  = Some (Report.generateReportId documents
            (default "Document Investigation" investigation) +:+ ".mp3").
Proof.
  rewrite report_run. cbv zeta. intros H Hs.
  set (id := Report.generateReportId _ _) in *.
  set (dir := Path.join (AUDIO_DIR w) id) in *.
  assert (Htry : forall m w1,
             (tryCatch m (fun msg => cleanupOnError dir ;;; ret (failedResult msg)) w1).1
             = Returned res ->
             (forall w2 w3, m w2 = (Returned res, w3) -> audioFile res = Some (id +:+ ".mp3")) ->
             audioFile res = Some (id +:+ ".mp3")).
  { intros m w1 Hret Hm.
    destruct (try_block_outcome m dir failedResult w1) as [_ Hcases]. cbv zeta in Hcases.
    destruct (Hcases _ Hret) as [Hgen|(msg & _ & -> & _)]; [eapply Hm; exact Hgen|].
    discriminate Hs. }
  assert (Hgen : forall w2 w3,
             Report.generate documents (default "Document Investigation" investigation)
               (default ["reporter"; "privateEye"] selected) (default 300%Q target)
               onProgress id dir (Path.join (AUDIO_DIR w) (id +:+ ".mp3")) w2
             = (Returned res, w3) ->
             audioFile res = Some (id +:+ ".mp3")).
  { intros w2 w3 Hg. apply report_generate_success in Hg as [_ Hfile]. exact Hfile. }
  destruct (fs w !! Path.join (AUDIO_DIR w) (id +:+ ".mp3")).
  { injection H as <-. reflexivity. }
  destruct (fs w !! dir); [exact (Htry _ _ H Hgen)|].
  destruct (Fs.mkdirSync dir w) as [[[]|m] w1]; [exact (Htry _ _ H Hgen) | discriminate H].
Qed.

Lemma podcast_success_file fuel request onProgress (w : World) (res : GenerationResult) :
  (Podcast.generatePodcast fuel request onProgress w).1 = Returned (Some res) ->
  success res = true ->
  audioFile res
  = Some (Podcast.generatePodcastId (articles request)
            (default ["host1"; "host2"] (selectedHosts request)) +:+ ".mp3").
Proof.
  rewrite podcast_run. cbv zeta. intros H Hs.
  set (id := Podcast.generatePodcastId _ _) in *.
  set (dir := Path.join (AUDIO_DIR w) id) in *.
  assert (Htry : forall m w1,
             (tryCatch m (fun msg => cleanupOnError dir ;;; ret (Some (failedResult msg)))
                w1).1 = Returned (Some res) ->
             (forall w2 w3, m w2 = (Returned (Some res), w3) ->
                            audioFile res = Some (id +:+ ".mp3")) ->
             audioFile res = Some (id +:+ ".mp3")).
  { intros m w1 Hret Hm.
    destruct (try_block_outcome m dir (fun msg => Some (failedResult msg)) w1) as [_ Hcases].
    cbv zeta in Hcases.
    destruct (Hcases _ Hret) as [Hgen|(msg & _ & Heq & _)]; [eapply Hm; exact Hgen|].
    injection Heq as ->. discriminate Hs. }
  assert (Hgen : forall w2 w3,
             Podcast.generate fuel (articles request)
               (default ["host1"; "host2"] (selectedHosts request))
               (default 300%Q (podcast_targetLengthSeconds request)) onProgress id dir
               (Path.join (AUDIO_DIR w) (id +:+ ".mp3")) w2 = (Returned (Some res), w3) ->
             audioFile res = Some (id +:+ ".mp3")).
  { intros w2 w3 Hg. apply podcast_generate_success in Hg as [_ Hfile]. exact Hfile. }
  destruct (fs w !! Path.join (AUDIO_DIR w) (id +:+ ".mp3")).
  { injection H as <-. reflexivity. }
  destruct (fs w !! dir); [exact (Htry _ _ H Hgen)|].
  destruct (Fs.mkdirSync dir w) as [[[]|m] w1]; [exact (Htry _ _ H Hgen) | discriminate H].
Qed.



